(* ===== verification/_CoqProject ===== *)
-Q . S2P
Prelude.v
PyText.v
PyMonad.v
PyNum.v
PyFloat.v
Bfrt.v
Schema.v
Live.v
World.v
Ports.v
Counters.v
PortStats.v
Worker.v
PRE.v
NonSwitchMLForward.v
GetWorkerBitmap.v
SetDstAddr.v
Packets.v
Wire.v
RDMAReceiver.v
RDMASender.v
Registers.v
NextStep.v
Mirror.v
ARPandICMP.v
DropSimulator.v
DebugLog.v
ConvertLog.v
Pipeline.v
Recirculation.v
Aggregation.v
Aggregated.v
AggregationLive.v
FourPipes.v
Overtaking.v
Job.v
JobPorts.v
JobWorkers.v
CLI.v
Session.v
JobInit.v
JobLoad.v
JobSpec.v
GRPCServer.v
Lookup.v
Assembly.v
Receive.v
Egress.v
PacketLog.v
Traffic.v
Front.v
OnTheWire.v
LargeWire.v
System.v
Typing.v
Sim.v
Witnesses.v
WitnessJob.v
WitnessSwitch.v
WitnessWire.v
WitnessLarge.v
WitnessLog.v
