(* ===== verification/Prelude.v ===== *)
(** * A verification of SwitchML

    SwitchML aggregates the gradients of machine-learning workers inside a
    programmable switch. The repository holds the program of the switch (p4/),
    the controller that configures it (py/), a converter for the packet log
    (tools/), tests, and examples. This library models the controller and the
    converter completely, and of the switch program the path of a frame from
    the bits that come in to the headers that leave, through the aggregation or
    as ordinary traffic; it proves what configuring the switch through the
    controller does, and what the configured switch then does with whatever is
    sent to it.

    ** The program

    The main program (py/switchml.py) builds a [Job] (py/Job.py), which owns
    one object per block of the switch program and offers the operations on
    ports, MAC addresses and workers. Two clients call it: the command line
    (the [do_] methods of the same class) and the RPC server
    (py/GRPCServer.py), through which the workers themselves join a job. Every
    block keeps a little bookkeeping of its own and writes its tables through
    the vendor's driver, a gRPC client library called bfrt. The failures of
    that driver are Python exceptions, which some methods catch and others let
    through; an operation that fails half-way leaves the objects and the
    switch as far as it got.

    The switch runs p4/switchml.p4 on every packet. The tables that the
    controller wrote tell whose packet it is; the packet then passes the
    ingress pipeline, once for 256 bytes and again through the other pipes for
    1024, where registers remember who has contributed to a slot, count the
    contributions and add them up; the packet that completes a slot collects
    the sums on its way back through the pipes and is broadcast. The egress
    pipeline addresses each copy to its worker, again by the controller's
    tables. A worker that gets no result sends its packet again.

    ** The model

    A Python statement is a function of [PyMonad]: from the world to an outcome
    (a value or an exception) and the world afterwards. The world ([World])
    holds the objects' attributes, the switch as the driver shows it, the calls
    made to the driver and the lines printed and logged. Text is lists of
    characters ([PyText]); numbers are unbounded as in Python, and are masked
    where the source masks them; drop probabilities are ints or binary64 floats
    ([PyNum], [PyFloat]). A P4 control is a function on the packet's metadata
    and the cells of the registers it touches, with the widths of the source
    written out; a pass, a journey and a network of packets are built from
    these.

    An operation keeps its name: [Job.worker_add_roce] is the method
    [worker_add_roce] of the class [Job], [Pipe.CountWorkers] the control
    [CountWorkers]. A loop's body, or a literal that is built in place, is a
    definition of its own next to it.

    Foundations:
    - Prelude: notation, tactics and lemmas on lists, bits and fields.
    - PyText, PyMonad, PyNum, PyFloat: Python's texts, effects and numbers.
    - Bfrt, Live: the driver's calls, and what is known of them (below).
    - Schema: the tables, registers and counters that p4/ declares.
    - World: the attributes of all objects, and the logic of the proofs.

    The controller:
    - Ports, PortStats (the listing of Ports), PRE, NonSwitchMLForward,
      GetWorkerBitmap, SetDstAddr, RDMAReceiver, RDMASender, NextStep, Mirror,
      ARPandICMP, DropSimulator, DebugLog: the class of the same name under
      py/, one Module each (Module Forward for NonSwitchMLForward). Registers
      holds UpdateAndCheckWorkerBitmap, CountWorkers, ExponentMax,
      SignificandSum and SignificandStage; Counters the code for counters that
      the classes repeat; Worker the description of a worker.
    - Job: py/Job.py from [clear_registers] on, and the constructor; JobPorts,
      JobWorkers, JobInit and JobLoad hold its theorems. JobSpec: the abstract
      job, a list of members, and that the operations implement it.
    - CLI: the parsers and commands of py/Job.py, and the loop that runs them;
      Session holds their theorems.
    - GRPCServer: the handler of the RPC service and the messages of
      protos/SwitchML.proto; Assembly: the requests of a whole job.
    - System: py/switchml.py as a state machine (construction, then commands
      and requests in any order) and the client of py/GRPCClient.py. Typing:
      every driver call over the life of the process against [Schema].

    Packets and tools:
    - Packets: the header layouts, opcodes and dissection of py/Packets.py.
      Wire: the packets that py/Packets.py and pkt/pktgen.py build, bit by bit,
      py/capture.py, and the parser of the switch from UDP on.
    - ConvertLog: tools/convert_log.py, down to the calls of its library.

    The switch:
    - Pipeline (Module Pipe): the ingress controls of the aggregation and
      their composition [Ingress], one pass. Recirculation: a packet's journey
      through the pipes.
    - Aggregation, Aggregated, AggregationLive: a slot under every history of
      lost, repeated and interleaved packets of 256 bytes, as a step relation.
      FourPipes: the same for packets of 1024 bytes, which pass all four pipes,
      one journey at a time. Overtaking: passes that interleave.
    - Traffic: what is not the aggregation's: answers to ARP and ping,
      forwarding, flooding and the simulators of loss.
    - Lookup: which entries a packet hits. Receive: the register and the actions
      of the RoCE receiver. Egress: the copies of an answer and the headers they
      leave with.
    - Front: a frame from its first bit to the aggregation: the parser, which
      takes a frame at a recirculation port (64, 68 and the ports of the other
      pipes but 320) for one with a bridged header and any other from Ethernet
      on; the deparser, both receivers with their counters, and the choice
      between the aggregation and ordinary traffic. OnTheWire: the network of
      Aggregation with frames from anyone instead of contributions; LargeWire:
      that of FourPipes.
    - PacketLog: what the pipelines log, its way through the registers, the
      controller and the converter.

    Sim is a small executable driver that satisfies everything assumed of the
    real one; Witnesses, WitnessJob, WitnessSwitch, WitnessWire, WitnessLarge and
    WitnessLog apply the theorems with hypotheses to concrete controllers and packets.

    ** What is assumed

    Code outside the repository is a parameter, as a type class whose laws are
    the behaviour the program relies on:
    - [Bfrt]: a state and a response for each call. [BfrtSafe]: which table a
      call may change, what an addition, deletion or clearing that succeeded
      has changed, and that one that failed added or removed nothing else; the
      fixed map of front-panel to device ports. [BfrtLive]: when calls succeed
      (the call fits the declarations of the switch program and the key is new
      and the table has room; the key exists; and so on), and that a call with
      fields the program does not declare fails and changes nothing. The typing
      of the calls and the reachable states of the job ([ports_inv_reachable])
      need only [BfrtSafe], or not even that: they hold whatever calls fail. The
      invariants of the process and of the command line ([system_safe],
      [session_safe]) take [BfrtLive] too, because deleting all ports must
      not fail half-way.
    - [DictOrder]: Python's dicts are enumerated in some order, each item once.
    - [MathLog]: [math.log(x, 2)] is exact on powers of two and no integer on
      other numbers that occur.
    - [IpAddress], [Protobuf]: the reader of IPv4 addresses, and the range check
      of an unsigned field. [PacketLibrary]: how scapy lays out a field.
    - [PacketReplication], [IdentityHash]: the replication engine and the
      identity hash of the switch.
    The witnesses instantiate all of them, so the laws are consistent.

    ** What is proved

    A functional theorem on the controller is stated with [ends m w r Q]: run
    from [w], the method ends, with the outcome [r], in a world that satisfies
    [Q]; [looks w0 V G] then says what the attributes, the tables and the
    multicast groups are, all of them, so a theorem also says what did not
    change.

    - Aggregation (Aggregated, AggregationLive, FourPipes, Recirculation):
      whatever is lost, repeated or interleaved, a broadcast result is the sum
      of what all workers contributed, each once; the job never gets stuck;
      every journey ends. For packets of 1024 bytes this is for journeys that
      follow each other. The result sent again to one worker can be wrong, and
      when. When packets of 1024 bytes overtake each other between the pipes
      the sums of a broadcast stay right, but its first exponent can be wrong,
      it can get lost in the switch, and a worker that asks again can be sent a
      result that is not complete (Overtaking).
    - From the controller to the wire (JobSpec, Lookup, Receive, Assembly,
      Egress): the job's operations implement the abstract job; the packets of
      its members, and no others, enter the aggregator as its contributions;
      a broadcast result reaches every member once, with its addresses, on its
      queue pair, with its memory key and the right opcode and lengths; the
      whole assembly over RPC, from a fresh switch to the last answer. What
      a job may consist of is spelled out ([joinable], [assembly],
      [deployment]): above all RoCE members, no rank equal to a device port,
      rank 0 first, and no simulated loss while a job is cleared. The answers
      are numbered by the passes that send a packet on to its harvest.
      Traffic that is not the job's is answered, forwarded, and flooded to the
      ports that have been added (Traffic).
    - From frame to frame (Front, OnTheWire, LargeWire): at the ports of the
      first pipe but 64 and 68, and at 320, exactly the write packets of the job's RoCE members
      are let in, whatever else is sent; the parser loses no bit; the counters of
      a queue pair count what happened to its messages; and with any frames from
      anyone there, every result that leaves is the sum over all members and is
      delivered to them, as long as the members themselves keep to the protocol.
      The other ports lead to pipes that loop back: the parser believes what
      comes in there, so it is assumed to be nothing that goes on as a packet of
      the slot.
    - The log (DebugLog, ConvertLog, PacketLog): what the spreadsheet shows is
      what the pipelines did, in that order while the log is not full; what an
      entry holds of a pass is what the pass worked with: its last part can be
      done again from it, given what the log leaves out (the data, the
      exponents, the registers, and some of the metadata).
    - Workers (JobWorkers, JobLoad, GRPCServer): adding a RoCE worker sets up
      its whole path; clearing removes all workers that are on record;
      [RDMAConnect] of rank 0 starts a new job, with simulated loss off; the
      refusals, and the failures that leave part of a worker behind. A UDP worker
      can never be added: the controller's entry has key fields that the switch program
      does not declare, and the driver refuses it; so a job file loads no job.
    - Numbers (GetWorkerBitmap, RDMAReceiver, RDMASender, GRPCServer, Receive,
      Egress): bitmaps are complete exactly when every worker contributed;
      queue pair numbers select their worker; the ternary entries of the queue
      pairs partition the slots; sequence numbers across their wrap-around;
      addresses survive their rendering.
    - Life (System, Typing, JobPorts, Session): the list of active ports stays
      consistent in every reachable state; every driver call fits the switch
      program, but for two that are named; no input ends the command loop.
    - Construction (JobInit): the state the constructor establishes, and that
      it fails on a switch another controller left configured.
    - Ports and groups (Ports, PRE, JobPorts): the two port maps are inverse;
      what adding, removing and clearing ports does; where the bookkeeping of
      the multicast groups loses a member.
    - Texts and words (Session, DebugLog, ConvertLog, Packets, Wire): commands
      call the job with what their text says; words and log entries are in
      bijection, the converter reads them as the controller does, restores
      their order and loses nothing in its sheet; which test packets the
      switch can read.

    ** Bounds

    All recursion is structural but for the digits of a number
    ([PyText.digits_rev]), whose fuel is the number's bit length, which bounds
    its digits in any base ([PyText.to_from_digits] shows that it suffices),
    and the journey of a packet ([Recirculation.travel]), for which ten
    recirculations suffice and are needed. The loops of the source run over
    finite lists; the command loop over the list of the lines typed.

    ** Decisions

    Commands and requests interleave as wholes: each runs alone. YAML files
    enter as their parsed contents. An [out] argument that a P4 control does
    not assign keeps the header word it is copied back to, as the program
    relies on. In a table without a hit nothing is done where the program
    gives no default action. A frame that is too short for the headers it says
    it has is dropped. [execute_log] takes the cells of its register one after
    the other, from wherever it was, and begins again at the end.

    ** What is not modelled

    Of the switch program: mirroring, the counters of the tables and of dropped
    packets, and the checksums; addresses in the packets of Traffic are texts,
    spelled as in the tables. Resubmitted packets, which the program does not
    use, and the constants of configuration.p4, which the controller gets from
    the driver, are left out. Of the Python code: the
    thread pool of [Job.run] and the library calls that wait, listen, sniff or
    send. With packets of 1024 bytes, repeated packets are modelled in journeys
    that follow each other, and interleaved passes without repeated packets; of
    the two together there is one run ([Overtaking.incomplete_result_sent]).
    The tests (test/) run the switch program on a simulator and are not
    modelled, nor is the C++ example client. *)
#[export] Set Warnings "-clear-no-such-hyp".
From stdpp Require Export prelude gmap strings list numbers sorting.
From Stdlib Require Export ZArith Lia.

#[global] Open Scope Z_scope.
#[global] Set Default Goal Selector "!".

(** ** Python's integer operators *)

Declare Scope py_scope.
Delimit Scope py_scope with py.

(** Python's [&], [|], [<<], [>>] and [~] on (unbounded) integers. *)
Infix ".&" := Z.land (at level 42, left associativity) : py_scope.
Infix ".|" := Z.lor (at level 46, left associativity) : py_scope.
Infix ".<<" := Z.shiftl (at level 38, left associativity) : py_scope.
Infix ".>>" := Z.shiftr (at level 38, left associativity) : py_scope.
Notation ".~ x" := (Z.lnot x) (at level 35, right associativity) : py_scope.
#[global] Open Scope py_scope.

(** [range(a, b)] and [range(a, b, step)] for a positive step. *)
Definition range (a b : Z) : list Z := seqZ a (b - a).
Definition range_step (a b step : Z) : list Z :=
  (λ i, a + step * i) <$> seqZ 0 ((b - a + step - 1) / step).

(** [enumerate(l)]. *)
Definition enumerate {A} (l : list A) : list (Z * A) :=
  zip (seqZ 0 (Z.of_nat (length l))) l.

(** ** Hint databases

    [pybits] rewrites a test of a bit of a compound expression into tests of
    its parts; [pylists] rewrites membership in the list functions above. *)
Create HintDb pybits.
Create HintDb pylists.

(** ** Lists *)

Lemma elem_of_range (a b i : Z) : i ∈ range a b ↔ a ≤ i < b.
Proof. unfold range. rewrite elem_of_seqZ. lia. Qed.

Lemma length_range (a b : Z) : a ≤ b → Z.of_nat (length (range a b)) = b - a.
Proof. intros. unfold range. rewrite length_seqZ. lia. Qed.

Lemma NoDup_range (a b : Z) : NoDup (range a b).
Proof. apply NoDup_seqZ. Qed.

Lemma elem_of_range_step (a b step i : Z) :
  0 < step →
  i ∈ range_step a b step ↔ a ≤ i < b ∧ (i - a) mod step = 0.
Proof.
  intros Hs. unfold range_step. rewrite list_elem_of_fmap. split.
  - intros (j & -> & Hj%elem_of_seqZ).
    replace (a + step * j - a) with (j * step) by lia.
    rewrite Z.mod_mul by lia. split; [|done].
    pose proof (Z.mul_div_le (b - a + step - 1) step Hs). nia.
  - intros [Hi Hm]. exists ((i - a) / step).
    pose proof (Z.div_mod (i - a) step ltac:(lia)) as Hd. rewrite Hm in Hd.
    split; [lia|]. apply elem_of_seqZ. split; [apply Z.div_pos; lia|].
    cut ((i - a) / step + 1 ≤ (b - a + step - 1) / step); [lia|].
    apply Z.div_le_lower_bound; lia.
Qed.

Lemma NoDup_snoc {A} (l : list A) (x : A) : NoDup l → x ∉ l → NoDup (l ++ [x]).
Proof.
  intros Hl Hx. apply NoDup_app. split; [done|]. split; [|apply NoDup_singleton].
  intros y Hy ->%list_elem_of_singleton. done.
Qed.

Lemma enumerate_lookup {A} (l : list A) (n : nat) :
  enumerate l !! n = (λ x, (Z.of_nat n, x)) <$> l !! n.
Proof.
  unfold enumerate. rewrite lookup_zip_with.
  destruct (l !! n) as [x|] eqn:Hx; simpl.
  - apply lookup_lt_Some in Hx as Hlt.
    rewrite lookup_seqZ_lt by lia. done.
  - destruct (seqZ 0 _ !! n); done.
Qed.

Lemma length_enumerate {A} (l : list A) : length (enumerate l) = length l.
Proof. unfold enumerate. rewrite length_zip_with, length_seqZ. lia. Qed.

Lemma elem_of_zip_replicate {A B} (k : A) (ks : list A) (x : B) n :
  length ks = n → k ∈ ks → (k, x) ∈ zip ks (replicate n x).
Proof.
  intros <-. induction ks as [|k' ks IH]; simpl; [by intros ?%not_elem_of_nil|].
  intros [->|Hk]%elem_of_cons; [by left|]. right. by apply IH.
Qed.

(** Removing a value from a list, and several. *)
Lemma filter_ne_again (r : Z) (l : list Z) : filter (.≠ r) (filter (.≠ r) l) = filter (.≠ r) l.
Proof. rewrite list_filter_filter. apply list_filter_iff. tauto. Qed.

Lemma filter_ne_absent (r : Z) (l : list Z) : r ∉ l → filter (.≠ r) l = l.
Proof.
  intros Hr. induction l as [|x l IH]; [done|].
  rewrite filter_cons_True by set_solver. f_equal. apply IH. set_solver.
Qed.

Lemma filter_not_in_cons (r : Z) (rs l : list Z) :
  filter (.∉ rs) (filter (.≠ r) l) = filter (.∉ r :: rs) l.
Proof. rewrite list_filter_filter. apply list_filter_iff. set_solver. Qed.

Lemma filter_not_in_nil (l : list Z) : filter (.∉ []) l = l.
Proof.
  induction l as [|x l IH]; [done|]. rewrite filter_cons_True by set_solver. by f_equal.
Qed.

Lemma forallb_fmap {A B} (f : A → B) (p : B → bool) (l : list A) :
  (∀ x, p (f x) = true) → forallb p (f <$> l) = true.
Proof. intros H. induction l as [|x l IH]; simpl; [done|]. by rewrite H. Qed.
Lemma forallb_replicate {A} (p : A → bool) n (x : A) :
  p x = true → forallb p (replicate n x) = true.
Proof. intros H. induction n as [|n IH]; simpl; [done|]. by rewrite H. Qed.

(** ** Bits of integers *)

(** Bit-level extensionality, restricted to the indices that exist. *)
Lemma Z_bits_ext (x y : Z) :
  (∀ n, 0 ≤ n → Z.testbit x n = Z.testbit y n) → x = y.
Proof. apply Z.bits_inj'. Qed.

Lemma testbit_ones (k n : Z) :
  0 ≤ k → 0 ≤ n → Z.testbit (2 ^ k - 1) n = bool_decide (n < k).
Proof.
  intros Hk Hn. replace (2 ^ k - 1) with (Z.ones k) by (rewrite Z.ones_equiv; lia).
  rewrite Z.testbit_ones_nonneg by lia.
  case_bool_decide; [by apply Z.ltb_lt | by apply Z.ltb_ge; lia].
Qed.

Lemma testbit_above (x w n : Z) :
  0 ≤ x < 2 ^ w → w ≤ n → Z.testbit x n = false.
Proof.
  intros Hx Hn. destruct (decide (0 ≤ w)) as [Hw|Hw].
  - destruct (decide (x = 0)) as [->|Hx0]; [apply Z.testbit_0_l|].
    apply Z.bits_above_log2; [lia|].
    apply Z.log2_lt_pow2; [lia|].
    assert (2 ^ w ≤ 2 ^ n) by (apply Z.pow_le_mono_r; lia). lia.
  - rewrite Z.pow_neg_r in Hx by lia. lia.
Qed.

Lemma testbit_shiftl (x k n : Z) :
  0 ≤ n → Z.testbit (Z.shiftl x k) n = Z.testbit x (n - k).
Proof. intros. by rewrite Z.shiftl_spec. Qed.

Lemma testbit_shiftr (x k n : Z) :
  0 ≤ n → Z.testbit (Z.shiftr x k) n = Z.testbit x (n + k).
Proof. intros. by rewrite Z.shiftr_spec. Qed.

Lemma testbit_lnot (x n : Z) : 0 ≤ n → Z.testbit (Z.lnot x) n = negb (Z.testbit x n).
Proof. apply Z.lnot_spec. Qed.

#[export] Hint Rewrite Z.land_spec Z.lor_spec : pybits.
#[export] Hint Rewrite testbit_shiftl testbit_shiftr testbit_lnot using lia : pybits.
#[export] Hint Rewrite elem_of_range : pylists.

(** A field of an integer, [(x >> s) & (2^w - 1)], as a quotient and a remainder. *)
Lemma field_div_mod (x s w : Z) :
  0 ≤ s → 0 ≤ w → (2 ^ w - 1) .& (x .>> s) = (x / 2 ^ s) mod 2 ^ w.
Proof.
  intros. replace (2 ^ w - 1) with (Z.ones w) by (rewrite Z.ones_equiv; lia).
  rewrite Z.land_comm, Z.land_ones, Z.shiftr_div_pow2 by lia. done.
Qed.

Lemma lor_add_disjoint (x y k : Z) :
  0 ≤ k → 0 ≤ y < 2 ^ k → (x .<< k) .| y = x * 2 ^ k + y.
Proof.
  intros Hk Hy.
  assert (Hd : (x .<< k) .& y = 0).
  { apply Z_bits_ext. intros n Hn. autorewrite with pybits.
    rewrite Z.testbit_0_l. destruct (decide (n < k)).
    - by rewrite Z.testbit_neg_r by lia.
    - rewrite (testbit_above y k n) by lia. apply andb_false_r. }
  rewrite <- Z.lxor_lor, <- Z.add_nocarry_lxor, Z.shiftl_mul_pow2 by done. done.
Qed.

(** ** Ternary matches

    A ternary key matches the values that agree with it on the mask. *)
Definition ternary_match (value mask x : Z) : bool := bool_decide (x .& mask = value .& mask).

(** A mask of [w] bits above bit [s] compares the quotients. *)
Lemma ternary_field (value x s w : Z) :
  0 ≤ s → 0 ≤ w → 0 ≤ x < 2 ^ (s + w) → 0 ≤ value < 2 ^ (s + w) →
  ternary_match value ((2 ^ w - 1) .<< s) x = bool_decide (x / 2 ^ s = value / 2 ^ s).
Proof.
  intros Hs Hw Hx Hv. unfold ternary_match. apply bool_decide_ext.
  assert (Hq : ∀ y, 0 ≤ y < 2 ^ (s + w) → y .& ((2 ^ w - 1) .<< s) = (y / 2 ^ s) .<< s).
  { intros y Hy. rewrite <- Z.shiftr_div_pow2 by done. apply Z_bits_ext. intros n Hn.
    rewrite Z.land_spec, !testbit_shiftl by done. destruct (decide (n < s)).
    - rewrite !(Z.testbit_neg_r _ (n - s)) by lia. apply andb_false_r.
    - rewrite testbit_ones, testbit_shiftr by lia.
      replace (n - s + s) with n by lia. case_bool_decide; [apply andb_true_r|].
      rewrite (testbit_above y (s + w) n) by lia. done. }
  rewrite !Hq by done. rewrite !Z.shiftl_mul_pow2 by done.
  assert (0 < 2 ^ s) by (apply Z.pow_pos_nonneg; lia). split; [nia|congruence].
Qed.

(** ** Bit fields

    A word made of fields, most significant first, each with its width. *)
Definition fields_bits (fs : list (Z * Z)) : Z := foldr (λ f n, f.2 + n) 0 fs.
Definition pack (fs : list (Z * Z)) : Z := foldl (λ acc f, (acc .<< f.2) .| f.1) 0 fs.
Definition fields_ok (fs : list (Z * Z)) : Prop := Forall (λ f, 0 ≤ f.2 ∧ 0 ≤ f.1 < 2 ^ f.2) fs.

Lemma fields_bits_nonneg fs : fields_ok fs → 0 ≤ fields_bits fs.
Proof. induction 1 as [|[v w] fs [Hw _] _ IH]; unfold fields_bits in *; simpl in *; lia. Qed.

Lemma pack_from acc fs :
  fields_ok fs →
  foldl (λ acc f, (acc .<< f.2) .| f.1) acc fs = acc * 2 ^ fields_bits fs + pack fs ∧
  0 ≤ pack fs < 2 ^ fields_bits fs.
Proof.
  intros Hok. revert acc. induction Hok as [|[v w] fs [Hw Hv] Hok IH]; intros acc.
  - unfold pack. simpl. lia.
  - cbn [foldl fst snd]. unfold pack. cbn [foldl fst snd].
    destruct (IH ((acc .<< w) .| v)) as [-> Hp]. destruct (IH ((0 .<< w) .| v)) as [-> _].
    simpl in Hw, Hv. rewrite !lor_add_disjoint by lia. cbn [fields_bits foldr snd].
    fold (fields_bits fs). apply fields_bits_nonneg in Hok.
    rewrite Z.pow_add_r by lia. split; [lia|].
    assert (0 < 2 ^ fields_bits fs) by (apply Z.pow_pos_nonneg; lia). nia.
Qed.

Lemma pack_app pre post :
  fields_ok post → pack (pre ++ post) = pack pre * 2 ^ fields_bits post + pack post.
Proof.
  intros Hok. unfold pack at 1. rewrite foldl_app. by destruct (pack_from (pack pre) post Hok).
Qed.

(** Shifting and masking recovers a field. *)
Lemma pack_field pre v w post :
  fields_ok (pre ++ (v, w) :: post) →
  (2 ^ w - 1) .& (pack (pre ++ (v, w) :: post) .>> fields_bits post) = v.
Proof.
  intros [_ [[Hw Hv] Hpost]%Forall_cons]%Forall_app. simpl in Hw, Hv.
  pose proof (fields_bits_nonneg post Hpost) as Hb.
  rewrite field_div_mod by done.
  replace (pre ++ (v, w) :: post) with ((pre ++ [(v, w)]) ++ post) by by rewrite <- app_assoc.
  rewrite pack_app by done.
  destruct (pack_from 0 post Hpost) as [_ Hp].
  rewrite Z.div_add_l, Z.div_small, Z.add_0_r by lia.
  rewrite pack_app by (repeat constructor; simpl; lia).
  assert (H1 : fields_bits [(v, w)] = w) by (simpl; lia).
  assert (H2 : pack [(v, w)] = v).
  { unfold pack. cbn [foldl fst snd]. rewrite Z.shiftl_0_l. apply Z.lor_0_l. }
  rewrite H1, H2, Z.add_comm, Z.mod_add, Z.mod_small by lia. done.
Qed.

(** The fields of a word, and the word again. *)
Fixpoint unpack (ws : list Z) (x : Z) : list (Z * Z) :=
  match ws with
  | [] => []
  | w :: ws' => ((2 ^ w - 1) .& (x .>> foldr Z.add 0 ws'), w) :: unpack ws' x
  end.

Lemma unpack_ok ws x :
  Forall (λ w, 0 ≤ w) ws → fields_ok (unpack ws x) ∧ fields_bits (unpack ws x) = foldr Z.add 0 ws
    ∧ 0 ≤ foldr Z.add 0 ws.
Proof.
  induction 1 as [|w ws Hw _ (IH1 & IH2 & IH3)]; simpl; [by repeat constructor|].
  split_and!; [|by f_equal|lia]. constructor; [|done]. simpl. split; [done|].
  rewrite field_div_mod by lia. apply Z.mod_pos_bound, Z.pow_pos_nonneg; lia.
Qed.

Lemma pack_unpack ws x :
  Forall (λ w, 0 ≤ w) ws → pack (unpack ws x) = x mod 2 ^ foldr Z.add 0 ws.
Proof.
  induction 1 as [|w ws Hw Hws IH]; [simpl; by rewrite Z.mod_1_r|].
  destruct (unpack_ok ws x Hws) as (Hok & Hb & Hn).
  cbn [unpack foldr].
  change (?v :: unpack ws x) with ([v] ++ unpack ws x).
  rewrite pack_app, Hb, IH by done. unfold pack. cbn [foldl fst snd].
  rewrite Z.shiftl_0_l, Z.lor_0_l, field_div_mod by done.
  rewrite (Z.add_comm w), Z.pow_add_r by done.
  rewrite Z.rem_mul_r; [lia| |]; [apply Z.pow_nonzero; lia|apply Z.pow_pos_nonneg; lia].
Qed.
