(* ===== verification/PyText.v ===== *)
(** * Python text

    The formatting and parsing the control plane uses: integers in a base, MAC
    and IPv4 addresses. Text is handled as lists of characters and packed into
    strings at the interface. *)
From S2P Require Import Prelude.
From Stdlib Require Import Ascii.

(** ** Digits *)

Fixpoint digits_rev (fuel : nat) (base z : Z) : list Z :=
  match fuel with
  | O => []
  | S f => if bool_decide (z ≤ 0) then [] else (z mod base) :: digits_rev f base (z / base)
  end.
(** The digits of [z], most significant first; none for zero. A number has at
    most as many digits as bits, which bounds the recursion. *)
Definition to_digits (base z : Z) : list Z :=
  reverse (digits_rev (Z.to_nat (Z.log2 z + 1)) base z).
Definition from_digits (base : Z) (ds : list Z) : Z := foldl (λ acc d, acc * base + d) 0 ds.

Definition digit_char (d : Z) : ascii :=
  Ascii.ascii_of_N (Z.to_N (if bool_decide (d < 10) then 48 + d else 87 + d)).
Definition char_digit (c : ascii) : option Z :=
  let n := Z.of_N (Ascii.N_of_ascii c) in
  if bool_decide (48 ≤ n ≤ 57) then Some (n - 48)
  else if bool_decide (97 ≤ n ≤ 122) then Some (n - 87)
  else if bool_decide (65 ≤ n ≤ 90) then Some (n - 55)
  else None.

Fixpoint parse_digits (base acc : Z) (cs : list ascii) : option Z :=
  match cs with
  | [] => Some acc
  | c :: cs' =>
      match char_digit c with
      | Some d => if bool_decide (d < base) then parse_digits base (acc * base + d) cs' else None
      | None => None
      end
  end.
(** At least one digit, and only digits. *)
Definition parse_number (base : Z) (cs : list ascii) : option Z :=
  match cs with [] => None | _ => parse_digits base 0 cs end.

(** [str(z)] and ["{:0Nx}".format(z)] of a non-negative integer. *)
Definition dec (z : Z) : list ascii :=
  if bool_decide (z = 0) then ["0"%char] else digit_char <$> to_digits 10 z.
Definition hex_pad (n : nat) (z : Z) : list ascii :=
  let ds := to_digits 16 z in digit_char <$> (replicate (n - length ds) 0 ++ ds).

Lemma foldl_of_reverse {A B} (f : A → B → A) (a : A) (l : list B) :
  foldl f a (reverse l) = foldr (λ d acc, f acc d) a l.
Proof. induction l as [|x l IH]; simpl; [done|]. by rewrite reverse_cons, foldl_app, IH. Qed.

Lemma digits_rev_value fuel base z :
  2 ≤ base → 0 ≤ z < base ^ Z.of_nat fuel →
  foldr (λ d acc, acc * base + d) 0 (digits_rev fuel base z) = z.
Proof.
  intros Hb. revert z. induction fuel as [|fuel IH]; intros z Hz; simpl.
  - change (base ^ Z.of_nat 0) with 1 in Hz. lia.
  - case_bool_decide; simpl; [lia|]. rewrite IH.
    + pose proof (Z.div_mod z base ltac:(lia)). lia.
    + rewrite Nat2Z.inj_succ, Z.pow_succ_r in Hz by lia.
      split; [apply Z.div_pos; lia|]. apply Z.div_lt_upper_bound; lia.
Qed.

Lemma to_from_digits base z : 2 ≤ base → 0 ≤ z → from_digits base (to_digits base z) = z.
Proof.
  intros Hb Hz. unfold from_digits, to_digits. rewrite foldl_of_reverse.
  apply digits_rev_value; [done|]. split; [done|].
  destruct (decide (z = 0)) as [->|Hnz]; [simpl; lia|].
  pose proof (Z.log2_spec z ltac:(lia)) as [_ Hlt]. pose proof (Z.log2_nonneg z).
  rewrite Z2Nat.id by lia. replace (Z.log2 z + 1) with (Z.succ (Z.log2 z)) by lia.
  eapply Z.lt_le_trans; [exact Hlt|]. apply Z.pow_le_mono_l; lia.
Qed.

Lemma to_digits_bounds base z d : 2 ≤ base → d ∈ to_digits base z → 0 ≤ d < base.
Proof.
  intros Hb. unfold to_digits. rewrite elem_of_reverse. generalize (Z.to_nat (Z.log2 z + 1)).
  intros fuel. revert z. induction fuel as [|fuel IH]; intros z; simpl; [set_solver|].
  case_bool_decide; [set_solver|]. intros [->|Hd]%elem_of_cons; [|by eapply IH].
  apply Z.mod_pos_bound. lia.
Qed.

Lemma length_digits_rev fuel base z (n : nat) :
  2 ≤ base → z < base ^ Z.of_nat n → (length (digits_rev fuel base z) ≤ n)%nat.
Proof.
  intros Hb. revert z n. induction fuel as [|fuel IH]; intros z n Hz; simpl; [lia|].
  case_bool_decide as Hp; simpl; [lia|]. destruct n as [|n]; [change (base ^ Z.of_nat 0) with 1 in Hz; lia|].
  apply le_n_S, IH. rewrite Nat2Z.inj_succ, Z.pow_succ_r in Hz by lia.
  apply Z.div_lt_upper_bound; lia.
Qed.

Lemma char_digit_char d : 0 ≤ d < 36 → char_digit (digit_char d) = Some d.
Proof.
  intros Hd. assert (Hall : Forall (λ d, char_digit (digit_char d) = Some d) (range 0 36)).
  { apply (bool_decide_unpack _). vm_compute. exact I. }
  rewrite Forall_forall in Hall. apply Hall. by apply elem_of_range.
Qed.

Lemma parse_digits_chars base acc ds :
  base ≤ 36 → (∀ d, d ∈ ds → 0 ≤ d < base) →
  parse_digits base acc (digit_char <$> ds) = Some (foldl (λ acc d, acc * base + d) acc ds).
Proof.
  intros Hb. revert acc. induction ds as [|d ds IH]; intros acc Hds; simpl; [done|].
  assert (Hd : 0 ≤ d < base) by (apply Hds; by left).
  rewrite char_digit_char by lia. rewrite bool_decide_eq_true_2 by lia.
  apply IH. intros; apply Hds; by right.
Qed.

Lemma foldl_zeros base n ds :
  foldl (λ acc d, acc * base + d) 0 (replicate n 0 ++ ds) = from_digits base ds.
Proof. unfold from_digits. induction n as [|n IH]; simpl; [done|]. exact IH. Qed.

(** A number printed in hexadecimal with leading zeros parses back. *)
Lemma parse_hex_pad n z : (0 < n)%nat → 0 ≤ z → parse_number 16 (hex_pad n z) = Some z.
Proof.
  intros Hn Hz. unfold parse_number, hex_pad.
  set (ds := replicate (n - length (to_digits 16 z)) 0 ++ to_digits 16 z).
  assert (Hds : parse_digits 16 0 (digit_char <$> ds) = Some z).
  { rewrite parse_digits_chars; [|done|].
    - unfold ds. by rewrite foldl_zeros, to_from_digits by done.
    - unfold ds. intros d [Hd|Hd]%elem_of_app.
      + apply elem_of_replicate in Hd as [-> _]. lia.
      + by eapply to_digits_bounds. }
  destruct (digit_char <$> ds) as [|c cs] eqn:E; [|exact Hds].
  exfalso. apply (f_equal length) in E. unfold ds in E.
  rewrite length_fmap, length_app, length_replicate in E. simpl in E. lia.
Qed.

(** A number printed in decimal parses back. *)
Lemma parse_dec z : 0 ≤ z → parse_number 10 (dec z) = Some z.
Proof.
  intros Hz. unfold dec. case_bool_decide as H0; [by subst|]. unfold parse_number.
  assert (Hds : parse_digits 10 0 (digit_char <$> to_digits 10 z) = Some z).
  { rewrite parse_digits_chars; [|done|].
    - f_equal. by apply to_from_digits.
    - intros d. by apply to_digits_bounds. }
  destruct (digit_char <$> to_digits 10 z) eqn:E; [|exact Hds].
  exfalso. apply fmap_nil_inv in E. pose proof (to_from_digits 10 z ltac:(lia) Hz) as Hf.
  rewrite E in Hf. simpl in Hf. done.
Qed.

Lemma length_hex_pad n z : 0 ≤ z < 16 ^ Z.of_nat n → length (hex_pad n z) = n.
Proof.
  intros Hz. unfold hex_pad. rewrite length_fmap, length_app, length_replicate.
  assert (length (to_digits 16 z) ≤ n)%nat; [|lia].
  unfold to_digits. rewrite length_reverse. apply length_digits_rev; lia.
Qed.

(** ** Separators *)

(** [sep.join(parts)] for a one-character separator, and [s.split(sep)]. *)
Fixpoint join (sep : ascii) (parts : list (list ascii)) : list ascii :=
  match parts with
  | [] => []
  | [p] => p
  | p :: rest => p ++ sep :: join sep rest
  end.
Fixpoint split (sep : ascii) (cs : list ascii) : list (list ascii) :=
  match cs with
  | [] => [[]]
  | c :: cs' =>
      if decide (c = sep) then [] :: split sep cs'
      else match split sep cs' with
           | p :: rest => (c :: p) :: rest
           | [] => [[c]]
           end
  end.

(** [s[i:i+2] for i in range(0, len(s), 2)] *)
Fixpoint pairs (cs : list ascii) : list (list ascii) :=
  match cs with
  | [] => []
  | [a] => [[a]]
  | a :: b :: cs' => [a; b] :: pairs cs'
  end.

(** [s.replace(sep, '')] *)
Definition without (sep : ascii) (cs : list ascii) : list ascii := filter (.≠ sep) cs.

Lemma split_nonempty sep cs : split sep cs ≠ [].
Proof.
  destruct cs as [|c cs]; simpl; [done|]. case_decide; [done|]. by destruct (split sep cs).
Qed.

Lemma split_app sep p cs :
  sep ∉ p → split sep (p ++ sep :: cs) = p :: split sep cs.
Proof.
  induction p as [|c p IH]; simpl; intros Hp.
  - by rewrite decide_True.
  - rewrite decide_False by set_solver. by rewrite IH by set_solver.
Qed.

Lemma split_single sep p : sep ∉ p → split sep p = [p].
Proof.
  induction p as [|c p IH]; simpl; intros Hp; [done|].
  rewrite decide_False by set_solver. by rewrite IH by set_solver.
Qed.

(** Splitting undoes joining when no part holds the separator. *)
Lemma split_join sep parts :
  parts ≠ [] → (∀ p, p ∈ parts → sep ∉ p) → split sep (join sep parts) = parts.
Proof.
  induction parts as [|p parts IH]; [done|]. intros _ Hp. simpl.
  destruct parts as [|q parts].
  - apply split_single, Hp. by left.
  - rewrite split_app by (apply Hp; by left). f_equal. apply IH; [done|].
    intros; apply Hp. by right.
Qed.

Lemma without_app sep a b : without sep (a ++ b) = without sep a ++ without sep b.
Proof. apply filter_app. Qed.

Lemma without_id sep cs : sep ∉ cs → without sep cs = cs.
Proof.
  induction cs as [|c cs IH]; intros Hc; [done|]. unfold without in *.
  rewrite filter_cons_True by set_solver. f_equal. apply IH. set_solver.
Qed.

Lemma without_join sep parts :
  (∀ p, p ∈ parts → sep ∉ p) → without sep (join sep parts) = concat parts.
Proof.
  induction parts as [|p parts IH]; intros Hp; [done|]. simpl.
  assert (Hpp : without sep p = p) by (apply without_id, Hp; by left).
  destruct parts as [|q parts].
  - simpl. by rewrite app_nil_r.
  - rewrite without_app, Hpp. f_equal. unfold without at 1.
    rewrite filter_cons_False by naive_solver. apply IH. intros; apply Hp. by right.
Qed.

Lemma concat_pairs cs : concat (pairs cs) = cs.
Proof.
  cut (∀ n cs, (length cs ≤ n)%nat → concat (pairs cs) = cs); [eauto|].
  clear cs. induction n as [|n IH]; intros [|a [|b cs]] Hn; simpl in *; try done; try lia.
  do 2 f_equal. apply IH. lia.
Qed.

Lemma pairs_elem cs p c : p ∈ pairs cs → c ∈ p → c ∈ cs.
Proof.
  cut (∀ n cs, (length cs ≤ n)%nat → p ∈ pairs cs → c ∈ p → c ∈ cs); [eauto|].
  clear cs. induction n as [|n IH]; intros [|a [|b cs]] Hn Hp Hc; simpl in *; try lia.
  - by apply not_elem_of_nil in Hp.
  - by apply not_elem_of_nil in Hp.
  - by apply list_elem_of_singleton in Hp as ->.
  - apply elem_of_cons in Hp as [->|Hp].
    + apply elem_of_cons in Hc as [->|Hc]; [by left|]. right.
      apply list_elem_of_singleton in Hc as ->. by left.
    + do 2 right. apply IH; [lia|done..].
Qed.

(** The characters of printed numbers are letters and digits. *)
Lemma digit_char_not_sep d sep :
  0 ≤ d < 36 → char_digit sep = None → digit_char d ≠ sep.
Proof. intros Hd Hs Heq. pose proof (char_digit_char d Hd) as H. rewrite Heq in H. congruence. Qed.

Lemma hex_pad_no_sep n z sep : char_digit sep = None → sep ∉ hex_pad n z.
Proof.
  intros Hs. unfold hex_pad. rewrite list_elem_of_fmap. intros (d & Heq & Hd).
  eapply digit_char_not_sep; [|exact Hs|symmetry; exact Heq].
  apply elem_of_app in Hd as [Hd|Hd].
  - apply elem_of_replicate in Hd as [-> _]. lia.
  - apply to_digits_bounds in Hd; lia.
Qed.

Lemma dec_no_sep z sep : char_digit sep = None → sep ∉ dec z.
Proof.
  intros Hs. unfold dec. case_bool_decide.
  - rewrite list_elem_of_singleton. intros ->. done.
  - rewrite list_elem_of_fmap. intros (d & Heq & Hd).
    eapply digit_char_not_sep; [|exact Hs|symmetry; exact Heq].
    apply to_digits_bounds in Hd; lia.
Qed.

(** ** MAC addresses *)

(** ["{:012x}".format(mac)], in pairs joined by colons. *)
Definition mac_chars (mac : Z) : list ascii := join ":"%char (pairs (hex_pad 12 mac)).
Definition mac_str (mac : Z) : string := String.string_of_list_ascii (mac_chars mac).

(** [int(text, 16)]: surrounding blanks, a sign and a [0x] prefix are accepted. *)
Definition is_space (c : ascii) : bool :=
  let n := Z.of_N (N_of_ascii c) in bool_decide (9 ≤ n ≤ 13) || bool_decide (n = 32).
Fixpoint lstrip (cs : list ascii) : list ascii :=
  match cs with
  | c :: cs' => if is_space c then lstrip cs' else cs
  | [] => []
  end.
Definition strip (cs : list ascii) : list ascii := reverse (lstrip (reverse (lstrip cs))).
Definition parse_unsigned16 (cs : list ascii) : option Z :=
  match cs with
  | z :: x :: d :: ds =>
      if decide (z = "0"%char ∧ (x = "x"%char ∨ x = "X"%char)) then parse_number 16 (d :: ds)
      else parse_number 16 cs
  | _ => parse_number 16 cs
  end.
Definition parse_int16 (cs : list ascii) : option Z :=
  match strip cs with
  | c :: ds =>
      if decide (c = "-"%char) then Z.opp <$> parse_unsigned16 ds
      else if decide (c = "+"%char) then parse_unsigned16 ds
      else parse_unsigned16 (c :: ds)
  | [] => None
  end.

(** [int(switch_mac.replace(':', ''), 16)] *)
Definition mac_int (s : string) : option Z :=
  parse_int16 (without ":"%char (String.list_ascii_of_string s)).

Lemma hex_pad_digits n z c : c ∈ hex_pad n z → ∃ d, 0 ≤ d < 16 ∧ c = digit_char d.
Proof.
  unfold hex_pad. rewrite list_elem_of_fmap. intros (d & -> & Hd). exists d. split; [|done].
  apply elem_of_app in Hd as [Hd|Hd].
  - apply elem_of_replicate in Hd as [-> _]. lia.
  - by apply to_digits_bounds in Hd.
Qed.

(** What the parser of integers looks for is not a hexadecimal digit. *)
Definition plain (c : ascii) : bool :=
  negb (is_space c) && bool_decide (c ∉ ["-"; "+"; "x"; "X"]%char).
Lemma plain_digit d : 0 ≤ d < 16 → plain (digit_char d) = true.
Proof.
  intros Hd. assert (Hall : Forall (λ d, plain (digit_char d) = true) (range 0 16)).
  { apply (bool_decide_unpack _). vm_compute. exact I. }
  rewrite Forall_forall in Hall. apply Hall. by apply elem_of_range.
Qed.

Lemma lstrip_plain cs : (∀ c, c ∈ cs → plain c = true) → lstrip cs = cs.
Proof.
  destruct cs as [|c cs]; [done|]. intros Hc. simpl.
  specialize (Hc c ltac:(by left)). unfold plain in Hc. by destruct (is_space c).
Qed.

Lemma strip_plain cs : (∀ c, c ∈ cs → plain c = true) → strip cs = cs.
Proof.
  intros Hc. unfold strip. rewrite (lstrip_plain cs) by done.
  rewrite lstrip_plain by (intros c; rewrite elem_of_reverse; apply Hc).
  apply reverse_involutive.
Qed.

Lemma parse_int16_plain cs :
  (∀ c, c ∈ cs → plain c = true) → parse_int16 cs = parse_number 16 cs.
Proof.
  intros Hc. unfold parse_int16. rewrite strip_plain by done.
  destruct cs as [|c cs]; [done|].
  assert (Hp : ∀ c', c' ∈ c :: cs → c' ∉ ["-"; "+"; "x"; "X"]%char).
  { intros c' Hin. specialize (Hc c' Hin). unfold plain in Hc.
    apply andb_true_iff in Hc as [_ Hc]. by apply bool_decide_eq_true in Hc. }
  rewrite decide_False by (intros ->; apply (Hp "-"%char); [by left|by left]).
  rewrite decide_False by (intros ->; apply (Hp "+"%char); [by left|by right; left]).
  destruct cs as [|x [|y cs]]; [done|done|]. unfold parse_unsigned16.
  rewrite decide_False; [done|].
  intros [_ [->| ->]]; [apply (Hp "x"%char)|apply (Hp "X"%char)]; set_solver.
Qed.

Lemma mac_round_trip m : 0 ≤ m → mac_int (mac_str m) = Some m.
Proof.
  intros Hm. unfold mac_int, mac_str, mac_chars.
  rewrite String.list_ascii_of_string_of_list_ascii.
  rewrite without_join.
  - rewrite concat_pairs, parse_int16_plain; [by apply parse_hex_pad; [lia|]|].
    intros c (d & Hd & ->)%hex_pad_digits. by apply plain_digit.
  - intros p Hp Hc. apply (hex_pad_no_sep 12 m ":"%char); [done|]. by eapply pairs_elem.
Qed.

(** A 48-bit address is six groups of two digits. *)
Definition group_lengths (cs : list ascii) : list nat := length <$> split ":"%char cs.
Lemma split_mac_chars m : 0 ≤ m < 2 ^ 48 →
  group_lengths (mac_chars m) = replicate 6 2%nat.
Proof.
  intros Hm. unfold group_lengths, mac_chars.
  assert (Hl : length (hex_pad 12 m) = 12%nat) by (apply length_hex_pad; lia).
  assert (Hs : ":"%char ∉ hex_pad 12 m) by by apply hex_pad_no_sep.
  destruct (hex_pad 12 m) as [|c0 [|c1 [|c2 [|c3 [|c4 [|c5 [|c6 [|c7 [|c8 [|c9 [|c10 [|c11 [|]]]]]]]]]]]]];
    try done.
  rewrite split_join; [done|done|].
  intros p Hp Hc. apply Hs. by eapply pairs_elem.
Qed.

(** ** IPv4 addresses *)

(** The text of an IPv4 address given as an integer. *)
Definition octets (x : Z) : list Z := [x / 2 ^ 24; x / 2 ^ 16 mod 256; x / 2 ^ 8 mod 256; x mod 256].
Definition ip_str (x : Z) : string :=
  String.string_of_list_ascii (join "."%char (dec <$> octets x)).

(** Reading addresses back is the [ipaddress] package's: a dotted quad it has
    printed stands for the address. *)
Class IpAddress := {
  ip_int : string → option Z;
  ip_int_str x : 0 ≤ x < 2 ^ 32 → ip_int (ip_str x) = Some x
}.

(** A reader of dotted quads. *)
Definition octet (cs : list ascii) : option Z :=
  match parse_number 10 cs with
  | Some n => if bool_decide (n ≤ 255 ∧ (length cs ≤ 3)%nat) then Some n else None
  | None => None
  end.
Definition dotted_int (s : string) : option Z :=
  match octet <$> split "."%char (String.list_ascii_of_string s) with
  | [Some a; Some b; Some c; Some d] => Some (((a * 256 + b) * 256 + c) * 256 + d)
  | _ => None
  end.

Lemma length_dec z : 0 ≤ z < 256 → (length (dec z) ≤ 3)%nat.
Proof.
  intros Hz. unfold dec. case_bool_decide; simpl; [lia|]. rewrite length_fmap.
  unfold to_digits. rewrite length_reverse. apply length_digits_rev; [done|]. simpl. lia.
Qed.

Lemma octet_dec z : 0 ≤ z < 256 → octet (dec z) = Some z.
Proof.
  intros Hz. unfold octet. rewrite parse_dec by lia.
  rewrite bool_decide_eq_true_2; [done|]. split; [lia|]. by apply length_dec.
Qed.

Lemma dotted_int_str x : 0 ≤ x < 2 ^ 32 → dotted_int (ip_str x) = Some x.
Proof.
  intros Hx. unfold dotted_int, ip_str.
  rewrite String.list_ascii_of_string_of_list_ascii, split_join; [|by unfold octets|].
  - assert (0 ≤ x / 2 ^ 24 < 256).
    { split; [apply Z.div_pos; lia|]. apply Z.div_lt_upper_bound; lia. }
    assert (Hm : ∀ y, 0 ≤ y mod 256 < 256) by (intros y; apply Z.mod_pos_bound; lia).
    simpl. rewrite !octet_dec by auto. f_equal.
    change (2 ^ 24) with (256 * 256 * 256). change (2 ^ 16) with (256 * 256). change (2 ^ 8) with 256.
    rewrite <- !Z.div_div by lia.
    pose proof (Z.div_mod x 256 ltac:(lia)). pose proof (Z.div_mod (x / 256) 256 ltac:(lia)).
    pose proof (Z.div_mod (x / 256 / 256) 256 ltac:(lia)). lia.
  - intros p (n & -> & _)%list_elem_of_fmap. by apply dec_no_sep.
Qed.

Definition dotted_address : IpAddress := {| ip_int_str := dotted_int_str |}.

(** ** Text of the configuration files *)

Definition char_map (f : Z → Z) (c : ascii) : ascii :=
  Ascii.ascii_of_N (Z.to_N (f (Z.of_N (Ascii.N_of_ascii c)))).
(** [s.upper()] and [s.lower()] on ASCII text. *)
Definition upper (cs : list ascii) : list ascii :=
  char_map (λ n, if bool_decide (97 ≤ n ≤ 122) then n - 32 else n) <$> cs.
Definition lower (cs : list ascii) : list ascii :=
  char_map (λ n, if bool_decide (65 ≤ n ≤ 90) then n + 32 else n) <$> cs.

(** [int(text)]: surrounding blanks and a sign are accepted. *)
Definition parse_int10 (cs : list ascii) : option Z :=
  match strip cs with
  | c :: ds =>
      if decide (c = "-"%char) then Z.opp <$> parse_number 10 ds
      else if decide (c = "+"%char) then parse_number 10 ds
      else parse_number 10 (c :: ds)
  | [] => None
  end.

(** [int(s.upper().replace('G','').strip())], the speed of a port. *)
Definition speed_int (s : string) : option Z :=
  parse_int10 (strip (without "G"%char (upper (String.list_ascii_of_string s)))).
Definition lower_str (s : string) : string :=
  String.string_of_list_ascii (lower (String.list_ascii_of_string s)).
Definition strip_str (s : string) : string :=
  String.string_of_list_ascii (strip (String.list_ascii_of_string s)).

Example speed_100g : speed_int "100g" = Some 100.
Proof. reflexivity. Qed.
