(* ===== verification/PyMonad.v ===== *)
(** * Python effects

    The control plane mutates objects, calls the switch and raises exceptions.
    A Python statement is modelled by [M S A]: a function from the state [S] to
    an outcome (a value or an exception) and the state afterwards. A raised
    exception keeps the assignments made before it, as in Python. The file
    gives the monad, [raise], [try]/[except] and the loops the source uses, and
    the calculus the components' proofs share: [stable R m] says that [m] only
    moves the state along the preorder [R], whatever its outcome. *)
From S2P Require Import Prelude.

(** The exceptions the modelled code raises, catches or lets escape. [Exn] is
    Python's [Exception(msg)]; [RpcOther] is any other failure of the gRPC
    client library (its exceptions are not named by the source). *)
Inductive pyexn :=
| BfruntimeReadWriteRpcException
| RpcOther
| KeyError
| IndexError
| ValueError
| TypeError
| NameError
| AttributeError
| StopIteration
| ZeroDivisionError
| OverflowError
| Exn (msg : string).

#[export] Instance pyexn_eq_dec : EqDecision pyexn.
Proof. solve_decision. Defined.

Inductive outcome (A : Type) :=
| Ok (a : A)
| Raise (e : pyexn).
Arguments Ok {A} a.
Arguments Raise {A} e.

Definition is_ok {A} (r : outcome A) : bool :=
  match r with Ok _ => true | Raise _ => false end.

Definition M (S A : Type) : Type := S → outcome A * S.

#[export] Instance M_ret S : MRet (M S) := λ A a s, (Ok a, s).
#[export] Instance M_bind S : MBind (M S) := λ A B f m s,
  match m s with
  | (Ok a, s') => f a s'
  | (Raise e, s') => (Raise e, s')
  end.

Definition raise {S A} (e : pyexn) : M S A := λ s, (Raise e, s).
Definition gets {S A} (f : S → A) : M S A := λ s, (Ok (f s), s).
Definition modify {S} (f : S → S) : M S unit := λ s, (Ok tt, f s).

(** [try: m except ...: h]: the handler is [Some] for the exceptions its clause
    names; another exception goes on. *)
Definition try_except {S A} (m : M S A) (h : pyexn → option (M S A)) : M S A := λ s,
  match m s with
  | (Raise e, s') =>
      match h e with Some k => k s' | None => (Raise e, s') end
  | r => r
  end.

(** [except gc.BfruntimeReadWriteRpcException as e: k]. *)
Definition except_rpc {S A} (k : M S A) (e : pyexn) : option (M S A) :=
  match e with BfruntimeReadWriteRpcException => Some k | _ => None end.
(** [except Exception as e: k(e)]. *)
Definition except_any {S A} (k : pyexn → M S A) (e : pyexn) : option (M S A) := Some (k e).

(** [for x in l: body(x)]. *)
Fixpoint for_each {S A} (l : list A) (body : A → M S unit) : M S unit :=
  match l with
  | [] => mret tt
  | x :: l' => body x ;; for_each l' body
  end.

(** A comprehension [[f(x) for x in l]] whose element expression has effects. *)
Fixpoint map_each {S A B} (f : A → M S B) (l : list A) : M S (list B) :=
  match l with
  | [] => mret []
  | x :: l' => y ← f x; ys ← map_each f l'; mret (y :: ys)
  end.

(** A loop whose body may [return] from the enclosing function: the body
    answers [Some v] to return [v]. *)
Fixpoint for_return {S A B} (l : list A) (body : A → M S (option B)) : M S (option B) :=
  match l with
  | [] => mret None
  | x :: l' => r ← body x; match r with Some v => mret (Some v) | None => for_return l' body end
  end.

(** [d[k]] on a dict: [KeyError] for a missing key. *)
Definition dict_get {S K A} `{Countable K} (d : gmap K A) (k : K) : M S A :=
  match d !! k with Some v => mret v | None => raise KeyError end.

(** [l.remove(x)]: drops the first occurrence, [ValueError] when there is none. *)
Fixpoint list_remove {A} `{EqDecision A} (x : A) (l : list A) : option (list A) :=
  match l with
  | [] => None
  | y :: l' => if decide (y = x) then Some l' else (y ::.) <$> list_remove x l'
  end.

(** ** Equations *)

Section run.
Context {S : Type}.
Implicit Types (s : S).

Lemma run_bind {A B} (m : M S A) (f : A → M S B) s :
  (m ≫= f) s = match m s with
               | (Ok a, s') => f a s'
               | (Raise e, s') => (Raise e, s')
               end.
Proof. done. Qed.

Lemma run_bind_ok {A B} (m : M S A) (f : A → M S B) s a s' :
  m s = (Ok a, s') → (m ≫= f) s = f a s'.
Proof. intros H. by rewrite run_bind, H. Qed.

(** Reading the state. *)
Lemma run_bind_gets {A B} (g : S → A) (f : A → M S B) s a :
  g s = a → (gets g ≫= f) s = f a s.
Proof. intros <-. done. Qed.

Lemma run_bind_modify {B} (g : S → S) (f : unit → M S B) s :
  (modify g ≫= f) s = f tt (g s).
Proof. done. Qed.

Lemma run_bind_ret {A B} (a : A) (f : A → M S B) s : (mret a ≫= f) s = f a s.
Proof. done. Qed.

Lemma run_bind_raise {A B} (m : M S A) (f : A → M S B) s e s' :
  m s = (Raise e, s') → (m ≫= f) s = (Raise e, s').
Proof. intros H. by rewrite run_bind, H. Qed.

Lemma run_bind_assoc {A B C} (m : M S A) (f : A → M S B) (g : B → M S C) s :
  ((m ≫= f) ≫= g) s = (m ≫= λ a, f a ≫= g) s.
Proof. rewrite !run_bind. by destruct (m s) as [[]]. Qed.

Lemma run_for_each_app {A} (l1 l2 : list A) (body : A → M S unit) s :
  for_each (l1 ++ l2) body s = (for_each l1 body ;; for_each l2 body) s.
Proof.
  revert s. induction l1 as [|x l1 IH]; intros s; simpl; [done|].
  rewrite run_bind_assoc, !run_bind. destruct (body x s) as [[] s']; [|done].
  apply IH.
Qed.

Lemma run_dict_get {K A} `{Countable K} (d : gmap K A) k v s :
  d !! k = Some v → dict_get d k s = (Ok v, s).
Proof. intros Hk. unfold dict_get. by rewrite Hk. Qed.
End run.

(** ** Moves along a relation: whatever its outcome, [m] moves the state along
    [R]. *)
Definition stable {S A} (R : S → S → Prop) (m : M S A) : Prop := ∀ s, R s (m s).2.

(** ** Total correctness

    [ends m s r Q]: run from [s], [m] ends with the outcome [r] in a state that
    satisfies [Q]. The components' functional theorems are stated with it. *)

Definition ends {S A} (m : M S A) (s : S) (r : outcome A) (Q : S → Prop) : Prop :=
  ∃ s', m s = (r, s') ∧ Q s'.

Section ends.
Context {S : Type}.
Implicit Types (s : S) (Q : S → Prop).

Lemma ends_ret {A} (a : A) s Q : Q s → ends (mret a) s (Ok a) Q.
Proof. intros H. by exists s. Qed.

Lemma ends_raise {A} e s Q : Q s → ends (raise (A := A) e) s (Raise e) Q.
Proof. intros H. by exists s. Qed.

Lemma ends_gets {A} (f : S → A) s a Q : f s = a → Q s → ends (gets f) s (Ok a) Q.
Proof. intros <- H. by exists s. Qed.

Lemma ends_modify (f : S → S) s Q : Q (f s) → ends (modify f) s (Ok tt) Q.
Proof. intros H. by exists (f s). Qed.

Lemma ends_bind {A B} (m : M S A) (f : A → M S B) s a r Q P :
  ends m s (Ok a) Q → (∀ s', Q s' → ends (f a) s' r P) → ends (m ≫= f) s r P.
Proof.
  intros (s' & Hm & HQ) Hf. destruct (Hf s' HQ) as (s'' & Hf' & HP).
  exists s''. by rewrite (run_bind_ok _ _ _ _ _ Hm).
Qed.

Lemma ends_bind_raise {A B} (m : M S A) (f : A → M S B) s e Q P :
  ends m s (Raise e) Q → (∀ s', Q s' → P s') → ends (m ≫= f) s (Raise e) P.
Proof.
  intros (s' & Hm & HQ) Hf. exists s'.
  rewrite (run_bind_raise _ _ _ _ _ Hm). auto.
Qed.

Lemma ends_mono {A} (m : M S A) s r Q P :
  ends m s r Q → (∀ s', Q s' → P s') → ends m s r P.
Proof. intros (s' & Hm & HQ) HP. exists s'. auto. Qed.

Lemma ends_try_ok {A} (m : M S A) h s a Q :
  ends m s (Ok a) Q → ends (try_except m h) s (Ok a) Q.
Proof. intros (s' & Hm & HQ). exists s'. unfold try_except. by rewrite Hm. Qed.

Lemma ends_try_rpc {A} (m k : M S A) s r Q P :
  ends m s (Raise BfruntimeReadWriteRpcException) Q →
  (∀ s', Q s' → ends k s' r P) →
  ends (try_except m (except_rpc k)) s r P.
Proof.
  intros (s' & Hm & HQ) Hk. destruct (Hk s' HQ) as (s'' & Hs & HP).
  exists s''. unfold try_except. rewrite Hm. simpl. by rewrite Hs.
Qed.

Lemma ends_try_any {A} (m : M S A) k s e r Q P :
  ends m s (Raise e) Q → (∀ s', Q s' → ends (k e) s' r P) →
  ends (try_except m (except_any k)) s r P.
Proof.
  intros (s' & Hm & HQ) Hk. destruct (Hk s' HQ) as (s'' & Hs & HP).
  exists s''. unfold try_except. rewrite Hm. simpl. by rewrite Hs.
Qed.

Lemma ends_dict_get {K A} `{Countable K} (d : gmap K A) k v s Q :
  d !! k = Some v → Q s → ends (dict_get d k) s (Ok v) Q.
Proof. intros Hk HQ. exists s. by rewrite (run_dict_get _ _ _ _ Hk). Qed.

(** A loop, by an invariant indexed by what is left of the list. *)
Lemma ends_for_each {A} (l : list A) (body : A → M S unit) (I : list A → S → Prop) s :
  I l s →
  (∀ x l' s', I (x :: l') s' → ends (body x) s' (Ok tt) (I l')) →
  ends (for_each l body) s (Ok tt) (I []).
Proof.
  revert s. induction l as [|x l IH]; intros s HI Hb; simpl; [by apply ends_ret|].
  eapply ends_bind; [by apply Hb|]. intros s' HI'. by apply IH.
Qed.

(** A loop that keeps an invariant. *)
Lemma ends_for_each_inv {A} (l : list A) (body : A → M S unit) (I : S → Prop) s :
  I s → (∀ x s', x ∈ l → I s' → ends (body x) s' (Ok tt) I) →
  ends (for_each l body) s (Ok tt) I.
Proof.
  revert s. induction l as [|x l IH]; intros s HI Hb; simpl; [by apply ends_ret|].
  eapply ends_bind; [apply Hb; [by left|done]|]. intros s' HI'.
  apply IH; [done|]. intros y s'' Hy. apply Hb. by right.
Qed.

Lemma ends_run {A} (m : M S A) s r Q : ends m s r Q → (m s).1 = r ∧ Q (m s).2.
Proof. intros (s' & -> & HQ). done. Qed.
End ends.

(** ** Partial correctness with two postconditions

    [hoare P m Q E]: from [P], [m] either returns [a] in a state satisfying
    [Q a] or raises in a state satisfying [E]. It serves for invariants under
    calls that may fail. *)

Definition hoare {S A} (P : S → Prop) (m : M S A) (Q : A → S → Prop) (E : S → Prop) : Prop :=
  ∀ s, P s → match m s with (Ok a, s') => Q a s' | (Raise _, s') => E s' end.

Section hoare.
Context {S : Type}.
Implicit Types (P E : S → Prop).

Lemma hoare_ret {A} (a : A) P Q E : (∀ s, P s → Q a s) → hoare P (mret a) Q E.
Proof. intros H s HP. by apply H. Qed.

Lemma hoare_raise {A} e P (Q : A → S → Prop) E : (∀ s, P s → E s) → hoare P (raise e) Q E.
Proof. intros H s HP. by apply H. Qed.

Lemma hoare_gets {A} (f : S → A) P Q E : (∀ s, P s → Q (f s) s) → hoare P (gets f) Q E.
Proof. intros H s HP. by apply H. Qed.

Lemma hoare_modify (f : S → S) P (Q : unit → S → Prop) E :
  (∀ s, P s → Q tt (f s)) → hoare P (modify f) Q E.
Proof. intros H s HP. by apply H. Qed.

Lemma hoare_bind {A B} (m : M S A) (f : A → M S B) P Q R E :
  hoare P m Q E → (∀ a, hoare (Q a) (f a) R E) → hoare P (m ≫= f) R E.
Proof.
  intros Hm Hf s HP. rewrite run_bind. specialize (Hm s HP).
  destruct (m s) as [[a|e] s']; [|done]. by apply Hf.
Qed.

Lemma hoare_seq {A B} (m : M S A) (k : M S B) P Q R E :
  hoare P m (λ _, Q) E → hoare Q k R E → hoare P (m ;; k) R E.
Proof. intros Hm Hk. eapply hoare_bind; [done|]. intros a. done. Qed.

Lemma hoare_conseq {A} (m : M S A) P P' Q Q' E E' :
  hoare P' m Q' E' → (∀ s, P s → P' s) → (∀ a s, Q' a s → Q a s) → (∀ s, E' s → E s) →
  hoare P m Q E.
Proof.
  intros Hm H1 H2 H3 s HP. specialize (Hm s (H1 s HP)).
  destruct (m s) as [[a|e] s']; auto.
Qed.

Lemma hoare_pure {A} (φ : Prop) (m : M S A) P Q E :
  (φ → hoare P m Q E) → hoare (λ s, φ ∧ P s) m Q E.
Proof. intros H s [Hφ HP]. by apply H. Qed.

Lemma hoare_try_any {A} (m : M S A) k P Q E E' :
  hoare P m Q E → (∀ e, hoare E (k e) Q E') → hoare P (try_except m (except_any k)) Q E'.
Proof.
  intros Hm Hk s HP. unfold try_except. specialize (Hm s HP).
  destruct (m s) as [[a|e] s']; [done|]. by apply Hk.
Qed.

Lemma hoare_keeps {A} (I : S → Prop) (m : M S A) :
  hoare I m (λ _, I) I ↔ stable (λ s s', I s → I s') m.
Proof.
  unfold hoare, stable. split; intros H s HI; specialize (H s HI);
    destruct (m s) as [[a|e] s']; done.
Qed.
End hoare.

(** ** Moves along a preorder, structurally *)


(** [R] as an invariant: [stable (keeps I) m] says that [m] preserves [I]. *)
Definition keeps {S} (I : S → Prop) : S → S → Prop := λ s s', I s → I s'.

#[export] Instance keeps_preorder {S} (I : S → Prop) : PreOrder (keeps I).
Proof. split; unfold keeps; [intros s; done | intros s1 s2 s3; tauto]. Qed.

Create HintDb stable.

Section stable.
Context {S : Type} (R : S → S → Prop) `{!PreOrder R}.

Lemma stable_ret {A} (a : A) : stable R (mret a).
Proof. intros s. simpl. reflexivity. Qed.

Lemma stable_raise {A} e : stable R (raise (A := A) e).
Proof. intros s. simpl. reflexivity. Qed.

Lemma stable_gets {A} (f : S → A) : stable R (gets f).
Proof. intros s. simpl. reflexivity. Qed.

Lemma stable_modify (f : S → S) : (∀ s, R s (f s)) → stable R (modify f).
Proof. intros Hf s. apply Hf. Qed.

Lemma stable_bind {A B} (m : M S A) (f : A → M S B) :
  stable R m → (∀ a, stable R (f a)) → stable R (m ≫= f).
Proof.
  intros Hm Hf s. rewrite run_bind. specialize (Hm s).
  destruct (m s) as [[a|e] s'] eqn:E; simpl in *; [|done].
  transitivity s'; [done|]. apply Hf.
Qed.

(** The continuation may use what is known of the value. *)
Lemma stable_bind_value {A B} (m : M S A) (f : A → M S B) :
  stable R m → (∀ s a s', m s = (Ok a, s') → R s' (f a s').2) → stable R (m ≫= f).
Proof.
  intros Hm Hf s. rewrite run_bind. specialize (Hm s).
  destruct (m s) as [[a|e] s'] eqn:E; simpl in *; [|done].
  transitivity s'; [done|]. by eapply Hf.
Qed.

Lemma stable_try {A} (m : M S A) h :
  stable R m → (∀ e k, h e = Some k → stable R k) → stable R (try_except m h).
Proof.
  intros Hm Hh s. unfold try_except. specialize (Hm s).
  destruct (m s) as [[a|e] s'] eqn:E; simpl in *; [done|].
  destruct (h e) as [k|] eqn:Ek; [|done].
  transitivity s'; [done|]. by eapply Hh.
Qed.

Lemma stable_try_rpc {A} (m k : M S A) :
  stable R m → stable R k → stable R (try_except m (except_rpc k)).
Proof.
  intros Hm Hk. apply stable_try; [done|].
  intros e k' He. destruct e; simpl in He; simplify_eq; done.
Qed.

Lemma stable_try_any {A} (m : M S A) k :
  stable R m → (∀ e, stable R (k e)) → stable R (try_except m (except_any k)).
Proof.
  intros Hm Hk. apply stable_try; [done|].
  intros e k' He. unfold except_any in He. simplify_eq. apply Hk.
Qed.

Lemma stable_for_each {A} (l : list A) (body : A → M S unit) :
  (∀ x, x ∈ l → stable R (body x)) → stable R (for_each l body).
Proof.
  induction l as [|x l IH]; intros Hb; simpl; [apply stable_ret|].
  apply stable_bind; [apply Hb; set_solver|].
  intros _. apply IH. intros y Hy. apply Hb. set_solver.
Qed.

Lemma stable_map_each {A B} (f : A → M S B) (l : list A) :
  (∀ x, stable R (f x)) → stable R (map_each f l).
Proof.
  intros Hf. induction l as [|x l IH]; simpl; [apply stable_ret|].
  apply stable_bind; [apply Hf|]. intros y.
  apply stable_bind; [done|]. intros ys. apply stable_ret.
Qed.

Lemma stable_for_return {A B} (l : list A) (body : A → M S (option B)) :
  (∀ x, stable R (body x)) → stable R (for_return l body).
Proof.
  intros Hb. induction l as [|x l IH]; simpl; [apply stable_ret|].
  apply stable_bind; [apply Hb|]. intros [v|]; [apply stable_ret|done].
Qed.

Lemma stable_dict_get {K A} `{Countable K} (d : gmap K A) k : stable R (dict_get d k).
Proof. unfold dict_get. destruct (d !! k); [apply stable_ret|apply stable_raise]. Qed.
End stable.

(** Walks through a program: one structural rule per constructor, the [stable]
    database for the calls. *)
Ltac stable_step :=
  match goal with
  | |- stable _ (_ ≫= _) => apply stable_bind; [try typeclasses eauto| |]
  | |- stable _ (try_except _ (except_rpc _)) => apply stable_try_rpc; [try typeclasses eauto| |]
  | |- stable _ (try_except _ (except_any _)) => apply stable_try_any; [try typeclasses eauto| |]
  | |- stable _ (for_each _ _) => apply stable_for_each; [try typeclasses eauto|]
  | |- stable _ (for_return _ _) => apply stable_for_return; [try typeclasses eauto|]
  | |- stable _ (map_each _ _) => apply stable_map_each; [try typeclasses eauto|]
  | |- stable _ (mret _) => apply stable_ret; typeclasses eauto
  | |- stable _ (raise _) => apply stable_raise; typeclasses eauto
  | |- stable _ (gets _) => apply stable_gets; typeclasses eauto
  | |- stable _ (dict_get _ _) => apply stable_dict_get; typeclasses eauto
  | |- stable _ (match ?x with _ => _ end) => destruct x
  | |- stable _ (let (_, _) := ?x in _) => destruct x
  | |- ∀ _, _ => intros ?
  end.
Ltac stable_walk := repeat (first [stable_step | solve [eauto with stable]]).

(** ** [list.remove] *)

Lemma list_remove_None {A} `{EqDecision A} (x : A) l : list_remove x l = None ↔ x ∉ l.
Proof.
  induction l as [|y l IH]; simpl; [set_solver|].
  case_decide as Hy; [set_solver|]. rewrite fmap_None, IH. set_solver.
Qed.

Lemma list_remove_Some {A} `{EqDecision A} (x : A) l l' :
  list_remove x l = Some l' → l ≡ₚ x :: l'.
Proof.
  revert l'. induction l as [|y l IH]; intros l'; simpl; [done|].
  case_decide as Hy; [intros; simplify_eq; done|].
  intros (l2 & Hl2 & ->)%fmap_Some.
  rewrite (IH l2) by done. apply Permutation_swap.
Qed.

Lemma list_remove_last {A} `{EqDecision A} (x : A) l :
  x ∉ l → list_remove x (l ++ [x]) = Some l.
Proof.
  induction l as [|y l IH]; simpl; intros Hx; [by rewrite decide_True|].
  rewrite decide_False by set_solver. rewrite IH by set_solver. done.
Qed.
