(* ===== verification/PyNum.v ===== *)
(** * Python numbers

    The few floating point operations of the control plane: a float is the
    Standard Library's specification float at Python's precision (binary64),
    and a number is an [int] or a [float]. *)
From S2P Require Import Prelude PyMonad.
From Stdlib Require Import Floats.SpecFloat.

Inductive pynum :=
| PInt (z : Z)
| PFloat (f : spec_float).

#[export] Instance spec_float_eq_dec : EqDecision spec_float.
Proof. solve_decision. Defined.
#[export] Instance pynum_eq_dec : EqDecision pynum.
Proof. solve_decision. Defined.

(** [float(z)] *)
Definition float_of_Z (z : Z) : spec_float := binary_normalize 53 1024 z 0 false.

(** [k * p] for an int [k]. *)
Definition num_scale (k : Z) (p : pynum) : pynum :=
  match p with
  | PInt z => PInt (k * z)
  | PFloat f => PFloat (SFmul 53 1024 (float_of_Z k) f)
  end.

(** [int(p)]: towards zero; the infinities and NaN are refused. *)
Definition num_int {S} (p : pynum) : M S Z :=
  match p with
  | PInt z => mret z
  | PFloat (S754_zero _) => mret 0
  | PFloat (S754_finite s m e) =>
      let a := if bool_decide (0 ≤ e) then Zpos m * 2 ^ e else Zpos m / 2 ^ (- e) in
      mret (if s then - a else a)
  | PFloat (S754_infinity _) => raise OverflowError
  | PFloat S754_nan => raise ValueError
  end.

Example num_int_half : num_int (num_scale 0xffff (PFloat (SFdiv 53 1024 (float_of_Z 1) (float_of_Z 2)))) tt = (Ok 0x7fff, tt).
Proof. vm_compute. reflexivity. Qed.

(** [1 / 10] in floating point, and its share of 65535. *)
Example num_int_tenth : num_int (num_scale 0xffff (PFloat (SFdiv 53 1024 (float_of_Z 1) (float_of_Z 10)))) tt = (Ok 6553, tt).
Proof. vm_compute. reflexivity. Qed.

Lemma num_int_state {S} p (s : S) : (num_int p s).2 = s.
Proof. by destruct p as [|[]]. Qed.

Lemma num_int_stable {S} (R : S → S → Prop) `{!PreOrder R} p : stable R (num_int p).
Proof. intros s. rewrite num_int_state. reflexivity. Qed.
#[export] Hint Extern 1 (stable _ (num_int _)) => apply num_int_stable; typeclasses eauto : stable.

(** Towards zero: the integer a non-negative finite float is cut to. *)
Lemma num_int_finite {S} m e (s : S) z :
  num_int (PFloat (S754_finite false m e)) s = (Ok z, s) →
  0 ≤ z ∧ (if bool_decide (0 ≤ e) then z = Zpos m * 2 ^ e
           else z * 2 ^ (- e) ≤ Zpos m < (z + 1) * 2 ^ (- e)).
Proof.
  simpl. unfold mret, M_ret. intros [= <-]. case_bool_decide.
  - split; [|done]. apply Z.mul_nonneg_nonneg; [lia|]. apply Z.pow_nonneg. lia.
  - assert (0 < 2 ^ (- e)) by (apply Z.pow_pos_nonneg; lia).
    split; [apply Z.div_pos; lia|].
    pose proof (Z.div_mod (Zpos m) (2 ^ (- e)) ltac:(lia)).
    pose proof (Z.mod_pos_bound (Zpos m) (2 ^ (- e)) ltac:(done)). nia.
Qed.
