(* ===== verification/PyFloat.v ===== *)
(** * Reading a float

    [float(text)] of Python 2: a decimal number, with a point and an exponent if
    it has them, rounded to the nearest binary64 value; or an infinity or NaN by
    name. The rounding keeps 64 bits or more of the quotient and a sticky bit
    for the rest, which the Standard Library's [binary_normalize] then rounds
    once, to nearest even. *)
From S2P Require Import Prelude PyText PyMonad PyNum.
From Stdlib Require Import Ascii Floats.SpecFloat.

(** [m * 10 ^ e] for [0 < m]. *)
Definition quotient_bits (m n : Z) : Z := 65 + 4 * n - Z.log2 m.
Definition decimal_value (m e : Z) : spec_float :=
  if bool_decide (m = 0) then S754_zero false
  else if bool_decide (0 ≤ e) then binary_normalize 53 1024 (m * 10 ^ e) 0 false
  else
    let k := Z.max 0 (quotient_bits m (- e)) in
    let num := m * 2 ^ k in
    let den := 10 ^ (- e) in
    let sticky := if bool_decide (num mod den = 0) then 0 else 1 in
    binary_normalize 53 1024 (2 * (num / den) + sticky) (- k - 1) false.

Definition is_decimal (c : ascii) : bool :=
  let n := Z.of_N (N_of_ascii c) in bool_decide (48 ≤ n ≤ 57).
Fixpoint digits_of (cs : list ascii) : list ascii * list ascii :=
  match cs with
  | c :: cs' => if is_decimal c then let '(a, b) := digits_of cs' in (c :: a, b) else ([], cs)
  | [] => ([], [])
  end.

(** A sign and the rest. *)
Definition signed (cs : list ascii) : bool * list ascii :=
  match cs with
  | c :: cs' =>
      if bool_decide (c = "-"%char) then (true, cs')
      else if bool_decide (c = "+"%char) then (false, cs')
      else (false, cs)
  | [] => (false, [])
  end.

(** The exponent that ends the number: none, or [e], a sign and digits. *)
Definition exponent_of (cs : list ascii) : option Z :=
  match cs with
  | [] => Some 0
  | c :: cs' =>
      if bool_decide (c ∈ ["e"%char; "E"%char]) then
        let '(neg, ds) := signed cs' in
        e ← parse_number 10 ds; Some (if neg : bool then - e else e)
      else None
  end.

(** Digits, a point and digits: at least one digit in all. *)
Definition unsigned_float (cs : list ascii) : option spec_float :=
  let '(whole, r) := digits_of cs in
  let '(frac, r') :=
    match r with
    | c :: r' => if bool_decide (c = "."%char) then digits_of r' else ([], r)
    | [] => ([], [])
    end in
  m ← parse_number 10 (whole ++ frac);
  e ← exponent_of r';
  Some (decimal_value m (e - Z.of_nat (length frac))).

Definition lower (c : ascii) : ascii :=
  let n := Z.of_N (N_of_ascii c) in
  if bool_decide (65 ≤ n ≤ 90) then ascii_of_N (Z.to_N (n + 32)) else c.
Definition named_float (cs : list ascii) : option spec_float :=
  let s := String.string_of_list_ascii (lower <$> cs) in
  if bool_decide (s ∈ ["inf"; "infinity"]) then Some (S754_infinity false)
  else if bool_decide (s = "nan") then Some S754_nan
  else None.

(** [float(text)]: [None] where Python raises [ValueError]. *)
Definition parse_float (cs : list ascii) : option spec_float :=
  let '(neg, r) := signed (strip cs) in
  f ← match named_float r with Some f => Some f | None => unsigned_float r end;
  Some (if neg : bool then SFopp f else f).

Abbreviation float_text s := (parse_float (String.list_ascii_of_string s)).

Example float_tenth : float_text "0.1" = Some (SFdiv 53 1024 (float_of_Z 1) (float_of_Z 10)).
Proof. vm_compute. reflexivity. Qed.
Example float_thirds : float_text " 3e-1 " = Some (SFdiv 53 1024 (float_of_Z 3) (float_of_Z 10)).
Proof. vm_compute. reflexivity. Qed.
Example float_small : float_text "-5e-324" = Some (S754_finite true 1 (-1074)).
Proof. vm_compute. reflexivity. Qed.
Example float_words : (float_text "Infinity", float_text "0x10", float_text ".", float_text "1e") =
  (Some (S754_infinity false), None, None, None).
Proof. vm_compute. reflexivity. Qed.

(** ** The rounding keeps enough bits *)

(** The integer handed to [binary_normalize] lies in the last place of 64 bits
    or more around the exact quotient: it is the quotient cut to an even
    integer, plus one when something was cut off. *)
Theorem quotient_sticky m n :
  0 < m → 0 < n →
  let k := Z.max 0 (quotient_bits m n) in
  let q := m * 2 ^ k / 10 ^ n in
  let s := 2 * q + (if bool_decide (m * 2 ^ k mod 10 ^ n = 0) then 0 else 1) in
  2 ^ 64 ≤ q ∧
  (s * 10 ^ n = m * 2 ^ (k + 1) ∨
   Z.odd s = true ∧ (s - 1) * 10 ^ n < m * 2 ^ (k + 1) < (s + 1) * 10 ^ n).
Proof.
  intros Hm Hn k q s.
  assert (Hk : 0 ≤ k) by lia.
  assert (Hd : 0 < 10 ^ n) by (apply Z.pow_pos_nonneg; lia).
  assert (Hp : 0 < 2 ^ k) by (apply Z.pow_pos_nonneg; lia).
  pose proof (Z.div_mod (m * 2 ^ k) (10 ^ n) ltac:(lia)) as Hdm. fold q in Hdm.
  pose proof (Z.mod_pos_bound (m * 2 ^ k) (10 ^ n) Hd) as Hmod.
  assert (H2 : 2 ^ (k + 1) = 2 * 2 ^ k) by (rewrite Z.pow_add_r by lia; lia).
  split.
  - apply Z.div_le_lower_bound; [done|].
    pose proof (Z.log2_spec m Hm) as [Hl _]. pose proof (Z.log2_nonneg m) as Hl0.
    assert (Hten : 10 ^ n ≤ 2 ^ (4 * n)).
    { rewrite Z.pow_mul_r by lia. apply Z.pow_le_mono_l. lia. }
    assert (Hbits : 2 ^ (4 * n) * 2 ^ 64 ≤ 2 ^ (Z.log2 m) * 2 ^ k).
    { rewrite <- !Z.pow_add_r by lia. apply Z.pow_le_mono_r; [lia|]. unfold k, quotient_bits. lia. }
    assert (0 < 2 ^ 64) by lia. nia.
  - unfold s. case_bool_decide as Hz; [left; rewrite H2; nia|right]. split.
    + apply Z.odd_spec. by exists q.
    + rewrite H2. nia.
Qed.
