(* ===== verification/Bfrt.v ===== *)
(** * The switch driver, as the control plane sees it

    The control plane programs the switch through the SDE's [bfrt_grpc] client,
    which is not part of the repository. The model takes it as a parameter: the
    class [Bfrt] is the driver (its state, one transition per client call, the
    table sizes) and [BfrtSafe] is what its documentation promises about the
    effect of a call that may fail; when a call does not fail is in Live. The data
    that crosses the interface ([KeyTuple], [DataTuple], the calls themselves)
    is defined here as the source builds it. Every call of the source has the
    target [Target(device_id=0, pipe_id=0xffff)], which is left out. *)
From S2P Require Import Prelude PyMonad.

(** ** Data *)

(** Python values put in keys, in data and in printed lines; an [IntEnum]
    member is the integer it is. *)
Inductive pyval :=
| VInt (z : Z)
| VStr (s : string)
| VBool (b : bool)
| VInts (l : list Z)
| VBools (l : list bool)
| VNone.

(** [gc.KeyTuple(name, value)] or [gc.KeyTuple(name, value, mask)]. *)
Record keytuple := KeyTupleM { kt_name : string; kt_value : pyval; kt_mask : option pyval }.
Definition KeyTuple (n : string) (v : pyval) : keytuple := KeyTupleM n v None.
Definition KeyTernary (n : string) (v m : pyval) : keytuple := KeyTupleM n v (Some m).
(** [table.make_key([...])]. *)
Abbreviation key := (list keytuple).

(** [table.make_data([DataTuple(name, value), ...], action)]. *)
Record datum := MakeData { dt_fields : list (string * pyval); dt_action : option string }.

Inductive inc_flag := MOD_INC_ADD | MOD_INC_DELETE.

#[export] Instance pyval_eq_dec : EqDecision pyval.
Proof. solve_decision. Defined.
#[export] Instance keytuple_eq_dec : EqDecision keytuple.
Proof. solve_decision. Defined.
#[export] Instance datum_eq_dec : EqDecision datum.
Proof. solve_decision. Defined.
#[export] Instance inc_flag_eq_dec : EqDecision inc_flag.
Proof. solve_decision. Defined.

#[export] Instance pyval_countable : Countable pyval.
Proof.
  refine (inj_countable'
    (λ v, match v with
          | VInt z => inl (inl z) | VStr s => inl (inr s)
          | VBool b => inr (inl (inl b)) | VInts l => inr (inl (inr l))
          | VBools l => inr (inr (inl l)) | VNone => inr (inr (inr tt)) end)
    (λ x, match x with
          | inl (inl z) => VInt z | inl (inr s) => VStr s
          | inr (inl (inl b)) => VBool b | inr (inl (inr l)) => VInts l
          | inr (inr (inl l)) => VBools l | inr (inr (inr _)) => VNone end) _).
  by intros [].
Defined.

#[export] Instance keytuple_countable : Countable keytuple.
Proof.
  refine (inj_countable'
    (λ k, (kt_name k, kt_value k, kt_mask k))
    (λ x, KeyTupleM x.1.1 x.1.2 x.2) _).
  by intros [].
Defined.

(** A table entry read back: the key object, and the dictionaries [to_dict]
    makes of the key ([k[field]['value']]) and of the data ([v[field]]). *)
Record row := Row {
  row_key : key;
  row_kdict : gmap string pyval;
  row_vdict : gmap string pyval
}.

(** ** Calls *)

(** The client calls of the source. A [None] list of keys is an omitted
    argument, which the client takes as the whole table. *)
Inductive bfcall :=
| TableGet (t : string)
| KeyAnnotation (t field kind : string)
| DataAnnotation (t field action kind : string)
| EntryAdd (t : string) (ks : list key) (ds : option (list datum))
| EntryMod (t : string) (ks : list key) (ds : list datum)
| EntryModInc (t : string) (ks : list key) (ds : list datum) (flag : inc_flag)
| EntryDel (t : string) (ks : option (list key))
| EntryGet (t : string) (ks : option (list key)) (from_hw : bool)
| DefaultEntrySet (t : string) (d : datum)
| DefaultEntryReset (t : string)
| OperationsExecute (t op : string).

#[export] Instance bfcall_eq_dec : EqDecision bfcall.
Proof. solve_decision. Defined.

Inductive bfresp :=
| RDone
| RRows (rows : list row)
| RRaise (e : pyexn).

(** The table a call is about. *)
Definition call_table (c : bfcall) : string :=
  match c with
  | TableGet t | KeyAnnotation t _ _ | DataAnnotation t _ _ _ | EntryAdd t _ _
  | EntryMod t _ _ | EntryModInc t _ _ _ | EntryDel t _ | EntryGet t _ _
  | DefaultEntrySet t _ | DefaultEntryReset t | OperationsExecute t _ => t
  end.

(** A field only counts traffic. *)
Definition counter_field (f : string * pyval) : bool :=
  bool_decide (f.1 = "$COUNTER_SPEC_BYTES") || bool_decide (f.1 = "$COUNTER_SPEC_PKTS").

(** Calls that leave the entries of every table alone: reads, client-side
    annotations, synchronisation, default actions, writes of counters. *)
Definition keeps_entries (c : bfcall) : bool :=
  match c with
  | TableGet _ | KeyAnnotation _ _ _ | DataAnnotation _ _ _ _ | EntryGet _ _ _
  | DefaultEntrySet _ _ | DefaultEntryReset _ | OperationsExecute _ _ => true
  | EntryMod _ _ ds => forallb (λ d, forallb counter_field (dt_fields d)) ds
  | _ => false
  end.

(** Calls that concern no entry: looking a table up, annotating its fields,
    synchronising its counters, setting its default action. *)
Definition client_side (c : bfcall) : bool :=
  match c with
  | TableGet _ | KeyAnnotation _ _ _ | DataAnnotation _ _ _ _
  | DefaultEntrySet _ _ | DefaultEntryReset _ | OperationsExecute _ _ => true
  | _ => false
  end.

Class Bfrt := {
  sw : Type;
  bf_call : bfcall → sw → bfresp * sw;
  (** [table.info.size] *)
  bf_size : string → Z
}.

(** ** What the documentation promises *)

(** The tables whose entries the model observes one by one. *)
Definition match_tables : list string :=
  ["$PORT"; "$pre.node"; "$mirror.cfg";
   "pipe.Ingress.get_worker_bitmap.get_worker_bitmap";
   "pipe.Ingress.rdma_receiver.receive_roce";
   "pipe.Ingress.non_switchml_forward.forward";
   "pipe.Ingress.arp_and_icmp.arp_and_icmp";
   "pipe.IngressParser.$PORT_METADATA";
   "pipe.Egress.set_dst_addr.set_dst_addr";
   "pipe.Egress.rdma_sender.create_roce_packet";
   "pipe.Egress.rdma_sender.fill_in_qpn_and_psn"].

(** The indirect counters, arrays of [bf_size] cells. *)
Definition counter_tables : list string :=
  ["pipe.Ingress.rdma_receiver.rdma_packet_counter";
   "pipe.Ingress.rdma_receiver.rdma_message_counter";
   "pipe.Ingress.rdma_receiver.rdma_sequence_violation_counter";
   "pipe.Ingress.egress_drop_sim.simulated_drop_packet_counter";
   "pipe.Ingress.next_step.recirculate_counter";
   "pipe.Ingress.next_step.broadcast_counter";
   "pipe.Ingress.next_step.retransmit_counter";
   "pipe.Ingress.next_step.drop_counter"].
Definition counter_key (i : Z) : key := [KeyTuple "$COUNTER_INDEX" (VInt i)].

Abbreviation entries := (gmap (string * key) datum).

(** The entries after adding [ks] with their data to [t], after deleting [ks]
    from [t], and after emptying [t]. *)
Definition add_entries (t : string) (kds : list (key * datum)) (T : entries) : entries :=
  foldr (λ kd T', <[(t, kd.1) := kd.2]> T') T kds.
Definition del_entries (t : string) (ks : list key) (T : entries) : entries :=
  foldr (λ k T', delete (t, k) T') T ks.
Definition clear_entries (t : string) (T : entries) : entries :=
  filter (λ e, e.1.1 ≠ t) T.
Definition count_entries (t : string) (T : entries) : Z :=
  Z.of_nat (size (filter (λ e, e.1.1 = t) T)).

(** Keys and data of the multicast tables. *)
Definition mgid_key (g : Z) : key := [KeyTuple "$MGID" (VInt g)].
Definition node_key (rid : Z) : key := [KeyTuple "$MULTICAST_NODE_ID" (VInt rid)].
Definition data_nodes (d : datum) : option (list Z) :=
  match list_find (λ f, f.1 = "$MULTICAST_NODE_ID") (dt_fields d) with
  | Some (_, (_, VInts l)) => Some l
  | _ => None
  end.

(** A group after [entry_mod_inc] with the node identifiers [ids]. *)
Definition mod_inc (flag : inc_flag) (ids old : list Z) : list Z :=
  match flag with
  | MOD_INC_ADD => old ++ ids
  | MOD_INC_DELETE => filter (λ i, i ∉ ids) old
  end.

(** The query [Ports.get_dev_port] makes. *)
Definition hdl_query (p l : Z) : bfcall :=
  EntryGet "$PORT_HDL_INFO"
    (Some [[KeyTuple "$CONN_ID" (VInt p); KeyTuple "$CHNL_ID" (VInt l)]]) false.

(** The entry of the port handle table a row of its full listing stands for. *)
Definition hdl_row (r : row) : option ((Z * Z) * Z) :=
  match row_kdict r !! "$CONN_ID", row_kdict r !! "$CHNL_ID", row_vdict r !! "$DEV_PORT" with
  | Some (VInt p), Some (VInt l), Some (VInt d) => Some ((p, l), d)
  | _, _, _ => None
  end.

(** Effects: what has changed when a call has succeeded, and what cannot have
    changed when it has failed. [view] is the contents of the match tables,
    [groups] the members of the multicast groups and [hdl] the fixed map of
    front-panel ports to device ports. *)
Class BfrtSafe `{BF : Bfrt} := {
  view : sw → entries;
  groups : sw → gmap Z (list Z);
  hdl : gmap (Z * Z) Z;
  view_frame c s t k :
    call_table c ≠ t → view (bf_call c s).2 !! (t, k) = view s !! (t, k);
  view_unseen c s : call_table c ∉ match_tables → view (bf_call c s).2 = view s;
  view_keeps c s : keeps_entries c = true → view (bf_call c s).2 = view s;
  view_add t ks ds s : t ∈ match_tables →
    match bf_call (EntryAdd t ks (Some ds)) s with
    | (RDone, s') => (∀ k, k ∈ ks → view s !! (t, k) = None) ∧
                     view s' = add_entries t (zip ks ds) (view s)
    | (RRaise _, s') => view s ⊆ view s'
    | (RRows _, _) => False
    end;
  view_del t ks s : t ∈ match_tables →
    match bf_call (EntryDel t (Some ks)) s with
    | (RDone, s') => view s' = del_entries t ks (view s)
    | (RRaise _, s') => view s' ⊆ view s ∧
                        (∀ k, k ∉ ks → view s' !! (t, k) = view s !! (t, k))
    | (RRows _, _) => False
    end;
  view_clear t s : t ∈ match_tables →
    match bf_call (EntryDel t None) s with
    | (RDone, s') => view s' = clear_entries t (view s)
    | (RRaise _, s') => view s' ⊆ view s
    | (RRows _, _) => False
    end;
  groups_frame c s :
    call_table c ≠ "$pre.mgid" → call_table c ≠ "$pre.node" →
    groups (bf_call c s).2 = groups s;
  groups_node c s :
    call_table c = "$pre.node" → (∀ ks, c ≠ EntryDel "$pre.node" ks) →
    groups (bf_call c s).2 = groups s;
  groups_client c s : client_side c = true → groups (bf_call c s).2 = groups s;
  groups_node_del r s :
    match bf_call (EntryDel "$pre.node" (Some [node_key r])) s with
    | (RDone, s') => groups s' = groups s ∨ groups s' = filter (.≠ r) <$> groups s
    | (RRaise _, s') => groups s' = groups s
    | (RRows _, _) => False
    end;
  groups_add g d ids s : data_nodes d = Some ids →
    match bf_call (EntryAdd "$pre.mgid" [mgid_key g] (Some [d])) s with
    | (RDone, s') => groups s !! g = None ∧ groups s' = <[g := ids]> (groups s)
    | (RRaise _, s') => groups s' = groups s
    | (RRows _, _) => False
    end;
  groups_del g s :
    match bf_call (EntryDel "$pre.mgid" (Some [mgid_key g])) s with
    | (RDone, s') => groups s' = delete g (groups s)
    | (RRaise _, s') => groups s' = groups s
    | (RRows _, _) => False
    end;
  groups_inc g d ids flag s : data_nodes d = Some ids →
    match bf_call (EntryModInc "$pre.mgid" [mgid_key g] [d] flag) s with
    | (RDone, s') => ∃ old, groups s !! g = Some old ∧
                            groups s' = <[g := mod_inc flag ids old]> (groups s)
    | (RRaise _, s') => groups s' = groups s
    | (RRows _, _) => False
    end;
  hdl_inj x y d : hdl !! x = Some d → hdl !! y = Some d → x = y;
  hdl_one p l s :
    match hdl !! (p, l) with
    | Some d => ∃ r rest, (bf_call (hdl_query p l) s).1 = RRows (r :: rest) ∧
                          row_vdict r !! "$DEV_PORT" = Some (VInt d)
    | None => (∃ e, (bf_call (hdl_query p l) s).1 = RRaise e) ∨
              (bf_call (hdl_query p l) s).1 = RRows []
    end;
  hdl_all s rows :
    (bf_call (EntryGet "$PORT_HDL_INFO" (Some []) false) s).1 = RRows rows →
    (hdl_row <$> rows) ≡ₚ (Some <$> map_to_list hdl)
}.

(** ** Lemmas on table contents *)

Lemma lookup_add_entries_ne t kds T t' k :
  t ≠ t' → add_entries t kds T !! (t', k) = T !! (t', k).
Proof.
  intros Ht. induction kds as [|[k' d] kds IH]; simpl; [done|].
  rewrite lookup_insert_ne by congruence. done.
Qed.

Lemma add_entries_subseteq t ks ds T :
  (∀ k, k ∈ ks → T !! (t, k) = None) → T ⊆ add_entries t (zip ks ds) T.
Proof.
  intros Hk. apply map_subseteq_spec. intros [t' k'] d Hd.
  revert ds. induction ks as [|k ks IH]; intros [|d' ds]; simpl; try done.
  rewrite lookup_insert_ne.
  - apply IH. intros; apply Hk. set_solver.
  - intros [= -> ->]. rewrite Hk in Hd by set_solver. done.
Qed.

(** The order of additions of distinct keys does not matter. *)
Lemma add_entries_insert t kds k d T :
  k ∉ kds.*1 → add_entries t kds (<[(t, k) := d]> T) = <[(t, k) := d]> (add_entries t kds T).
Proof.
  induction kds as [|[k' d'] kds IH]; simpl; [done|]. intros Hk.
  rewrite IH by set_solver. apply insert_insert_ne. set_solver.
Qed.

Lemma lookup_add_entries t kds T k d :
  NoDup kds.*1 → (k, d) ∈ kds → add_entries t kds T !! (t, k) = Some d.
Proof.
  induction kds as [|[k' d'] kds IH]; simpl; [set_solver|].
  intros [Hk' Hnd]%NoDup_cons [[= <- <-]|Hin]%elem_of_cons; [by rewrite lookup_insert_eq|].
  rewrite lookup_insert_ne; [by apply IH|]. intros [= ->]. apply Hk'.
  apply list_elem_of_fmap. by exists (k, d).
Qed.

Lemma lookup_add_entries_other t kds T k :
  k ∉ kds.*1 → add_entries t kds T !! (t, k) = T !! (t, k).
Proof.
  induction kds as [|[k' d'] kds IH]; simpl; [done|]. intros Hk.
  rewrite lookup_insert_ne by set_solver. apply IH. set_solver.
Qed.

Lemma count_entries_insert t k d T :
  T !! (t, k) = None → count_entries t (<[(t, k) := d]> T) = count_entries t T + 1.
Proof.
  intros Hk. unfold count_entries. rewrite map_filter_insert_True by done.
  rewrite map_size_insert_None; [lia|]. rewrite map_lookup_filter, Hk. done.
Qed.

Lemma count_entries_insert_ne t t' k d T :
  t ≠ t' → count_entries t (<[(t', k) := d]> T) = count_entries t T.
Proof.
  intros Ht. unfold count_entries. do 2 f_equal. apply map_eq. intros [t2 k2].
  rewrite !map_lookup_filter. destruct (decide ((t', k) = (t2, k2))) as [[= <- <-]|Hne].
  - rewrite lookup_insert_eq.
    assert (Hno : ∀ o : option datum, (x ← o; guard ((t', k, x).1.1 = t) ;; Some x) = None).
    { intros [x|]; simpl; [|done]. case_guard; simpl in *; congruence. }
    rewrite Hno. symmetry. apply Hno.
  - by rewrite lookup_insert_ne.
Qed.

Lemma lookup_del_entries t ks T t' k :
  del_entries t ks T !! (t', k) =
    if bool_decide (t' = t ∧ k ∈ ks) then None else T !! (t', k).
Proof.
  induction ks as [|k' ks IH]; simpl.
  - rewrite bool_decide_eq_false_2; [done|]. intros [_ H]. by apply not_elem_of_nil in H.
  - destruct (decide ((t, k') = (t', k))) as [[= -> ->]|Hne].
    + rewrite lookup_delete_eq, bool_decide_eq_true_2; [done|]. split; [done|set_solver].
    + rewrite lookup_delete_ne, IH by done.
      repeat case_bool_decide; set_solver.
Qed.

Lemma del_entries_cons t k ks T :
  del_entries t ks (delete (t, k) T) = del_entries t (k :: ks) T.
Proof.
  induction ks as [|k' ks IH]; simpl; [done|].
  rewrite IH. simpl. apply delete_delete.
Qed.

Lemma lookup_clear_entries t T t' k :
  clear_entries t T !! (t', k) = if decide (t' = t) then None else T !! (t', k).
Proof.
  unfold clear_entries. rewrite map_lookup_filter.
  destruct (T !! (t', k)) as [d|] eqn:E; simpl; [|by destruct (decide _)].
  destruct (decide (t' = t)) as [->|Hn].
  - rewrite option_guard_False; [done|]. intros H. by apply H.
  - by rewrite option_guard_True.
Qed.

Lemma clear_entries_subseteq t T : clear_entries t T ⊆ T.
Proof. apply map_filter_subseteq. Qed.

Lemma del_entries_subseteq t ks T : del_entries t ks T ⊆ T.
Proof.
  apply map_subseteq_spec. intros [t' k] d. rewrite lookup_del_entries.
  by case_bool_decide.
Qed.

Lemma count_entries_none t T : (∀ k, T !! (t, k) = None) → count_entries t T = 0.
Proof.
  intros Hn. unfold count_entries.
  assert (H : filter (λ e : string * key * datum, e.1.1 = t) T = ∅).
  { apply map_empty. intros [t' k]. rewrite map_lookup_filter.
    destruct (T !! (t', k)) as [d|] eqn:E; simpl; [|done].
    rewrite option_guard_False; [done|]. intros ->. by rewrite Hn in E. }
  by rewrite H, map_size_empty.
Qed.

Lemma count_entries_mono t T T' : T ⊆ T' → count_entries t T ≤ count_entries t T'.
Proof.
  intros HT. unfold count_entries. apply inj_le, map_subseteq_size, map_subseteq_spec.
  intros i x. rewrite !map_lookup_filter_Some. intros [Hx Hp]. split; [|done].
  by eapply lookup_weaken.
Qed.
