(* ===== verification/Schema.v ===== *)
(** * What the switch program lets a controller do (p4/)

    The tables, registers and counters a controller works with, with the keys,
    actions and parameters they are declared with, by the names the driver
    gives them: the pipeline's, the path of control instances and the object's
    own. [call_ok] tells whether a call of the controller fits them. *)
From S2P Require Import Prelude Bfrt.

Module Schema.

(** ** Declarations *)

Inductive match_kind := Exact | Ternary.
Record key_decl := Key { kd_name : string; kd_bits : Z; kd_kind : match_kind }.
(** An action of the control [ac_control], with its parameters and their
    widths. *)
Record action_decl := Action { ac_control : string; ac_name : string; ac_params : list (string * Z) }.

Inductive object :=
| Table (keys : list key_decl) (actions : list action_decl)
    (direct_counter const_default const_entries : bool)
| ParserTable (keys : list key_decl) (fields : list (string * Z))
| RegisterArray
| CounterArray.

(** ** The declarations of the program *)

(** p4/GetWorkerBitmap.p4 *)
Definition set_bitmap : action_decl :=
  Action "Ingress.get_worker_bitmap" "set_bitmap"
    [("mgid", 16); ("worker_type", 2); ("worker_id", 16); ("packet_type", 4); ("packet_size", 2);
     ("num_workers", 8); ("worker_bitmap", 32); ("complete_bitmap", 32); ("pool_base", 15);
     ("pool_size_minus_1", 16)].
Definition get_worker_bitmap : object :=
  Table [Key "ig_intr_md.ingress_port" 9 Ternary; Key "hdr.ethernet.src_addr" 48 Ternary;
         Key "hdr.ethernet.dst_addr" 48 Ternary; Key "hdr.ipv4.src_addr" 32 Ternary;
         Key "hdr.ipv4.dst_addr" 32 Ternary; Key "hdr.udp.dst_port" 16 Ternary]
    [Action "Ingress.get_worker_bitmap" "drop" []; set_bitmap] true true false.

(** p4/RDMAReceiver.p4: the six actions take the same parameters. *)
Definition receiver_action (name : string) : action_decl :=
  Action "Ingress.rdma_receiver" name
    [("mgid", 16); ("worker_type", 2); ("worker_id", 16); ("num_workers", 8); ("worker_bitmap", 32);
     ("packet_size", 2)].
Definition receive_roce : object :=
  Table [Key "hdr.ipv4.src_addr" 32 Exact; Key "hdr.ipv4.dst_addr" 32 Exact;
         Key "hdr.ib_bth.partition_key" 16 Exact; Key "hdr.ib_bth.opcode" 8 Exact;
         Key "hdr.ib_bth.dst_qp" 24 Ternary]
    (receiver_action <$> ["only_packet"; "only_packet_immediate"; "first_packet"; "middle_packet";
                          "last_packet"; "last_packet_immediate"]) true true false.

(** p4/RDMASender.p4 *)
Definition sender_switch_mac_and_ip : object :=
  Table [] [Action "Egress.rdma_sender" "set_switch_mac_and_ip"
              [("switch_mac", 48); ("switch_ip", 32); ("message_length", 31);
               ("first_last_mask", 15)]] false false false.
Definition create_roce_packet : object :=
  Table [Key "eg_md.switchml_md.worker_id" 16 Exact]
    [Action "Egress.rdma_sender" "fill_in_roce_fields" [("dest_mac", 48); ("dest_ip", 32)];
     Action "Egress.rdma_sender" "fill_in_roce_write_fields"
       [("dest_mac", 48); ("dest_ip", 32); ("base_addr", 64); ("rkey", 32)]] true false false.
Definition fill_in_qpn_and_psn : object :=
  Table [Key "eg_md.switchml_md.worker_id" 16 Exact; Key "eg_md.switchml_md.pool_index" 15 Ternary]
    [Action "Egress.rdma_sender" "add_qpn_and_psn" [("qpn", 24)]] false false false.

(** p4/SetDstAddr.p4 *)
Definition set_dst_switch_mac_and_ip : object :=
  Table [] [Action "Egress.set_dst_addr" "set_switch_mac_and_ip" [("switch_mac", 48); ("switch_ip", 32)]]
    false false false.
Definition set_dst_addr : object :=
  Table [Key "eg_md.switchml_md.worker_id" 16 Exact]
    [Action "Egress.set_dst_addr" "set_dst_addr_for_SwitchML_UDP"
       [("eth_dst_addr", 48); ("ip_dst_addr", 32)]] true false false.

(** p4/NonSwitchMLForward.p4 *)
Definition forward : object :=
  Table [Key "hdr.ethernet.dst_addr" 48 Exact]
    [Action "Ingress.non_switchml_forward" "set_egress_port" [("egress_port", 9)];
     Action "Ingress.non_switchml_forward" "flood" [("flood_mgid", 16)]] false false false.

(** p4/ARPandICMP.p4; [isValid()] of a header is its field [$valid]. *)
Definition arp_and_icmp : object :=
  Table [Key "hdr.arp_ipv4.$valid" 1 Exact; Key "hdr.icmp.$valid" 1 Exact;
         Key "hdr.arp.opcode" 16 Ternary; Key "hdr.arp_ipv4.dst_proto_addr" 32 Ternary;
         Key "hdr.icmp.msg_type" 8 Ternary; Key "hdr.ipv4.dst_addr" 32 Ternary]
    [Action "Ingress.arp_and_icmp" "send_arp_reply" [("switch_mac", 48); ("switch_ip", 32)];
     Action "Ingress.arp_and_icmp" "send_icmp_echo_reply" [("switch_mac", 48); ("switch_ip", 32)]]
    false false false.

(** The port metadata of p4/types.p4, which the parser looks up. *)
Definition port_metadata : object :=
  ParserTable [Key "ig_intr_md.ingress_port" 9 Exact]
    [("ingress_drop_probability", 16); ("egress_drop_probability", 16)].

(** p4/NextStep.p4 *)
Definition recirc_port : object :=
  Table [] [Action "Ingress.next_step" "set_alternate_recirc_port" [("port", 9)]] false false false.

(** The tables whose entries are written in the program, with their keys;
    their actions matter to no call, and are left out. *)
Definition constant_table (keys : list key_decl) : object := Table keys [] false true true.
Definition update_and_check_worker_bitmap : object :=
  constant_table [Key "ig_md.switchml_md.pool_index" 15 Ternary;
                  Key "ig_md.switchml_md.packet_type" 4 Ternary;
                  Key "ig_md.port_metadata.ingress_drop_probability" 16 Ternary].
Definition count_workers : object :=
  constant_table [Key "ig_md.switchml_md.num_workers" 8 Ternary; Key "ig_md.map_result" 32 Ternary;
                  Key "ig_md.switchml_md.packet_type" 4 Ternary].
Definition bitmap_keys : list key_decl :=
  [Key "ig_md.worker_bitmap_before" 32 Ternary; Key "ig_md.map_result" 32 Ternary;
   Key "ig_md.switchml_md.packet_type" 4 Ternary].
Definition exponent_max : object := constant_table bitmap_keys.
Definition significand_sum : object := constant_table bitmap_keys.
Definition next_step : object :=
  constant_table [Key "ig_md.switchml_md.packet_size" 2 Ternary;
                  Key "ig_md.switchml_md.worker_id" 16 Ternary;
                  Key "ig_md.switchml_md.packet_type" 4 Ternary;
                  Key "ig_md.first_last_flag" 8 Ternary; Key "ig_md.map_result" 32 Ternary;
                  Key "ig_md.switchml_md.worker_type" 2 Ternary;
                  Key "use_alternate_recirc_port" 1 Ternary].

(** The instances of [SignificandSum] in p4/switchml.p4. *)
Definition sums : list string :=
  ["sum00"; "sum01"; "sum02"; "sum03"; "sum04"; "sum05"; "sum06"; "sum07"; "sum08"; "sum09"; "sum10";
   "sum11"; "sum12"; "sum13"; "sum14"; "sum15"; "sum16"; "sum17"; "sum18"; "sum19"; "sum20"; "sum21";
   "sum22"; "sum23"; "sum24"; "sum25"; "sum26"; "sum27"; "sum28"; "sum29"; "sum30"; "sum31"].

(** The objects of the pipeline, by the instances of p4/switchml.p4. *)
Definition objects : list (string * object) :=
  [("pipe.Ingress.get_worker_bitmap.get_worker_bitmap", get_worker_bitmap);
   ("pipe.Ingress.rdma_receiver.receive_roce", receive_roce);
   ("pipe.Ingress.rdma_receiver.rdma_packet_counter", CounterArray);
   ("pipe.Ingress.rdma_receiver.rdma_message_counter", CounterArray);
   ("pipe.Ingress.rdma_receiver.rdma_sequence_violation_counter", CounterArray);
   ("pipe.Ingress.egress_drop_sim.simulated_drop_packet_counter", CounterArray);
   ("pipe.Egress.rdma_sender.switch_mac_and_ip", sender_switch_mac_and_ip);
   ("pipe.Egress.rdma_sender.create_roce_packet", create_roce_packet);
   ("pipe.Egress.rdma_sender.fill_in_qpn_and_psn", fill_in_qpn_and_psn);
   ("pipe.Egress.set_dst_addr.switch_mac_and_ip", set_dst_switch_mac_and_ip);
   ("pipe.Egress.set_dst_addr.set_dst_addr", set_dst_addr);
   ("pipe.Ingress.non_switchml_forward.forward", forward);
   ("pipe.Ingress.arp_and_icmp.arp_and_icmp", arp_and_icmp);
   ("pipe.IngressParser.$PORT_METADATA", port_metadata);
   ("pipe.Ingress.update_and_check_worker_bitmap.update_and_check_worker_bitmap",
     update_and_check_worker_bitmap);
   ("pipe.Ingress.update_and_check_worker_bitmap.worker_bitmap", RegisterArray);
   ("pipe.Ingress.count_workers.count_workers", count_workers);
   ("pipe.Ingress.count_workers.worker_count", RegisterArray);
   ("pipe.Ingress.exponent_max.exponent_max", exponent_max);
   ("pipe.Ingress.exponent_max.exponents", RegisterArray);
   ("pipe.Ingress.next_step.next_step", next_step);
   ("pipe.Ingress.next_step.recirc_port", recirc_port);
   ("pipe.Ingress.next_step.broadcast_counter", CounterArray);
   ("pipe.Ingress.next_step.retransmit_counter", CounterArray);
   ("pipe.Ingress.next_step.recirculate_counter", CounterArray);
   ("pipe.Ingress.next_step.drop_counter", CounterArray);
   ("pipe.Ingress.debug_packet_id.counter", RegisterArray);
   ("pipe.Ingress.debug_log.log", RegisterArray);
   ("pipe.Egress.debug_log.log", RegisterArray)]
  ++ ((λ s, ("pipe.Ingress." +:+ s +:+ ".significand_sum", significand_sum)%string) <$> sums)
  ++ ((λ s, ("pipe.Ingress." +:+ s +:+ ".significands", RegisterArray)%string) <$> sums).

Definition find_object (t : string) : option object :=
  (λ x, x.2.2) <$> list_find (λ e, e.1 = t) objects.

(** The driver's own tables, which no program declares. *)
Definition driver_tables : list string :=
  ["$PORT"; "$PORT_STAT"; "$PORT_HDL_INFO"; "$PKTGEN_PORT_CFG"; "$pre.mgid"; "$pre.node"; "$pre.ecmp";
   "$pre.lag"; "$pre.prune"; "$pre.port"; "$mirror.cfg"].

(** ** Fitting a declaration *)

(** A number, or an address as text where the field has the width of one;
    whether a number is within the width is not asked. *)
Definition value_ok (bits : Z) (v : pyval) : bool :=
  match v with
  | VInt _ => true
  | VStr _ => bool_decide (bits = 48 ∨ bits = 32)
  | _ => false
  end.

Definition is_ternary (kd : key_decl) : bool := match kd_kind kd with Ternary => true | Exact => false end.

(** A mask needs a ternary field. *)
Definition field_ok (kt : keytuple) (kd : key_decl) : bool :=
  bool_decide (kt_name kt = kd_name kd) && value_ok (kd_bits kd) (kt_value kt) &&
  match kt_mask kt with Some m => is_ternary kd && value_ok (kd_bits kd) m | None => true end.

(** Every field of the key is given, once, and nothing else but the priority a
    table with ternary fields has. *)
Definition key_ok (ks : list key_decl) (k : key) : bool :=
  forallb (λ kt, existsb (field_ok kt) ks ||
                 (bool_decide (kt_name kt = "$MATCH_PRIORITY") && existsb is_ternary ks)) k &&
  forallb (λ kd, bool_decide (kd_name kd ∈ kt_name <$> k)) ks &&
  bool_decide (NoDup (kt_name <$> k)).

(** The parameters are given, once each. *)
Definition params_ok (ps : list (string * Z)) (fs : list (string * pyval)) : bool :=
  forallb (λ f : string * pyval, existsb (λ p : string * Z,
             bool_decide (f.1 = p.1) && value_ok p.2 f.2) ps) fs &&
  forallb (λ p : string * Z, bool_decide (p.1 ∈ fs.*1)) ps &&
  bool_decide (NoDup fs.*1).

(** An action is named with its control or without. *)
Definition names_action (name : string) (a : action_decl) : bool :=
  bool_decide (name = ac_name a ∨ name = (ac_control a +:+ "." +:+ ac_name a)%string).
Definition data_ok (acts : list action_decl) (d : datum) : bool :=
  match dt_action d with
  | Some name => existsb (λ a, names_action name a && params_ok (ac_params a) (dt_fields d)) acts
  | None => false
  end.

Definition counts_only (d : datum) : bool := forallb counter_field (dt_fields d).
Definition index_key (field : string) (k : key) : bool :=
  match k with [KeyTupleM n (VInt _) None] => bool_decide (n = field) | _ => false end.

Definition annotation_ok (kind : string) (bits : Z) : bool :=
  bool_decide (kind = "mac" ∧ bits = 48 ∨ kind = "ipv4" ∧ bits = 32).

(** A key of the object. *)
Definition object_key_ok (o : object) (k : key) : bool :=
  match o with
  | Table ks _ _ _ _ | ParserTable ks _ => key_ok ks k
  | RegisterArray => index_key "$REGISTER_INDEX" k
  | CounterArray => index_key "$COUNTER_INDEX" k
  end.
(** Data of an entry. *)
Definition object_data_ok (o : object) (d : datum) : bool :=
  match o with
  | Table _ acts _ _ _ => data_ok acts d
  | ParserTable _ fs => bool_decide (dt_action d = None) && params_ok fs (dt_fields d)
  | RegisterArray => false
  | CounterArray => bool_decide (dt_action d = None) && counts_only d
  end.
Definition entries_constant (o : object) : bool :=
  match o with Table _ _ _ _ c => c | _ => false end.
(** Entries written in the program stay; the others have a key each and data
    that fits. *)
Definition write_ok (o : object) (ks : list key) (ds : list datum) : bool :=
  negb (entries_constant o) && bool_decide (length ks = length ds) &&
  forallb (object_key_ok o) ks && forallb (object_data_ok o) ds.

(** Whether a call fits the object it is about. Counters of entries are
    rewritten by the keys that were read. *)
Definition fits (o : object) (c : bfcall) : bool :=
  match o, c with
  | _, TableGet _ => true
  | Table ks _ _ _ _, KeyAnnotation _ f kind =>
      existsb (λ kd, bool_decide (kd_name kd = f) && annotation_ok kind (kd_bits kd)) ks
  | Table _ acts _ _ _, DataAnnotation _ f a kind =>
      existsb (λ ac, names_action a ac && existsb (λ p : string * Z,
        bool_decide (p.1 = f) && annotation_ok kind p.2) (ac_params ac)) acts
  | _, EntryAdd _ ks (Some ds) => write_ok o ks ds
  | Table _ _ true _ _, EntryMod _ ks ds =>
      bool_decide (length ks = length ds) && forallb counts_only ds || write_ok o ks ds
  | _, EntryMod _ ks ds => write_ok o ks ds
  | _, EntryDel _ None => negb (entries_constant o)
  | _, EntryDel _ (Some ks) => negb (entries_constant o) && forallb (object_key_ok o) ks
  | _, EntryGet _ None _ => true
  | _, EntryGet _ (Some ks) _ => forallb (object_key_ok o) ks
  | Table _ acts _ const _, DefaultEntrySet _ d => negb const && data_ok acts d
  | Table _ _ _ const _, DefaultEntryReset _ => negb const
  | Table _ _ true _ _, OperationsExecute _ op => bool_decide (op = "SyncCounters")
  | (RegisterArray | CounterArray), OperationsExecute _ op => bool_decide (op = "Sync")
  | _, _ => false
  end.

(** Whether a call fits the switch: it names a table of the driver, or an
    object of the program that it fits. *)
Definition call_ok (c : bfcall) : bool :=
  bool_decide (call_table c ∈ driver_tables) ||
  match find_object (call_table c) with Some o => fits o c | None => false end.

(** ** Names *)

(** The fields of an action's data are among its parameters. *)
Definition data_known (acts : list action_decl) (d : datum) : bool :=
  match dt_action d with
  | Some name => existsb (λ a, names_action name a &&
                   forallb (λ f : string * pyval, bool_decide (f.1 ∈ (ac_params a).*1)) (dt_fields d)) acts
  | None => false
  end.
Definition key_known (ks : list key_decl) (k : key) : bool :=
  forallb (λ kt, bool_decide (kt_name kt ∈ "$MATCH_PRIORITY" :: (kd_name <$> ks))) k.

(** Whether the fields that a call names are declared with its table: those of
    an entry that is added, of a default action, of an annotation. Parameters
    may be missing. *)
Definition fields_known (c : bfcall) : bool :=
  match c with
  | EntryAdd t kk (Some ds) =>
      match find_object t with
      | Some (Table ks acts _ _ _) => forallb (key_known ks) kk && forallb (data_known acts) ds
      | _ => true
      end
  | DefaultEntrySet t d =>
      match find_object t with Some (Table _ acts _ _ _) => data_known acts d | _ => true end
  | KeyAnnotation t f _ =>
      match find_object t with Some (Table ks _ _ _ _) => bool_decide (f ∈ kd_name <$> ks) | _ => true end
  | DataAnnotation t f a _ =>
      match find_object t with
      | Some (Table _ acts _ _ _) =>
          existsb (λ ac, names_action a ac && bool_decide (f ∈ (ac_params ac).*1)) acts
      | _ => true
      end
  | _ => true
  end.

(** The fields of an entry that fits are known. *)
Lemma key_ok_known ks k : key_ok ks k = true → key_known ks k = true.
Proof.
  unfold key_ok, key_known. rewrite !andb_true_iff, !forallb_forall. intros [[Hf _] _] kt Hkt.
  specialize (Hf kt Hkt). apply bool_decide_eq_true. apply orb_true_iff in Hf as [Hf|Hp].
  - apply existsb_exists in Hf as (kd & Hkd & Hok). unfold field_ok in Hok.
    rewrite !andb_true_iff, bool_decide_eq_true in Hok. destruct Hok as [[-> _] _]. right.
    apply list_elem_of_fmap_2. by apply list_elem_of_In.
  - rewrite andb_true_iff, bool_decide_eq_true in Hp. destruct Hp as [-> _]. left.
Qed.
Lemma data_ok_known acts d : data_ok acts d = true → data_known acts d = true.
Proof.
  unfold data_ok, data_known. destruct (dt_action d) as [name|]; [|done].
  rewrite !existsb_exists. intros (a & Ha & [Hn Hp]%andb_true_iff). exists a. split; [done|].
  rewrite Hn. unfold params_ok in Hp. rewrite !andb_true_iff, forallb_forall in Hp.
  destruct Hp as [[Hf _] _]. apply forallb_forall. intros f Hin.
  specialize (Hf f Hin). apply existsb_exists in Hf as (p & Hp & Heq).
  apply andb_true_iff in Heq as [He _]. rewrite bool_decide_eq_true in He. rewrite He.
  apply bool_decide_eq_true, list_elem_of_fmap_2. by apply list_elem_of_In.
Qed.

Lemma driver_tables_elsewhere t : t ∈ driver_tables → find_object t = None.
Proof. revert t. apply Forall_forall. repeat (constructor; [reflexivity|]). constructor. Qed.

Lemma add_ok_known t ks ds :
  call_ok (EntryAdd t ks (Some ds)) = true → fields_known (EntryAdd t ks (Some ds)) = true.
Proof.
  unfold call_ok, fields_known. cbn [call_table]. rewrite orb_true_iff, bool_decide_eq_true.
  intros [Ht|Ho]; [by rewrite driver_tables_elsewhere|].
  destruct (find_object t) as [o|]; [|done].
  assert (Hw : write_ok o ks ds = true) by (by destruct o as [? ? [] ? ?| | |]).
  destruct o as [kds acts dc ac const| | |]; try done.
  unfold write_ok in Hw. rewrite !andb_true_iff, !forallb_forall in Hw.
  destruct Hw as [[[_ _] Hk] Hd]. rewrite andb_true_iff, !forallb_forall. split.
  - intros k Hin. by apply key_ok_known, Hk.
  - intros d Hin. by apply data_ok_known, Hd.
Qed.
End Schema.
