(* ===== verification/Live.v ===== *)
(** * When a call of the driver succeeds

    The last of the classes that stand for the driver. Whether an entry can be
    added depends on the switch program: the fields of its key and of its data
    are those that the table is declared with in p4/ ([Schema]). *)
From S2P Require Import Prelude PyMonad Bfrt Schema.
Import Schema.

(** When calls do not fail, and that a name that is not declared makes them:
    the client looks the fields of a key and of data up among the declarations
    before it sends anything. *)
Class BfrtLive `{SF : BfrtSafe} := {
  live_client c s : client_side c = true → fields_known c = true → (bf_call c s).1 = RDone;
  live_mod t ks ds s : t ∈ match_tables → length ks = length ds →
    call_ok (EntryMod t ks ds) = true →
    (∀ k, k ∈ ks → is_Some (view s !! (t, k))) →
    (bf_call (EntryMod t ks ds) s).1 = RDone;
  live_counter_add t ks ds s : t ∈ counter_tables → length ks = length ds →
    (∀ k, k ∈ ks → ∃ i, k = counter_key i ∧ 0 ≤ i < bf_size t) →
    (bf_call (EntryAdd t ks (Some ds)) s).1 = RDone;
  live_counter_mod t ks ds s : t ∈ counter_tables → length ks = length ds →
    (∀ k, k ∈ ks → ∃ i, k = counter_key i ∧ 0 ≤ i < bf_size t) →
    (bf_call (EntryMod t ks ds) s).1 = RDone;
  live_get t s b : ∃ rows, (bf_call (EntryGet t None b) s).1 = RRows rows;
  live_hdl_all s : ∃ rows,
    (bf_call (EntryGet "$PORT_HDL_INFO" (Some []) false) s).1 = RRows rows;
  live_add t ks ds s : t ∈ match_tables → NoDup ks → length ks = length ds →
    call_ok (EntryAdd t ks (Some ds)) = true →
    (∀ k, k ∈ ks → view s !! (t, k) = None) →
    count_entries t (view s) + Z.of_nat (length ks) ≤ bf_size t →
    (bf_call (EntryAdd t ks (Some ds)) s).1 = RDone;
  live_del t k s : t ∈ match_tables → is_Some (view s !! (t, k)) →
    (bf_call (EntryDel t (Some [k])) s).1 = RDone;
  live_del_absent t k s : t ∈ match_tables → t ≠ "$PORT" → view s !! (t, k) = None →
    (bf_call (EntryDel t (Some [k])) s).1 = RRaise BfruntimeReadWriteRpcException;
  live_del_ports ks s : (bf_call (EntryDel "$PORT" (Some ks)) s).1 = RDone;
  live_clear t s : (bf_call (EntryDel t None) s).1 = RDone;
  live_inc_add g d ids s old : data_nodes d = Some ids → groups s !! g = Some old →
    (∀ i, i ∈ ids → i ∉ old ∧ is_Some (view s !! ("$pre.node", node_key i))) →
    (bf_call (EntryModInc "$pre.mgid" [mgid_key g] [d] MOD_INC_ADD) s).1 = RDone;
  live_inc_del g d ids s old : data_nodes d = Some ids → groups s !! g = Some old →
    (∀ i, i ∈ ids → i ∈ old) →
    (bf_call (EntryModInc "$pre.mgid" [mgid_key g] [d] MOD_INC_DELETE) s).1 = RDone;
  live_mgid_add g d s : data_nodes d = Some [] → groups s !! g = None →
    (bf_call (EntryAdd "$pre.mgid" [mgid_key g] (Some [d])) s).1 = RDone;
  live_mgid_del g s : is_Some (groups s !! g) →
    (bf_call (EntryDel "$pre.mgid" (Some [mgid_key g])) s).1 = RDone;
  live_mgid_del_absent g s : groups s !! g = None →
    (bf_call (EntryDel "$pre.mgid" (Some [mgid_key g])) s).1 = RRaise BfruntimeReadWriteRpcException;
  live_cpu_port p d s :
    (bf_call (EntryAdd "$pre.port" [[KeyTuple "$DEV_PORT" (VInt p)]] (Some [d])) s).1 = RDone;
  live_unknown c s : fields_known c = false →
    (∃ e, (bf_call c s).1 = RRaise e) ∧ view (bf_call c s).2 = view s ∧
    groups (bf_call c s).2 = groups s;
  live_rpc_inc g d flag s e :
    (bf_call (EntryModInc "$pre.mgid" [mgid_key g] [d] flag) s).1 = RRaise e →
    e = BfruntimeReadWriteRpcException
}.
