(* ===== verification/World.v ===== *)
(** * The controller's objects

    One [Job] object owns one object per switch block, and several of them hold
    references to the same [Ports]; there is never a second instance. The heap
    of the program is therefore one record, [world]: the attributes of each
    object, the driver behind the client library, the calls made so far and the
    lines printed or logged so far. The file also gives the statements that
    touch the world directly: a client call, [print], [logger.info]. *)
From S2P Require Import Prelude PyMonad PyNum Bfrt Schema Live.

(** ** Attributes, one record per class that keeps state *)

(** py/Ports.py, [Ports.__init__]. *)
Record PortsState := {
  dev_port_to_fp_port : option (gmap Z (Z * Z));
  active_ports : list Z
}.

(** py/PRE.py, [PRE.__init__]. *)
Record PREState := {
  pre_switchml_mgid : Z;
  pre_all_mgid : Z;
  pre_cpu_port : Z;
  rid_counter : Z;
  rids : gmap Z (gmap Z Z)
}.

(** py/NonSwitchMLForward.py, [NonSwitchMLForward.__init__]. *)
Record ForwardState := {
  fwd_mgid : Z;
  mac_addresses : gmap string (Z * Z)
}.

(** py/RDMAReceiver.py, [RDMAReceiver.__init__]. *)
Record ReceiverState := {
  worker_ids : list Z;
  worker_counter_offset : Z
}.

(** py/Mirror.py, [Mirror.__init__]. *)
Record MirrorState := {
  mirror_port : Z;
  sessions : list Z
}.

(** py/ARPandICMP.py, [ARPandICMP.__init__]: [None] until the address is set. *)
Record ArpState := {
  arp_switch_mac : option string;
  arp_switch_ip : option string
}.

(** py/DropSimulator.py, [DropSimulator.__init__]. *)
Record DropState := {
  ingress_drop_probability : pynum;
  egress_drop_probability : pynum
}.

(** The switch address an egress block copies at construction
    (py/SetDstAddr.py and py/RDMASender.py, [__init__]). *)
Record SwitchAddr := {
  addr_mac : string;
  addr_ip : string
}.

(** py/Job.py, [Job.__init__]: the job's own attributes. *)
Record JobState := {
  switch_mac : string;
  switch_ip : string;
  switch_udp_port : Z;
  switch_udp_port_mask : Z;
  switch_partition_key : Z;
  switchml_workers_mgid : Z;
  all_ports_mgid : Z;
  cpu_port : Z
}.

(** A printed or logged line: the format string and its arguments, before
    Python formats them. *)
Inductive line :=
| Printed (fmt : string) (args : list pyval)
| Logged (level fmt : string) (args : list pyval)
| PrettyPrinted (r : row).

(** The order in which a Python 2 dict yields its items is not specified; it
    is some order of them. *)
Class DictOrder := {
  dict_items : ∀ {K : Type} `{Countable K} {A : Type}, gmap K A → list (K * A);
  dict_items_perm : ∀ {K : Type} `{Countable K} {A : Type} (d : gmap K A),
    dict_items d ≡ₚ map_to_list d
}.

Section world.
Context `{BF : Bfrt}.

Record world := World {
  w_sw : sw;
  w_calls : list bfcall;
  w_out : list line;
  w_ports : PortsState;
  w_pre : PREState;
  w_fwd : ForwardState;
  w_rx : ReceiverState;
  w_mirror : MirrorState;
  w_arp : ArpState;
  w_setdst : SwitchAddr;
  w_sender : SwitchAddr;
  w_job : JobState;
  w_drop : DropState
}.

Definition set_switch (s : sw) (c : bfcall) (w : world) : world :=
  World s (w_calls w ++ [c]) (w_out w) (w_ports w) (w_pre w) (w_fwd w) (w_rx w)
    (w_mirror w) (w_arp w) (w_setdst w) (w_sender w) (w_job w) (w_drop w).
Definition add_line (l : line) (w : world) : world :=
  World (w_sw w) (w_calls w) (w_out w ++ [l]) (w_ports w) (w_pre w) (w_fwd w) (w_rx w)
    (w_mirror w) (w_arp w) (w_setdst w) (w_sender w) (w_job w) (w_drop w).
Definition set_ports (p : PortsState) (w : world) : world :=
  World (w_sw w) (w_calls w) (w_out w) p (w_pre w) (w_fwd w) (w_rx w)
    (w_mirror w) (w_arp w) (w_setdst w) (w_sender w) (w_job w) (w_drop w).
Definition set_pre (p : PREState) (w : world) : world :=
  World (w_sw w) (w_calls w) (w_out w) (w_ports w) p (w_fwd w) (w_rx w)
    (w_mirror w) (w_arp w) (w_setdst w) (w_sender w) (w_job w) (w_drop w).
Definition set_fwd (p : ForwardState) (w : world) : world :=
  World (w_sw w) (w_calls w) (w_out w) (w_ports w) (w_pre w) p (w_rx w)
    (w_mirror w) (w_arp w) (w_setdst w) (w_sender w) (w_job w) (w_drop w).
Definition set_rx (p : ReceiverState) (w : world) : world :=
  World (w_sw w) (w_calls w) (w_out w) (w_ports w) (w_pre w) (w_fwd w) p
    (w_mirror w) (w_arp w) (w_setdst w) (w_sender w) (w_job w) (w_drop w).
Definition set_mirror (p : MirrorState) (w : world) : world :=
  World (w_sw w) (w_calls w) (w_out w) (w_ports w) (w_pre w) (w_fwd w) (w_rx w)
    p (w_arp w) (w_setdst w) (w_sender w) (w_job w) (w_drop w).
Definition set_arp (p : ArpState) (w : world) : world :=
  World (w_sw w) (w_calls w) (w_out w) (w_ports w) (w_pre w) (w_fwd w) (w_rx w)
    (w_mirror w) p (w_setdst w) (w_sender w) (w_job w) (w_drop w).
Definition set_setdst (p : SwitchAddr) (w : world) : world :=
  World (w_sw w) (w_calls w) (w_out w) (w_ports w) (w_pre w) (w_fwd w) (w_rx w)
    (w_mirror w) (w_arp w) p (w_sender w) (w_job w) (w_drop w).
Definition set_sender (p : SwitchAddr) (w : world) : world :=
  World (w_sw w) (w_calls w) (w_out w) (w_ports w) (w_pre w) (w_fwd w) (w_rx w)
    (w_mirror w) (w_arp w) (w_setdst w) p (w_job w) (w_drop w).
Definition set_job (p : JobState) (w : world) : world :=
  World (w_sw w) (w_calls w) (w_out w) (w_ports w) (w_pre w) (w_fwd w) (w_rx w)
    (w_mirror w) (w_arp w) (w_setdst w) (w_sender w) p (w_drop w).
Definition set_drop (p : DropState) (w : world) : world :=
  World (w_sw w) (w_calls w) (w_out w) (w_ports w) (w_pre w) (w_fwd w) (w_rx w)
    (w_mirror w) (w_arp w) (w_setdst w) (w_sender w) (w_job w) p.

(** ** Statements *)

(** A client call: the driver moves, and its failure is raised. *)
Definition bf_do (c : bfcall) : M world bfresp := λ w,
  match bf_call c (w_sw w) with
  | (RRaise e, s) => (Raise e, set_switch s c w)
  | (r, s) => (Ok r, set_switch s c w)
  end.

(** A call whose result is not used. *)
Definition bf (c : bfcall) : M world unit := bf_do c ;; mret tt.

(** [entry_get]: the rows it yields. *)
Definition entry_get (t : string) (ks : option (list key)) (from_hw : bool) : M world (list row) :=
  r ← bf_do (EntryGet t ks from_hw);
  match r with RRows rows => mret rows | _ => mret [] end.

Definition print (fmt : string) (args : list pyval) : M world unit :=
  modify (add_line (Printed fmt args)).
Definition log_info (fmt : string) (args : list pyval) : M world unit :=
  modify (add_line (Logged "info" fmt args)).
Definition log_error (fmt : string) (args : list pyval) : M world unit :=
  modify (add_line (Logged "error" fmt args)).

(** [pprint((k, v))] of a row's dictionaries. *)
Definition pprint_row (r : row) : M world unit := modify (add_line (PrettyPrinted r)).

(** [v['$FIELD']] of a row, as an integer: a missing field is a [KeyError]. *)
Definition field_int (d : gmap string pyval) (f : string) : M world Z :=
  match d !! f with
  | Some (VInt z) => mret z
  | Some _ => raise TypeError
  | None => raise KeyError
  end.

(** The world after the driver has served a call. *)
Definition after (c : bfcall) (w : world) : world :=
  set_switch (bf_call c (w_sw w)).2 c w.

(** ** Running a call *)

Lemma run_bf_done c w :
  (bf_call c (w_sw w)).1 = RDone →
  bf c w = (Ok tt, after c w).
Proof.
  unfold after. intros H. unfold bf. rewrite run_bind. unfold bf_do.
  destruct (bf_call c (w_sw w)) as [r s]. simpl in *. by subst.
Qed.

Lemma run_bf_raise c w e :
  (bf_call c (w_sw w)).1 = RRaise e →
  bf c w = (Raise e, after c w).
Proof.
  unfold after. intros H. unfold bf. rewrite run_bind. unfold bf_do.
  destruct (bf_call c (w_sw w)) as [r s]. simpl in *. by subst.
Qed.

(** Every call ends in the world where the driver has moved. *)
Lemma run_bf_world c w : (bf c w).2 = after c w.
Proof.
  unfold after, bf. rewrite run_bind. unfold bf_do.
  by destruct (bf_call c (w_sw w)) as [[] s].
Qed.

Lemma run_entry_get t ks b w rows :
  (bf_call (EntryGet t ks b) (w_sw w)).1 = RRows rows →
  entry_get t ks b w =
    (Ok rows, after (EntryGet t ks b) w).
Proof.
  unfold after. intros H. unfold entry_get. rewrite run_bind. unfold bf_do.
  destruct (bf_call _ (w_sw w)) as [r s]. simpl in *. by subst.
Qed.

Lemma run_entry_get_world t ks b w :
  (entry_get t ks b w).2 =
    after (EntryGet t ks b) w.
Proof.
  unfold after, entry_get. rewrite run_bind. unfold bf_do.
  by destruct (bf_call _ (w_sw w)) as [[] s].
Qed.

Lemma run_print f a w : print f a w = (Ok tt, add_line (Printed f a) w).
Proof. done. Qed.
Lemma run_log_info f a w : log_info f a w = (Ok tt, add_line (Logged "info" f a) w).
Proof. done. Qed.
Lemma run_log_error f a w : log_error f a w = (Ok tt, add_line (Logged "error" f a) w).
Proof. done. Qed.

(** ** Preorders on worlds *)

Section preorder.
Context (R : world → world → Prop) `{!PreOrder R}.

Lemma stable_bf c :
  (∀ w, R w (after c w)) → stable R (bf c).
Proof. intros H w. rewrite run_bf_world. apply H. Qed.

Lemma stable_entry_get t ks b :
  (∀ w, R w (after (EntryGet t ks b) w)) →
  stable R (entry_get t ks b).
Proof. intros H w. rewrite run_entry_get_world. apply H. Qed.

Lemma stable_field_int d f : stable R (field_int d f).
Proof. unfold field_int. repeat case_match; stable_walk. Qed.

Lemma stable_line fmt args :
  (∀ l w, R w (add_line l w)) →
  stable R (print fmt args) ∧ stable R (log_info fmt args) ∧ stable R (log_error fmt args).
Proof. intros H. repeat split; intros w; apply H. Qed.

Lemma stable_pprint r : (∀ l w, R w (add_line l w)) → stable R (pprint_row r).
Proof. intros H w. apply H. Qed.
End preorder.
End world.

(** ** The world's view of the switch *)

Section observe.
Context `{SF : BfrtSafe}.

Definition wview (w : world) : entries := view (w_sw w).
Definition wgroups (w : world) : gmap Z (list Z) := groups (w_sw w).

Lemma wview_after_ne c w t k :
  call_table c ≠ t → wview (after c w) !! (t, k) = wview w !! (t, k).
Proof. apply view_frame. Qed.

Lemma wview_after_keeps c w : keeps_entries c = true → wview (after c w) = wview w.
Proof. apply view_keeps. Qed.

Lemma wgroups_after c w :
  call_table c ≠ "$pre.mgid" → call_table c ≠ "$pre.node" → wgroups (after c w) = wgroups w.
Proof. apply groups_frame. Qed.

(** The attributes of all objects. *)
Definition attrs (w : world) :=
  (w_ports w, w_pre w, w_fwd w, w_rx w, w_mirror w, w_arp w, w_setdst w, w_sender w, w_job w, w_drop w).

(** [looks w0 V G w]: the objects of [w] are those of [w0], its switch has the
    entries [V] and the multicast groups [G]. What [w] has called and printed
    is left open. *)
Definition looks (w0 : world) (V : entries) (G : gmap Z (list Z)) (w : world) : Prop :=
  attrs w = attrs w0 ∧ wview w = V ∧ wgroups w = G.

(** Nothing observable has changed. *)
Definition quiet (w w' : world) : Prop := looks w (wview w) (wgroups w) w'.

#[export] Instance quiet_preorder : PreOrder quiet.
Proof.
  split; [by intros w|]. intros w1 w2 w3 (H1 & H2 & H3) (H4 & H5 & H6).
  unfold quiet, looks. repeat split; congruence.
Qed.

Lemma looks_refl w : looks w (wview w) (wgroups w) w.
Proof. done. Qed.

Lemma looks_trans w0 V G w1 w2 : looks w0 V G w1 → quiet w1 w2 → looks w0 V G w2.
Proof.
  intros (H1 & H2 & H3) (H4 & H5 & H6). unfold looks. repeat split; congruence.
Qed.

Lemma quiet_line l w : quiet w (add_line l w).
Proof. done. Qed.

Lemma quiet_keeps c w :
  keeps_entries c = true → call_table c ≠ "$pre.mgid" → call_table c ≠ "$pre.node" →
  quiet w (after c w).
Proof.
  intros H1 H2 H3. split; [done|].
  split; [by apply wview_after_keeps | by apply wgroups_after].
Qed.

(** A call about a table whose entries the model does not observe. *)
Lemma quiet_unseen c w :
  call_table c ∉ match_tables → call_table c ≠ "$pre.mgid" → quiet w (after c w).
Proof.
  intros Ht Hm. split; [done|]. split; [by apply view_unseen|].
  apply wgroups_after; [done|]. intros Hn. apply Ht. rewrite Hn.
  apply (bool_decide_unpack _). vm_compute. exact I.
Qed.

Lemma ends_print f a w0 V G w :
  looks w0 V G w → ends (print f a) w (Ok tt) (looks w0 V G).
Proof. intros H. by eexists. Qed.
Lemma ends_log_info f a w0 V G w :
  looks w0 V G w → ends (log_info f a) w (Ok tt) (looks w0 V G).
Proof. intros H. by eexists. Qed.
Lemma ends_log_error f a w0 V G w :
  looks w0 V G w → ends (log_error f a) w (Ok tt) (looks w0 V G).
Proof. intros H. by eexists. Qed.

(** An attribute read through [looks]. *)
Lemma ends_attr {A} (f : world → A) w0 V G w :
  (∀ w1 w2, attrs w1 = attrs w2 → f w1 = f w2) →
  looks w0 V G w → ends (gets f) w (Ok (f w0)) (looks w0 V G).
Proof. intros Hf H. apply ends_gets; [apply Hf, H|done]. Qed.

(** An assignment to attributes through [looks]. *)
Lemma ends_assign (f : world → world) w0 V G w :
  (∀ w1 w2, attrs w1 = attrs w2 → attrs (f w1) = attrs (f w2)) →
  (∀ w1, w_sw (f w1) = w_sw w1) →
  looks w0 V G w → ends (modify f) w (Ok tt) (looks (f w0) V G).
Proof.
  intros Hf Hs (H1 & H2 & H3). apply ends_modify. unfold looks, wview, wgroups in *.
  rewrite Hs. split; [by apply Hf|done].
Qed.
Lemma match_not_mgid t : t ∈ match_tables → t ≠ "$pre.mgid".
Proof.
  intros Ht ->. apply (bool_decide_pack _) in Ht. by vm_compute in Ht.
Qed.

Lemma groups_after_entries c w :
  match c with EntryDel "$pre.node" _ => False | _ => True end →
  call_table c ≠ "$pre.mgid" → wgroups (after c w) = wgroups w.
Proof.
  intros Hc Hm. destruct (decide (call_table c = "$pre.node")) as [Hn|Hn].
  - apply groups_node; [done|]. intros ks ->. done.
  - by apply wgroups_after.
Qed.

(** An [entry_add] that may fail: nothing is lost when it does. *)
Lemma safe_add t ks ds w0 V G w :
  t ∈ match_tables → looks w0 V G w →
  (ends (bf (EntryAdd t ks (Some ds))) w (Ok tt) (looks w0 (add_entries t (zip ks ds) V) G) ∧
   ∀ k, k ∈ ks → V !! (t, k) = None) ∨
  (∃ e V', V ⊆ V' ∧ ends (bf (EntryAdd t ks (Some ds))) w (Raise e) (looks w0 V' G)).
Proof.
  intros Ht (Ha & HV & HG). subst V G.
  pose proof (view_add t ks ds (w_sw w) Ht) as Hv.
  pose proof (groups_after_entries (EntryAdd t ks (Some ds)) w I (match_not_mgid t Ht)) as Hg.
  set (c := EntryAdd t ks (Some ds)) in *.
  destruct (bf_call c (w_sw w)) as [[| |e] s] eqn:E; simpl in *; [|done|].
  - left. destruct Hv as [Hn Hv]. split; [|done]. exists (after c w).
    split; [apply run_bf_done; by rewrite E|].
    unfold looks, wview in *. unfold after at 2. rewrite E. by split_and!.
  - right. exists e, (view s). split; [done|]. exists (after c w).
    split; [apply run_bf_raise; by rewrite E|].
    unfold looks, wview in *. unfold after at 2. rewrite E. by split_and!.
Qed.

End observe.

(** Membership in the list of the observed tables. *)
(** The declaration of a call whose table is a literal. *)
Ltac fits_table := vm_compute; reflexivity.
Ltac in_tables := apply (bool_decide_unpack _); vm_compute; exact I.

Ltac attr_solver :=
  let w1 := fresh in let w2 := fresh in let H := fresh in
  intros w1 w2 H; injection H; intros; unfold attrs; simpl; congruence.

(** A predicate that only looks at attributes, entries and groups. *)
Section respects.
Context `{SF : BfrtSafe}.

Definition respects_quiet (P : world → Prop) : Prop := ∀ w w', quiet w w' → P w → P w'.

Lemma respects_and P Q :
  respects_quiet P → respects_quiet Q → respects_quiet (λ w, P w ∧ Q w).
Proof. intros HP HQ w w' Hq [H1 H2]. split; [by eapply HP|by eapply HQ]. Qed.

Lemma respects_pure (φ : Prop) : respects_quiet (λ _, φ).
Proof. intros w w' _ H. done. Qed.

Lemma hoare_line f a P :
  respects_quiet P →
  hoare P (print f a) (λ _, P) P ∧ hoare P (log_info f a) (λ _, P) P ∧
  hoare P (log_error f a) (λ _, P) P.
Proof. intros HP. repeat split; intros w Hw; simpl; by eapply HP, Hw. Qed.

(** A guarded call that changes nothing observable. *)
Lemma ends_guarded (m : M world unit) f a w0 V G w :
  stable quiet m → looks w0 V G w →
  ends (try_except m (except_any (λ _, print f a))) w (Ok tt) (looks w0 V G).
Proof.
  intros Hm Hl. specialize (Hm w). unfold ends, try_except.
  destruct (m w) as [[[]|e] w'] eqn:E; simpl in *.
  - exists w'. split; [done|]. by eapply looks_trans.
  - eexists. split; [done|]. eapply looks_trans; [exact Hl|]. etransitivity; [exact Hm|].
    apply quiet_line.
Qed.

Lemma hoare_quiet {A} (m : M world A) P :
  respects_quiet P → stable quiet m → hoare P m (λ _, P) P.
Proof.
  intros HP Hm w Hw. specialize (Hm w). destruct (m w) as [[a|e] w']; by eapply HP.
Qed.
End respects.

#[export] Hint Resolve respects_and respects_pure : stable.
#[export] Hint Extern 2 (respects_quiet _) =>
  let w := fresh in let w' := fresh in let H := fresh in
  intros w w' (H & ? & ?); injection H; intros; simpl in *; congruence : stable.

(** ** Calls that succeed *)

Section calls.
Context `{LF : BfrtLive}.

Lemma after_done c w (Q : world → Prop) :
  (bf_call c (w_sw w)).1 = RDone → Q (after c w) → ends (bf c) w (Ok tt) Q.
Proof. intros H HQ. exists (after c w). by rewrite (run_bf_done c w H). Qed.

Lemma after_raise c w e (Q : world → Prop) :
  (bf_call c (w_sw w)).1 = RRaise e → Q (after c w) → ends (bf c) w (Raise e) Q.
Proof. intros H HQ. exists (after c w). by rewrite (run_bf_raise c w e H). Qed.

Lemma ends_client c w0 V G w :
  client_side c = true → Schema.fields_known c = true → looks w0 V G w → ends (bf c) w (Ok tt) (looks w0 V G).
Proof.
  intros Hc Hf Hl. apply after_done; [by apply live_client|].
  eapply looks_trans; [done|]. split; [done|].
  split; [apply wview_after_keeps; by destruct c|by apply groups_client].
Qed.

Lemma ends_add t ks ds w0 V G w :
  t ∈ match_tables → NoDup ks → length ks = length ds →
  Schema.call_ok (EntryAdd t ks (Some ds)) = true →
  (∀ k, k ∈ ks → V !! (t, k) = None) →
  count_entries t V + Z.of_nat (length ks) ≤ bf_size t →
  looks w0 V G w →
  ends (bf (EntryAdd t ks (Some ds))) w (Ok tt) (looks w0 (add_entries t (zip ks ds) V) G).
Proof.
  intros Ht Hnd Hlen Hok Hk Hroom (Ha & HV & HG). subst V G.
  pose proof (live_add t ks ds (w_sw w) Ht Hnd Hlen Hok Hk Hroom) as Hr.
  apply after_done; [done|]. split; [done|]. split.
  - pose proof (view_add t ks ds (w_sw w) Ht) as Hv.
    unfold wview, after. simpl. destruct (bf_call _ (w_sw w)) as [r s]. simpl in *.
    subst r. apply Hv.
  - apply groups_after_entries; [done|]. by apply match_not_mgid.
Qed.

Lemma ends_add1 t k d w0 V G w :
  t ∈ match_tables → Schema.call_ok (EntryAdd t [k] (Some [d])) = true → V !! (t, k) = None → count_entries t V < bf_size t →
  looks w0 V G w →
  ends (bf (EntryAdd t [k] (Some [d]))) w (Ok tt) (looks w0 (<[(t, k) := d]> V) G).
Proof.
  intros Ht Hok Hk Hroom Hl.
  apply (ends_add t [k] [d]); try done; [apply NoDup_singleton| |simpl; lia].
  intros k' ->%list_elem_of_singleton. done.
Qed.

(** A call that names what is not declared. *)
Lemma ends_unknown c w0 V G w :
  Schema.fields_known c = false → looks w0 V G w →
  ∃ e, ends (bf c) w (Raise e) (looks w0 V G).
Proof.
  intros Hf (Ha & HV & HG). subst V G. destruct (live_unknown c (w_sw w) Hf) as ([e He] & Hv & Hg).
  exists e. apply after_raise; [done|]. split; [done|]. by split.
Qed.

(** A loop whose body adds one entry. *)
Lemma ends_for_each_add {A} t (f : A → key * datum) body (l : list A) w0 V G w :
  NoDup (f <$> l).*1 → (∀ x, x ∈ l → V !! (t, (f x).1) = None) →
  count_entries t V + Z.of_nat (length l) ≤ bf_size t →
  (∀ x V' w', x ∈ l → looks w0 V' G w' → V' !! (t, (f x).1) = None →
     count_entries t V' < bf_size t →
     ends (body x) w' (Ok tt) (looks w0 (<[(t, (f x).1) := (f x).2]> V') G)) →
  looks w0 V G w →
  ends (for_each l body) w (Ok tt) (looks w0 (add_entries t (f <$> l) V) G).
Proof.
  revert V w. induction l as [|x l IH]; intros V w Hnd Hn Hroom Hb Hl; simpl in *.
  { by apply ends_ret. }
  apply NoDup_cons in Hnd as [Hx Hnd].
  eapply ends_bind; [apply (Hb x V); [by left|done|apply Hn; by left|lia]|]. intros w1 Hl1.
  rewrite <- add_entries_insert by done. apply IH; [done| | | |done].
  - intros y Hy. rewrite lookup_insert_ne.
    + apply Hn. by right.
    + intros [= Heq]. apply Hx. rewrite Heq. rewrite <- list_fmap_compose.
      apply list_elem_of_fmap. by exists y.
  - rewrite count_entries_insert by (apply Hn; by left). lia.
  - intros y V' w' Hy. apply Hb. by right.
Qed.

Lemma ends_mod_keeps t ks ds w0 V G w :
  t ∈ match_tables → t ≠ "$pre.node" → length ks = length ds →
  Schema.call_ok (EntryMod t ks ds) = true →
  (∀ k, k ∈ ks → is_Some (V !! (t, k))) → keeps_entries (EntryMod t ks ds) = true →
  looks w0 V G w → ends (bf (EntryMod t ks ds)) w (Ok tt) (looks w0 V G).
Proof.
  intros Ht Hn Hlen Hok Hk Hc Hl. pose proof Hl as (Ha & HV & HG). subst V.
  apply after_done; [by apply live_mod|]. eapply looks_trans; [exact Hl|].
  apply quiet_keeps; [done|by apply match_not_mgid|done].
Qed.

Lemma ends_del1 t k w0 V G w :
  t ∈ match_tables → t ≠ "$pre.node" → is_Some (V !! (t, k)) →
  looks w0 V G w →
  ends (bf (EntryDel t (Some [k]))) w (Ok tt) (looks w0 (delete (t, k) V) G).
Proof.
  intros Ht Hn Hk (Ha & HV & HG). subst V G.
  pose proof (live_del t k (w_sw w) Ht Hk) as Hr.
  apply after_done; [done|]. split; [done|]. split.
  - pose proof (view_del t [k] (w_sw w) Ht) as Hv.
    unfold wview, after. simpl. destruct (bf_call _ (w_sw w)) as [r s]. simpl in *.
    by subst r.
  - apply wgroups_after; [by apply match_not_mgid|done].
Qed.

Lemma ends_clear t w0 V G w :
  t ∈ match_tables → t ≠ "$pre.node" → looks w0 V G w →
  ends (bf (EntryDel t None)) w (Ok tt) (looks w0 (clear_entries t V) G).
Proof.
  intros Ht Hn (Ha & HV & HG). subst V G.
  pose proof (live_clear t (w_sw w)) as Hr.
  apply after_done; [done|]. split; [done|]. split.
  - pose proof (view_clear t (w_sw w) Ht) as Hv.
    unfold wview, after. simpl. destruct (bf_call _ (w_sw w)) as [r s]. simpl in *.
    by subst r.
  - apply wgroups_after; [by apply match_not_mgid|done].
Qed.

(** Calls about what the model does not observe. *)
Lemma ends_clear_unseen t w0 V G w :
  t ∉ match_tables → t ≠ "$pre.mgid" → looks w0 V G w →
  ends (bf (EntryDel t None)) w (Ok tt) (looks w0 V G).
Proof.
  intros Ht Hm Hl. apply after_done; [apply live_clear|].
  eapply looks_trans; [exact Hl|]. by apply quiet_unseen.
Qed.

Lemma counter_unseen t : t ∈ counter_tables → t ∉ match_tables ∧ t ≠ "$pre.mgid".
Proof. revert t. apply Forall_forall. apply (bool_decide_unpack _). vm_compute. exact I. Qed.

Lemma ends_counter_add t ks ds w0 V G w :
  t ∈ counter_tables → length ks = length ds →
  (∀ k, k ∈ ks → ∃ i, k = counter_key i ∧ 0 ≤ i < bf_size t) →
  looks w0 V G w →
  ends (bf (EntryAdd t ks (Some ds))) w (Ok tt) (looks w0 V G).
Proof.
  intros Ht Hlen Hk Hl. apply after_done; [by apply live_counter_add|].
  eapply looks_trans; [exact Hl|]. apply counter_unseen in Ht as [H1 H2]. by apply quiet_unseen.
Qed.

Lemma looks_mgid c w0 V G G' w :
  call_table c = "$pre.mgid" → looks w0 V G w → wgroups (after c w) = G' →
  looks w0 V G' (after c w).
Proof.
  intros Hc (Ha & HV & HG) HG'. split; [done|]. split; [|done].
  rewrite <- HV. apply view_unseen. rewrite Hc. intros Ht.
  by destruct (match_not_mgid _ Ht).
Qed.

(** Creating an empty multicast group, and making sure there is none. *)
Lemma ends_mgid_add g d w0 V G w :
  data_nodes d = Some [] → G !! g = None → looks w0 V G w →
  ends (bf (EntryAdd "$pre.mgid" [mgid_key g] (Some [d]))) w (Ok tt) (looks w0 V (<[g := []]> G)).
Proof.
  intros Hd Hg Hl. pose proof Hl as (_ & _ & HG). subst G.
  pose proof (live_mgid_add g d (w_sw w) Hd Hg) as Hr.
  apply after_done; [done|]. eapply looks_mgid; [done|exact Hl|].
  pose proof (groups_add g d [] (w_sw w) Hd) as Ha.
  unfold wgroups, after. simpl. destruct (bf_call _ (w_sw w)) as [r s]. simpl in *.
  subst r. by destruct Ha as [_ ->].
Qed.

Lemma ends_mgid_del g f a w0 V G w :
  looks w0 V G w →
  ends (try_except (bf (EntryDel "$pre.mgid" (Some [mgid_key g]))) (except_rpc (log_info f a))) w (Ok tt)
    (looks w0 V (delete g G)).
Proof.
  intros Hl. pose proof Hl as (_ & _ & HG). subst G.
  pose proof (groups_del g (w_sw w)) as Hd.
  destruct (wgroups w !! g) as [ids|] eqn:Hg.
  - pose proof (live_mgid_del g (w_sw w) (mk_is_Some _ _ Hg)) as Hr.
    apply ends_try_ok, after_done; [done|]. eapply looks_mgid; [done|exact Hl|].
    unfold wgroups, after. simpl. destruct (bf_call _ (w_sw w)) as [r s]. simpl in *. by subst r.
  - pose proof (live_mgid_del_absent g (w_sw w) Hg) as Hr. rewrite delete_id by done.
    eapply ends_try_rpc; [eapply after_raise; [done|]|].
    + eapply looks_mgid; [done|exact Hl|].
      unfold wgroups, after. simpl. destruct (bf_call _ (w_sw w)) as [r s]. simpl in *. by subst r.
    + intros w1 Hl1. by apply ends_log_info.
Qed.

(** The port of the switch's processor. *)
Lemma ends_cpu_port p d w0 V G w :
  looks w0 V G w →
  ends (bf (EntryAdd "$pre.port" [[KeyTuple "$DEV_PORT" (VInt p)]] (Some [d]))) w (Ok tt) (looks w0 V G).
Proof.
  intros Hl. apply after_done; [apply live_cpu_port|].
  eapply looks_trans; [exact Hl|]. apply quiet_unseen; [|done].
  apply (bool_decide_unpack _). vm_compute. exact I.
Qed.

(** Extending a multicast group with nodes that exist. *)
Lemma ends_inc_add g d ids old w0 V G w :
  data_nodes d = Some ids → G !! g = Some old →
  (∀ i, i ∈ ids → i ∉ old ∧ is_Some (V !! ("$pre.node", node_key i))) →
  looks w0 V G w →
  ends (bf (EntryModInc "$pre.mgid" [mgid_key g] [d] MOD_INC_ADD)) w (Ok tt)
    (looks w0 V (<[g := old ++ ids]> G)).
Proof.
  intros Hd Ho Hi Hl. pose proof Hl as (Ha & HV & HG). subst V G.
  pose proof (live_inc_add g d ids (w_sw w) old Hd Ho Hi) as Hr.
  apply after_done; [done|]. eapply looks_mgid; [done|exact Hl|].
  pose proof (groups_inc g d ids MOD_INC_ADD (w_sw w) Hd) as Hg.
  unfold wgroups, after. simpl. destruct (bf_call _ (w_sw w)) as [r s]. simpl in *.
  subst r. destruct Hg as (old' & Ho' & ->). unfold wgroups in Ho. by simplify_eq.
Qed.

(** Removing nodes from a group: the group loses them, or the client's
    exception is raised and nothing has changed. *)
Lemma ends_inc_del g d ids w0 V G w :
  data_nodes d = Some ids → looks w0 V G w →
  ends (bf (EntryModInc "$pre.mgid" [mgid_key g] [d] MOD_INC_DELETE)) w (Ok tt)
    (looks w0 V (alter (filter (.∉ ids)) g G)) ∨
  (¬ (∃ old, G !! g = Some old ∧ ∀ i, i ∈ ids → i ∈ old)) ∧
  ends (bf (EntryModInc "$pre.mgid" [mgid_key g] [d] MOD_INC_DELETE)) w
    (Raise BfruntimeReadWriteRpcException) (looks w0 V G).
Proof.
  intros Hd Hl. pose proof Hl as (Ha & HV & HG). subst V G.
  set (c := EntryModInc _ _ _ _).
  pose proof (groups_inc g d ids MOD_INC_DELETE (w_sw w) Hd) as Hg. fold c in Hg.
  destruct (bf_call c (w_sw w)) as [[| |e] s] eqn:E; [|done|].
  - left. apply after_done; [by rewrite E|]. eapply looks_mgid; [done|exact Hl|].
    unfold wgroups, after. simpl. rewrite E. simpl.
    destruct Hg as (old & Ho & ->). symmetry. apply map_eq. intros g'.
    destruct (decide (g' = g)) as [->|Hne].
    + by rewrite lookup_alter_eq, lookup_insert_eq, Ho.
    + by rewrite lookup_alter_ne, lookup_insert_ne by done.
  - right. assert (e = BfruntimeReadWriteRpcException) as ->.
    { eapply (live_rpc_inc g d MOD_INC_DELETE (w_sw w)). fold c. by rewrite E. }
    split.
    + intros (old & Ho & Hi). pose proof (live_inc_del g d ids (w_sw w) old Hd Ho Hi) as Hr.
      fold c in Hr. by rewrite E in Hr.
    + apply after_raise; [by rewrite E|]. eapply looks_mgid; [done|exact Hl|].
      unfold wgroups, after. simpl. by rewrite E.
Qed.

(** Deleting a node that may be in use: it may leave the groups with it. *)
Lemma ends_del_node r w0 V G w :
  looks w0 V G w →
  let m := bf (EntryDel "$pre.node" (Some [node_key r])) in
  if bool_decide (is_Some (V !! ("$pre.node", node_key r))) then
    ends m w (Ok tt) (λ w', ∃ G', (G' = G ∨ G' = filter (.≠ r) <$> G) ∧
      looks w0 (delete ("$pre.node", node_key r) V) G' w')
  else ends m w (Raise BfruntimeReadWriteRpcException) (looks w0 V G).
Proof.
  intros (Ha & HV & HG) m. subst V G. unfold m.
  set (c := EntryDel "$pre.node" (Some [node_key r])).
  assert (Ht : "$pre.node" ∈ match_tables) by in_tables.
  pose proof (groups_node_del r (w_sw w)) as Hg. fold c in Hg.
  pose proof (view_del "$pre.node" [node_key r] (w_sw w) Ht) as Hv. fold c in Hv.
  case_bool_decide as Hn.
  - pose proof (live_del "$pre.node" (node_key r) (w_sw w) Ht Hn) as Hr. fold c in Hr.
    apply after_done; [done|].
    destruct (bf_call c (w_sw w)) as [res s] eqn:E; simpl in *; subst res.
    exists (groups s). split; [done|]. split; [done|].
    unfold wview, wgroups, after. simpl. by rewrite E.
  - apply eq_None_not_Some in Hn.
    pose proof (live_del_absent "$pre.node" (node_key r) (w_sw w) Ht ltac:(done) Hn) as Hr.
    fold c in Hr. apply after_raise; [done|].
    destruct (bf_call c (w_sw w)) as [res s] eqn:E; simpl in *; subst res.
    split; [done|]. unfold wview, wgroups, after. simpl. rewrite E. simpl. split; [|done].
    destruct Hv as [Hsub Hv]. apply map_eq. intros [t k].
    destruct (decide (t = "$pre.node")) as [->|Hne].
    + destruct (decide (k = node_key r)) as [->|Hk].
      * unfold wview in Hn. rewrite Hn. destruct (view s !! _) as [x|] eqn:Ex; [|done].
        eapply map_subseteq_spec in Hsub; [|done]. congruence.
      * apply Hv. by rewrite list_elem_of_singleton.
    + pose proof (view_frame c (w_sw w) t k) as Hf. rewrite E in Hf. by apply Hf.
Qed.
End calls.

#[export] Hint Extern 1 (stable _ (field_int _ _)) =>
  apply stable_field_int; typeclasses eauto : stable.
#[export] Hint Extern 1 (stable _ (pprint_row _)) =>
  apply stable_pprint; intros ? ?; simpl : stable.
#[export] Hint Extern 1 (stable _ (print _ _)) =>
  apply stable_line; intros ? ?; simpl : stable.
#[export] Hint Extern 1 (stable _ (log_info _ _)) =>
  apply stable_line; intros ? ?; simpl : stable.
#[export] Hint Extern 1 (stable _ (log_error _ _)) =>
  apply stable_line; intros ? ?; simpl : stable.
