(* ===== verification/Ports.v ===== *)
(** * Front-panel ports (py/Ports.py)

    The class converts front-panel ports to device ports and back, brings ports
    up and down, and remembers the active ones. The theorems show the two
    conversions inverse to each other, the effect of each operation on the list
    of active ports and on the switch's port table, and that the list stays
    duplicate free and within the ports the switch has configured. *)
From S2P Require Import Prelude PyMonad Bfrt Live World.

Module Ports.
Section ports.
Context `{BF : Bfrt}.

(** [self.loopback_ports] *)
Definition loopback_ports : list Z :=
  [64] ++ range_step 128 (128 + 64) 4
       ++ range_step 256 (256 + 64) 4
       ++ range_step 384 (384 + 64) 4.

Definition set_active_ports (l : list Z) (w : world) : world :=
  set_ports {| dev_port_to_fp_port := dev_port_to_fp_port (w_ports w); active_ports := l |} w.
Definition set_fp_cache (c : option (gmap Z (Z * Z))) (w : world) : world :=
  set_ports {| dev_port_to_fp_port := c; active_ports := active_ports (w_ports w) |} w.

Definition init : M world unit :=
  bf (TableGet "$PORT") ;;
  bf (TableGet "$PORT_STAT") ;;
  bf (TableGet "$PORT_HDL_INFO") ;;
  modify (set_ports {| dev_port_to_fp_port := None; active_ports := [] |}) ;;
  bf (TableGet "$PKTGEN_PORT_CFG").

Definition port_key (dev_port : Z) : key := [KeyTuple "$DEV_PORT" (VInt dev_port)].

(** get dev port *)
Definition get_dev_port (front_panel_port lane : Z) : M world Z :=
  resp ← entry_get "$PORT_HDL_INFO"
           (Some [[KeyTuple "$CONN_ID" (VInt front_panel_port);
                   KeyTuple "$CHNL_ID" (VInt lane)]]) false;
  match resp with
  | [] => raise StopIteration
  | r :: _ => field_int (row_vdict r) "$DEV_PORT"
  end.

(** One iteration of the loop that fills the reverse mapping. *)
Definition fill_fp_port (r : row) : M world unit :=
  p ← field_int (row_kdict r) "$CONN_ID";
  l ← field_int (row_kdict r) "$CHNL_ID";
  d ← field_int (row_vdict r) "$DEV_PORT";
  modify (λ w, set_fp_cache
    (<[d := (p, l)]> <$> dev_port_to_fp_port (w_ports w)) w).

(** get front panel port from dev port *)
Definition get_fp_port (dev_port : Z) : M world (Z * Z) :=
  cache ← gets (dev_port_to_fp_port ∘ w_ports);
  match cache with
  | None =>
      modify (set_fp_cache (Some ∅)) ;;
      resp ← entry_get "$PORT_HDL_INFO" (Some []) false;
      for_each resp fill_fp_port
  | Some _ => mret tt
  end ;;
  cache' ← gets (dev_port_to_fp_port ∘ w_ports);
  match cache' with
  | Some m => dict_get m dev_port
  | None => raise TypeError
  end.

Definition speed_conversion_table (speed : Z) : option string :=
  if bool_decide (speed = 10) then Some "BF_SPEED_10G"
  else if bool_decide (speed = 25) then Some "BF_SPEED_25G"
  else if bool_decide (speed = 40) then Some "BF_SPEED_40G"
  else if bool_decide (speed = 50) then Some "BF_SPEED_50G"
  else if bool_decide (speed = 100) then Some "BF_SPEED_100G"
  else None.

Definition fec_conversion_table (fec : string) : option string :=
  if bool_decide (fec = "none") then Some "BF_FEC_TYP_NONE"
  else if bool_decide (fec = "fc") then Some "BF_FEC_TYP_FC"
  else if bool_decide (fec = "rs") then Some "BF_FEC_TYP_RS"
  else None.

Definition port_data (speed fec : string) : datum :=
  MakeData [("$SPEED", VStr speed); ("$FEC", VStr fec);
            ("$AUTO_NEGOTIATION", VInt 2); ("$PORT_ENABLE", VBool true)] None.

(** The body of the loop of [add_ports]. *)
Definition add_ports_body (q : Z * Z * Z * string) : M world unit :=
  let '(front_panel_port, lane, speed, fec) := q in
  log_info "Adding port {}" [VInt front_panel_port; VInt lane; VInt speed; VStr fec] ;;
  d ← get_dev_port front_panel_port lane;
  s ← match speed_conversion_table speed with Some s => mret s | None => raise KeyError end;
  f ← match fec_conversion_table fec with Some f => mret f | None => raise KeyError end;
  bf (EntryAdd "$PORT" [port_key d] (Some [port_data s f])).

(** add ports: the loop's variables are those of its last iteration when the
    last line uses them, and are unbound when the list is empty. *)
Definition add_ports (port_list : list (Z * Z * Z * string)) : M world unit :=
  log_info "Bringing up ports:\n {}" [] ;;
  for_each port_list add_ports_body ;;
  match last port_list with
  | Some (front_panel_port, lane, _, _) =>
      d ← get_dev_port front_panel_port lane;
      modify (λ w, set_active_ports (active_ports (w_ports w) ++ [d]) w)
  | None => raise NameError
  end.

(** add one port; the class defines the method twice, as [add_port] too *)
Definition port_add (front_panel_port lane speed : Z) (fec : string) : M world unit :=
  dev_port ← get_dev_port front_panel_port lane;
  active ← gets (active_ports ∘ w_ports);
  if bool_decide (dev_port ∈ active) then
    print "Port {}/{} already in active ports list; skipping."
      [VInt front_panel_port; VInt lane]
  else add_ports [(front_panel_port, lane, speed, fec)].
Definition add_port := port_add.

Definition two_pipe_dev_ports : list Z := range 0 64 ++ range 128 192.
Definition four_pipe_dev_ports : list Z :=
  two_pipe_dev_ports ++ range 256 320 ++ range 384 448.

(** delete all ports *)
Definition delete_all_ports : M world unit :=
  log_info "Deleting all ports..." [] ;;
  bf (EntryDel "$PORT" (Some (port_key <$> four_pipe_dev_ports))) ;;
  modify (set_active_ports []).

(** delete one port *)
Definition port_delete (front_panel_port lane : Z) : M world unit :=
  dev_port ← get_dev_port front_panel_port lane;
  active ← gets (active_ports ∘ w_ports);
  match list_remove dev_port active with
  | Some active' => modify (set_active_ports active')
  | None => raise ValueError
  end ;;
  bf (EntryDel "$PORT" (Some [port_key dev_port])).

(** print all ports: [list_ports_helper] is not a method of the class (its
    definition is spelled [list_posrt_helper]) *)
Definition list_ports (port lane : option Z) : M world unit :=
  active ← gets (active_ports ∘ w_ports);
  match port with
  | Some p =>
      if bool_decide (p = 0) then
        match active with
        | [] => print "No ports active." []
        | _ => raise AttributeError
        end
      else
        let l := match lane with Some l => l | None => 0 end in
        dev_port ← get_dev_port p l;
        if bool_decide (dev_port ∈ active) then raise AttributeError
        else print "Port {}/{} not active." [VInt p; VInt l]
  | None =>
      match active with
      | [] => print "No ports active." []
      | _ => raise AttributeError
      end
  end.

Definition stat_data : datum :=
  MakeData [("$FramesReceivedOK", VInt 0); ("$FramesReceivedAll", VInt 0);
            ("$OctetsReceivedinGoodFrames", VInt 0); ("$FrameswithanyError", VInt 0);
            ("$FramesReceivedwithFCSError", VInt 0); ("$FramesTransmittedOK", VInt 0);
            ("$FramesTransmittedAll", VInt 0); ("$OctetsTransmittedwithouterror", VInt 0);
            ("$FramesTransmittedwithError", VInt 0)] None.

Definition clear_counters : M world unit :=
  active ← gets (active_ports ∘ w_ports);
  bf (EntryMod "$PORT_STAT" (port_key <$> active) (replicate (length active) stat_data)).

Definition loopback_data : datum :=
  MakeData [("$SPEED", VStr "BF_SPEED_100G"); ("$FEC", VStr "BF_FEC_TYP_NONE");
            ("$LOOPBACK_MODE", VStr "BF_LPBK_MAC_NEAR"); ("$PORT_ENABLE", VBool true)] None.

Definition enable_loopback_ports : M world unit :=
  log_info "Enabling loopback on {} front panel ports..."
    [VInt (Z.of_nat (length loopback_ports))] ;;
  bf (EntryAdd "$PORT" (port_key <$> loopback_ports)
        (Some (replicate (length loopback_ports) loopback_data))).

Definition recirc_key (port : Z) : key := [KeyTuple "dev_port" (VInt port)].

Definition enable_alternate_recirc_port : M world unit :=
  let ports := [192] in
  print "Checking port state before enabling recirculation mode:" [] ;;
  resp ← entry_get "$PKTGEN_PORT_CFG" (Some (recirc_key <$> ports)) false;
  for_each resp pprint_row ;;
  print "Enabling recirculation." [] ;;
  try_except
    (bf (EntryAdd "$PKTGEN_PORT_CFG" (recirc_key <$> ports)
           (Some (replicate (length ports)
                    (MakeData [("recirculation_enable", VBool true)] None)))))
    (except_any (λ e,
       print "NOTE: You must remove the ports in the CLI before this code will work right now. bf-sde.port_mgr> bf_port_rmv 0 1 64" [] ;;
       raise e)) ;;
  print "Verifying port state after enabling recirculation:" [] ;;
  resp' ← entry_get "$PKTGEN_PORT_CFG" (Some (recirc_key <$> ports)) false;
  for_each resp' pprint_row.

Definition disable_alternate_recirc_port : M world unit := mret tt.
End ports.

(** ** The port maps *)

Section maps.
Context `{SF : BfrtSafe}.

Lemma run_get_dev_port p l d w :
  hdl !! (p, l) = Some d → get_dev_port p l w = (Ok d, after (hdl_query p l) w).
Proof.
  intros Hd. pose proof (hdl_one p l (w_sw w)) as H. rewrite Hd in H.
  destruct H as (r & rest & Hr & Hv). unfold get_dev_port.
  rewrite (run_bind_ok _ _ _ _ _ (run_entry_get _ _ _ _ _ Hr)).
  unfold field_int. by rewrite Hv.
Qed.

(** A port the switch does not have raises an exception. *)
Lemma run_get_dev_port_none p l w :
  hdl !! (p, l) = None → ∃ e, get_dev_port p l w = (Raise e, after (hdl_query p l) w).
Proof.
  intros Hd. pose proof (hdl_one p l (w_sw w)) as H. rewrite Hd in H.
  unfold get_dev_port, entry_get, after, hdl_query in *. rewrite !run_bind. unfold bf_do.
  destruct (bf_call _ (w_sw w)) as [r s]; simpl in *.
  destruct H as [[e ->]| ->]; eauto.
Qed.

Lemma run_get_dev_port_world p l w : (get_dev_port p l w).2 = after (hdl_query p l) w.
Proof.
  destruct (hdl !! (p, l)) as [d|] eqn:Hd.
  - by rewrite (run_get_dev_port _ _ _ _ Hd).
  - by destruct (run_get_dev_port_none p l w Hd) as [e ->].
Qed.

Lemma stable_get_dev_port (R : world → world → Prop) p l :
  (∀ w, R w (after (hdl_query p l) w)) → stable R (get_dev_port p l).
Proof. intros H w. rewrite run_get_dev_port_world. apply H. Qed.

(** The cache is absent, or it inverts the port handle table. *)
Definition cache_ok (w : world) : Prop :=
  match dev_port_to_fp_port (w_ports w) with
  | None => True
  | Some m => ∀ d pl, m !! d = Some pl ↔ hdl !! pl = Some d
  end.

(** The reverse mapping, and the world once it is cached. *)
Definition hdl_inverse : gmap Z (Z * Z) :=
  list_to_map ((λ e : (Z * Z) * Z, (e.2, e.1)) <$> map_to_list hdl).
Definition with_cache (w : world) : world := set_fp_cache (Some hdl_inverse) w.

Definition fill_step (m : gmap Z (Z * Z)) (e : (Z * Z) * Z) : gmap Z (Z * Z) :=
  <[e.2 := e.1]> m.

Lemma run_fill_fp_port r pl d m w :
  hdl_row r = Some (pl, d) → dev_port_to_fp_port (w_ports w) = Some m →
  fill_fp_port r w = (Ok tt, set_fp_cache (Some (fill_step m (pl, d))) w).
Proof.
  unfold hdl_row, fill_fp_port, field_int.
  destruct (row_kdict r !! "$CONN_ID") as [[]|] eqn:E1; try done.
  destruct (row_kdict r !! "$CHNL_ID") as [[]|] eqn:E2; try done.
  destruct (row_vdict r !! "$DEV_PORT") as [[]|] eqn:E3; try done.
  intros [= <- <-] Hm. unfold mbind, M_bind, mret, M_ret, modify. simpl.
  by rewrite Hm.
Qed.

Lemma run_fill rows es m w :
  hdl_row <$> rows = Some <$> es → dev_port_to_fp_port (w_ports w) = Some m →
  for_each rows fill_fp_port w =
    (Ok tt, match rows with
            | [] => w
            | _ => set_fp_cache (Some (foldl fill_step m es)) w
            end).
Proof.
  revert es m w. induction rows as [|r rows IH]; intros [|[pl d] es] m w He Hm;
    simplify_eq/=; [done|].
  match goal with H : hdl_row r = _ |- _ => rename H into Hr end.
  rewrite (run_bind_ok _ _ _ _ _ (run_fill_fp_port _ _ _ _ _ Hr Hm)).
  match goal with H : _ <$> rows = _ |- _ => rename H into He end.
  erewrite IH; [|done|done]. f_equal. destruct rows, es; simplify_eq/=; done.
Qed.

Lemma lookup_fill es m d pl :
  (∀ x y e, (x, e) ∈ es → (y, e) ∈ es → x = y) →
  foldl fill_step m es !! d = Some pl ↔
    (pl, d) ∈ es ∨ ((∀ x, (x, d) ∉ es) ∧ m !! d = Some pl).
Proof.
  revert m. induction es as [|[x e] es IH]; intros m Hf; simpl; [set_solver|].
  rewrite IH by (intros y z f Hy Hz; apply (Hf y z f); by apply elem_of_cons; right).
  unfold fill_step. simpl.
  destruct (decide (d = e)) as [->|Hne].
  - rewrite lookup_insert_eq. split.
    + intros [?|[Hn [= ->]]]; left; [by right|by left].
    + intros [Hpl|[Hn _]].
      * destruct (decide ((pl, e) ∈ es)) as [|Hx]; [by left|]. right.
        assert (x = pl) as -> by (apply (Hf x pl e); [by left|done]).
        split; [|done]. intros y Hy. apply Hx.
        rewrite (Hf pl y e); [done|done|by right].
      * exfalso. apply (Hn x). by left.
  - rewrite lookup_insert_ne by done. set_solver.
Qed.
End maps.

(** ** Round trip between device ports and front-panel ports *)

Section roundtrip.
Context `{LF : BfrtLive}.

Lemma lookup_hdl_inverse d pl : hdl_inverse !! d = Some pl ↔ hdl !! pl = Some d.
Proof.
  unfold hdl_inverse. rewrite <- elem_of_list_to_map'.
  - rewrite list_elem_of_fmap. split.
    + intros ([pl' d'] & [= -> ->] & He). by apply elem_of_map_to_list in He.
    + intros Hd. exists (pl, d). split; [done|]. by apply elem_of_map_to_list.
  - intros pl' Hx Hy. apply list_elem_of_fmap in Hx as ([x1 x2] & [= -> ->] & Hx).
    apply list_elem_of_fmap in Hy as ([y1 y2] & [= -> ->] & Hy).
    apply elem_of_map_to_list in Hx, Hy. simpl in *. by eapply hdl_inj.
Qed.

Lemma hdl_inverse_unique m : (∀ d pl, m !! d = Some pl ↔ hdl !! pl = Some d) → m = hdl_inverse.
Proof.
  intros Hm. apply map_eq. intros d. apply option_eq. intros pl.
  by rewrite Hm, lookup_hdl_inverse.
Qed.

Lemma cache_ok_with w : cache_ok (with_cache w).
Proof. intros d pl. apply lookup_hdl_inverse. Qed.

(** Looking up an inverse of the port map. *)
Lemma run_inverse_get m d (w : world) :
  (∀ d pl, m !! d = Some pl ↔ hdl !! pl = Some d) →
  dict_get m d w = match list_find (λ e, e.2 = d) (map_to_list hdl) with
                   | Some (_, (pl, _)) => (Ok pl, w)
                   | None => (Raise KeyError, w)
                   end ∧ (∀ pl, (dict_get m d w).1 = Ok pl ↔ hdl !! pl = Some d).
Proof.
  intros Hm. unfold dict_get.
  destruct (list_find _ _) as [[i [pl d']]|] eqn:Hf.
  - apply list_find_Some in Hf as (Hi & Hd & _). simpl in Hd. subst d'.
    apply list_elem_of_lookup_2, elem_of_map_to_list in Hi.
    assert (m !! d = Some pl) as -> by (by apply Hm).
    split; [done|]. intros pl'. simpl. split; [by intros [= <-]|].
    intros Hd. f_equal. by eapply hdl_inj.
  - apply list_find_None in Hf. rewrite Forall_forall in Hf.
    assert (∀ pl, hdl !! pl ≠ Some d) as Hno.
    { intros pl Hpl. by eapply (Hf (pl, d)); [apply elem_of_map_to_list|]. }
    destruct (m !! d) as [pl|] eqn:E; [apply Hm in E; by apply Hno in E|].
    split; [done|]. intros pl. simpl. split; [done|]. intros H. by apply Hno in H.
Qed.

Lemma run_get_fp_port d w :
  cache_ok w →
  ∃ w' : world, cache_ok w' ∧ looks (with_cache w) (wview w) (wgroups w) w' ∧
    get_fp_port d w = match list_find (λ e, e.2 = d) (map_to_list hdl) with
                      | Some (_, (pl, _)) => (Ok pl, w')
                      | None => (Raise KeyError, w')
                      end ∧
    (∀ pl, (get_fp_port d w).1 = Ok pl ↔ hdl !! pl = Some d).
Proof.
  intros Hc.
  unfold get_fp_port, cache_ok in *.
  destruct (dev_port_to_fp_port (w_ports w)) as [m|] eqn:Hm.
  - exists w. rewrite Hm. split; [done|]. split.
    { apply hdl_inverse_unique in Hc. subst m. split; [|done]. unfold attrs, with_cache. simpl.
      rewrite <- Hm. by destruct (w_ports w). }
    rewrite (run_bind_gets _ _ _ (Some m)) by done.
    rewrite run_bind_ret, (run_bind_gets _ _ _ (Some m)) by done. by apply run_inverse_get.
  - set (w1 := set_fp_cache (Some ∅) w).
    destruct (live_hdl_all (w_sw w1)) as [rows Hrows].
    apply (run_entry_get _ _ _ w1) in Hrows as Hrun.
    apply hdl_all in Hrows as Hperm.
    set (w2 := after (EntryGet "$PORT_HDL_INFO" (Some []) false) w1) in *.
    apply Permutation_map_inv in Hperm as (es & Hes & Hp).
    set (m2 := foldl fill_step ∅ es).
    set (w3 := match rows with [] => w2 | _ => set_fp_cache (Some m2) w2 end).
    assert (Hok : ∀ d pl, m2 !! d = Some pl ↔ hdl !! pl = Some d).
    { intros d' pl. unfold m2. rewrite lookup_fill.
      - rewrite lookup_empty, <- Hp, elem_of_map_to_list. naive_solver.
      - intros x y e. rewrite <- Hp, !elem_of_map_to_list. apply hdl_inj. }
    assert (Hm3 : dev_port_to_fp_port (w_ports w3) = Some m2).
    { unfold w3, m2. destruct rows, es; simplify_eq/=; done. }
    exists w3. rewrite Hm3. split; [done|].
    split.
    { split; [|split; [by unfold w3; destruct rows; apply view_keeps|
        by unfold w3; destruct rows; apply (wgroups_after _ w1)]].
      unfold with_cache. rewrite <- (hdl_inverse_unique _ Hok). unfold w3, m2.
      by destruct rows, es; simplify_eq/=. }
    rewrite (run_bind_gets _ _ _ None), run_bind_assoc, run_bind_modify by done.
    fold w1. rewrite run_bind_assoc, (run_bind_ok _ _ _ _ _ Hrun).
    rewrite (run_bind_ok _ _ _ tt w3) by (by rewrite (run_fill _ es ∅)).
    rewrite (run_bind_gets _ _ _ (Some m2)) by done. by apply run_inverse_get.
Qed.

(** A device port converts to the front-panel port and lane it came from,
    and back: after [get_dev_port p l] has answered [d], [get_fp_port d]
    answers [(p, l)], and after [get_fp_port d] has answered [(p, l)],
    [get_dev_port p l] answers [d]; this holds whether the reverse mapping was
    already cached or not. *)
Theorem port_round_trip p l d w :
  cache_ok w →
  ((get_dev_port p l w).1 = Ok d → ((get_dev_port p l ≫= get_fp_port) w).1 = Ok (p, l)) ∧
  ((get_fp_port d w).1 = Ok (p, l) →
   ((get_fp_port d ≫= λ pl, get_dev_port pl.1 pl.2) w).1 = Ok d).
Proof.
  intros Hc. split.
  - destruct (hdl !! (p, l)) as [d'|] eqn:Hh.
    + rewrite (run_get_dev_port _ _ _ _ Hh). simpl. intros [= ->].
      rewrite (run_bind_ok _ _ _ _ _ (run_get_dev_port _ _ _ _ Hh)).
      by destruct (run_get_fp_port d (after (hdl_query p l) w) Hc) as (_ & _ & _ & _ & ->).
    + by destruct (run_get_dev_port_none p l w Hh) as [e ->].
  - destruct (run_get_fp_port d w Hc) as (w' & _ & _ & Hrun & Hiff).
    intros Hok. apply Hiff in Hok as Hh.
    rewrite run_bind. destruct (get_fp_port d w) as [[pl|] w2] eqn:E; simpl in *; [|done].
    simplify_eq. by rewrite (run_get_dev_port _ _ _ _ Hh).
Qed.

(** Converting a device port leaves the cache filled and nothing else changed. *)
Lemma ends_get_fp_port d pl w0 V G w :
  cache_ok w0 → hdl !! pl = Some d → looks w0 V G w →
  ends (get_fp_port d) w (Ok pl) (looks (with_cache w0) V G).
Proof.
  intros Hc Hd (Ha & HV & HG).
  assert (Hp : w_ports w = w_ports w0) by (by injection Ha).
  assert (Hcw : cache_ok w) by (unfold cache_ok in *; by rewrite Hp).
  destruct (run_get_fp_port d w Hcw) as (w' & _ & (Ha' & HV' & HG') & Hrun & Hiff).
  apply Hiff in Hd. exists w'. split.
  - destruct (list_find _ _) as [[i [pl' d']]|]; rewrite Hrun in Hd |- *; [|done].
    by injection Hd as ->.
  - split; [|split; congruence]. rewrite Ha'. unfold attrs, with_cache in *. simpl in *.
    injection Ha as H1 H2 H3 H4 H5 H6 H7 H8 H9 H10. congruence.
Qed.

(** Python's cache is poisoned by a failed listing: once [entry_get] has
    raised, every later conversion of a device port fails without asking the
    switch again. *)
Lemma get_fp_port_poisoned d d' w e :
  dev_port_to_fp_port (w_ports w) = None →
  (bf_call (EntryGet "$PORT_HDL_INFO" (Some []) false) (w_sw w)).1 = RRaise e →
  let w' := (get_fp_port d w).2 in
  (get_fp_port d w).1 = Raise e ∧ get_fp_port d' w' = (Raise KeyError, w').
Proof.
  intros Hc Hr. unfold get_fp_port at 1 2.
  rewrite (run_bind_gets _ _ _ None), run_bind_assoc, run_bind_modify by done.
  rewrite run_bind_assoc.
  assert (Hg : entry_get "$PORT_HDL_INFO" (Some []) false (set_fp_cache (Some ∅) w) =
    (Raise e, after (EntryGet "$PORT_HDL_INFO" (Some []) false) (set_fp_cache (Some ∅) w))).
  { unfold entry_get, after. rewrite run_bind. unfold bf_do. simpl in *.
    destruct (bf_call _ (w_sw w)) as [r s]. simpl in *. by subst. }
  rewrite (run_bind_raise _ _ _ _ _ Hg). split; [done|].
  unfold get_fp_port. by rewrite (run_bind_gets _ _ _ (Some ∅)) by done.
Qed.
End roundtrip.

(** ** Bringing ports up and down *)

Section operations.
Context `{SF : BfrtSafe}.

Lemma ends_get_dev_port p l d w0 V G w :
  hdl !! (p, l) = Some d → looks w0 V G w →
  ends (get_dev_port p l) w (Ok d) (looks w0 V G).
Proof.
  intros Hd Hl. exists (after (hdl_query p l) w).
  split; [by apply run_get_dev_port|].
  eapply looks_trans; [done|]. by apply quiet_keeps.
Qed.

Lemma ends_get_dev_port_none p l w0 V G w :
  hdl !! (p, l) = None → looks w0 V G w →
  ∃ e, ends (get_dev_port p l) w (Raise e) (looks w0 V G).
Proof.
  intros Hd Hl. destruct (run_get_dev_port_none p l w Hd) as [e He].
  exists e, (after (hdl_query p l) w). split; [done|].
  eapply looks_trans; [done|]. by apply quiet_keeps.
Qed.

Lemma ends_active_ports w0 V G w :
  looks w0 V G w →
  ends (gets (active_ports ∘ w_ports)) w (Ok (active_ports (w_ports w0))) (looks w0 V G).
Proof. apply (ends_attr (active_ports ∘ w_ports)). attr_solver. Qed.

(** What the rest of [port_add] does once the port is known to be inactive:
    [add_ports] on one valid port. *)
Lemma ends_add_ports_tail p l d speed fec s f w0 V G w V' :
  hdl !! (p, l) = Some d →
  speed_conversion_table speed = Some s → fec_conversion_table fec = Some f →
  looks w0 V G w →
  (∀ w1, looks w0 V G w1 →
     ends (bf (EntryAdd "$PORT" [port_key d] (Some [port_data s f]))) w1 (Ok tt)
       (looks w0 V' G)) →
  ends (add_ports [(p, l, speed, fec)]) w (Ok tt)
    (looks (set_active_ports (active_ports (w_ports w0) ++ [d]) w0) V' G).
Proof.
  intros Hd Hs Hf Hl Hadd. unfold add_ports.
  eapply ends_bind; [by apply ends_log_info|]. intros w1 Hl1.
  eapply ends_bind.
  { simpl. eapply ends_bind; [|intros w2 H2; by apply ends_ret].
    eapply ends_bind; [by apply ends_log_info|]. intros w2 Hl2.
    eapply ends_bind; [by apply ends_get_dev_port|]. intros w3 Hl3.
    rewrite Hs, Hf. eapply ends_bind; [by apply ends_ret|]. intros w4 Hl4.
    eapply ends_bind; [by apply ends_ret|]. intros w5 Hl5. by apply Hadd. }
  intros w2 Hl2. simpl.
  eapply ends_bind; [by apply ends_get_dev_port|]. intros w3 Hl3.
  apply (ends_assign (λ w, set_active_ports (active_ports (w_ports w) ++ [d]) w));
    [attr_solver|done..].
Qed.

(** Adding an active port again does nothing but print. *)
Lemma port_add_again p l d speed fec w0 V G w :
  hdl !! (p, l) = Some d → d ∈ active_ports (w_ports w0) → looks w0 V G w →
  ends (port_add p l speed fec) w (Ok tt) (looks w0 V G).
Proof.
  intros Hd Ha Hl. unfold port_add.
  eapply ends_bind; [by apply ends_get_dev_port|]. intros w1 Hl1.
  eapply ends_bind; [by apply ends_active_ports|]. intros w2 Hl2.
  rewrite bool_decide_eq_true_2 by done. by apply ends_print.
Qed.

(** Removing a port that is not active is a [ValueError], and nothing is
    deleted from the switch. *)
Lemma port_delete_inactive p l d w0 V G w :
  hdl !! (p, l) = Some d → d ∉ active_ports (w_ports w0) → looks w0 V G w →
  ends (port_delete p l) w (Raise ValueError) (looks w0 V G).
Proof.
  intros Hd Ha Hl. unfold port_delete.
  eapply ends_bind; [by apply ends_get_dev_port|]. intros w1 Hl1.
  eapply ends_bind; [by apply ends_active_ports|]. intros w2 Hl2.
  apply list_remove_None in Ha. rewrite Ha.
  eapply ends_bind_raise; [by apply ends_raise|done].
Qed.

(** The controller's list of active ports has no duplicate and every port on
    it is configured on the switch. *)
Definition ports_inv (w : world) : Prop :=
  NoDup (active_ports (w_ports w)) ∧
  ∀ d, d ∈ active_ports (w_ports w) → is_Some (wview w !! ("$PORT", port_key d)).

Lemma ports_inv_looks w0 V G w :
  looks w0 V G w →
  NoDup (active_ports (w_ports w0)) →
  (∀ d, d ∈ active_ports (w_ports w0) → is_Some (V !! ("$PORT", port_key d))) →
  ports_inv w.
Proof.
  intros (Ha & HV & _) Hnd Hd. injection Ha as Hp. unfold ports_inv. by rewrite Hp, HV.
Qed.

Lemma stable_get_dev_port_quiet p l : stable quiet (get_dev_port p l).
Proof. apply stable_get_dev_port. intros w. by apply quiet_keeps. Qed.

Lemma hoare_get_dev_port p l P :
  respects_quiet P →
  hoare P (get_dev_port p l) (λ d w, hdl !! (p, l) = Some d ∧ P w) P.
Proof.
  intros HP w Hw. pose proof (stable_get_dev_port_quiet p l w) as Hq.
  destruct (hdl !! (p, l)) as [d|] eqn:Hd.
  - rewrite (run_get_dev_port _ _ _ _ Hd) in *. split; [done|]. by eapply HP.
  - destruct (run_get_dev_port_none p l w Hd) as [e He]. rewrite He in *. by eapply HP.
Qed.

Lemma ports_inv_respects : respects_quiet ports_inv.
Proof.
  intros w w' (Ha & HV & _) [H1 H2]. injection Ha as Hp.
  unfold ports_inv. by rewrite Hp, HV.
Qed.

Lemma ports_inv_grows w V' w' :
  ports_inv w → wview w ⊆ V' → looks w V' (wgroups w) w' → ports_inv w'.
Proof.
  intros [Hnd Hact] HV Hl. eapply ports_inv_looks; [done..|].
  intros d' Hd'. destruct (Hact d' Hd') as [x Hx]. exists x. by eapply lookup_weaken.
Qed.

(** A port that has been configured and is not yet on the list. *)
Definition added (d : Z) (w : world) : Prop :=
  ports_inv w ∧ d ∉ active_ports (w_ports w) ∧ is_Some (wview w !! ("$PORT", port_key d)).

Lemma added_respects d : respects_quiet (added d).
Proof.
  intros w w' Hq [H1 H2]. split; [by eapply ports_inv_respects|].
  destruct Hq as (Ha & HV & _). injection Ha as Hp. by rewrite Hp, HV.
Qed.

(** The switch refuses a port it has, so a port it accepts was not active. *)
Lemma hoare_port_entry_add d x :
  hoare ports_inv (bf (EntryAdd "$PORT" [port_key d] (Some [x]))) (λ _, added d) ports_inv.
Proof.
  intros w Hw.
  destruct (safe_add "$PORT" [port_key d] [x] w _ _ w ltac:(in_tables) (looks_refl w))
    as [[(w' & -> & Hl) Hn]|(e & V' & HV & w' & -> & Hl)].
  - split; [|split].
    + eapply ports_inv_grows; [done| |done]. by apply add_entries_subseteq.
    + destruct Hl as (Ha & _). injection Ha as Hp. rewrite Hp. intros Hd.
      destruct Hw as [_ Hin]. destruct (Hin d Hd) as [y Hy].
      by rewrite Hn in Hy by set_solver.
    + destruct Hl as (_ & -> & _). simpl. rewrite lookup_insert_eq. by eexists.
  - by eapply ports_inv_grows.
Qed.

Lemma hoare_add_ports_body p l speed fec :
  hoare ports_inv (add_ports_body (p, l, speed, fec))
    (λ _ w, ∃ d, hdl !! (p, l) = Some d ∧ added d w) ports_inv.
Proof.
  pose proof ports_inv_respects as Hr. unfold add_ports_body.
  eapply hoare_seq; [by apply hoare_line|].
  eapply hoare_bind; [by apply hoare_get_dev_port|]. intros d. apply hoare_pure. intros Hd.
  eapply hoare_bind.
  { apply (hoare_quiet _ _ Hr). destruct (speed_conversion_table _); stable_walk. }
  intros s. eapply hoare_bind.
  { apply (hoare_quiet _ _ Hr). destruct (fec_conversion_table _); stable_walk. }
  intros f. eapply hoare_conseq; [apply hoare_port_entry_add|done| |done]. eauto.
Qed.

Lemma hoare_add_ports_loop l :
  hoare ports_inv (for_each l add_ports_body)
    (λ _ w, match last l with
            | Some (p, lane, _, _) => ∃ d, hdl !! (p, lane) = Some d ∧ added d w
            | None => ports_inv w
            end) ports_inv.
Proof.
  induction l as [|[[[p lane] speed] fec] l IH]; simpl; [by apply hoare_ret|].
  destruct l as [|q l].
  - eapply hoare_bind; [apply hoare_add_ports_body|]. intros []. by apply hoare_ret.
  - eapply hoare_seq; [|exact IH].
    eapply hoare_conseq; [apply hoare_add_ports_body|done| |done].
    by intros _ w (d & _ & H & _).
Qed.

Lemma add_ports_keeps l : stable (keeps ports_inv) (add_ports l).
Proof.
  apply hoare_keeps. unfold add_ports.
  eapply hoare_seq; [apply hoare_line, ports_inv_respects|].
  eapply hoare_bind; [apply hoare_add_ports_loop|]. intros [].
  destruct (last l) as [[[[p lane] speed] fec]|]; [|by apply hoare_raise].
  destruct (hdl !! (p, lane)) as [d|] eqn:Hd; [|by intros w (d & ? & _)].
  eapply hoare_bind with (Q := λ d' w, hdl !! (p, lane) = Some d' ∧ added d w).
  { eapply hoare_conseq; [apply hoare_get_dev_port, added_respects| | |].
    - intros w (d' & ? & H). simplify_eq. exact H.
    - intros d' w H. exact H.
    - by intros w []. }
  intros d'. apply hoare_pure. intros ?; simplify_eq.
  apply hoare_modify. intros w [[Hnd Hin] [Hfresh Hv]]. split; simpl.
  - by apply NoDup_snoc.
  - intros x [Hx| ->%list_elem_of_singleton]%elem_of_app; [by apply Hin|done].
Qed.

Lemma port_add_keeps p l speed fec : stable (keeps ports_inv) (port_add p l speed fec).
Proof.
  apply hoare_keeps. unfold port_add.
  eapply hoare_bind; [apply hoare_get_dev_port, ports_inv_respects|].
  intros d. apply hoare_pure. intros Hd.
  eapply hoare_bind; [by apply hoare_gets with (Q := λ _, ports_inv)|].
  intros active. case_bool_decide as Hact.
  - apply hoare_line, ports_inv_respects.
  - apply hoare_keeps, add_ports_keeps.
Qed.

(** ** The other operations keep the invariant *)

Lemma ports_inv_quiet {A} (m : M world A) : stable quiet m → stable (keeps ports_inv) m.
Proof. intros Hm. by apply hoare_keeps, hoare_quiet; [apply ports_inv_respects|]. Qed.

Lemma port_delete_keeps p l : stable (keeps ports_inv) (port_delete p l).
Proof.
  apply hoare_keeps. unfold port_delete.
  eapply hoare_bind; [apply hoare_get_dev_port, ports_inv_respects|].
  intros d. apply hoare_pure. intros _.
  eapply hoare_bind with (Q := λ active w, active = active_ports (w_ports w) ∧ ports_inv w).
  { by apply hoare_gets. }
  intros active.
  eapply hoare_seq with (Q := λ w, d ∉ active_ports (w_ports w) ∧ ports_inv w).
  - destruct (list_remove d active) as [active'|] eqn:Hr.
    + apply hoare_modify. intros w [-> [Hnd Hin]].
      apply list_remove_Some in Hr as Hp. rewrite Hp in Hnd.
      apply NoDup_cons in Hnd as [Hd Hnd]. split; [done|]. split; [done|].
      intros x Hx. apply Hin. rewrite Hp. by right.
    + apply hoare_raise. by intros w [_ H].
  - intros w [Hd [Hnd Hin]]. pose proof (run_bf_world (EntryDel "$PORT" (Some [port_key d])) w) as Hw.
    pose proof (view_del "$PORT" [port_key d] (w_sw w) ltac:(in_tables)) as Hv.
    assert (Hk : ∀ x, x ∈ active_ports (w_ports w) →
      wview (after (EntryDel "$PORT" (Some [port_key d])) w) !! ("$PORT", port_key x) =
      wview w !! ("$PORT", port_key x)).
    { intros x Hx. assert (port_key x ∉ [port_key d]) as Hne.
      { rewrite list_elem_of_singleton. intros [= ->]. done. }
      unfold wview, after. simpl. destruct (bf_call _ _) as [[| |e] s]; simpl; [|done|by apply Hv].
      rewrite Hv, lookup_del_entries, bool_decide_eq_false_2; naive_solver. }
    assert (ports_inv (after (EntryDel "$PORT" (Some [port_key d])) w)) as Hi.
    { split; [done|]. intros x Hx. rewrite Hk by done. by apply Hin. }
    rewrite <- Hw in Hi. by destruct (bf _ w) as [[] w'].
Qed.

(** Nothing of the ports moves: neither the active ports nor the switch's
    port table. *)
Definition same_ports (w w' : world) : Prop :=
  active_ports (w_ports w') = active_ports (w_ports w) ∧
  ∀ k, wview w' !! ("$PORT", k) = wview w !! ("$PORT", k).

#[global] Instance same_ports_preorder : PreOrder same_ports.
Proof. split; [done|]. intros w1 w2 w3 [] []. split; [congruence|]. intros k. etransitivity; eauto. Qed.

Lemma same_ports_keeps {A} (m : M world A) : stable same_ports m → stable (keeps ports_inv) m.
Proof.
  intros Hm w [H1 H2]. destruct (Hm w) as [Ha HV]. unfold ports_inv. rewrite Ha.
  split; [done|]. intros d Hd. rewrite HV. by apply H2.
Qed.

Lemma same_ports_call c w :
  keeps_entries c = true ∨ call_table c ≠ "$PORT" → same_ports w (after c w).
Proof.
  intros Hc. split; [done|]. intros k. destruct Hc as [Hc|Hc].
  - by rewrite wview_after_keeps.
  - by apply wview_after_ne.
Qed.

Lemma stable_same_bf c :
  keeps_entries c || bool_decide (call_table c ≠ "$PORT") = true → stable same_ports (bf c).
Proof.
  intros Hc%orb_true_iff. rewrite bool_decide_eq_true in Hc.
  apply stable_bf. intros w. by apply same_ports_call.
Qed.
Lemma stable_same_get t ks b : stable same_ports (entry_get t ks b).
Proof. apply stable_entry_get. intros w. apply same_ports_call. by left. Qed.
Lemma stable_same_modify f :
  (∀ w, same_ports w (f w)) → stable same_ports (modify f).
Proof. intros H w. apply H. Qed.

End operations.

#[global] Hint Resolve stable_same_get : stable.
#[global] Hint Extern 1 (stable same_ports (bf _)) => apply stable_same_bf; first [reflexivity | apply orb_true_intro; right; reflexivity] : stable.
#[global] Hint Extern 1 (stable same_ports (modify _)) =>
  apply stable_same_modify; intros ?; split; reflexivity : stable.
#[global] Hint Extern 1 (same_ports _ (add_line _ _)) => split; reflexivity : stable.

Section keeping.
Context `{SF : BfrtSafe}.

Lemma get_fp_port_same d : stable same_ports (get_fp_port d).
Proof. unfold get_fp_port, fill_fp_port. stable_walk. Qed.
Lemma list_ports_same p l : stable same_ports (list_ports p l).
Proof. unfold list_ports, get_dev_port. stable_walk. Qed.
Lemma enable_recirc_same : stable same_ports enable_alternate_recirc_port.
Proof. unfold enable_alternate_recirc_port. stable_walk. Qed.

Lemma clear_counters_same : stable same_ports clear_counters.
Proof. unfold clear_counters. stable_walk. Qed.

Lemma enable_loopback_keeps : stable (keeps ports_inv) enable_loopback_ports.
Proof.
  apply hoare_keeps. unfold enable_loopback_ports.
  eapply hoare_seq; [apply hoare_line, ports_inv_respects|].
  set (ks := port_key <$> _). set (ds := replicate _ _). intros w Hw.
  destruct (safe_add "$PORT" ks ds w _ _ w ltac:(in_tables) (looks_refl w))
    as [[(w' & -> & Hl) Hn]|(e & V' & HV & w' & -> & Hl)].
  - eapply ports_inv_grows; [done| |done]. by apply add_entries_subseteq.
  - by eapply ports_inv_grows.
Qed.

(** What [delete_all_ports] leaves: all four pipes' front-panel ports are
    removed from the switch, the loopback ports among them, or the call has
    failed and the list still names ports that may be gone. *)
Lemma delete_all_ports_run w :
  match delete_all_ports w with
  | (Ok _, w') =>
      looks (set_active_ports [] w)
        (del_entries "$PORT" (port_key <$> four_pipe_dev_ports) (wview w)) (wgroups w) w'
  | (Raise _, w') => ∃ V', V' ⊆ wview w ∧ looks w V' (wgroups w) w'
  end.
Proof.
  unfold delete_all_ports. rewrite (run_bind_ok _ _ _ _ _ (run_log_info _ _ _)).
  set (w1 := add_line _ w). generalize (port_key <$> four_pipe_dev_ports). intros ks.
  set (c := EntryDel "$PORT" (Some ks)).
  pose proof (view_del "$PORT" ks (w_sw w1) ltac:(in_tables)) as Hv.
  assert (Hg : wgroups (after c w1) = wgroups w).
  { by rewrite wgroups_after. }
  unfold wgroups, after in Hg.
  fold c in Hv. destruct (bf_call c (w_sw w1)) as [[| |e] s] eqn:E; [|done|].
  - rewrite (run_bind_ok _ _ _ tt (after c w1)).
    2: { apply run_bf_done. by rewrite E. }
    unfold modify, after. simpl in *. rewrite E. simpl. by repeat split.
  - rewrite (run_bind_raise _ _ _ e (after c w1)).
    2: { apply run_bf_raise. by rewrite E. }
    destruct Hv as [Hv _]. exists (view s). split; [done|].
    unfold after. simpl in *. rewrite E. by repeat split.
Qed.

Lemma delete_all_ports_inv w w' :
  delete_all_ports w = (Ok tt, w') → ports_inv w'.
Proof.
  intros H. pose proof (delete_all_ports_run w) as Hr. rewrite H in Hr.
  eapply ports_inv_looks; [exact Hr|apply NoDup_nil_2|].
  intros d Hd. by apply not_elem_of_nil in Hd.
Qed.
End keeping.

(** ** What the operations do when the switch cooperates *)

Section lifecycle.
Context `{LF : BfrtLive}.

Lemma port_add_fresh p l speed fec d s f w0 V G w :
  hdl !! (p, l) = Some d → d ∉ active_ports (w_ports w0) →
  speed_conversion_table speed = Some s → fec_conversion_table fec = Some f →
  V !! ("$PORT", port_key d) = None → count_entries "$PORT" V < bf_size "$PORT" →
  looks w0 V G w →
  ends (port_add p l speed fec) w (Ok tt)
    (looks (set_active_ports (active_ports (w_ports w0) ++ [d]) w0)
           (<[("$PORT", port_key d) := port_data s f]> V) G).
Proof.
  intros Hd Ha Hs Hf HV Hroom Hl. unfold port_add.
  eapply ends_bind; [by apply ends_get_dev_port|]. intros w1 Hl1.
  eapply ends_bind; [by apply ends_active_ports|]. intros w2 Hl2.
  rewrite bool_decide_eq_false_2 by done.
  eapply ends_add_ports_tail; [done..|]. intros w3 Hl3.
  apply ends_add1; [in_tables|fits_table|done..].
Qed.

Lemma port_delete_active p l d ports w0 V G w :
  hdl !! (p, l) = Some d → list_remove d (active_ports (w_ports w0)) = Some ports →
  is_Some (V !! ("$PORT", port_key d)) →
  looks w0 V G w →
  ends (port_delete p l) w (Ok tt)
    (looks (set_active_ports ports w0) (delete ("$PORT", port_key d) V) G).
Proof.
  intros Hd Hr HV Hl. unfold port_delete.
  eapply ends_bind; [by apply ends_get_dev_port|]. intros w1 Hl1.
  eapply ends_bind; [by apply ends_active_ports|]. intros w2 Hl2.
  rewrite Hr. eapply ends_bind; [apply (ends_assign (set_active_ports ports)); [attr_solver|done..]|].
  intros w3 Hl3. apply ends_del1; [in_tables|done..].
Qed.

(** An unknown speed or error correction is refused with a [KeyError] and
    the switch's entries are untouched. *)
Lemma port_add_refused p l speed fec d w0 V G w :
  hdl !! (p, l) = Some d → d ∉ active_ports (w_ports w0) →
  speed_conversion_table speed = None ∨ fec_conversion_table fec = None →
  looks w0 V G w →
  ends (port_add p l speed fec) w (Raise KeyError) (looks w0 V G).
Proof.
  intros Hd Ha Hbad Hl. unfold port_add.
  eapply ends_bind; [by apply ends_get_dev_port|]. intros w1 Hl1.
  eapply ends_bind; [by apply ends_active_ports|]. intros w2 Hl2.
  rewrite bool_decide_eq_false_2 by done. unfold add_ports. simpl.
  eapply ends_bind; [by apply ends_log_info|]. intros w3 Hl3.
  eapply ends_bind_raise; [|done]. eapply ends_bind_raise; [|done].
  eapply ends_bind; [by apply ends_log_info|]. intros w4 Hl4.
  eapply ends_bind; [by apply ends_get_dev_port|]. intros w5 Hl5.
  destruct (speed_conversion_table speed) as [s|].
  - eapply ends_bind; [by apply ends_ret|]. intros w6 Hl6.
    destruct Hbad as [|Hbad]; [done|]. rewrite Hbad.
    by eapply ends_bind_raise; [by apply ends_raise|].
  - by eapply ends_bind_raise; [by apply ends_raise|].
Qed.

Lemma set_active_ports_id w0 l V G w :
  looks (set_active_ports (active_ports (w_ports w0)) (set_active_ports l w0)) V G w →
  looks w0 V G w.
Proof.
  intros (Ha & HV & HG). split; [|done]. rewrite Ha. unfold attrs. simpl.
  by destruct (w_ports w0).
Qed.

(** Bringing an unused port up records it as active and writes exactly
    its entry, with the speed and the error correction converted, in the
    switch's port table; taking it down again restores both the list of
    active ports and the table. *)
Theorem port_lifecycle p l speed fec d s f w :
  hdl !! (p, l) = Some d → d ∉ active_ports (w_ports w) →
  speed_conversion_table speed = Some s → fec_conversion_table fec = Some f →
  wview w !! ("$PORT", port_key d) = None → count_entries "$PORT" (wview w) < bf_size "$PORT" →
  ends (port_add p l speed fec) w (Ok tt)
    (looks (set_active_ports (active_ports (w_ports w) ++ [d]) w)
           (<[("$PORT", port_key d) := port_data s f]> (wview w)) (wgroups w)) ∧
  ends (port_add p l speed fec ;; port_delete p l) w (Ok tt) (quiet w).
Proof.
  intros Hd Ha Hs Hf HV Hroom.
  pose proof (port_add_fresh p l speed fec d s f w _ _ w Hd Ha Hs Hf HV Hroom (looks_refl w)) as H1.
  split; [done|]. eapply ends_bind; [exact H1|]. intros w1 Hl1.
  eapply ends_mono.
  - eapply (port_delete_active p l d (active_ports (w_ports w))); [done| | |exact Hl1].
    + simpl. by apply list_remove_last.
    + rewrite lookup_insert_eq. by eexists.
  - intros w2 Hl2. rewrite delete_insert_id in Hl2 by done.
    by eapply set_active_ports_id.
Qed.
End lifecycle.
End Ports.
