(* ===== verification/Counters.v ===== *)
(** * Direct counters

    Four blocks read the packet and byte counters attached to their tables and
    clear them by rewriting every entry's counters with the action it has. The
    loops are the same in the source, file by file; they are here once, with the
    table as an argument. *)
From S2P Require Import Prelude PyMonad PyNum Bfrt Live World.

Section counters.
Context `{BF : Bfrt}.

(** [v['f']] *)
Definition field (d : gmap string pyval) (f : string) : M world pyval :=
  match d !! f with Some v => mret v | None => raise KeyError end.

(** [v['action_name']], a name or [None]. *)
Definition action_name (r : row) : M world (option string) :=
  v ← field (row_vdict r) "action_name";
  match v with VStr a => mret (Some a) | _ => mret None end.

Definition zero_counters (action : option string) : datum :=
  MakeData [("$COUNTER_SPEC_BYTES", VInt 0); ("$COUNTER_SPEC_PKTS", VInt 0)] action.

Definition zero_row (r : row) : M world datum :=
  a ← action_name r; mret (zero_counters a).

(** [x.clear_counters()] for a table with direct counters. *)
Definition clear_direct_counters (msg table : string) : M world unit :=
  log_info msg [] ;;
  bf (OperationsExecute table "SyncCounters") ;;
  resp ← entry_get table None false;
  values ← map_each zero_row resp;
  bf (EntryMod table (row_key <$> resp) values).

(** [x.print_counters()]: a line per entry, from one field of the key and
    three of the data. *)
Definition print_direct_counters (table fmt : string)
    (fields : row → M world (list pyval)) : M world unit :=
  bf (OperationsExecute table "SyncCounters") ;;
  resp ← entry_get table None false;
  for_each resp (λ r, args ← fields r; print fmt args).

(** The rows of an indirect counter as a dict from index to packets; a later
    row of the same index wins. *)
Definition counter_row (r : row) : M world (Z * Z) :=
  i ← field_int (row_kdict r) "$COUNTER_INDEX";
  p ← field_int (row_vdict r) "$COUNTER_SPEC_PKTS";
  mret (i, p).
Definition counter_dict (rows : list row) : M world (gmap Z Z) :=
  es ← map_each counter_row rows;
  mret (list_to_map (rev es)).

(** [v['f'][0]], the value of a register in the first pipe. *)
Definition field_first (d : gmap string pyval) (f : string) : M world Z :=
  v ← field d f;
  match v with
  | VInts (z :: _) => mret z
  | VInts [] => raise IndexError
  | _ => raise TypeError
  end.

(** Clearing an array of counters cell by cell. *)
Definition counter_range (n : Z) : list key := counter_key <$> range 0 n.
Definition zero_packets : datum := MakeData [("$COUNTER_SPEC_PKTS", VInt 0)] None.
Definition zero_cells (n : Z) : list datum := replicate (Z.to_nat n) zero_packets.
End counters.

Lemma zero_counters_keep t ks ds :
  (∀ d, d ∈ ds → ∃ a, d = zero_counters a) → keeps_entries (EntryMod t ks ds) = true.
Proof.
  intros Hd. simpl. apply forallb_forall. intros d Hin.
  destruct (Hd d) as [a ->]; [by apply list_elem_of_In|]. done.
Qed.

Lemma zero_cells_keep t ks n : keeps_entries (EntryMod t ks (zero_cells n)) = true.
Proof.
  simpl. apply forallb_forall. intros d Hin%list_elem_of_In.
  apply elem_of_replicate in Hin as [-> _]. done.
Qed.

Section quiet.
Context `{SF : BfrtSafe}.

Lemma run_values resp w ds w' :
  map_each zero_row resp w = (Ok ds, w') →
  ∀ d, d ∈ ds → ∃ a, d = zero_counters a.
Proof.
  revert w ds w'. induction resp as [|r resp IH]; intros w ds w'; simpl.
  - intros [= <- <-] d Hd. by apply not_elem_of_nil in Hd.
  - rewrite run_bind. destruct (zero_row r w) as [[d0|] w1] eqn:E0; [|done].
    rewrite run_bind. destruct (map_each zero_row resp w1) as [[ds'|] w2] eqn:E; [|done].
    intros [= <- <-] d [->|Hd]%elem_of_cons; [|by eapply IH].
    unfold zero_row in E0. rewrite run_bind in E0.
    destruct (action_name r w) as [[a|] w3]; [|done]. injection E0 as <- <-. by eexists.
Qed.

Lemma stable_quiet_bf c :
  keeps_entries c = true → call_table c ≠ "$pre.mgid" → call_table c ≠ "$pre.node" →
  stable quiet (bf c).
Proof. intros. apply stable_bf. intros w. by apply quiet_keeps. Qed.

Lemma stable_quiet_unseen c :
  call_table c ∉ match_tables → call_table c ≠ "$pre.mgid" → stable quiet (bf c).
Proof. intros. apply stable_bf. intros w. by apply quiet_unseen. Qed.

Lemma stable_quiet_get t ks b :
  t ≠ "$pre.mgid" → t ≠ "$pre.node" → stable quiet (entry_get t ks b).
Proof. intros. apply stable_entry_get. intros w. by apply quiet_keeps. Qed.

(** Clearing counters changes nothing the model observes, whether it
    succeeds or not. *)
Lemma clear_direct_counters_quiet msg t :
  t ≠ "$pre.mgid" → t ≠ "$pre.node" → stable quiet (clear_direct_counters msg t).
Proof.
  intros Hm Hn. unfold clear_direct_counters.
  apply stable_bind; [apply _|by eauto with stable|]. intros _.
  apply stable_bind; [apply _|by apply stable_quiet_bf|]. intros _.
  apply stable_bind; [apply _|by apply stable_quiet_get|]. intros resp.
  apply stable_bind_value; [apply _| |].
  - unfold zero_row, action_name, field. stable_walk.
  - intros w ds w' Hrun. apply (stable_quiet_bf (EntryMod t (row_key <$> resp) ds)); [|done..].
    apply zero_counters_keep. by eapply run_values.
Qed.

Lemma print_direct_counters_quiet t fmt fields :
  t ≠ "$pre.mgid" → t ≠ "$pre.node" → (∀ r, stable quiet (fields r)) →
  stable quiet (print_direct_counters t fmt fields).
Proof.
  intros Hm Hn Hf. unfold print_direct_counters.
  apply stable_bind; [apply _|by apply stable_quiet_bf|]. intros _.
  apply stable_bind; [apply _|by apply stable_quiet_get|]. intros resp.
  apply stable_for_each; [apply _|]. intros r _.
  apply stable_bind; [apply _|done|]. intros args. by eauto with stable.
Qed.

Lemma stable_field d f (R : world → world → Prop) `{!PreOrder R} : stable R (field d f).
Proof. unfold field. stable_walk. Qed.
End quiet.

#[export] Hint Extern 1 (stable _ (field _ _)) => apply stable_field; typeclasses eauto : stable.
#[export] Hint Extern 1 (quiet _ (add_line _ _)) => apply quiet_line : stable.
