(* ===== verification/PortStats.v ===== *)
(** * Listing the ports (py/Ports.py)

    The methods of [Ports] that read the switch's port tables to print them:
    [list_posrt_helper], which joins the port table with its statistics,
    [print_port_stats], and the unused [enable_additional_loopback_ports]. *)
From S2P Require Import Prelude PyMonad Bfrt Live World Ports Counters.

Module PortStats.
(** Python 2 orders values of any types: [None] first, then numbers, then lists,
    then strings. *)
Definition type_rank (v : pyval) : Z :=
  match v with VNone => 0 | VInt _ | VBool _ => 1 | VInts _ | VBools _ => 2 | VStr _ => 3 end.
Definition number (v : pyval) : Z :=
  match v with VInt z => z | VBool b => Z.b2z b | _ => 0 end.
Definition elements (v : pyval) : list Z :=
  match v with VInts l => l | VBools l => Z.b2z <$> l | _ => [] end.
Fixpoint list_cmp (l l' : list Z) : comparison :=
  match l, l' with
  | [], [] => Eq
  | [], _ => Lt
  | _, [] => Gt
  | x :: l, y :: l' => match x ?= y with Eq => list_cmp l l' | c => c end
  end.
Definition characters (s : string) : list Z := (λ a, Z.of_N (Ascii.N_of_ascii a)) <$> String.list_ascii_of_string s.
Definition pyval_cmp (v v' : pyval) : comparison :=
  match type_rank v ?= type_rank v' with
  | Eq =>
      match v, v' with
      | VStr s, VStr s' => list_cmp (characters s) (characters s')
      | _, _ =>
          match number v ?= number v' with
          | Eq => list_cmp (elements v) (elements v')
          | c => c
          end
      end
  | c => c
  end.
(** The order of the sort key, a pair. *)
Definition key_cmp (k k' : pyval * pyval) : comparison :=
  match pyval_cmp k.1 k'.1 with Eq => pyval_cmp k.2 k'.2 | c => c end.
Definition key_le (k k' : pyval * pyval) : bool :=
  match key_cmp k k' with Gt => false | _ => true end.

(** [values.sort(key=...)]: a stable sort by keys computed before. *)
Fixpoint insert_by {A} (x : (pyval * pyval) * A) (l : list ((pyval * pyval) * A)) :=
  match l with
  | [] => [x]
  | y :: l' => if key_le x.1 y.1 then x :: l else y :: insert_by x l'
  end.
Definition sort_by {A} (l : list ((pyval * pyval) * A)) : list ((pyval * pyval) * A) :=
  foldr insert_by [] l.

Section port_stats.
Context `{BF : Bfrt}.

(** [v[n:]] on a string or a list. *)
Definition slice_from (n : nat) (v : pyval) : M world pyval :=
  match v with
  | VStr s => mret (VStr (String.substring n (String.length s - n) s))
  | VInts l => mret (VInts (drop n l))
  | VBools l => mret (VBools (drop n l))
  | _ => raise TypeError
  end.

Definition field (d : gmap string pyval) (f : string) : M world pyval :=
  match d !! f with Some v => mret v | None => raise KeyError end.

(** A value used as a key of a dict: lists are not hashable. *)
Definition hashed (v : pyval) : M world pyval :=
  match v with VInts _ | VBools _ => raise TypeError | _ => mret v end.

(** construct stats dict indexed by dev_port *)
Fixpoint stats_of (acc : gmap pyval (gmap string pyval)) (rows : list row)
    : M world (gmap pyval (gmap string pyval)) :=
  match rows with
  | [] => mret acc
  | r :: rows' =>
      d ← field (row_kdict r) "$DEV_PORT";
      dev_port ← hashed d;
      stats_of (<[dev_port := row_vdict r]> acc) rows'
  end.

(** combine keys and values: the body of the second loop *)
Definition combine (stats : gmap pyval (gmap string pyval)) (r : row) : M world (gmap string pyval) :=
  dev_port ← field (row_kdict r) "$DEV_PORT";
  let v := <["$DEV_PORT" := dev_port]> (row_vdict r) in
  f ← field v "$FEC";
  fec ← slice_from (String.length "BF_FEC_TYP_") f;
  let v := <["$FEC" := fec]> v in
  s ← field v "$SPEED";
  speed ← slice_from (String.length "BF_SPEED_") s;
  let v := <["$SPEED" := speed]> v in
  k ← hashed dev_port;
  st ← dict_get stats k;
  bytes_received ← field st "$OctetsReceivedinGoodFrames";
  packets_received ← field st "$FramesReceivedOK";
  errors_received ← field st "$FrameswithanyError";
  bytes_sent ← field st "$OctetsTransmittedwithouterror";
  packets_sent ← field st "$FramesTransmittedOK";
  mret (<["packets_sent" := packets_sent]> (<["bytes_sent" := bytes_sent]>
        (<["errors_received" := errors_received]> (<["packets_received" := packets_received]>
        (<["bytes_received" := bytes_received]> v))))).

(** The key of the sort. *)
Definition sort_key (v : gmap string pyval) : M world ((pyval * pyval) * gmap string pyval) :=
  c ← field v "$CONN_ID";
  l ← field v "$CHNL_ID";
  mret ((c, l), v).

Definition format_string : string :=
  "  {$PORT_NAME:>4} {$PORT_UP:2} {$IS_VALID:5} {$PORT_ENABLE:7} {$SPEED:>5} {$FEC:>4} {packets_sent:>16} {bytes_sent:>16} {packets_received:>16} {bytes_received:>16} {errors_received:>16}".
Definition format_fields : list string :=
  ["$PORT_NAME"; "$PORT_UP"; "$IS_VALID"; "$PORT_ENABLE"; "$SPEED"; "$FEC"; "packets_sent";
   "bytes_sent"; "packets_received"; "bytes_received"; "errors_received"].
Definition header : gmap string pyval :=
  list_to_map [("$PORT_NAME", VStr "Port"); ("$PORT_UP", VStr "Up"); ("$IS_VALID", VStr "Valid");
               ("$PORT_ENABLE", VStr "Enabled"); ("$SPEED", VStr "Speed"); ("$FEC", VStr " FEC");
               ("bytes_received", VStr "Rx Bytes"); ("bytes_sent", VStr "Tx Bytes");
               ("packets_received", VStr "Rx Packets"); ("packets_sent", VStr "Tx Packets");
               ("errors_received", VStr "Rx Errors")].

(** Printing the formatted dictionary: a field the format names and the
    dictionary lacks is a [KeyError]. *)
Definition print_row (v : gmap string pyval) : M world unit :=
  args ← map_each (field v) format_fields;
  print format_string args.

Definition list_posrt_helper (dev_ports : list Z) : M world unit :=
  result ← entry_get "$PORT" (Some (Ports.port_key <$> dev_ports)) false;
  stats_result ← entry_get "$PORT_STAT" (Some (Ports.port_key <$> dev_ports)) true;
  stats ← stats_of ∅ stats_result;
  values ← map_each (combine stats) result;
  keyed ← map_each sort_key values;
  print_row header ;;
  for_each (sort_by keyed) (λ kv, print_row kv.2).

(** The list of active ports is read, and nothing is done with it. *)
Definition print_port_stats : M world unit :=
  print "Port statistics:" [] ;;
  port_list ← gets (active_ports ∘ w_ports);
  mret tt.

(** NOT USED, says the source. *)
Definition pktgen_ports : list Z := [64; 192; 320; 448].
Definition modify_port (dev_port : Z) : M world unit :=
  print "Modifying port {}" [VInt dev_port] ;;
  bf (EntryAdd "$PKTGEN_PORT_CFG" [Ports.recirc_key dev_port]
        (Some [MakeData [("recirculation_enable", VBool true)] None])).
Definition enable_additional_loopback_ports : M world unit :=
  print "Precheck" [] ;;
  resp ← entry_get "$PKTGEN_PORT_CFG" (Some (Ports.recirc_key <$> pktgen_ports)) false;
  for_each resp pprint_row ;;
  for_each [192; 448] modify_port ;;
  print "Checking" [] ;;
  resp' ← entry_get "$PKTGEN_PORT_CFG" (Some (Ports.recirc_key <$> pktgen_ports)) false;
  for_each resp' pprint_row.
End port_stats.

(** ** The order *)

Lemma list_cmp_opp l l' : list_cmp l l' = CompOpp (list_cmp l' l).
Proof.
  revert l'. induction l as [|x l IH]; intros [|y l']; simpl; try done.
  rewrite (Z.compare_antisym y x). destruct (y ?= x); simpl; auto.
Qed.

Lemma pyval_cmp_opp v v' : pyval_cmp v v' = CompOpp (pyval_cmp v' v).
Proof.
  unfold pyval_cmp. rewrite (Z.compare_antisym (type_rank v') (type_rank v)).
  destruct (type_rank v' ?= type_rank v) eqn:E; simpl; [|done..].
  assert (Hd : match number v ?= number v' with Eq => list_cmp (elements v) (elements v') | c => c end =
    CompOpp match number v' ?= number v with Eq => list_cmp (elements v') (elements v) | c => c end).
  { rewrite (Z.compare_antisym (number v') (number v)).
    destruct (number v' ?= number v); simpl; [apply list_cmp_opp|done..]. }
  destruct v, v'; try exact Hd; try done. apply list_cmp_opp.
Qed.

Lemma key_le_total k k' : key_le k k' = false → key_le k' k = true.
Proof.
  unfold key_le, key_cmp. rewrite (pyval_cmp_opp k'.1 k.1), (pyval_cmp_opp k'.2 k.2).
  by destruct (pyval_cmp k.1 k'.1), (pyval_cmp k.2 k'.2).
Qed.

Definition before {A} (x y : (pyval * pyval) * A) : Prop := key_le x.1 y.1 = true.

Lemma insert_by_perm {A} (x : (pyval * pyval) * A) l : insert_by x l ≡ₚ x :: l.
Proof.
  induction l as [|y l IH]; simpl; [done|]. destruct (key_le _ _); [done|].
  rewrite IH. apply Permutation_swap.
Qed.

Lemma insert_by_hd {A} (x y : (pyval * pyval) * A) l :
  before y x → HdRel before y l → HdRel before y (insert_by x l).
Proof. intros Hx Hl. destruct l as [|z l]; simpl; [by constructor|]. inversion Hl. by case_match; constructor. Qed.

Lemma insert_by_sorted {A} (x : (pyval * pyval) * A) l :
  Sorted before l → Sorted before (insert_by x l).
Proof.
  induction l as [|y l IH]; intros Hs; simpl; [by repeat constructor|].
  apply Sorted_inv in Hs as [Hs Hy]. destruct (key_le _ _) eqn:E.
  - constructor; [by constructor|by constructor].
  - constructor; [by apply IH|]. apply insert_by_hd; [by apply key_le_total|done].
Qed.

(** The lines are in the order of front-panel port and lane, none lost and none
    twice. *)
Theorem sort_by_sorts {A} (l : list ((pyval * pyval) * A)) : sort_by l ≡ₚ l ∧ Sorted before (sort_by l).
Proof.
  unfold sort_by. induction l as [|x l [IHp IHs]]; simpl; [by split; constructor|].
  split; [by rewrite insert_by_perm, IHp|by apply insert_by_sorted].
Qed.

Section quiet.
Context `{SF : BfrtSafe}.

Lemma stats_of_quiet acc rows : stable quiet (stats_of acc rows).
Proof.
  revert acc. induction rows as [|r rows IH]; intros acc; simpl; [stable_walk|].
  unfold field, hashed. stable_walk; apply IH.
Qed.

(** Listing changes neither the switch nor the controller, whatever the tables
    answer. *)
Theorem list_helper_quiet dev_ports : stable quiet (list_posrt_helper dev_ports).
Proof.
  unfold list_posrt_helper.
  apply stable_bind; [apply _|by apply stable_quiet_get|intros result].
  apply stable_bind; [apply _|by apply stable_quiet_get|intros stats_result].
  apply stable_bind; [apply _|apply stats_of_quiet|intros stats].
  unfold combine, sort_key, print_row, field, hashed, slice_from. stable_walk.
Qed.
End quiet.
End PortStats.
