(* ===== verification/Worker.v ===== *)
(** * Workers (py/Worker.py)

    The record of a worker and its enumerations. An [IntEnum] member is the
    integer it stands for. *)
From S2P Require Import Prelude.

Inductive WorkerType := FORWARD_ONLY | SWITCHML_UDP | ROCEv2.
Inductive PacketSize := IBV_MTU_128 | IBV_MTU_256 | IBV_MTU_512 | IBV_MTU_1024.

#[export] Instance WorkerType_eq_dec : EqDecision WorkerType.
Proof. solve_decision. Defined.
#[export] Instance PacketSize_eq_dec : EqDecision PacketSize.
Proof. solve_decision. Defined.

Definition worker_type_value (t : WorkerType) : Z :=
  match t with FORWARD_ONLY => 0 | SWITCHML_UDP => 1 | ROCEv2 => 2 end.
Definition packet_size_value (p : PacketSize) : Z :=
  match p with IBV_MTU_128 => 0 | IBV_MTU_256 => 1 | IBV_MTU_512 => 2 | IBV_MTU_1024 => 3 end.

Record worker := MkWorker {
  wk_mac : string;
  wk_ip : string;
  front_panel_port : Z;
  lane : Z;
  wk_speed : Z;
  wk_fec : string;
  wk_type : WorkerType;
  wk_udp_port : option Z;
  wk_roce_base_qpn : option Z;
  wk_roce_initial_psn : Z;
  wk_roce_partition_key : Z;
  wk_rid : option Z;
  wk_xid : option Z
}.

(** [Worker(...)] *)
Definition Worker (mac ip : string) (front_panel_port lane speed : Z) (fec : string)
    (worker_type : option WorkerType) (udp_port roce_base_qpn : option Z)
    (roce_initial_psn roce_partition_key : Z) : worker :=
  let t1 := match udp_port, worker_type with
            | Some _, None => Some SWITCHML_UDP
            | _, _ => worker_type end in
  let t2 := match roce_base_qpn, t1 with
            | Some _, None => Some ROCEv2
            | _, _ => t1 end in
  let t3 := match t2 with None => FORWARD_ONLY | Some t => t end in
  MkWorker mac ip front_panel_port lane speed fec t3 udp_port roce_base_qpn
    roce_initial_psn roce_partition_key None None.
