(* ===== verification/PRE.v ===== *)
(** * Multicast (py/PRE.py)

    The packet replication engine: one multicast group for the workers of the
    SwitchML job and one for all ports, each a list of node identifiers, and the
    controller's record [rids] of the node it made for each device port. *)
From S2P Require Import Prelude PyMonad Bfrt Live World Ports Worker.

Module PRE.
Section pre.
Context `{BF : Bfrt} `{DO : DictOrder}.

(** [self.rids = r] *)
Definition set_rids (r : gmap Z (gmap Z Z)) (w : world) : world :=
  set_pre {| pre_switchml_mgid := pre_switchml_mgid (w_pre w);
             pre_all_mgid := pre_all_mgid (w_pre w);
             pre_cpu_port := pre_cpu_port (w_pre w);
             rid_counter := rid_counter (w_pre w);
             rids := r |} w.

(** The data of an entry of [$pre.mgid]. *)
Definition mgid_data (ids : list Z) (valid : list bool) (xids : list Z) : datum :=
  MakeData [("$MULTICAST_NODE_ID", VInts ids);
            ("$MULTICAST_NODE_L1_XID_VALID", VBools valid);
            ("$MULTICAST_NODE_L1_XID", VInts xids)] None.
(** The data of an entry of [$pre.node]. *)
Definition node_data (rid dev_port : Z) : datum :=
  MakeData [("$MULTICAST_RID", VInt rid); ("$DEV_PORT", VInts [dev_port])] None.

(** [try: table.entry_del(...) except BfruntimeReadWriteRpcException: log] *)
Definition try_del (t : string) (k : key) (msg : string) (arg : Z) : M world unit :=
  try_except (bf (EntryDel t (Some [k])))
    (except_rpc (log_info msg [VInt arg])).

Definition msg_group_gone : string :=
  "Multicast group ID {} not found in switch already during delete; this is expected.".
Definition msg_node_gone : string :=
  "Multicast node ID {} not found in switch already during delete; this is expected.".

Definition clear : M world unit :=
  g ← gets (pre_switchml_mgid ∘ w_pre);
  try_del "$pre.mgid" (mgid_key g) msg_group_gone g ;;
  a ← gets (pre_all_mgid ∘ w_pre);
  try_del "$pre.mgid" (mgid_key a) msg_group_gone a ;;
  c ← gets (pre_cpu_port ∘ w_pre);
  log_info "Setting port {} as CopyToCPU port." [VInt c] ;;
  bf (EntryAdd "$pre.port" [[KeyTuple "$DEV_PORT" (VInt c)]]
        (Some [MakeData [("$COPY_TO_CPU_PORT_ENABLE", VBool true)] None])).

Definition add_default_entries : M world unit :=
  g ← gets (pre_switchml_mgid ∘ w_pre);
  bf (EntryAdd "$pre.mgid" [mgid_key g] (Some [mgid_data [] [] []])) ;;
  a ← gets (pre_all_mgid ∘ w_pre);
  bf (EntryAdd "$pre.mgid" [mgid_key a] (Some [mgid_data [] [] []])).

Definition init (switchml_mgid all_mgid cpu_port : Z) : M world unit :=
  log_info "Setting up multicast tables..." [] ;;
  bf (TableGet "$pre.mgid") ;;
  bf (TableGet "$pre.node") ;;
  bf (TableGet "$pre.ecmp") ;;
  bf (TableGet "$pre.lag") ;;
  bf (TableGet "$pre.prune") ;;
  bf (TableGet "$pre.port") ;;
  modify (set_pre {| pre_switchml_mgid := switchml_mgid; pre_all_mgid := all_mgid;
                     pre_cpu_port := cpu_port; rid_counter := 0x80000;
                     rids := <[all_mgid := ∅]> (<[switchml_mgid := ∅]> ∅) |}) ;;
  clear ;;
  add_default_entries.

(** [self.rids[mgid]], an inner dict, and its update in place. *)
Definition rids_of (mgid : Z) : M world (gmap Z Z) :=
  r ← gets (rids ∘ w_pre); dict_get r mgid.
Definition put_rids (mgid : Z) (m : gmap Z Z) (w : world) : world :=
  set_rids (<[mgid := m]> (rids (w_pre w))) w.

Definition worker_add (mgid rid port lane : Z) : M world unit :=
  dev_port ← Ports.get_dev_port port lane;
  m ← rids_of mgid;
  if bool_decide (is_Some (m !! rid)) then
    print "Port {}/{} already added to multicast group {}; skipping."
      [VInt port; VInt lane; VInt mgid]
  else
    modify (put_rids mgid (<[dev_port := rid]> m)) ;;
    try_del "$pre.node" (node_key rid) msg_node_gone rid ;;
    bf (EntryAdd "$pre.node" [node_key rid] (Some [node_data rid dev_port])) ;;
    bf (EntryModInc "$pre.mgid" [mgid_key mgid] [mgid_data [rid] [true] [rid]] MOD_INC_ADD).

(** [port] and [lane] in the last two lines are names the method does not
    bind: evaluating them raises, after the switch has been changed. *)
Definition worker_del (mgid rid : Z) : M world unit :=
  bf (EntryModInc "$pre.mgid" [mgid_key mgid] [mgid_data [rid] [false] [0]] MOD_INC_DELETE) ;;
  bf (EntryDel "$pre.node" (Some [node_key rid])) ;;
  raise NameError.

(** The body of the loop of [worker_clear_all]. *)
Definition worker_clear (mgid : Z) (e : Z * Z) : M world unit :=
  let '(dev_port, rid) := e in
  try_except
    (bf (EntryModInc "$pre.mgid" [mgid_key mgid] [mgid_data [rid] [false] [0]] MOD_INC_DELETE))
    (except_rpc (log_info "Multicast node ID {} remove from group {} failed; maybe it's already deleted?"
                   [VInt rid; VInt mgid])) ;;
  try_del "$pre.node" (node_key rid)
    "Multicast node ID {} delete failed; maybe it's already deleted?" rid ;;
  m ← rids_of mgid;
  match m !! dev_port with
  | Some _ => modify (put_rids mgid (delete dev_port m))
  | None => raise KeyError
  end.

Definition worker_clear_all (mgid : Z) : M world unit :=
  m ← rids_of mgid;
  for_each (dict_items m) (worker_clear mgid).

(** The workers of the job come with the [rid] and the [xid] their caller has
    assigned to them in place of the constructor's [None]. *)
Definition add_workers (switchml_workers_mgid : Z) (switchml_workers : list (worker * (Z * Z)))
    (all_ports_mgid : Z) (all_workers : list worker) : M world unit :=
  all_ports ← map_each (λ wk, Ports.get_dev_port (front_panel_port wk) (lane wk)) all_workers;
  try_del "$pre.mgid" (mgid_key switchml_workers_mgid) msg_group_gone switchml_workers_mgid ;;
  try_del "$pre.mgid" (mgid_key all_ports_mgid) msg_group_gone all_ports_mgid ;;
  for_each switchml_workers (λ '(_, (rid, _)),
    try_del "$pre.node" (node_key rid) msg_node_gone rid) ;;
  for_each all_ports (λ port,
    try_del "$pre.node" (node_key (0x8000 + port)) msg_node_gone port) ;;
  for_each switchml_workers (λ '(wk, (rid, _)),
    dev_port ← Ports.get_dev_port (front_panel_port wk) (lane wk);
    bf (EntryAdd "$pre.node" [node_key rid] (Some [node_data rid dev_port]))) ;;
  for_each all_ports (λ port,
    bf (EntryAdd "$pre.node" [node_key (0x8000 + port)]
          (Some [node_data (0x8000 + port) port]))) ;;
  bf (EntryAdd "$pre.mgid" [mgid_key switchml_workers_mgid]
        (Some [mgid_data ((λ x, x.2.1) <$> switchml_workers)
                 (replicate (length switchml_workers) true)
                 ((λ x, x.2.2) <$> switchml_workers)])) ;;
  bf (EntryAdd "$pre.mgid" [mgid_key all_ports_mgid]
        (Some [mgid_data (Z.add 0x8000 <$> all_ports) (replicate (length all_ports) true)
                 (Z.add 0x8000 <$> all_ports)])).
End pre.

(** ** Adding a worker *)

Section adding.
Context `{LF : BfrtLive}.

Lemma ends_rids_of mgid m w0 V G w :
  rids (w_pre w0) !! mgid = Some m → looks w0 V G w →
  ends (rids_of mgid) w (Ok m) (looks w0 V G).
Proof.
  intros Hm Hl. unfold rids_of.
  eapply ends_bind; [apply (ends_attr (rids ∘ w_pre)); [attr_solver|exact Hl]|].
  intros w1 Hl1. by apply ends_dict_get.
Qed.

Lemma ends_put_rids mgid m w0 V G w :
  looks w0 V G w → ends (modify (put_rids mgid m)) w (Ok tt) (looks (put_rids mgid m w0) V G).
Proof. apply ends_assign; [attr_solver|done]. Qed.

(** [try_del] of a node: afterwards the node is not in the table. *)
Lemma ends_try_del_node r msg arg w0 V G w :
  looks w0 V G w →
  ends (try_del "$pre.node" (node_key r) msg arg) w (Ok tt) (λ w', ∃ G',
    (G' = G ∨ G' = filter (.≠ r) <$> G ∧ is_Some (V !! ("$pre.node", node_key r))) ∧
    looks w0 (delete ("$pre.node", node_key r) V) G' w').
Proof.
  intros Hl. pose proof (ends_del_node r w0 V G w Hl) as Hd. simpl in Hd. unfold try_del.
  case_bool_decide as Hn.
  - apply ends_try_ok. eapply ends_mono; [exact Hd|]. naive_solver.
  - eapply ends_try_rpc; [exact Hd|]. intros w1 Hl1.
    eapply ends_mono; [by apply ends_log_info|]. intros w2 Hl2. exists G. split; [by left|].
    rewrite delete_id; [done|]. by apply eq_None_not_Some.
Qed.

Lemma ends_pre_add mgid rid port lane d m old w0 V G w :
  hdl !! (port, lane) = Some d →
  rids (w_pre w0) !! mgid = Some m → m !! rid = None →
  G !! mgid = Some old → rid ∉ old →
  V !! ("$pre.node", node_key rid) = None →
  count_entries "$pre.node" V < bf_size "$pre.node" →
  looks w0 V G w →
  ends (worker_add mgid rid port lane) w (Ok tt)
    (looks (put_rids mgid (<[d := rid]> m) w0)
           (<[("$pre.node", node_key rid) := node_data rid d]> V)
           (<[mgid := old ++ [rid]]> G)).
Proof.
  intros Hd Hm Hr Hg Hold Hn Hroom Hl. unfold worker_add.
  eapply ends_bind; [by eapply Ports.ends_get_dev_port|].
  intros w1 Hl1. eapply ends_bind; [by apply ends_rids_of|]. intros w2 Hl2.
  rewrite bool_decide_eq_false_2 by (rewrite Hr; by intros []).
  eapply ends_bind; [by apply ends_put_rids|]. intros w3 Hl3.
  eapply ends_bind; [by apply ends_try_del_node|]. intros w4 (G' & HG' & Hl4).
  rewrite (delete_id V) in Hl4 by done.
  assert (G' = G) as ->.
  { destruct HG' as [->|[_ [x Hx]]]; [done|]. by rewrite Hn in Hx. }
  eapply ends_bind; [apply ends_add1; [in_tables|fits_table|done..]|]. intros w5 Hl5.
  apply (ends_inc_add _ _ [rid] old); [done|done| |done].
  intros i ->%list_elem_of_singleton. split; [done|]. rewrite lookup_insert_eq. by eexists.
Qed.

Lemma ends_pre_skip mgid rid port lane d m w0 V G w :
  hdl !! (port, lane) = Some d →
  rids (w_pre w0) !! mgid = Some m → is_Some (m !! rid) → looks w0 V G w →
  ends (worker_add mgid rid port lane) w (Ok tt) (looks w0 V G).
Proof.
  intros Hd Hm Hr Hl. unfold worker_add.
  eapply ends_bind; [by eapply Ports.ends_get_dev_port|].
  intros w1 Hl1. eapply ends_bind; [by apply ends_rids_of|]. intros w2 Hl2.
  rewrite bool_decide_eq_true_2 by done. by apply ends_print.
Qed.

(** The test that should skip a port already in the group compares the
    worker's identifier with the device ports on record: a worker whose
    identifier happens to be the device port of an earlier worker is reported
    as added already, and neither the switch nor the record changes. *)
Theorem worker_add_skips mgid rid port lane d m w :
  hdl !! (port, lane) = Some d →
  rids (w_pre w) !! mgid = Some m → is_Some (m !! rid) →
  ends (worker_add mgid rid port lane) w (Ok tt) (quiet w).
Proof. intros. by apply (ends_pre_skip mgid rid port lane d m w (wview w) (wgroups w)). Qed.

Lemma ends_pre_del mgid rid w0 V G w :
  (∃ old, G !! mgid = Some old ∧ rid ∈ old) →
  is_Some (V !! ("$pre.node", node_key rid)) → looks w0 V G w →
  ends (worker_del mgid rid) w (Raise NameError) (λ w', ∃ G',
    looks w0 (delete ("$pre.node", node_key rid) V) G' w' ∧
    ∀ ids, G' !! mgid = Some ids → rid ∉ ids).
Proof.
  intros (old & Ho & Hin) Hn Hl. unfold worker_del.
  destruct (ends_inc_del mgid (mgid_data [rid] [false] [0]) [rid] w0 V G w eq_refl Hl)
    as [H|[H _]].
  - eapply ends_bind; [exact H|]. intros w1 Hl1.
    pose proof (ends_del_node rid w0 _ _ w1 Hl1) as Hd. simpl in Hd.
    rewrite bool_decide_eq_true_2 in Hd by done.
    eapply ends_bind; [exact Hd|]. intros w2 (G' & HG' & Hl2).
    apply ends_raise. exists G'. split; [done|]. intros ids Hids.
    destruct HG' as [-> | ->].
    + rewrite lookup_alter_eq, Ho in Hids. simplify_eq/=. rewrite list_elem_of_filter. set_solver.
    + rewrite lookup_fmap, lookup_alter_eq, Ho in Hids. simplify_eq/=.
      rewrite list_elem_of_filter. set_solver.
  - exfalso. apply H. exists old. split; [done|]. by intros i ->%list_elem_of_singleton.
Qed.

(** [worker_del] never returns normally: when the node is a member of
    its group it removes it from the group and from the switch, and then
    fails on names it does not bind, so the controller still records the
    node. *)
Theorem worker_del_fails mgid rid w :
  (∃ old, wgroups w !! mgid = Some old ∧ rid ∈ old) →
  is_Some (wview w !! ("$pre.node", node_key rid)) →
  ends (worker_del mgid rid) w (Raise NameError) (λ w', ∃ G',
    looks w (delete ("$pre.node", node_key rid) (wview w)) G' w' ∧
    ∀ ids, G' !! mgid = Some ids → rid ∉ ids).
Proof. intros. by apply (ends_pre_del mgid rid w (wview w) (wgroups w)). Qed.
End adding.

(** ** Emptying a group *)

Section clearing.
Context `{LF : BfrtLive} `{DO : DictOrder}.

(** Removing a node from its group: afterwards it is not a member, whether
    the switch accepted the removal or not. *)
Lemma ends_try_inc_del mgid r msg args w0 V G w :
  looks w0 V G w →
  ends (try_except
          (bf (EntryModInc "$pre.mgid" [mgid_key mgid] [mgid_data [r] [false] [0]] MOD_INC_DELETE))
          (except_rpc (log_info msg args))) w (Ok tt)
    (λ w', ∃ G', G' !! mgid = filter (.≠ r) <$> G !! mgid ∧ looks w0 V G' w').
Proof.
  intros Hl.
  destruct (ends_inc_del mgid (mgid_data [r] [false] [0]) [r] w0 V G w eq_refl Hl) as [H|[Hno H]].
  - apply ends_try_ok. eapply ends_mono; [exact H|]. intros w1 Hl1.
    eexists. split; [|exact Hl1]. rewrite lookup_alter_eq. destruct (G !! mgid); [|done].
    simpl. f_equal. apply list_filter_iff. set_solver.
  - eapply ends_try_rpc; [exact H|]. intros w1 Hl1.
    eapply ends_mono; [by apply ends_log_info|]. intros w2 Hl2. exists G. split; [|done].
    destruct (G !! mgid) as [old|] eqn:Ho; [|done]. simpl. f_equal.
    symmetry. apply filter_ne_absent. intros Hr. apply Hno. exists old. split; [done|].
    by intros i ->%list_elem_of_singleton.
Qed.

Lemma ends_worker_clear mgid d r m w0 V G w :
  rids (w_pre w0) !! mgid = Some m → is_Some (m !! d) → looks w0 V G w →
  ends (worker_clear mgid (d, r)) w (Ok tt) (λ w', ∃ G',
    G' !! mgid = filter (.≠ r) <$> G !! mgid ∧
    looks (put_rids mgid (delete d m) w0) (delete ("$pre.node", node_key r) V) G' w').
Proof.
  intros Hm Hd Hl. unfold worker_clear.
  eapply ends_bind; [by apply ends_try_inc_del|]. intros w1 (G1 & HG1 & Hl1).
  eapply ends_bind; [by apply ends_try_del_node|]. intros w2 (G2 & HG2 & Hl2).
  eapply ends_bind; [by apply ends_rids_of|]. intros w3 Hl3.
  destruct (m !! d) as [x|] eqn:Hx; [|by destruct Hd].
  eapply ends_mono; [by apply ends_put_rids|]. intros w4 Hl4. exists G2. split; [|done].
  destruct HG2 as [->|[-> _]]; [done|]. rewrite lookup_fmap, HG1.
  destruct (G !! mgid); [|done]. simpl. by rewrite filter_ne_again.
Qed.

Lemma ends_worker_clear_loop mgid l m w0 V G w :
  rids (w_pre w0) !! mgid = Some m → NoDup l.*1 → (∀ d, d ∈ l.*1 → is_Some (m !! d)) →
  looks w0 V G w →
  ends (for_each l (worker_clear mgid)) w (Ok tt) (λ w', ∃ G',
    G' !! mgid = filter (.∉ l.*2) <$> G !! mgid ∧
    looks (put_rids mgid (foldr delete m l.*1) w0)
      (del_entries "$pre.node" (node_key <$> l.*2) V) G' w').
Proof.
  revert m w0 V G w. induction l as [|[d r] l IH]; intros m w0 V G w Hm Hnd Hd Hl; simpl.
  - apply ends_ret. exists G. split.
    + destruct (G !! mgid) as [old|]; [|done]. simpl. by rewrite filter_not_in_nil.
    + eapply looks_trans; [|reflexivity]. destruct Hl as (Ha & HV & HG). split; [|done].
      rewrite Ha. unfold attrs, put_rids, set_rids, set_pre. simpl. rewrite insert_id by done.
      by destruct (w_pre w0).
  - apply NoDup_cons in Hnd as [Hdl Hnd].
    eapply ends_bind; [apply (ends_worker_clear mgid d r m); [done|apply Hd; by left|exact Hl]|].
    intros w1 (G1 & HG1 & Hl1). eapply ends_mono.
    + eapply (IH (delete d m)); [|done| |exact Hl1].
      * simpl. by rewrite lookup_insert_eq.
      * intros d' Hd'. rewrite lookup_delete_ne by (intros ->; done). apply Hd. by right.
    + intros w2 (G2 & HG2 & Hl2). exists G2. split.
      * rewrite HG2, HG1. destruct (G !! mgid) as [old|]; [|done]. simpl.
        by rewrite filter_not_in_cons.
      * rewrite del_entries_cons in Hl2. destruct Hl2 as (Ha & HV & HG). split; [|done].
        rewrite Ha. unfold attrs, put_rids, set_rids, set_pre. simpl.
        by rewrite insert_insert_eq, <- delete_foldr_delete.
Qed.

Lemma ends_pre_clear mgid m w0 V G w :
  rids (w_pre w0) !! mgid = Some m → looks w0 V G w →
  ends (worker_clear_all mgid) w (Ok tt) (λ w', ∃ G',
    G' !! mgid = filter (.∉ (dict_items m).*2) <$> G !! mgid ∧
    looks (put_rids mgid ∅ w0)
      (del_entries "$pre.node" (node_key <$> (dict_items m).*2) V) G' w').
Proof.
  intros Hm Hl. unfold worker_clear_all.
  pose proof (dict_items_perm m) as Hp.
  eapply ends_bind; [by apply ends_rids_of|]. intros w1 Hl1.
  eapply ends_mono.
  - eapply (ends_worker_clear_loop mgid (dict_items m) m); [done| | |exact Hl1].
    + rewrite Hp. apply NoDup_fst_map_to_list.
    + intros d. rewrite Hp. intros ([d' r] & -> & Hd)%list_elem_of_fmap.
      apply elem_of_map_to_list in Hd. by eexists.
  - intros w2 (G' & HG' & Hl2). exists G'. split; [done|].
    assert (foldr delete m (dict_items m).*1 = ∅) as He; [|by rewrite He in Hl2].
    apply map_empty. intros d. destruct (decide (d ∈ (dict_items m).*1)) as [Hd|Hd].
    + by apply lookup_foldr_delete.
    + rewrite lookup_foldr_delete_not_elem_of by done.
      apply eq_None_not_Some. intros [r Hr]. apply Hd. rewrite Hp.
      apply list_elem_of_fmap. exists (d, r). by rewrite elem_of_map_to_list.
Qed.

(** [worker_clear_all] always returns: whatever the switch makes of the
    removals, the controller forgets every node of the group, the switch's
    node table loses exactly the recorded nodes, and the members left in the
    group are those it had no record of. *)
Theorem worker_clear_all_empties mgid m w :
  rids (w_pre w) !! mgid = Some m →
  ends (worker_clear_all mgid) w (Ok tt) (λ w', ∃ G',
    G' !! mgid = filter (.∉ (dict_items m).*2) <$> wgroups w !! mgid ∧
    looks (put_rids mgid ∅ w)
      (del_entries "$pre.node" (node_key <$> (dict_items m).*2) (wview w)) G' w').
Proof. intros. by apply (ends_pre_clear mgid m w (wview w) (wgroups w)). Qed.

(** The record has room for one node per device port. When two workers of
    different rank share a port, the second one takes the place of the first
    on record; clearing all workers then removes only the second: the first
    one's node stays on the switch and stays a member of the group, where the
    results of the next job still go. *)
Theorem same_port_leaks mgid r1 r2 port lane d old w :
  hdl !! (port, lane) = Some d → r1 ≠ r2 → r2 ≠ d →
  rids (w_pre w) !! mgid = Some ∅ →
  wgroups w !! mgid = Some old → r1 ∉ old → r2 ∉ old →
  wview w !! ("$pre.node", node_key r1) = None →
  wview w !! ("$pre.node", node_key r2) = None →
  count_entries "$pre.node" (wview w) + 2 ≤ bf_size "$pre.node" →
  ends (worker_add mgid r1 port lane ;; worker_add mgid r2 port lane ;; worker_clear_all mgid) w (Ok tt)
    (λ w', ∃ G', G' !! mgid = Some (old ++ [r1]) ∧
       looks w (<[("$pre.node", node_key r1) := node_data r1 d]> (wview w)) G' w').
Proof.
  intros Hd Hne Hrd Hm Hg Ho1 Ho2 Hn1 Hn2 Hroom.
  eapply ends_bind.
  { apply (ends_pre_add mgid r1 port lane d ∅ old w); try done; lia. }
  intros w1 Hl1. eapply ends_bind.
  { eapply (ends_pre_add mgid r2 port lane d (<[d := r1]> ∅) (old ++ [r1]) _ _ _ w1 Hd); [..|exact Hl1].
    - apply lookup_insert_eq.
    - by rewrite lookup_insert_ne.
    - apply lookup_insert_eq.
    - rewrite elem_of_app, list_elem_of_singleton. naive_solver.
    - rewrite lookup_insert_ne; [done|]. intros [= ?]. done.
    - rewrite count_entries_insert by done. lia. }
  rewrite !insert_insert_eq. intros w2 Hl2.
  eapply ends_mono.
  { eapply (ends_pre_clear mgid (<[d := r2]> ∅) _ _ _ w2); [|exact Hl2]. apply lookup_insert_eq. }
  intros w3 (G' & HG' & Hl3). exists G'.
  assert (Hi : dict_items (<[d := r2]> (∅ : gmap Z Z)) = [(d, r2)]).
  { apply Permutation_singleton_r. by rewrite dict_items_perm, insert_empty, map_to_list_singleton. }
  rewrite Hi in HG', Hl3. simpl in HG', Hl3. rewrite lookup_insert_eq in HG'. simpl in HG'. split.
  - rewrite HG', <- app_assoc, !filter_app. f_equal. f_equal.
    + clear - Ho2. induction old as [|x old IH]; [done|].
      rewrite filter_cons_True by set_solver. f_equal. apply IH. set_solver.
    + rewrite filter_cons_True, filter_cons_False by set_solver. done.
  - rewrite delete_insert_id in Hl3 by (rewrite lookup_insert_ne; [done|intros [= ?]; done]).
    destruct Hl3 as (Ha & HV). split; [|exact HV]. rewrite Ha. unfold attrs. simpl.
    rewrite !insert_insert_eq, insert_id by done. by destruct (w_pre w).
Qed.
End clearing.
End PRE.
