(* ===== verification/NonSwitchMLForward.v ===== *)
(** * Forwarding of ordinary traffic (py/NonSwitchMLForward.py)

    The table that forwards by destination MAC address, and the controller's
    record of the front-panel port and lane of each address. *)
From Stdlib Require Import Floats.SpecFloat.
From S2P Require Import Prelude PyMonad Bfrt Live World Ports Worker.

Module Forward.
Section forward.
Context `{BF : Bfrt} `{DO : DictOrder}.

Definition table : string := "pipe.Ingress.non_switchml_forward.forward".
Definition mac_key (mac : string) : key := [KeyTuple "hdr.ethernet.dst_addr" (VStr mac)].
Definition flood_data (mgid : Z) : datum :=
  MakeData [("flood_mgid", VInt mgid)] (Some "Ingress.non_switchml_forward.flood").
Definition port_data (dev_port : Z) : datum :=
  MakeData [("egress_port", VInt dev_port)] (Some "Ingress.non_switchml_forward.set_egress_port").

Definition set_mac_addresses (m : gmap string (Z * Z)) (w : world) : world :=
  set_fwd {| fwd_mgid := fwd_mgid (w_fwd w); mac_addresses := m |} w.

(** [Table.clear] *)
Definition clear : M world unit := bf (EntryDel table None).

Definition add_default_entries : M world unit :=
  mgid ← gets (fwd_mgid ∘ w_fwd);
  bf (EntryAdd table [mac_key "ff:ff:ff:ff:ff:ff"] (Some [flood_data mgid])).

Definition init (mgid : Z) : M world unit :=
  modify (λ w, set_fwd {| fwd_mgid := mgid; mac_addresses := mac_addresses (w_fwd w) |} w) ;;
  log_info "Setting up forward table..." [] ;;
  bf (TableGet table) ;;
  bf (KeyAnnotation table "hdr.ethernet.dst_addr" "mac") ;;
  modify (set_mac_addresses ∅) ;;
  clear ;;
  add_default_entries.

Definition worker_add (mac_address : string) (front_panel_port lane : Z) : M world unit :=
  dev_port ← Ports.get_dev_port front_panel_port lane;
  try_except
    (bf (EntryAdd table [mac_key mac_address] (Some [port_data dev_port])) ;;
     modify (λ w, set_mac_addresses
       (<[mac_address := (front_panel_port, lane)]> (mac_addresses (w_fwd w))) w))
    (except_any (λ _, print "Error adding {} at {}/{}: {}"
       [VStr mac_address; VInt front_panel_port; VInt lane])).

Definition worker_del (mac_address : string) : M world unit :=
  bf (EntryDel table (Some [mac_key mac_address])) ;;
  m ← gets (mac_addresses ∘ w_fwd);
  match m !! mac_address with
  | Some _ => modify (set_mac_addresses (delete mac_address m))
  | None => raise KeyError
  end.

(** [None] and the empty string are both false in Python. *)
Definition worker_print (requested_mac_address : option string) : M world unit :=
  print "  MAC address       Front panel port" [] ;;
  m ← gets (mac_addresses ∘ w_fwd);
  match requested_mac_address with
  | Some mac =>
      if bool_decide (mac = "") then
        for_each (dict_items m) (λ '(mac_address, (port, lane)),
          print "  {:>17} {:>2}/{}" [VStr mac_address; VInt port; VInt lane])
      else
        '(port, lane) ← dict_get m mac;
        print "  {:>17} {:>2}/{}" [VStr mac; VInt port; VInt lane]
  | None =>
      for_each (dict_items m) (λ '(mac_address, (port, lane)),
        print "  {:>17} {:>2}/{}" [VStr mac_address; VInt port; VInt lane])
  end.

(** [results.append(mac_address)] in the loop is the list of the branches'
    contributions, in order. *)
Definition check_mac (fp_port fp_lane : Z) (e : string * (Z * Z)) : M world (list string) :=
  let '(mac_address, (port, lane)) := e in
  print "checking {} {}/{} against {}/{}"
    [VStr mac_address; VInt port; VInt lane; VInt fp_port; VInt fp_lane] ;;
  mret (if bool_decide (port = fp_port ∧ lane = fp_lane) then [mac_address] else []).

Definition get_macs_on_port (fp_port fp_lane : Z) : M world (list string) :=
  m ← gets (mac_addresses ∘ w_fwd);
  results ← map_each (check_mac fp_port fp_lane) (dict_items m);
  mret (concat results).

(** The entries are added, without data, where they should be deleted. *)
Definition worker_clear_all : M world unit :=
  m ← gets (mac_addresses ∘ w_fwd);
  bf (EntryAdd table ((λ e : string * (Z * Z), mac_key e.1) <$> dict_items m) None) ;;
  modify (set_mac_addresses ∅).

Definition not_configured : pyexn := Exn "Error: MAC address not configured on switch.".

Definition worker_port_get (mac : string) : M world (Z * Z) :=
  m ← gets (mac_addresses ∘ w_fwd);
  match m !! mac with
  | None => raise not_configured
  | Some pl => mret pl
  end.

Definition add_workers (switch_mgid : Z) (workers : list worker) : M world unit :=
  for_each workers (λ wk,
    dev_port ← Ports.get_dev_port (front_panel_port wk) (lane wk);
    bf (EntryAdd table [mac_key (wk_mac wk)] (Some [port_data dev_port]))).

(** The clock is a package of its own: [None] when it cannot be imported, else
    the readings before and after the loop. *)
Definition timing_mac : string := "00:11:22:33:44:55".
Definition timing_count : Z := 1000000.
Definition timing_loop (clock : option (spec_float * spec_float)) : M world unit :=
  match clock with
  | None => raise (Exn "No module named time_perf_counter")
  | Some (start, stop) =>
      bf (EntryAdd table [mac_key timing_mac] (Some [port_data 0])) ;;
      for_each (range 0 timing_count) (λ _,
        bf (EntryMod table [mac_key timing_mac] [port_data 0])) ;;
      let elapsed := SFsub 53 1024 stop start in
      (if SFeqb elapsed (S754_zero false) then raise ZeroDivisionError else mret tt) ;;
      print "{} mods in {:02f} seconds: {:02f} m/s" [VInt timing_count]
  end.
End forward.
Arguments timing_count : simpl never.

(** ** Properties *)

Section properties.
Context `{LF : BfrtLive} `{DO : DictOrder}.

Lemma ends_mac_addresses w0 V G w :
  looks w0 V G w →
  ends (gets (mac_addresses ∘ w_fwd)) w (Ok (mac_addresses (w_fwd w0))) (looks w0 V G).
Proof. apply (ends_attr (mac_addresses ∘ w_fwd)). attr_solver. Qed.

Lemma ends_put_mac mac pl w0 V G w :
  looks w0 V G w →
  ends (modify (λ w, set_mac_addresses (<[mac := pl]> (mac_addresses (w_fwd w))) w)) w (Ok tt)
    (looks (set_mac_addresses (<[mac := pl]> (mac_addresses (w_fwd w0))) w0) V G).
Proof.
  apply (ends_assign (λ w, set_mac_addresses (<[mac := pl]> (mac_addresses (w_fwd w))) w));
    [attr_solver|done].
Qed.

Lemma ends_worker_port_get mac pl w0 V G w :
  mac_addresses (w_fwd w0) !! mac = Some pl → looks w0 V G w →
  ends (worker_port_get mac) w (Ok pl) (looks w0 V G).
Proof.
  intros Hm Hl. unfold worker_port_get.
  eapply ends_bind; [by apply ends_mac_addresses|]. intros w1 Hl1. rewrite Hm. by apply ends_ret.
Qed.

Lemma ends_worker_port_get_none mac w0 V G w :
  mac_addresses (w_fwd w0) !! mac = None → looks w0 V G w →
  ends (worker_port_get mac) w (Raise not_configured) (looks w0 V G).
Proof.
  intros Hm Hl. unfold worker_port_get.
  eapply ends_bind; [by apply ends_mac_addresses|]. intros w1 Hl1. rewrite Hm. by apply ends_raise.
Qed.

Lemma ends_worker_add mac p l d w0 V G w :
  hdl !! (p, l) = Some d → V !! (table, mac_key mac) = None →
  count_entries table V < bf_size table → looks w0 V G w →
  ends (worker_add mac p l) w (Ok tt)
    (looks (set_mac_addresses (<[mac := (p, l)]> (mac_addresses (w_fwd w0))) w0)
           (<[(table, mac_key mac) := port_data d]> V) G).
Proof.
  intros Hd Hn Hroom Hl. unfold worker_add.
  eapply ends_bind; [by eapply Ports.ends_get_dev_port|]. intros w1 Hl1.
  apply ends_try_ok. eapply ends_bind; [apply ends_add1; [in_tables|fits_table|done..]|].
  intros w2 Hl2. by apply ends_put_mac.
Qed.

(** Adding an address the switch does not forward yet writes exactly its
    entry, to the device port of the front-panel port, and from then on
    [worker_port_get] answers the port and lane it was added with; removing
    it again restores the table and the record. *)
Theorem forward_add_get_del mac p l d w :
  hdl !! (p, l) = Some d → mac_addresses (w_fwd w) !! mac = None →
  wview w !! (table, mac_key mac) = None →
  count_entries table (wview w) < bf_size table →
  ends (worker_add mac p l ;; worker_port_get mac) w (Ok (p, l))
    (looks (set_mac_addresses (<[mac := (p, l)]> (mac_addresses (w_fwd w))) w)
           (<[(table, mac_key mac) := port_data d]> (wview w)) (wgroups w)) ∧
  ends (worker_add mac p l ;; worker_del mac) w (Ok tt) (quiet w).
Proof.
  intros Hd Hm Hn Hroom.
  pose proof (ends_worker_add mac p l d w _ _ w Hd Hn Hroom (looks_refl w)) as Hadd.
  split; (eapply ends_bind; [exact Hadd|]); intros w1 Hl1.
  - apply ends_worker_port_get; [|done]. simpl. by rewrite lookup_insert_eq.
  - unfold worker_del. eapply ends_bind.
    { apply (ends_del1 table); [in_tables|done| |exact Hl1]. rewrite lookup_insert_eq. by eexists. }
    intros w2 Hl2. rewrite delete_insert_id in Hl2 by done.
    eapply ends_bind; [by apply ends_mac_addresses|]. intros w3 Hl3. simpl.
    rewrite lookup_insert_eq, delete_insert_id by done.
    eapply ends_mono; [apply (ends_assign (set_mac_addresses (mac_addresses (w_fwd w))));
      [attr_solver|done|exact Hl3]|].
    intros w4 (Ha & HV & HG). split; [|done]. rewrite Ha. unfold attrs. simpl.
    by destruct (w_fwd w).
Qed.

(** An address that is already in the table is not moved: the switch
    refuses the entry, the controller reports the error, returns normally and
    keeps the record it had, and no entry of the switch is lost. *)
Theorem forward_add_duplicate mac p l d w :
  hdl !! (p, l) = Some d → is_Some (wview w !! (table, mac_key mac)) →
  ends (worker_add mac p l) w (Ok tt) (λ w', ∃ V', wview w ⊆ V' ∧ looks w V' (wgroups w) w').
Proof.
  intros Hd [x Hx]. unfold worker_add.
  eapply ends_bind; [eapply Ports.ends_get_dev_port; [done|apply looks_refl]|]. intros w1 Hl1.
  destruct (safe_add table [mac_key mac] [port_data d] w _ _ w1 ltac:(in_tables) Hl1)
    as [[_ Hn]|(e & V' & HV & H)].
  - rewrite Hn in Hx; [done|set_solver].
  - eapply ends_try_any; [by eapply ends_bind_raise; [exact H|]|].
    intros w2 Hl2. eapply ends_mono; [apply ends_print, Hl2|]. eauto.
Qed.

(** The loop leaves its entry behind: with the entry in the table it raises at
    once, whatever the clock. *)
Theorem timing_loop_again clock w :
  is_Some (wview w !! (table, mac_key timing_mac)) →
  ∃ e V', wview w ⊆ V' ∧ ends (timing_loop clock) w (Raise e) (looks w V' (wgroups w)).
Proof.
  intros [x Hx]. destruct clock as [[start stop]|].
  - destruct (safe_add table [mac_key timing_mac] [port_data 0] w _ _ w ltac:(in_tables) (looks_refl w))
      as [[_ Hn]|(e & V' & HV & H)].
    { rewrite Hn in Hx; [done|set_solver]. }
    exists e, V'. split; [done|]. by eapply ends_bind_raise.
  - eexists _, (wview w). split; [done|]. apply ends_raise, looks_refl.
Qed.

Lemma run_check_mac p l (e : string * (Z * Z)) w :
  ∃ w', check_mac p l e w = (Ok (if bool_decide (e.2 = (p, l)) then [e.1] else []), w') ∧ quiet w w'.
Proof.
  destruct e as [mac [p' l']]. eexists. split; [|apply quiet_line]. simpl.
  unfold mbind, M_bind, mret, M_ret, print, modify. do 2 f_equal.
  repeat case_bool_decide; naive_solver.
Qed.

Lemma run_check_macs p l (es : list (string * (Z * Z))) w :
  ∃ w', map_each (check_mac p l) es w =
    (Ok ((λ e : string * (Z * Z), if bool_decide (e.2 = (p, l)) then [e.1] else []) <$> es), w')
    ∧ quiet w w'.
Proof.
  revert w. induction es as [|e es IH]; intros w; simpl; [by eexists|].
  destruct (run_check_mac p l e w) as (w1 & Hrun1 & Hq1).
  destruct (IH w1) as (w' & Hrun & Hq). exists w'.
  rewrite (run_bind_ok _ _ _ _ _ Hrun1), (run_bind_ok _ _ _ _ _ Hrun).
  split; [done|]. by etransitivity.
Qed.

(** The addresses on a port. *)
Lemma ends_get_macs p l w :
  ∃ macs, ends (get_macs_on_port p l) w (Ok macs) (quiet w) ∧ NoDup macs ∧
    ∀ mac, mac ∈ macs ↔ mac_addresses (w_fwd w) !! mac = Some (p, l).
Proof.
  set (m := mac_addresses (w_fwd w)).
  destruct (run_check_macs p l (dict_items m) w) as (w' & Hrun & Hq).
  eexists. split.
  { exists w'. split; [|exact Hq]. unfold get_macs_on_port.
    rewrite (run_bind_gets _ _ _ m) by done. by rewrite (run_bind_ok _ _ _ _ _ Hrun). }
  pose proof (dict_items_perm m) as Hp.
  assert (Hnd : NoDup (dict_items m).*1) by (rewrite Hp; apply NoDup_fst_map_to_list).
  assert (Hin : ∀ mac, m !! mac = Some (p, l) ↔ (mac, (p, l)) ∈ dict_items m).
  { intros mac. by rewrite Hp, elem_of_map_to_list. }
  setoid_rewrite Hin. clear Hin Hp Hrun. induction (dict_items m) as [|[mac pl] es IH]; simpl.
  { split; [apply NoDup_nil_2|]. set_solver. }
  apply NoDup_cons in Hnd as [Hmac Hnd]. destruct (IH Hnd) as [IH1 IH2].
  case_bool_decide as Heq; simpl in *.
  - subst pl. split.
    + apply NoDup_cons. split; [|done]. rewrite IH2. intros Hes. apply Hmac.
      apply list_elem_of_fmap. by exists (mac, (p, l)).
    + intros mac'. rewrite !elem_of_cons, IH2. naive_solver.
  - split; [done|]. intros mac'. rewrite elem_of_cons, IH2. naive_solver.
Qed.

(** [get_macs_on_port] answers exactly the addresses recorded on that
    port and lane, each once. *)
Theorem get_macs_on_port_exact p l w :
  ∃ macs, ends (get_macs_on_port p l) w (Ok macs) (quiet w) ∧ NoDup macs ∧
    ∀ mac, mac ∈ macs ↔ mac_addresses (w_fwd w) !! mac = Some (p, l).
Proof. apply ends_get_macs. Qed.
End properties.
End Forward.
