(* ===== verification/GetWorkerBitmap.v ===== *)
(** * Recognising the job's UDP packets (py/GetWorkerBitmap.py)

    The ingress table that maps a packet of a worker to the worker's bit and to
    the bitmap of the complete job. *)
From S2P Require Import Prelude PyMonad PyNum Bfrt Schema Live World Counters Worker.

Module GetWorkerBitmap.
Section get_worker_bitmap.
Context `{BF : Bfrt}.

Definition table : string := "pipe.Ingress.get_worker_bitmap.get_worker_bitmap".

Definition all_zeros_mac_address : string := "00:00:00:00:00:00".
Definition all_ones_mac_address : string := "ff:ff:ff:ff:ff:ff".
Definition all_zeros_ip_address : string := "0.0.0.0".
Definition all_ones_ip_address : string := "255.255.255.255".

(** [Table.clear] *)
Definition clear : M world unit := bf (EntryDel table None).
Definition add_default_entries : M world unit := mret tt.

Definition init : M world unit :=
  log_info "Setting up get_worker_bitmap table..." [] ;;
  bf (TableGet table) ;;
  bf (KeyAnnotation table "hdr.ethernet.dst_addr" "mac") ;;
  bf (KeyAnnotation table "hdr.ethernet.src_addr" "mac") ;;
  bf (KeyAnnotation table "hdr.ipv4.dst_addr" "ipv4") ;;
  bf (KeyAnnotation table "hdr.ipv4.src_addr" "ipv4") ;;
  clear ;;
  add_default_entries.

(** The key and the data of [add_udp_entry]. *)
Definition udp_key (switch_mac switch_ip : string) (switch_udp_port switch_udp_mask : Z)
    (worker_mac worker_ip : string) (match_priority : Z) : key :=
  let worker_ip_mask :=
    if bool_decide (worker_ip = "0.0.0.0") then all_zeros_ip_address else all_ones_ip_address in
  [KeyTuple "$MATCH_PRIORITY" (VInt match_priority);
   KeyTernary "hdr.ipv4.src_addr" (VStr worker_ip) (VStr worker_ip_mask);
   KeyTernary "hdr.ipv4.dst_addr" (VStr switch_ip) (VStr all_ones_ip_address);
   KeyTernary "hdr.ethernet.src_addr" (VStr worker_mac) (VStr all_ones_mac_address);
   KeyTernary "hdr.ethernet.dst_addr" (VStr switch_mac) (VStr all_ones_mac_address);
   KeyTernary "hdr.udp.dst_port" (VInt switch_udp_port) (VInt switch_udp_mask);
   KeyTernary "ig_prsr_md.parser_err" (VInt 0x0002) (VInt 0x0000);
   KeyTernary "ig_intr_md.ingress_port" (VInt 0x000) (VInt 0x000);
   KeyTernary "hdr.ib_bth.partition_key" (VInt 0x0000) (VInt 0x0000);
   KeyTernary "hdr.ib_bth.dst_qp" (VInt 0x000000) (VInt 0x000000)].

Definition complete_bitmap (num_workers : Z) : Z := (1 .<< num_workers) - 1.

Definition udp_data (worker_id worker_bitmap num_workers switch_mgid pool_base pool_size : Z) : datum :=
  MakeData [("mgid", VInt switch_mgid);
            ("worker_type", VInt (worker_type_value SWITCHML_UDP));
            ("worker_id", VInt worker_id);
            ("packet_type", VInt 0x1);
            ("num_workers", VInt num_workers);
            ("worker_bitmap", VInt worker_bitmap);
            ("complete_bitmap", VInt (complete_bitmap num_workers));
            ("pool_base", VInt pool_base);
            ("pool_size_minus_1", VInt (pool_size - 1))]
    (Some "Ingress.get_worker_bitmap.set_bitmap").

(** [1 << num_workers] refuses a negative count after the key is built; the
    client has not been called then. *)
Definition add_udp_entry (switch_mac switch_ip : string) (switch_udp_port switch_udp_mask worker_id : Z)
    (worker_mac worker_ip : string) (worker_bitmap num_workers match_priority switch_mgid
     pool_base pool_size : Z) : M world unit :=
  log_info "Adding worker {} {}" [VStr worker_mac; VStr worker_ip] ;;
  if bool_decide (num_workers < 0) then raise ValueError
  else
    bf (EntryAdd table
          [udp_key switch_mac switch_ip switch_udp_port switch_udp_mask worker_mac worker_ip
             match_priority]
          (Some [udp_data worker_id worker_bitmap num_workers switch_mgid pool_base pool_size])).

Definition counter_fields (r : row) : M world (list pyval) :=
  worker_ip ← field (row_kdict r) "hdr.ipv4.src_addr";
  worker_id ← field (row_vdict r) "worker_id";
  worker_packets ← field (row_vdict r) "$COUNTER_SPEC_PKTS";
  worker_bytes ← field (row_vdict r) "$COUNTER_SPEC_BYTES";
  mret [worker_id; worker_ip; worker_packets; worker_bytes].

Definition print_counters : M world unit :=
  print_direct_counters table
    "Received from worker {:2} at {:15}: {:10} packets, {:10} bytes" counter_fields.

Definition clear_counters : M world unit :=
  clear_direct_counters "Clearing get_worker_bitmap counters..." table.
End get_worker_bitmap.

(** ** Bitmaps *)

(** The bit of a worker, [1 << worker_rank] in [Job.worker_add_udp] and
    [Job.worker_add_roce]. *)
Definition worker_bit (rank : Z) : Z := 1 .<< rank.

Lemma testbit_worker_bit r n : 0 ≤ r → 0 ≤ n → Z.testbit (worker_bit r) n = bool_decide (n = r).
Proof.
  intros Hr Hn. unfold worker_bit. rewrite Z.shiftl_1_l.
  rewrite Z.pow2_bits_eqb by done. case_bool_decide; [by apply Z.eqb_eq|by apply Z.eqb_neq; lia].
Qed.

Lemma testbit_complete n i :
  0 ≤ n → 0 ≤ i → Z.testbit (complete_bitmap n) i = bool_decide (i < n).
Proof.
  intros Hn Hi. unfold complete_bitmap. rewrite Z.shiftl_1_l. by apply testbit_ones.
Qed.

(** The bits collected from a list of workers. *)
Definition collected (ranks : list Z) : Z := foldr (λ r acc, worker_bit r .| acc) 0 ranks.

Lemma testbit_collected ranks i :
  (∀ r, r ∈ ranks → 0 ≤ r) → 0 ≤ i →
  Z.testbit (collected ranks) i = bool_decide (i ∈ ranks).
Proof.
  intros Hr Hi. induction ranks as [|r ranks IH]; simpl.
  - by rewrite Z.testbit_0_l.
  - rewrite Z.lor_spec, IH by (intros; apply Hr; by right).
    rewrite testbit_worker_bit by (done || apply Hr; by left).
    repeat case_bool_decide; set_solver.
Qed.

(** The switch recognises a slot as complete when the bits it has collected
    equal the job's bitmap. Up to 32 workers, the job's bitmap fits the 32-bit
    register, each worker owns one bit of it that no other worker has, and a
    set of workers of the job collects the complete bitmap exactly when every
    worker of the job is in it. *)
Theorem bitmap_complete_iff n (ranks : list Z) :
  0 ≤ n ≤ 32 → (∀ r, r ∈ ranks → 0 ≤ r < n) →
  0 ≤ complete_bitmap n < 2 ^ 32 ∧
  (∀ r s, 0 ≤ r < n → 0 ≤ s < n → r ≠ s → worker_bit r .& worker_bit s = 0) ∧
  (∀ r, 0 ≤ r < n → worker_bit r .& complete_bitmap n = worker_bit r) ∧
  (collected ranks = complete_bitmap n ↔ ∀ r, 0 ≤ r < n → r ∈ ranks).
Proof.
  intros Hn Hr. split_and!.
  - unfold complete_bitmap. rewrite Z.shiftl_1_l.
    pose proof (Z.pow_pos_nonneg 2 n). lia.
  - unfold complete_bitmap. rewrite Z.shiftl_1_l.
    pose proof (Z.pow_le_mono_r 2 n 32). lia.
  - intros r s Hr' Hs Hne. apply Z_bits_ext. intros i Hi.
    rewrite Z.land_spec, !testbit_worker_bit, Z.testbit_0_l by lia.
    repeat case_bool_decide; naive_solver.
  - intros r Hr'. apply Z_bits_ext. intros i Hi.
    rewrite Z.land_spec, testbit_worker_bit, testbit_complete by lia.
    repeat case_bool_decide; simpl; first [done | exfalso; lia].
  - assert (Hr0 : ∀ r, r ∈ ranks → 0 ≤ r) by (intros r H; specialize (Hr r H); lia).
    split.
    + intros Heq r Hlt.
      assert (Hb : Z.testbit (collected ranks) r = true).
      { rewrite Heq, testbit_complete by lia. apply bool_decide_eq_true_2; lia. }
      rewrite testbit_collected in Hb by (done || lia). by apply bool_decide_eq_true in Hb.
    + intros Hall. apply Z_bits_ext. intros i Hi.
      rewrite testbit_collected, testbit_complete by (done || lia).
      apply bool_decide_ext. split; [intros H; apply Hr in H; lia|]. intros. apply Hall. lia.
Qed.

Lemma bitmap_complete_iff_witness :
  0 ≤ complete_bitmap 3 < 2 ^ 32 ∧
  (collected [2; 0; 1] = complete_bitmap 3 ↔ ∀ r, 0 ≤ r < 3 → r ∈ [2; 0; 1]).
Proof.
  assert (H : ∀ r, r ∈ [2; 0; 1] → 0 ≤ r < 3) by (intros r; rewrite !elem_of_cons, elem_of_nil; lia).
  destruct (bitmap_complete_iff 3 [2; 0; 1] ltac:(lia) H) as (H1 & _ & _ & H4).
  split; [exact H1|exact H4].
Defined.

(** ** The switch's entry *)

Section entries.
Context `{LF : BfrtLive}.

(** The key names fields that the table is not declared with, so that the
    client raises before it sends anything. *)
Lemma udp_entry_unknown smac sip port mask wmac wip prio d :
  Schema.fields_known (EntryAdd table [udp_key smac sip port mask wmac wip prio] (Some [d])) = false.
Proof.
  unfold Schema.fields_known. change (Schema.find_object table) with (Some Schema.get_worker_bitmap).
  unfold Schema.get_worker_bitmap. by apply andb_false_intro1.
Qed.
Lemma ends_bitmap_add_udp smac sip port mask id wmac wip bits n prio mgid base size w0 V G w :
  looks w0 V G w →
  ∃ e, ends (add_udp_entry smac sip port mask id wmac wip bits n prio mgid base size) w (Raise e)
    (looks w0 V G).
Proof.
  intros Hl. unfold add_udp_entry. pose proof (ends_log_info "Adding worker {} {}" [VStr wmac; VStr wip] _ _ _ _ Hl)
    as (w1 & Hw1 & Hl1).
  destruct (decide (n < 0)) as [Hn|Hn].
  - exists ValueError. eapply ends_bind; [by apply ends_log_info|]. intros w2 Hl2.
    rewrite bool_decide_eq_true_2 by done. by apply ends_raise.
  - destruct (ends_unknown _ _ _ _ _ (udp_entry_unknown smac sip port mask wmac wip prio
      (udp_data id bits n mgid base size)) Hl1) as [e He].
    exists e. eapply (ends_bind _ _ _ _ _ (eq w1)); [by exists w1|].
    intros w2 <-. rewrite bool_decide_eq_false_2 by done. exact He.
Qed.

Lemma bitmap_clear_counters_quiet : stable quiet clear_counters.
Proof. by apply clear_direct_counters_quiet. Qed.
Lemma bitmap_print_counters_quiet : stable quiet print_counters.
Proof.
  apply print_direct_counters_quiet; [done..|]. intros r. unfold counter_fields. stable_walk.
Qed.
End entries.
End GetWorkerBitmap.
