(* ===== verification/SetDstAddr.v ===== *)
(** * Addressing the job's UDP answers (py/SetDstAddr.py)

    The egress table that gives the copy of an answer made for a worker the
    worker's MAC and IP addresses. *)
From S2P Require Import Prelude PyMonad PyNum Bfrt Live World Counters.

Module SetDstAddr.
Section set_dst_addr.
Context `{BF : Bfrt}.

Definition table : string := "pipe.Egress.set_dst_addr.set_dst_addr".
Definition switch_mac_and_ip : string := "pipe.Egress.set_dst_addr.switch_mac_and_ip".

Definition clear : M world unit :=
  bf (EntryDel table None) ;;
  bf (EntryDel switch_mac_and_ip None).

Definition add_default_entries : M world unit :=
  a ← gets w_setdst;
  bf (DefaultEntrySet switch_mac_and_ip
        (MakeData [("switch_mac", VStr (addr_mac a)); ("switch_ip", VStr (addr_ip a))]
           (Some "Egress.set_dst_addr.set_switch_mac_and_ip"))).

Definition init (switch_mac switch_ip : string) : M world unit :=
  log_info "Setting up set_dst_addr table..." [] ;;
  modify (set_setdst {| addr_mac := switch_mac; addr_ip := switch_ip |}) ;;
  bf (TableGet switch_mac_and_ip) ;;
  bf (TableGet table) ;;
  bf (DataAnnotation switch_mac_and_ip "switch_mac" "Egress.set_dst_addr.set_switch_mac_and_ip" "mac") ;;
  bf (DataAnnotation switch_mac_and_ip "switch_ip" "Egress.set_dst_addr.set_switch_mac_and_ip" "ipv4") ;;
  bf (DataAnnotation table "ip_dst_addr" "Egress.set_dst_addr.set_dst_addr_for_SwitchML_UDP" "ipv4") ;;
  bf (DataAnnotation table "eth_dst_addr" "Egress.set_dst_addr.set_dst_addr_for_SwitchML_UDP" "mac") ;;
  clear ;;
  add_default_entries.

Definition clear_udp_entries : M world unit := bf (EntryDel table None).

Definition worker_key (worker_rid : Z) : key :=
  [KeyTuple "eg_md.switchml_md.worker_id" (VInt worker_rid)].
Definition worker_data (worker_mac worker_ip : string) : datum :=
  MakeData [("eth_dst_addr", VStr worker_mac); ("ip_dst_addr", VStr worker_ip)]
    (Some "Egress.set_dst_addr.set_dst_addr_for_SwitchML_UDP").

Definition add_udp_entry (worker_rid : Z) (worker_mac worker_ip : string) : M world unit :=
  log_info "Adding worker {} {} at rid {}" [VStr worker_mac; VStr worker_ip; VInt worker_rid] ;;
  bf (EntryAdd table [worker_key worker_rid] (Some [worker_data worker_mac worker_ip])).

Definition counter_fields (r : row) : M world (list pyval) :=
  worker_id ← field (row_kdict r) "eg_md.switchml_md.worker_id";
  worker_ip ← field (row_vdict r) "ip_dst_addr";
  worker_packets ← field (row_vdict r) "$COUNTER_SPEC_PKTS";
  worker_bytes ← field (row_vdict r) "$COUNTER_SPEC_BYTES";
  mret [worker_id; worker_ip; worker_packets; worker_bytes].

Definition print_counters : M world unit :=
  print_direct_counters table
    "Sent to worker       {:2} at {:15}: {:10} packets, {:10} bytes" counter_fields.

Definition clear_counters : M world unit :=
  clear_direct_counters "Clearing set_dst_addr counters..." table.
End set_dst_addr.

Section entries.
Context `{LF : BfrtLive}.

Lemma ends_setdst_add_udp rid mac ip w0 V G w :
  V !! (table, worker_key rid) = None → count_entries table V < bf_size table →
  looks w0 V G w →
  ends (add_udp_entry rid mac ip) w (Ok tt)
    (looks w0 (<[(table, worker_key rid) := worker_data mac ip]> V) G).
Proof.
  intros Hk Hroom Hl. unfold add_udp_entry.
  eapply ends_bind; [by apply ends_log_info|]. intros w1 Hl1.
  apply ends_add1; [in_tables|fits_table|done..].
Qed.

Lemma setdst_clear_counters_quiet : stable quiet clear_counters.
Proof. by apply clear_direct_counters_quiet. Qed.
Lemma setdst_print_counters_quiet : stable quiet print_counters.
Proof.
  apply print_direct_counters_quiet; [done..|]. intros r. unfold counter_fields. stable_walk.
Qed.
End entries.
End SetDstAddr.
