(* ===== verification/Packets.v ===== *)
(** * Packet formats (py/Packets.py)

    The InfiniBand opcodes the controller programs, as the two tables of the
    source, the layouts of the headers, and the choice of the header that
    follows a transport header. *)
From Stdlib Require Import Ascii.
From S2P Require Import Prelude PyText PyMonad.

(** [p in s] on strings. *)
Fixpoint str_contains (p s : string) : bool :=
  String.prefix p s || match s with String _ s' => str_contains p s' | EmptyString => false end.

Definition rdma_opcode_n2s_items : list (Z * string) :=
  [(0x20, "UC_SEND_FIRST");
   (0x21, "UC_SEND_MIDDLE");
   (0x22, "UC_SEND_LAST");
   (0x23, "UC_SEND_LAST_IMMEDIATE");
   (0x24, "UC_SEND_ONLY");
   (0x25, "UC_SEND_ONLY_IMMEDIATE");
   (0x26, "UC_RDMA_WRITE_FIRST");
   (0x27, "UC_RDMA_WRITE_MIDDLE");
   (0x28, "UC_RDMA_WRITE_LAST");
   (0x29, "UC_RDMA_WRITE_LAST_IMMEDIATE");
   (0x2a, "UC_RDMA_WRITE_ONLY");
   (0x2b, "UC_RDMA_WRITE_ONLY_IMMEDIATE")].
Definition rdma_opcode_n2s : gmap Z string := list_to_map rdma_opcode_n2s_items.

Definition rdma_opcode_s2n_items : list (string * Z) :=
  [("UC_SEND_FIRST", 0x20);
   ("UC_SEND_MIDDLE", 0x21);
   ("UC_SEND_LAST", 0x22);
   ("UC_SEND_LAST_IMMEDIATE", 0x23);
   ("UC_SEND_ONLY", 0x24);
   ("UC_SEND_ONLY_IMMEDIATE", 0x25);
   ("UC_RDMA_WRITE_FIRST", 0x26);
   ("UC_RDMA_WRITE_MIDDLE", 0x27);
   ("UC_RDMA_WRITE_LAST", 0x28);
   ("UC_RDMA_WRITE_LAST_IMMEDIATE", 0x29);
   ("UC_RDMA_WRITE_ONLY", 0x2a);
   ("UC_RDMA_WRITE_ONLY_IMMEDIATE", 0x2b)].
Definition rdma_opcode_s2n : gmap string Z := list_to_map rdma_opcode_s2n_items.

(** ** Header layouts: the fields of a class, in order, with their widths in
    bits and their defaults, if they have one. *)
Record field_desc := FieldDesc { fd_name : string; fd_bits : Z; fd_default : option Z }.
Definition Field (name : string) (bits default : Z) : field_desc := FieldDesc name bits (Some default).

Definition SwitchML_fields : list field_desc :=
  [Field "msgType" 4 0; Field "unused" 12 0; Field "tsi" 32 0; Field "pool_index" 16 2].
(** The default is drawn once, when the class is defined. *)
Definition SwitchMLExponent_fields (random : Z) : list field_desc := [Field "e0" 16 random].
(** ["d{}".format(i)] *)
Definition data_name (i : Z) : string := String.string_of_list_ascii ("d"%char :: dec i).
Definition SwitchMLData_fields : list field_desc :=
  (λ i, Field (data_name i) 32 i) <$> range 0 32.
Definition IB_BTH_fields : list field_desc :=
  [Field "opcode" 8 0; Field "se" 1 0; Field "migration_req" 1 1; Field "pad_count" 2 0;
   Field "transport_version" 4 0; Field "partition_key" 16 0xffff; Field "f_res1" 1 0;
   Field "b_res1" 1 0; Field "reserved" 6 0; Field "dst_qp" 24 0; Field "ack_req" 1 0;
   Field "reserved2" 7 0; Field "psn" 24 0].
Definition IB_RETH_fields : list field_desc :=
  [Field "addr" 64 0; Field "rkey" 32 0; Field "len" 32 0].
Definition IB_IMM_fields : list field_desc := [Field "imm" 32 0].
Definition IB_ICRC_fields : list field_desc := [FieldDesc "icrc" 32 None].
Definition SwitchMLDebug_fields : list field_desc :=
  [Field "worker_id" 16 0; Field "pool_index" 16 0; Field "first_last_flag" 8 0].

(** ** The next header *)

(** The class of the payload: one of the source's, or what the packet library
    would guess. *)
Inductive layer := IB_RETH | IB_IMM | LibraryGuess.
#[export] Instance layer_eq_dec : EqDecision layer.
Proof. solve_decision. Defined.

(** [IB_BTH.guess_payload_class] *)
Definition bth_guess_payload_class {S} (opcode : Z) : M S layer :=
  name ← dict_get rdma_opcode_n2s opcode;
  if str_contains "RDMA" name then mret IB_RETH
  else
    name ← dict_get rdma_opcode_n2s opcode;
    if str_contains "IMMEDIATE" name then mret IB_IMM else mret LibraryGuess.

(** [IB_RETH.guess_payload_class], with the opcode of the header below. *)
Definition reth_guess_payload_class {S} (opcode : Z) : M S layer :=
  name ← dict_get rdma_opcode_n2s opcode;
  if str_contains "IMMEDIATE" name then mret IB_IMM else mret LibraryGuess.

(** The headers the two methods name between the transport header and the
    payload, as dissection chains them; what follows is the library's guess. *)
Definition dissect (opcode : Z) : option (list layer) :=
  match bth_guess_payload_class opcode tt with
  | (Ok IB_RETH, _) =>
      match reth_guess_payload_class opcode tt with
      | (Ok IB_IMM, _) => Some [IB_RETH; IB_IMM]
      | (Ok _, _) => Some [IB_RETH]
      | (Raise _, _) => None
      end
  | (Ok IB_IMM, _) => Some [IB_IMM]
  | (Ok LibraryGuess, _) => Some []
  | (Raise _, _) => None
  end.

(** The headers the switch extracts for the same opcode: [parse_ib_bth] of
    p4/parsers.p4 selects [parse_ib_payload], [parse_ib_immediate],
    [parse_ib_reth] or [parse_ib_reth_immediate]. *)
Definition p4_parse_ib_bth (opcode : string) : list layer :=
  if decide (opcode ∈ ["UC_SEND_LAST_IMMEDIATE"; "UC_SEND_ONLY_IMMEDIATE";
                       "UC_RDMA_WRITE_LAST_IMMEDIATE"]) then [IB_IMM]
  else if decide (opcode ∈ ["UC_RDMA_WRITE_FIRST"; "UC_RDMA_WRITE_ONLY"]) then [IB_RETH]
  else if decide (opcode = "UC_RDMA_WRITE_ONLY_IMMEDIATE") then [IB_RETH; IB_IMM]
  else [].

(** ** Properties *)

Lemma n2s_lookup n s : rdma_opcode_n2s !! n = Some s ↔ (n, s) ∈ rdma_opcode_n2s_items.
Proof.
  symmetry. apply elem_of_list_to_map. apply (bool_decide_unpack _). vm_compute. exact I.
Qed.

Lemma s2n_lookup s n : rdma_opcode_s2n !! s = Some n ↔ (s, n) ∈ rdma_opcode_s2n_items.
Proof.
  symmetry. apply elem_of_list_to_map. apply (bool_decide_unpack _). vm_compute. exact I.
Qed.

(** The two opcode tables are inverse to each other, and every opcode is
    one byte whose top three bits select the unreliable connection. *)
Theorem opcode_tables_inverse n s :
  (rdma_opcode_n2s !! n = Some s ↔ rdma_opcode_s2n !! s = Some n) ∧
  (is_Some (rdma_opcode_n2s !! n) → 0 ≤ n < 256 ∧ n .>> 5 = 1).
Proof.
  split.
  - rewrite n2s_lookup, s2n_lookup.
    assert (Hs : rdma_opcode_s2n_items = prod_swap <$> rdma_opcode_n2s_items) by done.
    rewrite Hs, list_elem_of_fmap. split.
    + intros H. by exists (n, s).
    + by intros ([n' s'] & [= -> ->] & H).
  - intros [s' Hs%n2s_lookup].
    assert (Hall : Forall (λ e : Z * string, 0 ≤ e.1 < 256 ∧ e.1 .>> 5 = 1) rdma_opcode_n2s_items).
    { apply (bool_decide_unpack _). vm_compute. exact I. }
    rewrite Forall_forall in Hall. exact (Hall _ Hs).
Qed.

Lemma opcode_tables_inverse_witness :
  rdma_opcode_s2n !! "UC_RDMA_WRITE_ONLY" = Some 0x2a ∧ 0 ≤ 0x2a < 256 ∧ 0x2a .>> 5 = 1.
Proof.
  destruct (opcode_tables_inverse 0x2a "UC_RDMA_WRITE_ONLY") as [H1 H2].
  split; [apply H1; vm_compute; reflexivity|]. apply H2. vm_compute. by eexists.
Defined.

(** The dissector agrees with the switch's parser on the headers that
    follow a transport header for every opcode except three: it expects the
    extended header after the middle and the last packets of a write, which do
    not carry one. *)
Theorem dissect_matches_switch n s :
  rdma_opcode_n2s !! n = Some s →
  dissect n = Some (p4_parse_ib_bth s) ↔
    s ∉ ["UC_RDMA_WRITE_MIDDLE"; "UC_RDMA_WRITE_LAST"; "UC_RDMA_WRITE_LAST_IMMEDIATE"].
Proof.
  intros Hn%n2s_lookup.
  assert (Hall : Forall (λ e : Z * string,
    bool_decide (dissect e.1 = Some (p4_parse_ib_bth e.2)) =
    bool_decide (e.2 ∉ ["UC_RDMA_WRITE_MIDDLE"; "UC_RDMA_WRITE_LAST";
                        "UC_RDMA_WRITE_LAST_IMMEDIATE"])) rdma_opcode_n2s_items).
  { apply (bool_decide_unpack _). vm_compute. exact I. }
  rewrite Forall_forall in Hall. specialize (Hall _ Hn). simpl in Hall.
  rewrite <- (bool_decide_eq_true (dissect n = _)), Hall. apply bool_decide_eq_true.
Qed.

Lemma dissect_matches_switch_witness :
  dissect 0x2b = Some [IB_RETH; IB_IMM] ∧ dissect 0x27 ≠ Some [].
Proof.
  split.
  - apply (dissect_matches_switch 0x2b "UC_RDMA_WRITE_ONLY_IMMEDIATE"); [vm_compute; reflexivity|].
    apply (bool_decide_unpack _). vm_compute. exact I.
  - intros H. apply (dissect_matches_switch 0x27 "UC_RDMA_WRITE_MIDDLE") in H; [|vm_compute; reflexivity].
    apply H. left.
Defined.
