(* ===== verification/Wire.v ===== *)
(** * Packets on the wire (py/Packets.py, pkt/pktgen.py, p4/parsers.p4)

    The packets the test library builds, bit by bit, and what the parser of the
    switch program takes them for. How the packet library lays a field out is
    a parameter. *)
From Stdlib Require Import Ascii.
From S2P Require Import Prelude PyText PyMonad Packets.

(** ** Building packets (py/Packets.py) *)

(** A header with its values; [None] is a field without a value. *)
Abbreviation header := (list (field_desc * option Z)).

(** [C(name=value, ...)]: the named fields, and the defaults of the others. *)
Definition make (c : list field_desc) (args : list (string * Z)) : header :=
  (λ f, (f, match list_find (λ a, a.1 = fd_name f) args with
            | Some (_, a) => Some a.2
            | None => fd_default f
            end)) <$> c.
(** [setattr(h, name, value)] *)
Definition setattr (name : string) (value : Z) (h : header) : header :=
  (λ f, if decide (fd_name f.1 = name) then (f.1, Some value) else f) <$> h.

(** A packet: the fields that are given of the layers below (Ethernet, IP and
    UDP), and the headers above them. *)
Record packet := Packet {
  eth_dst : string; eth_src : string;
  ip_dst : string; ip_src : string; ip_tos : option Z; ip_flags : option string;
  udp_sport : option Z; udp_dport : Z; udp_chksum : option Z;
  headers : list header
}.

(** The loop that initializes the data of one block, the [block]-th. *)
Definition fill_data (value_multiplier block : Z) (h : header) : header :=
  foldl (λ h i, setattr (data_name i) (value_multiplier * (i + 32 * block)) h) h (range 0 32).

(** [random] is the default of the exponent. *)
Definition make_switchml_udp (random : Z) (src_mac src_ip dst_mac dst_ip : string)
    (src_port dst_port pool_index value_multiplier : Z) (checksum : option Z) : packet :=
  let data := make SwitchMLData_fields [] in
  Packet dst_mac src_mac dst_ip src_ip None None (Some src_port) dst_port checksum
    [make SwitchML_fields [("pool_index", pool_index)];
     fill_data value_multiplier 0 data; fill_data value_multiplier 1 data;
     make (SwitchMLExponent_fields random) []].

(** [opcode] is a number here: the tests look names up. *)
Definition make_switchml_rdma (src_mac src_ip dst_mac dst_ip : string)
    (src_port dst_qp opcode psn : Z) (icrc : option Z) (value_multiplier : Z) : packet :=
  let data := make SwitchMLData_fields [] in
  let trailer := make IB_ICRC_fields [] in
  Packet dst_mac src_mac dst_ip src_ip (Some 2) (Some "DF") (Some src_port) 4791 (Some 0)
    [make IB_BTH_fields [("opcode", opcode); ("dst_qp", dst_qp); ("psn", psn)];
     fill_data value_multiplier 0 data; fill_data value_multiplier 1 data;
     match icrc with Some c => setattr "icrc" c trailer | None => trailer end].

(** ** The packet generator (pkt/pktgen.py) *)

Definition pktgen_SwitchML_fields : list field_desc := [Field "tsi" 32 0; Field "pool_index" 16 2].
(** The exponent and data classes repeat those of py/Packets.py. *)
Definition pktgen_SwitchMLExponent_fields (random : Z) : list field_desc := [Field "e0" 16 random].
Definition pktgen_SwitchMLData_fields : list field_desc := (λ i, Field (data_name i) 32 i) <$> range 0 32.
Definition send_udp (random : Z) (src_mac src_ip dst_mac dst_ip : string) (dest_port pool_index : Z)
    : packet :=
  Packet dst_mac src_mac dst_ip src_ip None None None dest_port None
    [make pktgen_SwitchML_fields [("pool_index", pool_index)];
     make (pktgen_SwitchMLExponent_fields random) [];
     make pktgen_SwitchMLData_fields []; make pktgen_SwitchMLData_fields []].
Definition generated (random : Z) : list packet :=
  [send_udp random "b8:83:03:74:01:8c" "198.19.200.50" "06:00:00:00:00:01" "198.19.200.200" 0xbee0 0;
   send_udp random "b8:83:03:73:a6:a0" "198.19.200.49" "06:00:00:00:00:01" "198.19.200.200" 0xbee0 0;
   send_udp random "b8:83:03:74:01:8c" "198.19.200.50" "06:00:00:00:00:01" "198.19.200.200" 0xbee0 1;
   send_udp random "b8:83:03:73:a6:a0" "198.19.200.49" "06:00:00:00:00:01" "198.19.200.200" 0xbee0 1].

(** ** The bits *)

(** [w] bits of [v], the most significant first. *)
Definition msb (w v : Z) : list bool := (λ i, Z.testbit v (w - 1 - i)) <$> range 0 w.

(** The library writes the fields of a header one after the other, each most
    significant bit first, and a field without a value as zero; what it does
    with a value that is too large is not said. *)
Class PacketLibrary := {
  field_bits : Z → option Z → list bool;
  field_bits_value w v : 0 ≤ w → 0 ≤ v < 2 ^ w → field_bits w (Some v) = msb w v;
  field_bits_none w : 0 ≤ w → field_bits w None = msb w 0
}.

Section wire.
Context `{PL : PacketLibrary}.
Definition header_bits (h : header) : list bool := h ≫= λ f, field_bits (fd_bits f.1) f.2.
(** What follows the UDP header. *)
Definition payload_bits (p : packet) : list bool := headers p ≫= header_bits.
End wire.

(** ** The parser of the switch (p4/parsers.p4, p4/headers.p4) *)

Definition from_bits (bs : list bool) : Z := foldl (λ a b, 2 * a + Z.b2z b) 0 bs.

(** [pkt.extract(h)] of a header with fields of these widths; it fails when
    the packet is too short. *)
Fixpoint extract (ws : list Z) (bs : list bool) : option (list Z * list bool) :=
  match ws with
  | [] => Some ([], bs)
  | w :: ws' =>
      if bool_decide (Z.of_nat (length bs) < w) then None
      else
        '(vs, rest) ← extract ws' (drop (Z.to_nat w) bs);
        Some (from_bits (take (Z.to_nat w) bs) :: vs, rest)
  end.

Definition switchml_h : list Z := [4; 12; 32; 16].
Definition exponents_h : list Z := [16].
Definition data_h : list Z := replicate 32 32.
Definition ib_bth_h : list Z := [8; 1; 1; 2; 4; 16; 1; 1; 6; 24; 1; 7; 24].
Definition ib_reth_h : list Z := [64; 32; 32].
Definition ib_immediate_h : list Z := [32].

(** What the parser accepts, with the headers it has filled in; the states
    below also give the rest of the packet, which stays behind the headers. *)
Inductive parsed :=
| SwitchMLPacket (switchml d0 d1 exponents : list Z)
| RocePacket (ib_bth : list Z) (ib_reth ib_immediate : option (list Z)) (d0 d1 : option (list Z))
| NotSwitchML.

Definition parse_switchml (bs : list bool) : option (parsed * list bool) :=
  '(h, bs) ← extract switchml_h bs;
  '(d0, bs) ← extract data_h bs;
  '(d1, bs) ← extract data_h bs;
  '(e, bs) ← extract exponents_h bs;
  Some (SwitchMLPacket h d0 d1 e, bs).

(** A header that is there or not. *)
Definition extract_if (here : bool) (ws : list Z) (bs : list bool)
    : option (option (list Z) * list bool) :=
  if here then '(h, bs) ← extract ws bs; Some (Some h, bs) else Some (None, bs).

(** The opcode selects the headers before the payload; one that the switch
    does not know ends the parse. *)
Definition parse_ib_bth (bs : list bool) : option (parsed * list bool) :=
  '(bth, bs) ← extract ib_bth_h bs;
  match rdma_opcode_n2s !! default 0 (head bth) with
  | None => Some (RocePacket bth None None None None, bs)
  | Some name =>
      let hs := p4_parse_ib_bth name in
      '(reth, bs) ← extract_if (bool_decide (IB_RETH ∈ hs)) ib_reth_h bs;
      '(imm, bs) ← extract_if (bool_decide (IB_IMM ∈ hs)) ib_immediate_h bs;
      '(d0, bs) ← extract data_h bs;
      '(d1, bs) ← extract data_h bs;
      Some (RocePacket bth reth imm (Some d0) (Some d1), bs)
  end.

Definition parse_udp (dst_port : Z) (bs : list bool) : option (parsed * list bool) :=
  if bool_decide (dst_port = 4791) then parse_ib_bth bs
  else if bool_decide (dst_port .& 0xfff0 = 0xbee0) then parse_switchml bs
  else Some (NotSwitchML, bs).

(** ** Bits read back *)

(** A closed proposition that can be decided. *)
Ltac decides := apply (bool_decide_unpack _); vm_compute; exact I.

Lemma length_msb w v : 0 ≤ w → Z.of_nat (length (msb w v)) = w.
Proof. intros Hw. unfold msb. rewrite length_fmap, length_range; lia. Qed.

Lemma msb_succ (n : nat) v : msb (Z.of_nat (S n)) v = Z.testbit v (Z.of_nat n) :: msb (Z.of_nat n) v.
Proof.
  unfold msb, range. rewrite !Z.sub_0_r, seqZ_cons by lia. rewrite fmap_cons.
  replace (Z.of_nat (S n) - 1 - 0) with (Z.of_nat n) by lia. f_equal.
  replace (Z.pred (Z.of_nat (S n))) with (Z.of_nat n) by lia.
  rewrite <- (fmap_add_seqZ 1 0), <- list_fmap_compose. apply list_fmap_ext. intros _ i _.
  unfold compose. f_equal. lia.
Qed.

Lemma fold_msb (n : nat) a v :
  foldl (λ a b, 2 * a + Z.b2z b) a (msb (Z.of_nat n) v) = a * 2 ^ Z.of_nat n + v mod 2 ^ Z.of_nat n.
Proof.
  revert a. induction n as [|n IH]; intros a.
  - change (Z.of_nat 0) with 0. rewrite Z.mod_1_r. simpl. lia.
  - rewrite msb_succ. cbn [foldl]. rewrite IH, Z.testbit_spec' by lia.
    rewrite Nat2Z.inj_succ, Z.pow_succ_r by lia.
    rewrite (Z.mul_comm 2 (2 ^ Z.of_nat n)), Z.rem_mul_r by lia. lia.
Qed.

Lemma from_bits_msb w v : 0 ≤ w → 0 ≤ v < 2 ^ w → from_bits (msb w v) = v.
Proof.
  intros Hw Hv. unfold from_bits. rewrite <- (Z2Nat.id w) by done. rewrite fold_msb.
  rewrite Z2Nat.id by done. rewrite Z.mod_small; lia.
Qed.

(** The values of a header, as they are sent. *)
Definition sent (h : header) : list Z := (λ f, default 0 f.2) <$> h.
Definition widths (h : header) : list Z := (λ f, fd_bits f.1) <$> h.
(** Every value is within its field. *)
Definition in_range (h : header) : Prop :=
  Forall (λ f, 0 ≤ fd_bits f.1 ∧ 0 ≤ default 0 f.2 < 2 ^ fd_bits f.1) h.

Section reading.
Context `{PL : PacketLibrary}.

Lemma field_bits_sent w o : 0 ≤ w → 0 ≤ default 0 o < 2 ^ w → field_bits w o = msb w (default 0 o).
Proof.
  intros Hw Hv. destruct o as [v|]; [by apply field_bits_value|by apply field_bits_none].
Qed.

(** What is built is read back, whatever follows. *)
Lemma extract_built h rest :
  in_range h → extract (widths h) (header_bits h ++ rest) = Some (sent h, rest).
Proof.
  induction h as [|f h IH]; intros Hh; [done|]. apply Forall_cons in Hh as [[Hw Hv] Hh].
  unfold header_bits. rewrite bind_cons, field_bits_sent, <- app_assoc by done. simpl.
  pose proof (length_msb (fd_bits f.1) (default 0 f.2) Hw) as Hl.
  rewrite bool_decide_eq_false_2 by (rewrite length_app; lia).
  rewrite drop_app_length', take_app_length' by lia.
  change (h ≫= _) with (header_bits h). rewrite IH by done. simpl.
  by rewrite from_bits_msb.
Qed.

Lemma length_header h : in_range h → Z.of_nat (length (header_bits h)) = foldr Z.add 0 (widths h).
Proof.
  induction h as [|f h IH]; intros Hh; [done|]. apply Forall_cons in Hh as [[Hw Hv] Hh].
  unfold header_bits. rewrite bind_cons, field_bits_sent, length_app by done.
  change (h ≫= _) with (header_bits h). simpl. rewrite Nat2Z.inj_add, IH, length_msb by done. done.
Qed.

(** A header that does not fit in what is left. *)
Lemma extract_short ws bs :
  Forall (λ w, 0 ≤ w) ws → Z.of_nat (length bs) < foldr Z.add 0 ws → extract ws bs = None.
Proof.
  revert bs. induction ws as [|w ws IH]; simpl; intros bs Hw Hl; [lia|].
  apply Forall_cons in Hw as [Hw Hws]. case_bool_decide; [done|].
  rewrite IH; [done..|]. rewrite length_drop. lia.
Qed.
End reading.

(** ** The headers of the builders *)

(** The words of the [block]-th block, for a multiplier. *)
Definition data_words (m block : Z) : list Z := (λ i, m * (i + 32 * block)) <$> range 0 32.

Lemma fill_data_sent m b : sent (fill_data m b (make SwitchMLData_fields [])) = data_words m b.
Proof. vm_compute. reflexivity. Qed.
Lemma fill_data_widths m b : widths (fill_data m b (make SwitchMLData_fields [])) = data_h.
Proof. vm_compute. reflexivity. Qed.

Lemma in_range_sent h w :
  0 ≤ w → Forall (w =.) (widths h) → Forall (λ v, 0 ≤ v < 2 ^ w) (sent h) → in_range h.
Proof.
  intros Hw Hws Hvs. induction h as [|f h IH]; [constructor|]. simpl in *.
  apply Forall_cons in Hws as [-> Hws]. apply Forall_cons in Hvs as [Hv Hvs].
  constructor; [done|]. by apply IH.
Qed.

Lemma data_words_range m b :
  0 ≤ m → m * 63 < 2 ^ 32 → 0 ≤ b ≤ 1 → Forall (λ v, 0 ≤ v < 2 ^ 32) (data_words m b).
Proof.
  intros Hm Hlim Hb. apply Forall_forall. intros v (i & -> & Hi%elem_of_range)%list_elem_of_fmap. nia.
Qed.

Lemma fill_data_range m b :
  0 ≤ m → m * 63 < 2 ^ 32 → 0 ≤ b ≤ 1 → in_range (fill_data m b (make SwitchMLData_fields [])).
Proof.
  intros Hm Hlim Hb. apply (in_range_sent _ 32); [lia| |].
  - rewrite fill_data_widths. by apply Forall_replicate.
  - rewrite fill_data_sent. by apply data_words_range.
Qed.

Section built.
Context `{PL : PacketLibrary}.

(** A header of the layout the switch expects is read back. *)
Lemma extract_header ws h rest :
  widths h = ws → in_range h → extract ws (header_bits h ++ rest) = Some (sent h, rest).
Proof. intros <-. apply extract_built. Qed.

Lemma parse_built h d0 d1 e :
  widths h = switchml_h → widths d0 = data_h → widths d1 = data_h → widths e = exponents_h →
  in_range h → in_range d0 → in_range d1 → in_range e →
  parse_switchml ([h; d0; d1; e] ≫= header_bits) =
    Some (SwitchMLPacket (sent h) (sent d0) (sent d1) (sent e), []).
Proof.
  intros. unfold parse_switchml. rewrite !bind_cons. change ([] ≫= header_bits) with (@nil bool).
  do 4 (rewrite extract_header by done; cbn [mbind option_bind]). done.
Qed.

(** A packet of [make_switchml_udp] to one of the switch's ports is taken for
    what it was built from: the type and the transaction are zero, the pool
    index and the exponents are the ones given, and word [i] of the two blocks
    is [i] times the multiplier. *)
Theorem udp_packet_parsed random smac sip dmac dip sport dport pool m checksum :
  0 ≤ pool < 2 ^ 16 → 0 ≤ random < 2 ^ 16 → 0 ≤ m → m * 63 < 2 ^ 32 → dport .& 0xfff0 = 0xbee0 →
  parse_udp dport (payload_bits (make_switchml_udp random smac sip dmac dip sport dport pool m checksum)) =
    Some (SwitchMLPacket [0; 0; 0; pool] (data_words m 0) (data_words m 1) [random], []).
Proof.
  intros Hp Hr Hm Hlim Hport. unfold parse_udp. rewrite bool_decide_eq_false_2 by (intros ->; done).
  rewrite bool_decide_eq_true_2 by done. unfold payload_bits, make_switchml_udp.
  cbn [headers]. rewrite parse_built.
  - by rewrite !fill_data_sent.
  - done.
  - apply fill_data_widths.
  - apply fill_data_widths.
  - done.
  - repeat constructor; simpl; lia.
  - by apply fill_data_range.
  - by apply fill_data_range.
  - repeat constructor; simpl; lia.
Qed.

(** What is left after a header. *)
Lemma extract_length ws bs vs rest :
  Forall (λ w, 0 ≤ w) ws → extract ws bs = Some (vs, rest) →
  Z.of_nat (length rest) = Z.of_nat (length bs) - foldr Z.add 0 ws.
Proof.
  revert bs vs. induction ws as [|w ws IH]; simpl; intros bs vs Hw.
  - intros [= <- <-]. lia.
  - apply Forall_cons in Hw as [Hw Hws]. case_bool_decide as Hl; [done|].
    destruct (extract ws _) as [[vs' rest']|] eqn:E; [|done]. intros [= <- <-].
    rewrite (IH _ _ Hws E), length_drop. lia.
Qed.

(** A header taken, with what is then left; or a packet too short for it. *)
Lemma after_header {A} ws bs (k : list Z * list bool → option A) :
  Forall (λ w, 0 ≤ w) ws →
  (∀ vs rest, Z.of_nat (length rest) = Z.of_nat (length bs) - foldr Z.add 0 ws → k (vs, rest) = None) →
  extract ws bs ≫= k = None.
Proof.
  intros Hw Hk. destruct (extract ws bs) as [[vs rest]|] eqn:E; [|done].
  apply Hk. by eapply extract_length.
Qed.

Definition bth_sent (opcode dst_qp psn : Z) : list Z :=
  [opcode; 0; 1; 0; 0; 0xffff; 0; 0; 0; dst_qp; 0; 0; psn].

(** The extended header and two blocks of data need more than two blocks and a
    checksum. *)
Lemma reth_too_short {A} (here : bool) (bs : list bool) (k : _ → _ → _ → _ → list bool → option A) :
  Z.of_nat (length bs) = 2080 →
  ('(reth, bs) ← extract_if true ib_reth_h bs;
   '(imm, bs) ← extract_if here ib_immediate_h bs;
   '(d0, bs) ← extract data_h bs;
   '(d1, bs) ← extract data_h bs; k reth imm d0 d1 bs) = None.
Proof.
  intros Hl.
  assert (Hdata : ∀ bs2 reth imm, Z.of_nat (length bs2) ≤ 1952 →
    ('(d0, bs) ← extract data_h bs2; '(d1, bs) ← extract data_h bs; k reth imm d0 d1 bs) = None).
  { intros bs2 reth imm H2. apply after_header; [by apply Forall_replicate|]. intros d0 bs3 H3.
    change (foldr Z.add 0 data_h) with 1024 in H3.
    rewrite extract_short; [done|by apply Forall_replicate|].
    change (foldr Z.add 0 data_h) with 1024. lia. }
  assert (Hreth : ∀ reth bs1, Z.of_nat (length bs1) = Z.of_nat (length bs) - 128 →
    ('(imm, bs) ← extract_if here ib_immediate_h bs1;
     '(d0, bs) ← extract data_h bs; '(d1, bs) ← extract data_h bs; k reth imm d0 d1 bs) = None).
  { intros reth bs1 H1. unfold extract_if. destruct here.
    - destruct (extract ib_immediate_h bs1) as [[imm bs2]|] eqn:E2; [|done].
      apply Hdata. apply extract_length in E2; [|by apply Forall_singleton].
      change (foldr Z.add 0 ib_immediate_h) with 32 in E2. lia.
    - apply Hdata. lia. }
  change (extract_if true ib_reth_h bs) with ('(h, bs) ← extract ib_reth_h bs; Some (Some h, bs)).
  destruct (extract ib_reth_h bs) as [[reth bs1]|] eqn:E1; [|done]. apply Hreth.
  apply extract_length in E1; [exact E1|]. decides.
Qed.

(** A transport header, two blocks and a trailer of 32 bits: read as they are
    when the opcode has no further headers, too short when it has the extended
    one. *)
Lemma parse_built_roce h d0 d1 t op name :
  widths h = ib_bth_h → widths d0 = data_h → widths d1 = data_h → foldr Z.add 0 (widths t) = 32 →
  in_range h → in_range d0 → in_range d1 → in_range t →
  head (sent h) = Some op → rdma_opcode_n2s !! op = Some name →
  let r := parse_ib_bth ([h; d0; d1; t] ≫= header_bits) in
  (p4_parse_ib_bth name = [] →
    r = Some (RocePacket (sent h) None None (Some (sent d0)) (Some (sent d1)), header_bits t)) ∧
  (IB_RETH ∈ p4_parse_ib_bth name → r = None).
Proof.
  intros Wh Wd0 Wd1 Wt Rh Rd0 Rd1 Rt Hh Hop r. unfold r, parse_ib_bth. rewrite !bind_cons.
  change ([] ≫= header_bits) with (@nil bool). rewrite app_nil_r.
  rewrite extract_header by done. cbn [mbind option_bind]. rewrite Hh.
  cbn [default from_option]. change (id op) with op. rewrite Hop. split.
  - intros ->. unfold extract_if. rewrite !bool_decide_eq_false_2 by apply not_elem_of_nil.
    cbn [mbind option_bind]. do 2 (rewrite extract_header by done; cbn [mbind option_bind]). done.
  - intros Hin. rewrite (bool_decide_eq_true_2 (IB_RETH ∈ _)) by done. cbv zeta.
    apply (reth_too_short _ _ (λ reth imm d0 d1 bs, Some (RocePacket (sent h) reth imm (Some d0) (Some d1), bs))).
    rewrite !length_app, !Nat2Z.inj_add, !length_header by done. rewrite Wd0, Wd1, Wt. done.
Qed.

Lemma opcode_range op name : rdma_opcode_n2s !! op = Some name → 0 ≤ op < 256.
Proof.
  intros H%n2s_lookup.
  assert (Ha : Forall (λ e : Z * string, 0 ≤ e.1 < 256) rdma_opcode_n2s_items).
  { decides. }
  rewrite Forall_forall in Ha. exact (Ha _ H).
Qed.

(** C40. The packets of [make_switchml_rdma] have no header between the transport
    header and the data: the switch reads the data as it was filled in when
    the opcode is one without such headers; with an opcode that has the
    extended header it finds the packet too short. *)
Theorem rdma_packet_parsed smac sip dmac dip sport dst_qp op name psn icrc m :
  rdma_opcode_n2s !! op = Some name →
  0 ≤ dst_qp < 2 ^ 24 → 0 ≤ psn < 2 ^ 24 → 0 ≤ default 0 icrc < 2 ^ 32 → 0 ≤ m → m * 63 < 2 ^ 32 →
  let p := make_switchml_rdma smac sip dmac dip sport dst_qp op psn icrc m in
  (p4_parse_ib_bth name = [] →
    parse_udp (udp_dport p) (payload_bits p) =
      Some (RocePacket (bth_sent op dst_qp psn) None None (Some (data_words m 0)) (Some (data_words m 1)),
            field_bits 32 icrc)) ∧
  (IB_RETH ∈ p4_parse_ib_bth name → parse_udp (udp_dport p) (payload_bits p) = None).
Proof.
  intros Hop Hq Hs Hc Hm Hlim p. pose proof (opcode_range op name Hop) as Hrange.
  set (trailer := match icrc with Some c => setattr "icrc" c (make IB_ICRC_fields []) | None => make IB_ICRC_fields [] end).
  assert (Ht : foldr Z.add 0 (widths trailer) = 32 ∧ in_range trailer).
  { unfold trailer, in_range. destruct icrc; (split; [done|]);
      (apply Forall_cons_2; [simpl in *; lia|apply Forall_nil_2]). }
  assert (Hbits : field_bits 32 icrc = header_bits trailer).
  { unfold header_bits, trailer. destruct icrc; simpl; by rewrite app_nil_r. }
  rewrite Hbits, <- (fill_data_sent m 0), <- (fill_data_sent m 1).
  unfold parse_udp. rewrite bool_decide_eq_true_2 by done.
  apply (parse_built_roce (make IB_BTH_fields [("opcode", op); ("dst_qp", dst_qp); ("psn", psn)])
           (fill_data m 0 (make SwitchMLData_fields [])) (fill_data m 1 (make SwitchMLData_fields []))
           trailer op name);
    [done|apply fill_data_widths|apply fill_data_widths|apply Ht| | | |apply Ht|done|done].
  - unfold in_range. repeat (apply Forall_cons_2; [simpl; lia|]). apply Forall_nil_2.
  - by apply fill_data_range.
  - by apply fill_data_range.
Qed.

Lemma length_default_data : Z.of_nat (length (header_bits (make pktgen_SwitchMLData_fields []))) = 1024.
Proof.
  rewrite length_header; [vm_compute; reflexivity|]. apply (in_range_sent _ 32); [lia|decides|decides].
Qed.

Lemma switchml_too_short bs : Z.of_nat (length bs) < 2128 → parse_switchml bs = None.
Proof.
  intros Hl. unfold parse_switchml.
  assert (Hd : Forall (λ w, 0 ≤ w) data_h) by (by apply Forall_replicate).
  assert (He : Forall (λ w, 0 ≤ w) exponents_h) by (by apply Forall_singleton).
  apply after_header; [decides|].
  intros h bs1 E1. change (foldr Z.add 0 switchml_h) with 64 in E1.
  apply after_header; [done|]. intros d0 bs2 E2. change (foldr Z.add 0 data_h) with 1024 in E2.
  apply after_header; [done|]. intros d1 bs3 E3. change (foldr Z.add 0 data_h) with 1024 in E3.
  rewrite extract_short; [done..|]. change (foldr Z.add 0 exponents_h) with 16. lia.
Qed.

(** The generator's header is two bytes shorter than the switch's: each of its
    packets goes to a port of the switch and is too short for the parser. *)
Theorem generated_unparsed random p :
  0 ≤ random < 2 ^ 16 → p ∈ generated random → parse_udp (udp_dport p) (payload_bits p) = None.
Proof.
  intros Hr Hp.
  assert (Hs : ∃ smac sip dmac dip pool, 0 ≤ pool < 2 ^ 16 ∧
    p = send_udp random smac sip dmac dip 0xbee0 pool).
  { unfold generated in Hp. rewrite !elem_of_cons in Hp.
    destruct Hp as [->|[->|[->|[->|[]%not_elem_of_nil]]]]; do 5 eexists; (split; [|reflexivity]); lia. }
  destruct Hs as (smac & sip & dmac & dip & pool & Hpool & ->). clear Hp.
  unfold parse_udp, payload_bits, send_udp. cbn [headers udp_dport].
  rewrite bool_decide_eq_false_2, bool_decide_eq_true_2 by done.
  apply switchml_too_short. rewrite !bind_cons. change ([] ≫= header_bits) with (@nil bool).
  pose proof length_default_data as Hd.
  rewrite !length_app, !Nat2Z.inj_add, Hd, !length_header by (repeat constructor; simpl; lia).
  simpl. lia.
Qed.
End built.

(** ** The capture script (py/capture.py) *)

(** The ports it binds the SwitchML header to. *)
Definition capture_ports : list Z := 4000 :: (Z.add 0xbee0 <$> range 0 0xf).

Lemma switchml_port port : 0 ≤ port < 2 ^ 16 → port .& 0xfff0 = 0xbee0 → 0xbee0 ≤ port < 0xbef0.
Proof.
  intros Hp Hm. assert (Hq : port .>> 4 = 0xbee).
  { transitivity ((port .& 0xfff0) .>> 4); [|by rewrite Hm].
    rewrite Z.shiftr_land. change (0xfff0 .>> 4) with (Z.ones 12).
    rewrite Z.land_ones, Z.mod_small; [done| |done].
    rewrite Z.shiftr_div_pow2 by done. split; [apply Z.div_pos; lia|].
    apply Z.div_lt_upper_bound; lia. }
  rewrite Z.shiftr_div_pow2 in Hq by done. pose proof (Z.div_mod port (2 ^ 4) ltac:(done)) as Hd.
  pose proof (Z.mod_pos_bound port (2 ^ 4) ltac:(done)). rewrite Hq in Hd. lia.
Qed.

(** The script knows the switch's ports but for the last. *)
Theorem capture_misses_one port :
  0 ≤ port < 2 ^ 16 → port .& 0xfff0 = 0xbee0 → port ∈ capture_ports ↔ port ≠ 0xbeef.
Proof.
  intros Hp Hm. pose proof (switchml_port port Hp Hm) as Hin.
  unfold capture_ports. rewrite elem_of_cons, list_elem_of_fmap. split.
  - intros [->|(i & -> & Hi%elem_of_range)]; [done|lia].
  - intros Hne. right. exists (port - 0xbee0). rewrite elem_of_range. lia.
Qed.

(** ** At concrete inputs *)

#[local] Instance plain_library : PacketLibrary.
Proof. by apply (Build_PacketLibrary (λ w o, msb w (default 0 o))). Defined.

Lemma udp_packet_parsed_witness : ∃ h, parse_udp 0xbee3
  (payload_bits (make_switchml_udp 7 "b8:83:03:74:01:8c" "198.19.200.50" "06:00:00:00:00:01"
     "198.19.200.200" 0x1234 0xbee3 0x8001 3 None)) = Some (SwitchMLPacket h (data_words 3 0) (data_words 3 1) [7], []).
Proof. eexists. apply udp_packet_parsed; by vm_compute. Defined.

(** The opcode of the tests, and one without further headers. *)
Definition rdma_test_packet (opcode : Z) : packet :=
  make_switchml_rdma "b8:83:03:74:01:8c" "198.19.200.50" "06:00:00:00:00:01" "198.19.200.200" 0x1234
    0x800001 opcode 0 None 3.
Lemma rdma_packet_parsed_witness :
  parse_udp 4791 (payload_bits (rdma_test_packet 0x2b)) = None ∧
  is_Some (parse_udp 4791 (payload_bits (rdma_test_packet 0x24))).
Proof.
  split.
  - apply (rdma_packet_parsed _ _ _ _ 0x1234 0x800001 0x2b "UC_RDMA_WRITE_ONLY_IMMEDIATE" 0 None 3);
      try (by vm_compute). left.
  - eexists. apply (rdma_packet_parsed _ _ _ _ 0x1234 0x800001 0x24 "UC_SEND_ONLY" 0 None 3);
      by vm_compute.
Defined.

Lemma generated_unparsed_witness : ∃ p,
  p ∈ generated 7 ∧ parse_udp (udp_dport p) (payload_bits p) = None.
Proof. eexists. split; [left|]. apply (generated_unparsed 7); [by vm_compute|left]. Defined.
Lemma capture_misses_one_witness : 4000 ∈ capture_ports ∧ 0xbeef ∉ capture_ports.
Proof.
  split; [left|]. intros H. by apply (capture_misses_one 0xbeef) in H.
Defined.
