(* ===== verification/RDMAReceiver.v ===== *)
(** * Recognising the job's RDMA packets (py/RDMAReceiver.py)

    The ingress table that maps a RoCE packet of a worker to the worker, one
    entry per opcode, and the per-queue-pair counters. *)
From S2P Require Import Prelude PyMonad PyNum Bfrt Schema Live World Counters Worker Packets.

Module RDMAReceiver.
Section rdma_receiver.
Context `{BF : Bfrt} `{DO : DictOrder}.

Definition table : string := "pipe.Ingress.rdma_receiver.receive_roce".
Definition rdma_packet_counter : string := "pipe.Ingress.rdma_receiver.rdma_packet_counter".
Definition rdma_message_counter : string := "pipe.Ingress.rdma_receiver.rdma_message_counter".
Definition rdma_sequence_violation_counter : string :=
  "pipe.Ingress.rdma_receiver.rdma_sequence_violation_counter".
Definition simulated_drop_counter : string :=
  "pipe.Ingress.egress_drop_sim.simulated_drop_packet_counter".

Definition set_worker_ids (l : list Z) (w : world) : world :=
  set_rx {| worker_ids := l; worker_counter_offset := worker_counter_offset (w_rx w) |} w.

(** Every counter is cleared over the size of the message counter. *)
Definition clear : M world unit :=
  modify (set_worker_ids []) ;;
  bf (EntryDel table None) ;;
  let n := bf_size rdma_message_counter in
  bf (EntryAdd rdma_packet_counter (counter_range n) (Some (zero_cells n))) ;;
  bf (EntryAdd rdma_message_counter (counter_range n) (Some (zero_cells n))) ;;
  bf (EntryAdd rdma_sequence_violation_counter (counter_range n) (Some (zero_cells n))) ;;
  bf (EntryAdd simulated_drop_counter (counter_range n) (Some (zero_cells n))).

Definition max_num_queue_pairs_per_worker : Z := 512.

Definition init : M world unit :=
  log_info "Setting up receive_roce table..." [] ;;
  modify (λ w, set_rx {| worker_ids := worker_ids (w_rx w);
                         worker_counter_offset := max_num_queue_pairs_per_worker |} w) ;;
  bf (TableGet table) ;;
  bf (TableGet rdma_packet_counter) ;;
  bf (TableGet rdma_message_counter) ;;
  bf (TableGet rdma_sequence_violation_counter) ;;
  bf (TableGet simulated_drop_counter) ;;
  bf (KeyAnnotation table "hdr.ipv4.dst_addr" "ipv4") ;;
  bf (KeyAnnotation table "hdr.ipv4.src_addr" "ipv4") ;;
  clear.

(** [for opcode, action in [...]] *)
Definition opcode_actions : list (string * string) :=
  [("UC_RDMA_WRITE_FIRST", "Ingress.rdma_receiver.first_packet");
   ("UC_RDMA_WRITE_MIDDLE", "Ingress.rdma_receiver.middle_packet");
   ("UC_RDMA_WRITE_LAST", "Ingress.rdma_receiver.last_packet");
   ("UC_RDMA_WRITE_ONLY", "Ingress.rdma_receiver.only_packet");
   ("UC_RDMA_WRITE_LAST_IMMEDIATE", "Ingress.rdma_receiver.last_packet_immediate");
   ("UC_RDMA_WRITE_ONLY_IMMEDIATE", "Ingress.rdma_receiver.only_packet_immediate")].

Definition qpn_top_bits (worker_rid : Z) : Z := 0x800000 .| ((worker_rid .& 0xff) .<< 16).
Definition qpn_mask : Z := 0xff0000.

Definition entry_key (worker_ip switch_ip : string) (switch_partition_key opcode worker_rid : Z) : key :=
  [KeyTuple "$MATCH_PRIORITY" (VInt 10);
   KeyTuple "hdr.ipv4.src_addr" (VStr worker_ip);
   KeyTuple "hdr.ipv4.dst_addr" (VStr switch_ip);
   KeyTuple "hdr.ib_bth.partition_key" (VInt switch_partition_key);
   KeyTuple "hdr.ib_bth.opcode" (VInt opcode);
   KeyTernary "hdr.ib_bth.dst_qp" (VInt (qpn_top_bits worker_rid)) (VInt qpn_mask)].

Definition entry_data (switch_mgid worker_rid num_workers worker_packet_size worker_bitmap : Z)
    (action : string) : datum :=
  MakeData [("mgid", VInt switch_mgid);
            ("worker_type", VInt (worker_type_value ROCEv2));
            ("worker_id", VInt worker_rid);
            ("num_workers", VInt num_workers);
            ("packet_size", VInt worker_packet_size);
            ("worker_bitmap", VInt worker_bitmap)] (Some action).

(** The opcodes are read before the loop starts: building the list of pairs
    looks them all up. *)
Definition opcodes : M world (list (Z * string)) :=
  map_each (λ '(name, action), opcode ← dict_get rdma_opcode_s2n name; mret (opcode, action))
    opcode_actions.

(** The body of the loop of [add_entry]: add the entry, clear its counters. *)
Definition add_opcode_entry (switch_ip : string) (switch_partition_key switch_mgid : Z)
    (worker_ip : string) (worker_rid worker_bitmap worker_packet_size num_workers : Z)
    (oa : Z * string) : M world unit :=
  let '(opcode, action) := oa in
  let k := entry_key worker_ip switch_ip switch_partition_key opcode worker_rid in
  bf (EntryAdd table [k]
        (Some [entry_data switch_mgid worker_rid num_workers worker_packet_size worker_bitmap action])) ;;
  bf (EntryMod table [k] [zero_counters (Some action)]).

Definition add_entry (switch_mac switch_ip : string) (switch_partition_key switch_mgid : Z)
    (worker_ip : string) (worker_rid worker_bitmap worker_packet_size num_workers : Z) : M world unit :=
  log_info "Adding RDMA worker {}" [VStr worker_ip] ;;
  (if bool_decide (worker_rid >= 0x8000) then
     log_error "Worker RID {} too large; only 32K workers supported by this code." [VInt worker_rid]
   else mret tt) ;;
  (if bool_decide (num_workers > 0x8000) then
     log_error "Worker count {} too large; only 32K workers supported by this code." [VInt num_workers]
   else mret tt) ;;
  modify (λ w, set_worker_ids (worker_ids (w_rx w) ++ [worker_rid]) w) ;;
  oas ← opcodes;
  for_each oas
    (add_opcode_entry switch_ip switch_partition_key switch_mgid worker_ip worker_rid
       worker_bitmap worker_packet_size num_workers).

(** The totals of [print_counters], one per worker identifier: its address,
    its packets and its bytes. *)
Definition total_row (acc : gmap Z (pyval * Z * Z)) (r : row) : M world (gmap Z (pyval * Z * Z)) :=
  worker_ip ← field (row_kdict r) "hdr.ipv4.src_addr";
  worker_id ← field_int (row_vdict r) "worker_id";
  worker_packets ← field_int (row_vdict r) "$COUNTER_SPEC_PKTS";
  worker_bytes ← field_int (row_vdict r) "$COUNTER_SPEC_BYTES";
  mret (match acc !! worker_id with
        | None => <[worker_id := (worker_ip, worker_packets, worker_bytes)]> acc
        | Some (ip, p, b) => <[worker_id := (ip, p + worker_packets, b + worker_bytes)]> acc
        end).
Fixpoint total_rows (acc : gmap Z (pyval * Z * Z)) (rows : list row) : M world (gmap Z (pyval * Z * Z)) :=
  match rows with
  | [] => mret acc
  | r :: rows' => acc' ← total_row acc r; total_rows acc' rows'
  end.

Definition print_counters : M world unit :=
  bf (OperationsExecute table "SyncCounters") ;;
  resp ← entry_get table None false;
  totals ← total_rows ∅ resp;
  for_each (dict_items totals) (λ '(i, (ip, p, b)),
    print "Received from worker {:2} at {:15}: {:10} packets, {:10} bytes"
      [VInt i; ip; VInt p; VInt b]).

(** The indices [get_queue_pair_counters] asks for. *)
Definition queue_pair_ids (start count : Z) (w : world) : list Z :=
  merge_sort Z.le
    (worker_id ← worker_ids (w_rx w);
     offset ← range start (start + count);
     [worker_id * worker_counter_offset (w_rx w) + offset]).

Definition get_queue_pair_counters (start count : Z) : M world unit :=
  bf (OperationsExecute rdma_packet_counter "Sync") ;;
  bf (OperationsExecute rdma_message_counter "Sync") ;;
  bf (OperationsExecute rdma_sequence_violation_counter "Sync") ;;
  bf (OperationsExecute simulated_drop_counter "Sync") ;;
  ids ← gets (queue_pair_ids start count);
  match ids with
  | [] => print "No queue pairs currently in use." []
  | _ =>
      packets_resp ← entry_get rdma_packet_counter (Some (counter_key <$> ids)) false;
      messages_resp ← entry_get rdma_message_counter (Some (counter_key <$> ids)) false;
      sequence_violations_resp ←
        entry_get rdma_sequence_violation_counter (Some (counter_key <$> ids)) false;
      drop_resp ← entry_get simulated_drop_counter (Some (counter_key <$> ids)) false;
      packets ← counter_dict packets_resp;
      messages ← counter_dict messages_resp;
      sequence_violations ← counter_dict sequence_violations_resp;
      drops ← counter_dict drop_resp;
      print "Queue Pair Index   Worker ID  Worker Queue Pair Number     Packets    Messages  Sequence Violations  Simulated Drops" [] ;;
      offset ← gets (worker_counter_offset ∘ w_rx);
      for_each ids (λ i,
        p ← dict_get packets i;
        m ← dict_get messages i;
        s ← dict_get sequence_violations i;
        d ← dict_get drops i;
        print "{:>16}  {:>10}  {:>24}  {:>10}  {:>10}  {:>19}  {:>15}"
          (VInt <$> [i; i / offset; i mod offset; p; m; s; d]))
  end.

Definition clear_counters : M world unit :=
  clear_direct_counters "Clearing rdma_receiver counters..." table ;;
  bf (EntryDel rdma_packet_counter None) ;;
  bf (EntryDel rdma_message_counter None) ;;
  bf (EntryDel rdma_sequence_violation_counter None) ;;
  bf (EntryDel simulated_drop_counter None).
End rdma_receiver.

(** ** Which worker a queue pair belongs to *)

Lemma qpn_top_bits_value rid : 0 ≤ rid < 128 → qpn_top_bits rid = (128 + rid) * 2 ^ 16.
Proof.
  intros Hr. unfold qpn_top_bits. change 0x800000 with (Z.shiftl 128 16).
  rewrite <- Z.shiftl_lor, Z.shiftl_mul_pow2 by done. f_equal.
  change 0xff with (Z.ones 8). rewrite Z.land_ones, Z.mod_small by lia.
  change 128 with (Z.shiftl 1 7). by rewrite lor_add_disjoint by lia.
Qed.

Lemma qpn_matches_top rid qp :
  0 ≤ rid < 128 → 0 ≤ qp < 2 ^ 24 →
  ternary_match (qpn_top_bits rid) qpn_mask qp = true ↔ qp .>> 16 = 0x80 + rid.
Proof.
  intros Hr Hq. rewrite qpn_top_bits_value by done.
  change qpn_mask with (Z.shiftl (2 ^ 8 - 1) 16).
  rewrite ternary_field, bool_decide_eq_true, Z.div_mul, Z.shiftr_div_pow2 by lia. done.
Qed.

(** A packet's destination queue pair selects its worker: the entries of
    worker [rid] match exactly the 24-bit queue pair numbers whose top byte is
    [0x80 + rid], so the entries of two workers never match the same packet. *)
Theorem qpn_selects_worker rid qp :
  0 ≤ rid < 128 → 0 ≤ qp < 2 ^ 24 →
  (ternary_match (qpn_top_bits rid) qpn_mask qp = true ↔ qp .>> 16 = 0x80 + rid) ∧
  (∀ rid', 0 ≤ rid' < 128 → ternary_match (qpn_top_bits rid) qpn_mask qp = true →
     ternary_match (qpn_top_bits rid') qpn_mask qp = true → rid' = rid).
Proof.
  intros Hr Hq.
  split; [by apply qpn_matches_top|]. intros r Hr' H1 H2.
  apply qpn_matches_top in H1; [|done..]. apply qpn_matches_top in H2; [|done..]. lia.
Qed.

Lemma qpn_selects_worker_witness :
  ternary_match (qpn_top_bits 5) qpn_mask 0x850123 = true.
Proof. apply (qpn_selects_worker 5 0x850123); [lia|lia|reflexivity]. Defined.

(** ** The operations on the switch *)

Section operations.
Context `{LF : BfrtLive}.

Lemma run_opcodes w :
  opcodes w = (Ok [(0x26, "Ingress.rdma_receiver.first_packet");
                   (0x27, "Ingress.rdma_receiver.middle_packet");
                   (0x28, "Ingress.rdma_receiver.last_packet");
                   (0x2a, "Ingress.rdma_receiver.only_packet");
                   (0x29, "Ingress.rdma_receiver.last_packet_immediate");
                   (0x2b, "Ingress.rdma_receiver.only_packet_immediate")], w).
Proof. reflexivity. Qed.

(** The entries of a worker, by opcode. *)
Definition worker_entries (switch_ip : string) (pkey mgid : Z) (worker_ip : string)
    (rid bits size n : Z) (oas : list (Z * string)) : list (key * datum) :=
  (λ oa : Z * string, (entry_key worker_ip switch_ip pkey oa.1 rid,
                       entry_data mgid rid n size bits oa.2)) <$> oas.

(** The six opcodes and actions of the source's list. *)
Definition write_opcodes : list (Z * string) :=
  [(0x26, "Ingress.rdma_receiver.first_packet");
   (0x27, "Ingress.rdma_receiver.middle_packet");
   (0x28, "Ingress.rdma_receiver.last_packet");
   (0x2a, "Ingress.rdma_receiver.only_packet");
   (0x29, "Ingress.rdma_receiver.last_packet_immediate");
   (0x2b, "Ingress.rdma_receiver.only_packet_immediate")].

Lemma ends_add_opcode_entry sip pkey mgid wip rid bits size n (oa : Z * string) w0 V G w :
  let k := entry_key wip sip pkey oa.1 rid in
  oa ∈ write_opcodes → V !! (table, k) = None → count_entries table V < bf_size table → looks w0 V G w →
  ends (add_opcode_entry sip pkey mgid wip rid bits size n oa) w (Ok tt)
    (looks w0 (<[(table, k) := entry_data mgid rid n size bits oa.2]> V) G).
Proof.
  destruct oa as [op action]. intros k Hin Hk Hroom Hl. unfold add_opcode_entry.
  assert (Hfit : Schema.call_ok (EntryAdd table [k] (Some [entry_data mgid rid n size bits action])) = true
    ∧ Schema.call_ok (EntryMod table [k] [zero_counters (Some action)]) = true).
  { unfold write_opcodes in Hin. repeat (apply elem_of_cons in Hin as [[= _ ->]|Hin]; [split; fits_table|]).
    by apply not_elem_of_nil in Hin. }
  destruct Hfit as [Hadd Hmod].
  eapply ends_bind; [apply ends_add1; [in_tables|done..]|]. intros w1 Hl1.
  apply ends_mod_keeps; [in_tables|done|done|exact Hmod| |done|done].
  intros k' ->%list_elem_of_singleton. rewrite lookup_insert_eq. by eexists.
Qed.

Lemma ends_receiver_add smac sip pkey mgid wip rid bits size n w0 V G w :
  (∀ op, V !! (table, entry_key wip sip pkey op rid) = None) →
  count_entries table V + 6 ≤ bf_size table → looks w0 V G w →
  ends (add_entry smac sip pkey mgid wip rid bits size n) w (Ok tt)
    (looks (set_worker_ids (worker_ids (w_rx w0) ++ [rid]) w0)
       (add_entries table (worker_entries sip pkey mgid wip rid bits size n write_opcodes) V) G).
Proof.
  intros Hk Hroom Hl. unfold add_entry.
  eapply ends_bind; [by apply ends_log_info|]. intros w1 Hl1.
  eapply ends_bind with (a := tt).
  { case_bool_decide; [apply ends_log_error, Hl1|apply ends_ret, Hl1]. }
  intros w2 Hl2. eapply ends_bind with (a := tt).
  { case_bool_decide; [apply ends_log_error, Hl2|apply ends_ret, Hl2]. }
  intros w3 Hl3. eapply ends_bind.
  { apply (ends_assign (λ w, set_worker_ids (worker_ids (w_rx w) ++ [rid]) w));
      [attr_solver|done|exact Hl3]. }
  intros w4 Hl4. eapply ends_bind; [exists w4; split; [apply run_opcodes|exact Hl4]|].
  clear dependent w4. intros w4 Hl4.
  apply ends_for_each_add; [| | |intros oa V' w' Hin Hl' Hk' Hr'; by apply ends_add_opcode_entry|done].
  - apply (NoDup_fmap_1 (λ k : key, match k !! 4%nat with
      | Some (KeyTupleM _ (VInt op) _) => op | _ => 0 end)).
    rewrite <- !list_fmap_compose. apply (bool_decide_unpack _). vm_compute. exact I.
  - intros oa _. apply Hk.
  - simpl. lia.
Qed.

(** Adding a RoCE worker writes one entry per write opcode and nothing
    else: each selects the worker's packets with that opcode (its addresses,
    the partition and the queue pairs of the worker) and carries the worker's
    bit, its packet size and the job's size, and the worker is remembered for
    the counters. *)
Theorem add_entry_effect smac sip pkey mgid wip rid bits size n w :
  (∀ op, wview w !! (table, entry_key wip sip pkey op rid) = None) →
  count_entries table (wview w) + 6 ≤ bf_size table →
  ends (add_entry smac sip pkey mgid wip rid bits size n) w (Ok tt) (λ w', ∃ V',
    looks (set_worker_ids (worker_ids (w_rx w) ++ [rid]) w) V' (wgroups w) w' ∧
    (∀ op action, (op, action) ∈ write_opcodes →
       V' !! (table, entry_key wip sip pkey op rid) = Some (entry_data mgid rid n size bits action)) ∧
    (∀ t k, t ≠ table ∨ (∀ op, op ∈ write_opcodes.*1 → k ≠ entry_key wip sip pkey op rid) →
       V' !! (t, k) = wview w !! (t, k))).
Proof.
  intros Hk Hroom. set (kds := worker_entries sip pkey mgid wip rid bits size n write_opcodes).
  assert (Hkeys : kds.*1 = (λ op, entry_key wip sip pkey op rid) <$> write_opcodes.*1) by done.
  eapply ends_mono; [apply ends_receiver_add; [exact Hk|done|apply looks_refl]|].
  intros w1 Hl. eexists. split; [exact Hl|]. fold kds. split.
  - intros op action Hin. apply lookup_add_entries.
    + rewrite Hkeys. apply NoDup_fmap_2.
      * intros o1 o2 [= Ho]. done.
      * apply (bool_decide_unpack _). vm_compute. exact I.
    + apply list_elem_of_fmap. by exists (op, action).
  - intros t k Hne. destruct (decide (t = table)) as [->|Ht].
    + apply lookup_add_entries_other. rewrite Hkeys, list_elem_of_fmap.
      intros (op & -> & Hop). destruct Hne as [|Hne]; [done|]. by apply (Hne op).
    + by apply lookup_add_entries_ne.
Qed.
End operations.

(** ** Queue pair counters *)

Lemma elem_of_queue_pair_ids `{BF : Bfrt} start count w i :
  worker_counter_offset (w_rx w) = max_num_queue_pairs_per_worker →
  0 ≤ start → 0 ≤ count → start + count ≤ 512 →
  i ∈ queue_pair_ids start count w ↔
    i / 512 ∈ worker_ids (w_rx w) ∧ start ≤ i mod 512 < start + count.
Proof.
  intros Ho Hs Hc Hsc. unfold queue_pair_ids. rewrite Ho.
  rewrite (merge_sort_Permutation Z.le), list_elem_of_bind. unfold max_num_queue_pairs_per_worker. split.
  - intros (id & (off & Hi & Hoff)%list_elem_of_bind & Hid).
    apply list_elem_of_singleton in Hi. apply elem_of_range in Hoff. subst i.
    rewrite Z.div_add_l, Z.div_small, Z.add_0_r, (Z.add_comm _ off), Z.mod_add, Z.mod_small by lia.
    done.
  - intros [Hid Hoff]. exists (i / 512). split; [|done].
    apply list_elem_of_bind. exists (i mod 512). rewrite elem_of_range. split; [|done].
    apply list_elem_of_singleton. pose proof (Z.div_mod i 512 ltac:(done)). lia.
Qed.

(** The counter indices asked for are in order, and are exactly the cells
    of the known workers' queue pairs in the window: dividing an index by the
    512 queue pairs of a worker gives back the worker, and the remainder the
    queue pair. *)
Theorem queue_pair_ids_exact `{BF : Bfrt} start count w i :
  worker_counter_offset (w_rx w) = max_num_queue_pairs_per_worker →
  0 ≤ start → 0 ≤ count → start + count ≤ 512 →
  Sorted Z.le (queue_pair_ids start count w) ∧
  (i ∈ queue_pair_ids start count w ↔
     i / 512 ∈ worker_ids (w_rx w) ∧ start ≤ i mod 512 < start + count).
Proof.
  intros Ho Hs Hc Hsc. split; [apply Sorted_merge_sort; apply _|]. by apply elem_of_queue_pair_ids.
Qed.
End RDMAReceiver.
