(* ===== verification/RDMASender.v ===== *)
(** * Sending the job's RDMA answers (py/RDMASender.py)

    The egress tables that turn the copy of an answer made for a worker into a
    RoCE packet: one entry per worker for its addresses and its memory region,
    and one per queue pair, chosen by the pool index. *)
From S2P Require Import Prelude PyMonad PyNum Bfrt Live World Counters Worker.

(** [math.log(x, 2)] for a positive integer: [Some k] when the float is the
    integer [k]. It is exact on the powers of two the sizes of messages give,
    and is not an integer on other 32-bit arguments. *)
Class MathLog := {
  math_log2 : Z → option Z;
  math_log2_pow k : 0 ≤ k ≤ 28 → math_log2 (2 ^ k) = Some k;
  math_log2_other x : 0 < x < 2 ^ 32 → (∀ k, 0 ≤ k → x ≠ 2 ^ k) → math_log2 x = None
}.

Module RDMASender.
Section rdma_sender.
Context `{BF : Bfrt} `{ML : MathLog}.

Definition switch_mac_and_ip : string := "pipe.Egress.rdma_sender.switch_mac_and_ip".
Definition create_roce_packet : string := "pipe.Egress.rdma_sender.create_roce_packet".
Definition fill_in_qpn_and_psn : string := "pipe.Egress.rdma_sender.fill_in_qpn_and_psn".

Definition clear_workers : M world unit :=
  bf (EntryDel create_roce_packet None) ;;
  bf (DefaultEntryReset create_roce_packet) ;;
  bf (EntryDel fill_in_qpn_and_psn None) ;;
  bf (DefaultEntryReset fill_in_qpn_and_psn).

Definition clear : M world unit :=
  bf (EntryDel switch_mac_and_ip None) ;;
  bf (DefaultEntryReset switch_mac_and_ip) ;;
  clear_workers.

Definition add_default_entries : M world unit :=
  a ← gets w_sender;
  bf (DefaultEntrySet switch_mac_and_ip
        (MakeData [("switch_mac", VStr (addr_mac a)); ("switch_ip", VStr (addr_ip a))]
           (Some "Egress.rdma_sender.set_switch_mac_and_ip"))).

Definition init (switch_mac switch_ip : string) : M world unit :=
  log_info "Setting up RDMA sender..." [] ;;
  modify (set_sender {| addr_mac := switch_mac; addr_ip := switch_ip |}) ;;
  bf (TableGet switch_mac_and_ip) ;;
  bf (TableGet create_roce_packet) ;;
  bf (TableGet fill_in_qpn_and_psn) ;;
  bf (DataAnnotation switch_mac_and_ip "switch_mac" "Egress.rdma_sender.set_switch_mac_and_ip" "mac") ;;
  bf (DataAnnotation switch_mac_and_ip "switch_ip" "Egress.rdma_sender.set_switch_mac_and_ip" "ipv4") ;;
  bf (DataAnnotation create_roce_packet "dest_mac" "Egress.rdma_sender.fill_in_roce_fields" "mac") ;;
  bf (DataAnnotation create_roce_packet "dest_ip" "Egress.rdma_sender.fill_in_roce_fields" "ipv4") ;;
  bf (DataAnnotation create_roce_packet "dest_mac" "Egress.rdma_sender.fill_in_roce_write_fields" "mac") ;;
  bf (DataAnnotation create_roce_packet "dest_ip" "Egress.rdma_sender.fill_in_roce_write_fields" "ipv4") ;;
  clear ;;
  add_default_entries.

Definition rid_key (rid : Z) : key := [KeyTuple "eg_md.switchml_md.worker_id" (VInt rid)].
Definition qp_key (rid pool_index mask : Z) : key :=
  [KeyTuple "eg_md.switchml_md.worker_id" (VInt rid);
   KeyTernary "eg_md.switchml_md.pool_index" (VInt pool_index) (VInt mask)].
Definition qp_data (qpn : Z) : datum :=
  MakeData [("qpn", VInt qpn)] (Some "Egress.rdma_sender.add_qpn_and_psn").
Definition send_data (mac ip : string) : datum :=
  MakeData [("dest_mac", VStr mac); ("dest_ip", VStr ip)]
    (Some "Egress.rdma_sender.fill_in_roce_fields").
Definition write_data (mac ip : string) (rkey : Z) : datum :=
  MakeData [("dest_mac", VStr mac); ("dest_ip", VStr ip); ("base_addr", VInt 0); ("rkey", VInt rkey)]
    (Some "Egress.rdma_sender.fill_in_roce_write_fields").

Definition add_send_worker (rid : Z) (mac ip : string) (qpn initial_psn : Z) : M world unit :=
  bf (EntryAdd create_roce_packet [rid_key rid] (Some [send_data mac ip])) ;;
  bf (EntryAdd fill_in_qpn_and_psn [qp_key rid 0x00000 0x00000] (Some [qp_data qpn])).

(** [packet_size], a member of the enumeration or a number of bytes. *)
Definition packet_bytes (packet_size : Z) : Z :=
  if bool_decide (packet_size = packet_size_value IBV_MTU_128) then 128
  else if bool_decide (packet_size = packet_size_value IBV_MTU_256) then 256
  else if bool_decide (packet_size = packet_size_value IBV_MTU_512) then 512
  else if bool_decide (packet_size = packet_size_value IBV_MTU_1024) then 1024
  else packet_size.

Definition first_last_mask (packets_per_message : Z) : Z := (packets_per_message - 1) .<< 1.
Definition qp_mask (packets_per_message : Z) : Z := 0x7ffe .& .~ (first_last_mask packets_per_message).

(** The body of the loop over the queue pairs. When the logarithm is not an
    integer it stays a float, by which an integer cannot be shifted. *)
Definition add_qp (rid packets_per_message : Z) (log2_packets_per_message : option Z)
    (e : Z * (Z * Z)) : M world unit :=
  let '(index, (qpn, initial_psn)) := e in
  match log2_packets_per_message with
  | None => raise TypeError
  | Some l =>
      let shifted_index := index .<< (l + 1) in
      let mask := qp_mask packets_per_message in
      print "Adding qpn {} and psn {} for index {:x} mask {:x}"
        [VInt qpn; VInt initial_psn; VInt shifted_index; VInt mask] ;;
      bf (EntryAdd fill_in_qpn_and_psn [qp_key rid shifted_index mask] (Some [qp_data qpn]))
  end.

Definition add_write_worker (rid : Z) (mac ip : string) (rkey packet_size message_size : Z)
    (qpns_and_psns : list (Z * Z)) : M world unit :=
  bf (EntryAdd create_roce_packet [rid_key rid] (Some [write_data mac ip rkey])) ;;
  let packet_size := packet_bytes packet_size in
  let packets_per_message := message_size / packet_size in
  print "" [VInt packet_size; VInt message_size; VInt packets_per_message] ;;
  (if bool_decide (packets_per_message ≤ 0) then raise ValueError else mret tt) ;;
  let log2_packets_per_message := math_log2 packets_per_message in
  match log2_packets_per_message with
  | None => log_error "Number of {}B packets per {}B message is not a power of 2!"
              [VInt packet_size; VInt message_size]
  | Some _ => mret tt
  end ;;
  log_info "First last mask is 0x{:x}" [VInt (first_last_mask packets_per_message)] ;;
  for_each (enumerate qpns_and_psns) (add_qp rid packets_per_message log2_packets_per_message).

Definition counter_fields (r : row) : M world (list pyval) :=
  worker_id ← field (row_kdict r) "eg_md.switchml_md.worker_id";
  worker_ip ← field (row_vdict r) "dest_ip";
  worker_packets ← field (row_vdict r) "$COUNTER_SPEC_PKTS";
  worker_bytes ← field (row_vdict r) "$COUNTER_SPEC_BYTES";
  mret [worker_id; worker_ip; worker_packets; worker_bytes].

Definition print_counters : M world unit :=
  print_direct_counters create_roce_packet
    "Sent to worker       {:2} at {:15}: {:10} packets, {:10} bytes" counter_fields.

Definition clear_counters : M world unit :=
  clear_direct_counters "Clearing rdma_sender counters..." create_roce_packet.
End rdma_sender.

(** ** Which queue pair a slot is answered on *)

Lemma qp_mask_pow2 k : 0 ≤ k ≤ 14 → qp_mask (2 ^ k) = (2 ^ (14 - k) - 1) .<< (k + 1).
Proof.
  intros Hk. unfold qp_mask, first_last_mask. apply Z_bits_ext. intros n Hn.
  change 0x7ffe with (Z.shiftl (2 ^ 14 - 1) 1).
  rewrite Z.land_spec, testbit_lnot, !testbit_shiftl by done.
  destruct (decide (n < 1)).
  { rewrite !(Z.testbit_neg_r _ (n - 1)), (Z.testbit_neg_r _ (n - (k + 1))) by lia. done. }
  rewrite !testbit_ones by lia. destruct (decide (n - (k + 1) < 0)).
  - rewrite Z.testbit_neg_r by lia. rewrite (bool_decide_eq_true_2 (n - 1 < k)) by lia.
    apply andb_false_r.
  - rewrite testbit_ones by lia. repeat case_bool_decide; simpl; first [done|exfalso; lia].
Qed.

Lemma pool_index_match k i p :
  0 ≤ k ≤ 14 → 0 ≤ i < 2 ^ (14 - k) → 0 ≤ p < 2 ^ 15 →
  ternary_match (i .<< (k + 1)) (qp_mask (2 ^ k)) p = bool_decide (p .>> (k + 1) = i).
Proof.
  intros Hk Hi Hp.
  assert (H15 : 2 ^ (14 - k) * 2 ^ (k + 1) = 2 ^ 15).
  { rewrite <- Z.pow_add_r by lia. f_equal. lia. }
  assert (0 < 2 ^ (k + 1)) by (apply Z.pow_pos_nonneg; lia).
  rewrite qp_mask_pow2, Z.shiftl_mul_pow2, Z.shiftr_div_pow2 by lia.
  rewrite ternary_field by first [lia | replace (k + 1 + (14 - k)) with 15 by lia; nia].
  by rewrite Z.div_mul by lia.
Qed.

(** The queue pairs share the pool index space exactly: with [2^k] packets
    per message, a 15-bit pool index (slot number and set bit) matches the entry
    of queue pair [i] and no other, where [i] is the index without its [k + 1]
    low bits. So all packets of a message, in both sets of a slot, are answered
    on one queue pair. *)
Theorem pool_index_partition k i p :
  0 ≤ k ≤ 14 → 0 ≤ i < 2 ^ (14 - k) → 0 ≤ p < 2 ^ 15 →
  ternary_match (i .<< (k + 1)) (qp_mask (2 ^ k)) p = bool_decide (p .>> (k + 1) = i).
Proof. apply pool_index_match. Qed.

Lemma pool_index_partition_witness :
  ternary_match (2 .<< 3) (qp_mask 4) 0x16 = true ∧ ternary_match (3 .<< 3) (qp_mask 4) 0x16 = false.
Proof.
  split; [apply (eq_trans (pool_index_partition 2 2 0x16 ltac:(lia) ltac:(lia) ltac:(lia)))
         |apply (eq_trans (pool_index_partition 2 3 0x16 ltac:(lia) ltac:(lia) ltac:(lia)))];
    reflexivity.
Defined.

(** ** Adding a worker *)

Section adding.
Context `{LF : BfrtLive} `{ML : MathLog}.

Definition qp_entry (rid k : Z) (e : Z * (Z * Z)) : key * datum :=
  (qp_key rid (e.1 .<< (k + 1)) (qp_mask (2 ^ k)), qp_data e.2.1).
Definition qp_entries (rid k : Z) (qps : list (Z * Z)) : list (key * datum) :=
  qp_entry rid k <$> enumerate qps.

Lemma enumerate_elem {A} (l : list A) (i : Z) x : (i, x) ∈ enumerate l → 0 ≤ i.
Proof.
  intros (n & Hn)%list_elem_of_lookup. rewrite enumerate_lookup in Hn.
  destruct (l !! n); simplify_eq/=. lia.
Qed.

Lemma qp_entries_NoDup rid k qps : 0 ≤ k → NoDup (qp_entries rid k qps).*1.
Proof.
  intros Hk. unfold qp_entries. rewrite <- list_fmap_compose.
  apply (NoDup_fmap_1 (λ ky : key, match ky !! 1%nat with
      | Some (KeyTupleM _ (VInt i) _) => i | _ => 0 end)).
  rewrite <- list_fmap_compose.
  match goal with |- NoDup ?l =>
    replace l with ((λ i, i .<< (k + 1)) <$> (enumerate qps).*1)
      by (rewrite <- list_fmap_compose; done) end.
  apply NoDup_fmap_2_strong.
  - intros x y _ _. rewrite !Z.shiftl_mul_pow2 by lia.
    assert (0 < 2 ^ (k + 1)) by (apply Z.pow_pos_nonneg; lia). nia.
  - unfold enumerate. rewrite fst_zip by (rewrite length_seqZ; lia). apply NoDup_seqZ.
Qed.

Lemma ends_add_qps rid k qps w0 V G w :
  0 ≤ k → (∀ i, V !! (fill_in_qpn_and_psn, qp_key rid (i .<< (k + 1)) (qp_mask (2 ^ k))) = None) →
  count_entries fill_in_qpn_and_psn V + Z.of_nat (length qps) ≤ bf_size fill_in_qpn_and_psn →
  looks w0 V G w →
  ends (for_each (enumerate qps) (add_qp rid (2 ^ k) (Some k))) w (Ok tt)
    (looks w0 (add_entries fill_in_qpn_and_psn (qp_entries rid k qps) V) G).
Proof.
  intros Hk Hn Hroom Hl. apply ends_for_each_add; [by apply qp_entries_NoDup| | | |done].
  - intros x _. apply Hn.
  - by rewrite length_enumerate.
  - intros [i [qpn psn]] V' w' _ Hl' Hn' Hr'. unfold add_qp.
    eapply ends_bind; [apply ends_print, Hl'|]. intros w1 Hl1.
    apply ends_add1; [in_tables|fits_table|done..].
Qed.

(** What precedes the logarithm: the worker's entry is in the table. *)
Lemma ends_write_start rid mac ip rkey (m : M world unit) r Q w0 V G w :
  V !! (create_roce_packet, rid_key rid) = None →
  count_entries create_roce_packet V < bf_size create_roce_packet →
  looks w0 V G w →
  (∀ w1, looks w0 (<[(create_roce_packet, rid_key rid) := write_data mac ip rkey]> V) G w1 →
     ends m w1 r Q) →
  ends (bf (EntryAdd create_roce_packet [rid_key rid] (Some [write_data mac ip rkey])) ;; m) w r Q.
Proof.
  intros Hn Hroom Hl Hm. eapply ends_bind; [apply ends_add1; [in_tables|fits_table|done..]|]. exact Hm.
Qed.

(** The entries a worker has in the egress. *)
Definition sender_entries (rid k : Z) (mac ip : string) (rkey : Z) (qps : list (Z * Z))
    (V : entries) : entries :=
  add_entries fill_in_qpn_and_psn (qp_entries rid k qps)
    (<[(create_roce_packet, rid_key rid) := write_data mac ip rkey]> V).

Lemma ends_sender_add rid mac ip rkey size message k qps w0 V G w :
  message / packet_bytes size = 2 ^ k → 0 ≤ k ≤ 28 →
  V !! (create_roce_packet, rid_key rid) = None →
  (∀ i, V !! (fill_in_qpn_and_psn, qp_key rid (i .<< (k + 1)) (qp_mask (2 ^ k))) = None) →
  count_entries create_roce_packet V < bf_size create_roce_packet →
  count_entries fill_in_qpn_and_psn V + Z.of_nat (length qps) ≤ bf_size fill_in_qpn_and_psn →
  looks w0 V G w →
  ends (add_write_worker rid mac ip rkey size message qps) w (Ok tt)
    (looks w0 (sender_entries rid k mac ip rkey qps V) G).
Proof.
  intros Hm Hk Hn Hqp Hroom1 Hroom2 Hl. unfold add_write_worker.
  eapply ends_write_start; [done|done|exact Hl|]. intros w1 Hl1.
  rewrite Hm, math_log2_pow by done.
  eapply ends_bind; [by apply ends_print|]. intros w2 Hl2.
  rewrite bool_decide_eq_false_2 by (pose proof (Z.pow_pos_nonneg 2 k); lia).
  eapply ends_bind; [by apply ends_ret|]. intros w3 Hl3.
  eapply ends_bind; [by apply ends_ret|]. intros w4 Hl4.
  eapply ends_bind; [by apply ends_log_info|]. intros w5 Hl5.
  apply ends_add_qps; [lia| | |done].
  - intros i. rewrite lookup_insert_ne by done. apply Hqp.
  - by rewrite count_entries_insert_ne.
Qed.

(** Adding a RoCE worker to the egress, for a message of [2^k] packets:
    the worker has its entry, and each queue pair of the list, in order, has
    one, keyed by its share of the pool index; every other entry of the
    switch is as it was. *)
Theorem add_write_worker_effect rid mac ip rkey size message k qps w :
  let V := wview w in
  message / packet_bytes size = 2 ^ k → 0 ≤ k ≤ 28 →
  V !! (create_roce_packet, rid_key rid) = None →
  (∀ i, V !! (fill_in_qpn_and_psn, qp_key rid (i .<< (k + 1)) (qp_mask (2 ^ k))) = None) →
  count_entries create_roce_packet V < bf_size create_roce_packet →
  count_entries fill_in_qpn_and_psn V + Z.of_nat (length qps) ≤ bf_size fill_in_qpn_and_psn →
  ends (add_write_worker rid mac ip rkey size message qps) w (Ok tt) (λ w', ∃ V',
    looks w V' (wgroups w) w' ∧
    V' !! (create_roce_packet, rid_key rid) = Some (write_data mac ip rkey) ∧
    (∀ (i : nat) qpn psn, qps !! i = Some (qpn, psn) →
       V' !! (fill_in_qpn_and_psn, qp_key rid (Z.of_nat i .<< (k + 1)) (qp_mask (2 ^ k))) =
         Some (qp_data qpn)) ∧
    (∀ t ky, t ≠ fill_in_qpn_and_psn → (t, ky) ≠ (create_roce_packet, rid_key rid) →
       V' !! (t, ky) = V !! (t, ky)) ∧
    (∀ ky, (∀ i, 0 ≤ i < Z.of_nat (length qps) → ky ≠ qp_key rid (i .<< (k + 1)) (qp_mask (2 ^ k))) →
       V' !! (fill_in_qpn_and_psn, ky) = V !! (fill_in_qpn_and_psn, ky))).
Proof.
  intros V Hm Hk Hn Hqp Hroom1 Hroom2.
  eapply ends_mono; [by apply (ends_sender_add _ _ _ _ _ _ k), looks_refl|].
  intros w1 Hl1. eexists. split; [exact Hl1|]. unfold sender_entries. split_and!.
  - rewrite lookup_add_entries_ne by done. apply lookup_insert_eq.
  - intros i qpn psn Hi. apply lookup_add_entries; [apply qp_entries_NoDup; lia|].
    apply list_elem_of_fmap. exists (Z.of_nat i, (qpn, psn)). split; [done|].
    apply list_elem_of_lookup. exists i. by rewrite enumerate_lookup, Hi.
  - intros t ky Ht Hne. rewrite lookup_add_entries_ne by done. by rewrite lookup_insert_ne by done.
  - intros ky Hky. rewrite lookup_add_entries_other; [by rewrite lookup_insert_ne|].
    unfold qp_entries. rewrite <- list_fmap_compose. rewrite list_elem_of_fmap.
    intros ([i [qpn psn]] & -> & (n & Hn')%list_elem_of_lookup).
    rewrite enumerate_lookup in Hn'. destruct (qps !! n) as [x|] eqn:Hx; simplify_eq/=.
    apply lookup_lt_Some in Hx. by apply (Hky (Z.of_nat n)); [lia|].
Qed.

(** The two ways the message size can be wrong. A message shorter than a
    packet is a [ValueError]; a message whose number of packets is not a power
    of two is logged, and is a [TypeError] at the first queue pair. In both
    cases the worker's own entry has already been written and stays. *)
Theorem add_write_worker_bad_size rid mac ip rkey size message qps w :
  let V := wview w in
  let n := message / packet_bytes size in
  V !! (create_roce_packet, rid_key rid) = None →
  count_entries create_roce_packet V < bf_size create_roce_packet →
  let Q := looks w (<[(create_roce_packet, rid_key rid) := write_data mac ip rkey]> V) (wgroups w) in
  (n ≤ 0 → ends (add_write_worker rid mac ip rkey size message qps) w (Raise ValueError) Q) ∧
  (0 < n < 2 ^ 32 → (∀ k, 0 ≤ k → n ≠ 2 ^ k) → qps ≠ [] →
   ends (add_write_worker rid mac ip rkey size message qps) w (Raise TypeError) Q).
Proof.
  intros V n Hn Hroom Q. unfold add_write_worker. fold n. split.
  - intros Hn0. eapply ends_write_start; [done|done|apply looks_refl|]. intros w1 Hl1.
    eapply ends_bind; [by apply ends_print|]. intros w2 Hl2.
    rewrite bool_decide_eq_true_2 by done.
    eapply ends_bind_raise; [by apply ends_raise|done].
  - intros Hn0 Hpow Hq. eapply ends_write_start; [done|done|apply looks_refl|]. intros w1 Hl1.
    eapply ends_bind; [by apply ends_print|]. intros w2 Hl2.
    rewrite bool_decide_eq_false_2 by lia.
    eapply ends_bind; [by apply ends_ret|]. intros w3 Hl3.
    rewrite math_log2_other by done.
    eapply ends_bind; [by apply ends_log_error|]. intros w4 Hl4.
    eapply ends_bind; [by apply ends_log_info|]. intros w5 Hl5.
    pose proof (length_enumerate qps) as Hlen.
    destruct (enumerate qps) as [|[i [qpn psn]] es]; [by destruct qps|]. simpl.
    eapply ends_bind_raise; [by apply ends_raise|done].
Qed.

Lemma sender_clear_counters_quiet : stable quiet clear_counters.
Proof. by apply clear_direct_counters_quiet. Qed.
Lemma sender_print_counters_quiet : stable quiet print_counters.
Proof.
  apply print_direct_counters_quiet; [done..|]. intros r. unfold counter_fields. stable_walk.
Qed.
End adding.
End RDMASender.
