(* ===== verification/Registers.v ===== *)
(** * Register blocks

    Five classes own registers that the switch program updates and the
    controller only clears and prints (py/UpdateAndCheckWorkerBitmap.py,
    py/CountWorkers.py, py/ExponentMax.py, py/SignificandSum.py,
    py/SignificandStage.py). The time the source measures around a clear is
    only printed, and is left out. *)
From S2P Require Import Prelude PyMonad PyText PyNum Bfrt Live World Counters.
From Stdlib Require Import Ascii.

Module UpdateAndCheckWorkerBitmap.
Section bitmap.
Context `{BF : Bfrt}.

Definition table : string :=
  "pipe.Ingress.update_and_check_worker_bitmap.update_and_check_worker_bitmap".
Definition register : string :=
  "pipe.Ingress.update_and_check_worker_bitmap.worker_bitmap".

Definition clear_registers : M world unit :=
  log_info "Clearing bitmap registers..." [] ;;
  bf (EntryDel register None).
Definition clear : M world unit := clear_registers.
Definition init : M world unit :=
  log_info "Setting up update_and_check_worker_bitmap table..." [] ;;
  bf (TableGet table) ;;
  bf (TableGet register) ;;
  clear.

(** The set bitmaps of a row. *)
Definition bitmap_row (r : row) : M world (Z * Z * Z) :=
  pool_index ← field_int (row_kdict r) "$REGISTER_INDEX";
  set0 ← field_first (row_vdict r) "Ingress.update_and_check_worker_bitmap.worker_bitmap.first";
  set1 ← field_first (row_vdict r) "Ingress.update_and_check_worker_bitmap.worker_bitmap.second";
  mret (pool_index, set0, set1).
Definition print_bitmap (x : Z * Z * Z) : M world unit :=
  let '(pool_index, set0, set1) := x in
  print "Pool index 0x{:04x}: set 0: 0x{:08x} set 1:0x{:08x}"
    [VInt pool_index; VInt set0; VInt set1].

Definition show_bitmaps (start count : Z) : M world unit :=
  resp ← entry_get register
    (Some ((λ i, [KeyTuple "$REGISTER_INDEX" (VInt i)]) <$> range start (start + count))) true;
  for_each resp (λ r, x ← bitmap_row r; print_bitmap x).

Definition show_weird_bitmaps : M world unit :=
  resp ← entry_get register (Some []) true;
  for_each resp (λ r,
    x ← bitmap_row r;
    if bool_decide (x.1.2 ≠ 0 ∧ x.2 ≠ 0) then print_bitmap x else mret tt).
End bitmap.
End UpdateAndCheckWorkerBitmap.

Module CountWorkers.
Section count_workers.
Context `{BF : Bfrt}.
Definition table : string := "pipe.Ingress.count_workers.count_workers".
Definition register : string := "pipe.Ingress.count_workers.worker_count".
Definition clear_registers : M world unit := bf (EntryDel register None).
Definition clear : M world unit := clear_registers.
Definition add_default_entries : M world unit :=
  log_info "Clearing worker count register..." [].
Definition init : M world unit :=
  log_info "Setting up count_workers table..." [] ;;
  bf (TableGet table) ;;
  bf (TableGet register) ;;
  clear ;;
  add_default_entries.
End count_workers.
End CountWorkers.

Module ExponentMax.
Section exponent_max.
Context `{BF : Bfrt}.
Definition table : string := "pipe.Ingress.exponent_max.exponent_max".
Definition register : string := "pipe.Ingress.exponent_max.exponents".
Definition clear_registers : M world unit :=
  log_info "Clearing exponent registers..." [] ;;
  bf (EntryDel register None).
Definition clear : M world unit := clear_registers.
Definition init : M world unit :=
  log_info "Setting up exponent_max table..." [] ;;
  bf (TableGet table) ;;
  bf (TableGet register) ;;
  clear.
End exponent_max.
End ExponentMax.

(** ["{:02d}".format(n)] of a non-negative number. *)
Definition pad2 (n : Z) : string :=
  let ds := dec n in
  String.string_of_list_ascii (replicate (2 - length ds) "0"%char ++ ds).

Module SignificandSum.
Section significand_sum.
Context `{BF : Bfrt}.
Definition table (n : Z) : string := ("pipe.Ingress.sum" +:+ pad2 n +:+ ".significand_sum")%string.
Definition register (n : Z) : string := ("pipe.Ingress.sum" +:+ pad2 n +:+ ".significands")%string.
Definition clear_registers (n : Z) : M world unit :=
  log_info "Clearing significand sum register..." [] ;;
  bf (EntryDel (register n) None) ;;
  log_info "Cleared register in {} seconds..." [].
Definition clear (n : Z) : M world unit := clear_registers n.
Definition init (n : Z) : M world unit :=
  log_info "Setting up significand sum for index {}..." [VInt n] ;;
  bf (TableGet (table n)) ;;
  bf (TableGet (register n)) ;;
  clear n.
End significand_sum.
End SignificandSum.

Module SignificandStage.
Section significand_stage.
Context `{BF : Bfrt}.
Definition control_name (aa bb cc dd : Z) : string :=
  ("Ingress.significands_" +:+ pad2 aa +:+ "_" +:+ pad2 bb +:+ "_" +:+ pad2 cc +:+ "_" +:+ pad2 dd)%string.
Definition registers (aa bb cc dd : Z) : list string :=
  (λ index, (control_name aa bb cc dd +:+ ".sum" +:+ String.string_of_list_ascii (dec index)
             +:+ ".significands")%string) <$> [0; 1; 2; 3].
Definition clear_registers (aa bb cc dd : Z) : M world unit :=
  log_info "Clearing significand registers..." [] ;;
  for_each (registers aa bb cc dd) (λ register, bf (EntryDel register None)) ;;
  log_info "Cleared four registers in {} seconds per register..." [].
Definition clear := clear_registers.
Definition init (aa bb cc dd : Z) : M world unit :=
  log_info "Setting up significand sum stage for indices {}, {}, {}, and {}..."
    [VInt aa; VInt bb; VInt cc; VInt dd] ;;
  for_each (registers aa bb cc dd) (λ register_name, bf (TableGet register_name)) ;;
  clear aa bb cc dd.
End significand_stage.
End SignificandStage.

(** ** Clearing registers touches none of the observed tables *)

Section quiet.
Context `{SF : BfrtSafe}.

Lemma bitmap_registers_quiet : stable quiet UpdateAndCheckWorkerBitmap.clear_registers.
Proof.
  unfold UpdateAndCheckWorkerBitmap.clear_registers. stable_walk.
  apply stable_quiet_unseen; [|done]. apply (bool_decide_unpack _). vm_compute. exact I.
Qed.
Lemma count_registers_quiet : stable quiet CountWorkers.clear_registers.
Proof.
  apply stable_quiet_unseen; [|done]. apply (bool_decide_unpack _). vm_compute. exact I.
Qed.
Lemma exponent_registers_quiet : stable quiet ExponentMax.clear_registers.
Proof.
  unfold ExponentMax.clear_registers. stable_walk.
  apply stable_quiet_unseen; [|done]. apply (bool_decide_unpack _). vm_compute. exact I.
Qed.

(** The 32 significand registers have distinct names, none of which is an
    observed table. *)
Lemma significand_registers_distinct : NoDup (SignificandSum.register <$> range 0 32).
Proof. apply (bool_decide_unpack _). vm_compute. exact I. Qed.

Lemma significand_unseen n :
  0 ≤ n < 32 →
  SignificandSum.register n ∉ match_tables ∧ SignificandSum.register n ≠ "$pre.mgid".
Proof.
  intros Hn.
  assert (Hall : Forall (λ n, SignificandSum.register n ∉ match_tables ∧
                              SignificandSum.register n ≠ "$pre.mgid") (range 0 32)).
  { apply (bool_decide_unpack _). vm_compute. exact I. }
  rewrite Forall_forall in Hall. apply Hall. by apply elem_of_range.
Qed.

Lemma significand_registers_quiet n :
  0 ≤ n < 32 → stable quiet (SignificandSum.clear_registers n).
Proof.
  intros [H1 H2]%significand_unseen. unfold SignificandSum.clear_registers. stable_walk.
  by apply stable_quiet_unseen.
Qed.
End quiet.
