(* ===== verification/NextStep.v ===== *)
(** * Next step (py/NextStep.py)

    The counters of what became of each packet, and the alternate
    recirculation port. *)
From S2P Require Import Prelude PyMonad PyNum Bfrt Live World Counters.

Module NextStep.
Section next_step.
Context `{BF : Bfrt}.

Definition table : string := "pipe.Ingress.next_step.next_step".
Definition recirc_port : string := "pipe.Ingress.next_step.recirc_port".
Definition recirculate_counter : string := "pipe.Ingress.next_step.recirculate_counter".
Definition broadcast_counter : string := "pipe.Ingress.next_step.broadcast_counter".
Definition retransmit_counter : string := "pipe.Ingress.next_step.retransmit_counter".
Definition drop_counter : string := "pipe.Ingress.next_step.drop_counter".

Definition init : M world unit :=
  log_info "Setting up next_step table..." [] ;;
  bf (TableGet table) ;;
  bf (TableGet recirc_port) ;;
  bf (TableGet recirculate_counter) ;;
  bf (TableGet broadcast_counter) ;;
  bf (TableGet retransmit_counter) ;;
  bf (TableGet drop_counter).

Definition clear : M world unit := mret tt.

Definition counters : list string :=
  [recirculate_counter; broadcast_counter; retransmit_counter; drop_counter].

Definition clear_counter (counter : string) : M world unit :=
  let count := bf_size counter in
  log_info "Clearing {} keys for counter table {}" [VInt count; VStr counter] ;;
  bf (EntryMod counter (counter_range count) (zero_cells count)).

Definition clear_counters : M world unit :=
  log_info "Clearing next_step counters..." [] ;;
  bf (EntryDel recirculate_counter None) ;;
  bf (EntryDel broadcast_counter None) ;;
  bf (EntryDel retransmit_counter None) ;;
  bf (EntryDel drop_counter None) ;;
  for_each counters clear_counter.

(** One counter's values in the window. *)
Definition read_counter (start count : Z) (counter : string) : M world (gmap Z Z) :=
  bf (OperationsExecute counter "Sync") ;;
  resp ← entry_get counter (Some (counter_key <$> range start (start + count))) false;
  counter_dict resp.

Definition print_index (values : list (gmap Z Z)) (index : Z) : M world unit :=
  vs ← map_each (λ d, dict_get d index) values;
  print "Pool index {:5} set {}: {:13}  {:13}  {:13}  {:13}"
    (VInt <$> [index .>> 1; index .& 1] ++ vs).

(** The window is doubled to show both sets of each slot. *)
Definition print_counters (start count : Z) : M world unit :=
  let count := count * 2 in
  values ← map_each (read_counter start count) counters;
  print "                         Recirculated      Broadcast  Retransmitted         Dropped" [] ;;
  for_each (range start (start + count)) (print_index values).

Definition enable_alternate_recirc_port (alternate_port : Z) : M world unit :=
  bf (DefaultEntrySet recirc_port
        (MakeData [("port", VInt alternate_port)] (Some "set_alternate_recirc_port"))).
Definition disable_alternate_recirc_port : M world unit :=
  bf (DefaultEntryReset recirc_port).
End next_step.

Section quiet.
Context `{SF : BfrtSafe}.

Lemma counters_unseen c : c ∈ counters → c ∉ match_tables ∧ c ≠ "$pre.mgid".
Proof. revert c. apply Forall_forall. apply (bool_decide_unpack _). vm_compute. exact I. Qed.

Lemma next_step_call_quiet c : call_table c ∈ counters → stable quiet (bf c).
Proof. intros [H1 H2]%counters_unseen. by apply stable_quiet_unseen. Qed.

Lemma next_step_clear_counters_quiet : stable quiet clear_counters.
Proof.
  unfold clear_counters, clear_counter.
  stable_walk.
  all: apply next_step_call_quiet;
    first [assumption | apply (bool_decide_unpack _); vm_compute; exact I].
Qed.
End quiet.
End NextStep.
