(* ===== verification/Mirror.v ===== *)
(** * Mirror sessions (py/Mirror.py) *)
From S2P Require Import Prelude PyMonad PyNum Bfrt Live World.

Module Mirror.
Section mirror.
Context `{BF : Bfrt}.

Definition table : string := "$mirror.cfg".
Definition normal_base : Z := 1.

Definition set_sessions (l : list Z) (w : world) : world :=
  set_mirror {| mirror_port := mirror_port (w_mirror w); sessions := l |} w.
Definition sid_key (sid : Z) : key := [KeyTuple "$sid" (VInt sid)].

(** [while len(self.sessions)]: each round pops the first session. *)
Fixpoint pop_sessions (l : list Z) : M world unit :=
  match l with
  | [] => mret tt
  | sid :: l' =>
      modify (set_sessions l') ;;
      bf (EntryDel table (Some [sid_key sid])) ;;
      pop_sessions l'
  end.
Definition clear : M world unit :=
  l ← gets (sessions ∘ w_mirror); pop_sessions l.

Definition session_data (port : Z) : datum :=
  MakeData [("$direction", VStr "INGRESS"); ("$ucast_egress_port", VInt port);
            ("$ucast_egress_port_valid", VBool true); ("$session_enable", VBool true)]
    (Some "$normal").
Definition add_default_entries : M world unit :=
  port ← gets (mirror_port ∘ w_mirror);
  bf (EntryAdd table [sid_key normal_base] (Some [session_data port])).

Definition init (port : Z) : M world unit :=
  log_info "Setting up mirror sessions..." [] ;;
  bf (TableGet table) ;;
  modify (set_mirror {| mirror_port := port; sessions := [] |}) ;;
  clear ;;
  add_default_entries.
End mirror.

Section properties.
Context `{LF : BfrtLive}.

Lemma ends_sessions w0 V G w :
  looks w0 V G w →
  ends (gets (sessions ∘ w_mirror)) w (Ok (sessions (w_mirror w0))) (looks w0 V G).
Proof. apply (ends_attr (sessions ∘ w_mirror)). attr_solver. Qed.

Lemma ends_mirror_init port w0 V G w :
  V !! (table, sid_key normal_base) = None → count_entries table V < bf_size table →
  looks w0 V G w →
  ends (init port) w (Ok tt)
    (looks (set_mirror {| mirror_port := port; sessions := [] |} w0)
       (<[(table, sid_key normal_base) := session_data port]> V) G).
Proof.
  intros Hn Hroom Hl. unfold init. eapply ends_bind; [apply ends_log_info, Hl|]. intros w1 Hl1.
  eapply ends_bind; [apply ends_client; [done..|exact Hl1]|]. intros w2 Hl2.
  eapply ends_bind; [apply (ends_assign (set_mirror {| mirror_port := port; sessions := [] |}));
    [attr_solver|done|exact Hl2]|]. intros w3 Hl3.
  eapply ends_bind.
  { unfold clear. eapply ends_bind; [apply ends_sessions, Hl3|]. intros w4 Hl4. by apply ends_ret. }
  intros w4 Hl4. unfold add_default_entries.
  eapply ends_bind; [apply (ends_attr (mirror_port ∘ w_mirror)); [attr_solver|exact Hl4]|].
  intros w5 Hl5. apply ends_add1; [in_tables|fits_table|exact Hn|exact Hroom|exact Hl5].
Qed.

(** The session the constructor configures is not remembered, so
    [clear] has nothing to delete: on a switch without sessions the
    constructor leaves its session in the table, and clearing changes
    nothing. *)
Theorem mirror_session_not_cleared port w :
  wview w !! (table, sid_key normal_base) = None →
  count_entries table (wview w) < bf_size table →
  ends (init port ;; clear) w (Ok tt)
    (looks (set_mirror {| mirror_port := port; sessions := [] |} w)
       (<[(table, sid_key normal_base) := session_data port]> (wview w)) (wgroups w)).
Proof.
  intros Hn Hroom. eapply ends_bind; [by apply ends_mirror_init|].
  intros w1 Hl1. unfold clear. eapply ends_bind; [apply ends_sessions, Hl1|].
  intros w2 Hl2. by apply ends_ret.
Qed.
End properties.
End Mirror.
