(* ===== verification/ARPandICMP.v ===== *)
(** * Answering ARP and ping (py/ARPandICMP.py) *)
From S2P Require Import Prelude PyMonad PyNum Bfrt Live World.

Module ARPandICMP.
Section arp.
Context `{BF : Bfrt}.

Definition table : string := "pipe.Ingress.arp_and_icmp.arp_and_icmp".
Definition send_arp_reply : string := "Ingress.arp_and_icmp.send_arp_reply".
Definition send_icmp_echo_reply : string := "Ingress.arp_and_icmp.send_icmp_echo_reply".
(** [Table.lowest_priority] *)
Definition lowest_priority : Z := 1 .<< 24.

Definition clear : M world unit := bf (EntryDel table None).

Definition init : M world unit :=
  log_info "Setting up arp_and_icmp table..." [] ;;
  bf (TableGet table) ;;
  modify (set_arp {| arp_switch_mac := None; arp_switch_ip := None |}) ;;
  bf (KeyAnnotation table "hdr.ipv4.dst_addr" "ipv4") ;;
  bf (KeyAnnotation table "hdr.arp_ipv4.dst_proto_addr" "ipv4") ;;
  bf (DataAnnotation table "switch_mac" send_arp_reply "mac") ;;
  bf (DataAnnotation table "switch_ip" send_arp_reply "ipv4") ;;
  bf (DataAnnotation table "switch_mac" send_icmp_echo_reply "mac") ;;
  bf (DataAnnotation table "switch_ip" send_icmp_echo_reply "ipv4") ;;
  clear.

Definition arp_key (switch_ip : string) : key :=
  [KeyTuple "$MATCH_PRIORITY" (VInt (lowest_priority - 2));
   KeyTuple "hdr.arp_ipv4.$valid" (VInt 0x1);
   KeyTuple "hdr.icmp.$valid" (VInt 0x0);
   KeyTernary "hdr.arp.opcode" (VInt 0x0001) (VInt 0xffff);
   KeyTernary "hdr.arp_ipv4.dst_proto_addr" (VStr switch_ip) (VInt 0xffffffff);
   KeyTernary "hdr.icmp.msg_type" (VInt 0x00) (VInt 0x00);
   KeyTernary "hdr.ipv4.dst_addr" (VStr switch_ip) (VInt 0x00000000)].
Definition icmp_key (switch_ip : string) : key :=
  [KeyTuple "$MATCH_PRIORITY" (VInt (lowest_priority - 1));
   KeyTuple "hdr.arp_ipv4.$valid" (VInt 0x0);
   KeyTuple "hdr.icmp.$valid" (VInt 0x1);
   KeyTernary "hdr.arp.opcode" (VInt 0x0000) (VInt 0x0000);
   KeyTernary "hdr.arp_ipv4.dst_proto_addr" (VStr switch_ip) (VInt 0x00000000);
   KeyTernary "hdr.icmp.msg_type" (VInt 0x08) (VInt 0xff);
   KeyTernary "hdr.ipv4.dst_addr" (VStr switch_ip) (VInt 0xffffffff)].
Definition reply_data (switch_mac switch_ip action : string) : datum :=
  MakeData [("switch_mac", VStr switch_mac); ("switch_ip", VStr switch_ip)] (Some action).

Definition add_switch_mac_and_ip (switch_mac switch_ip : string) : M world unit :=
  modify (set_arp {| arp_switch_mac := Some switch_mac; arp_switch_ip := Some switch_ip |}) ;;
  bf (EntryAdd table [arp_key switch_ip] (Some [reply_data switch_mac switch_ip send_arp_reply])) ;;
  bf (EntryAdd table [icmp_key switch_ip]
        (Some [reply_data switch_mac switch_ip send_icmp_echo_reply])).

Definition opt_str (o : option string) : pyval :=
  match o with Some s => VStr s | None => VNone end.
Definition print_switch_mac_and_ip : M world unit :=
  a ← gets w_arp;
  print "Switch MAC: {} IP: {}" [opt_str (arp_switch_mac a); opt_str (arp_switch_ip a)].
End arp.
End ARPandICMP.
