(* ===== verification/DropSimulator.v ===== *)
(** * Simulated packet loss (py/DropSimulator.py)

    The drop probabilities of every port, kept by the parser as 16-bit
    fractions. *)
From S2P Require Import Prelude PyMonad PyNum Bfrt Schema Live World.

Module DropSimulator.
Section drop_simulator.
Context `{BF : Bfrt}.

Definition table : string := "pipe.IngressParser.$PORT_METADATA".
Definition num_ports : Z := 288.

Definition port_keys : list key :=
  (λ p, [KeyTuple "ig_intr_md.ingress_port" (VInt p)]) <$> range 0 num_ports.
Definition drop_data (ingress egress : Z) : datum :=
  MakeData [("ingress_drop_probability", VInt ingress);
            ("egress_drop_probability", VInt egress)] None.

(** [int(0xffff * p)] *)
Definition drop_value (p : pynum) : M world Z := num_int (num_scale 0xffff p).

(** The fraction the integer stands for is only logged, and is left out. *)
Definition set_drop_probabilities (ingress egress : pynum) : M world unit :=
  modify (set_drop {| ingress_drop_probability := ingress; egress_drop_probability := egress |}) ;;
  ingress_drop_value ← drop_value ingress;
  egress_drop_value ← drop_value egress;
  log_info "Setting ingress drop probability to {} (actually 0x{:0x}, or {})." [VInt ingress_drop_value] ;;
  log_info "Setting egress drop probability to {} (actually 0x{:0x}, or {})." [VInt egress_drop_value] ;;
  if bool_decide (ingress_drop_value = 0 ∧ egress_drop_value = 0) then
    bf (EntryDel table None)
  else
    bf (EntryAdd table port_keys
          (Some (replicate (Z.to_nat num_ports) (drop_data ingress_drop_value egress_drop_value)))).

(** Clearing sets the current probabilities again. *)
Definition clear : M world unit :=
  d ← gets w_drop;
  set_drop_probabilities (ingress_drop_probability d) (egress_drop_probability d).

Definition init : M world unit :=
  log_info "Setting up drop simulator..." [] ;;
  bf (TableGet table) ;;
  modify (set_drop {| ingress_drop_probability := PInt 0; egress_drop_probability := PInt 0 |}) ;;
  clear.

Definition print_drop_probabilities : M world unit :=
  d ← gets w_drop;
  i ← drop_value (ingress_drop_probability d);
  e ← drop_value (egress_drop_probability d);
  log_info "Current ingress drop probability is {} (actually 0x{:0x}, or {})." [VInt i] ;;
  log_info "Current  egress drop probability is {} (actually 0x{:0x}, or {})." [VInt e].
End drop_simulator.

Section properties.
Context `{LF : BfrtLive}.

(** The value of a probability, when it has one. *)
Definition value_of (p : pynum) : option Z :=
  match num_int (num_scale 0xffff p) tt with (Ok z, _) => Some z | _ => None end.

Lemma run_drop_value p z w : value_of p = Some z → drop_value p w = (Ok z, w).
Proof.
  unfold value_of, drop_value. destruct (num_scale 0xffff p) as [|[]]; simpl;
    unfold mret, M_ret, raise; intros; by simplify_eq.
Qed.

Lemma ends_drop_value p z w0 V G w :
  value_of p = Some z → looks w0 V G w → ends (drop_value p) w (Ok z) (looks w0 V G).
Proof. intros Hp Hl. exists w. by rewrite (run_drop_value p z w Hp). Qed.

Lemma length_port_keys : length port_keys = 288%nat.
Proof. reflexivity. Qed.
Lemma NoDup_port_keys : NoDup port_keys.
Proof.
  unfold port_keys. apply NoDup_fmap_2; [intros x y [= ->]; done|apply NoDup_range].
Qed.

(** The call that is left once the values are known. *)
Definition write_table (i e : Z) : M world unit :=
  if bool_decide (i = 0 ∧ e = 0) then bf (EntryDel table None)
  else bf (EntryAdd table port_keys
             (Some (replicate (Z.to_nat num_ports) (drop_data i e)))).

Lemma run_drop_start p q i e w0 V G w :
  value_of p = Some i → value_of q = Some e → looks w0 V G w →
  ∃ w1, looks (set_drop {| ingress_drop_probability := p; egress_drop_probability := q |} w0) V G w1 ∧
    set_drop_probabilities p q w = write_table i e w1.
Proof.
  intros Hp Hq Hl. set (w0' := set_drop _ w0).
  assert (Hl1 : looks w0' V G (set_drop {| ingress_drop_probability := p; egress_drop_probability := q |} w)).
  { destruct (ends_assign (set_drop {| ingress_drop_probability := p; egress_drop_probability := q |})
      w0 V G w ltac:(attr_solver) ltac:(done) Hl) as (w1 & [= <-] & H1). exact H1. }
  eexists. split; [|unfold set_drop_probabilities; rewrite run_bind_modify;
    rewrite (run_bind_ok _ _ _ _ _ (run_drop_value p i _ Hp));
    rewrite (run_bind_ok _ _ _ _ _ (run_drop_value q e _ Hq));
    rewrite (run_bind_ok _ _ _ _ _ (run_log_info _ _ _));
    rewrite (run_bind_ok _ _ _ _ _ (run_log_info _ _ _)); reflexivity].
  exact Hl1.
Qed.

Lemma ends_drop_start p q i e r Q w0 V G w :
  value_of p = Some i → value_of q = Some e → looks w0 V G w →
  (∀ w1, looks (set_drop {| ingress_drop_probability := p; egress_drop_probability := q |} w0) V G w1 →
     ends (write_table i e) w1 r Q) →
  ends (set_drop_probabilities p q) w r Q.
Proof.
  intros Hp Hq Hl Hm. destruct (run_drop_start p q i e w0 V G w Hp Hq Hl) as (w1 & Hl1 & Hrun).
  unfold ends. rewrite Hrun. by apply Hm.
Qed.

Lemma ends_drop_off p q w0 V G w :
  value_of p = Some 0 → value_of q = Some 0 → looks w0 V G w →
  ends (set_drop_probabilities p q) w (Ok tt)
    (looks (set_drop {| ingress_drop_probability := p; egress_drop_probability := q |} w0)
       (clear_entries table V) G).
Proof.
  intros Hp Hq Hl. eapply ends_drop_start; [done..|]. intros w1 Hl1.
  unfold write_table. rewrite bool_decide_eq_true_2 by done. apply ends_clear; [in_tables|done..].
Qed.

(** The entries are as the program declares its port metadata. *)
Lemma entries_fit i e :
  Schema.call_ok (EntryAdd table port_keys (Some (replicate (Z.to_nat num_ports) (drop_data i e)))) = true.
Proof.
  unfold Schema.call_ok. apply orb_true_intro. right.
  change (Schema.find_object _) with (Some Schema.port_metadata).
  unfold Schema.fits, Schema.port_metadata, Schema.write_ok.
  rewrite bool_decide_eq_true_2 by by rewrite length_port_keys, length_replicate.
  unfold port_keys. rewrite forallb_fmap by done. by rewrite forallb_replicate.
Qed.

Lemma ends_drop_on p q i e w0 V G w :
  value_of p = Some i → value_of q = Some e → ¬ (i = 0 ∧ e = 0) →
  (∀ k, k ∈ port_keys → V !! (table, k) = None) →
  count_entries table V + num_ports ≤ bf_size table → looks w0 V G w →
  ends (set_drop_probabilities p q) w (Ok tt)
    (looks (set_drop {| ingress_drop_probability := p; egress_drop_probability := q |} w0)
       (add_entries table (zip port_keys (replicate (Z.to_nat num_ports) (drop_data i e))) V) G).
Proof.
  intros Hp Hq Hie Hk Hroom Hl. eapply ends_drop_start; [done..|]. intros w1 Hl1.
  unfold write_table. rewrite bool_decide_eq_false_2 by done.
  apply ends_add; [in_tables|apply NoDup_port_keys| |apply entries_fit|done| |done].
  - by rewrite length_port_keys, length_replicate.
  - rewrite length_port_keys. exact Hroom.
Qed.

(** With an entry already there, the switch refuses the new ones. *)
Lemma ends_drop_again p q i e k x w0 V G w :
  value_of p = Some i → value_of q = Some e → ¬ (i = 0 ∧ e = 0) →
  k ∈ port_keys → V !! (table, k) = Some x → looks w0 V G w →
  ∃ exn, ends (set_drop_probabilities p q) w (Raise exn) (λ w', ∃ V', V ⊆ V' ∧
    looks (set_drop {| ingress_drop_probability := p; egress_drop_probability := q |} w0) V' G w').
Proof.
  intros Hp Hq Hie Hk Hx Hl.
  destruct (run_drop_start p q i e w0 V G w Hp Hq Hl) as (w1 & Hl1 & Hrun).
  destruct (safe_add table port_keys (replicate (Z.to_nat num_ports) (drop_data i e))
    _ _ _ w1 ltac:(in_tables) Hl1) as [[_ Hn]|(exn & V' & HV & H)].
  - by rewrite Hn in Hx.
  - exists exn. unfold ends. rewrite Hrun. unfold write_table.
    rewrite bool_decide_eq_false_2 by done. eapply ends_mono; [exact H|]. eauto.
Qed.

(** Simulated loss is set once: on a switch without drop entries, setting
    probabilities whose 16-bit values are not both zero gives every port the
    two values; any later attempt to set non-zero values is refused by the
    switch and raises. [clear], which sets the current probabilities again,
    raises as well, and setting zero is the only way back: it empties the
    table. *)
Theorem drop_set_once p q i e p' q' i' e' w :
  value_of p = Some i → value_of q = Some e → ¬ (i = 0 ∧ e = 0) →
  value_of p' = Some i' → value_of q' = Some e' →
  (∀ k, k ∈ port_keys → wview w !! (table, k) = None) →
  count_entries table (wview w) + num_ports ≤ bf_size table →
  ∃ V, (∀ k, k ∈ port_keys → V !! (table, k) = Some (drop_data i e)) ∧
  ends (set_drop_probabilities p q) w (Ok tt) (λ w1,
    looks (set_drop {| ingress_drop_probability := p; egress_drop_probability := q |} w) V (wgroups w) w1 ∧
    is_ok (clear w1).1 = false ∧
    is_ok (set_drop_probabilities p' q' w1).1 = bool_decide (i' = 0 ∧ e' = 0)).
Proof.
  intros Hp Hq Hie Hp' Hq' Hk Hroom.
  eexists (add_entries table (zip port_keys (replicate (Z.to_nat num_ports) (drop_data i e))) (wview w)).
  assert (HV : ∀ k, k ∈ port_keys →
    add_entries table (zip port_keys (replicate (Z.to_nat num_ports) (drop_data i e))) (wview w)
      !! (table, k) = Some (drop_data i e)).
  { intros k Hin. apply lookup_add_entries.
    - rewrite fst_zip by (by rewrite length_port_keys, length_replicate). apply NoDup_port_keys.
    - by apply elem_of_zip_replicate. }
  split; [exact HV|].
  eapply ends_mono; [apply (ends_drop_on p q i e w (wview w) (wgroups w) w Hp Hq Hie Hk Hroom (looks_refl w))|].
  intros w1 Hl1. split; [done|].
  assert (Hk0 : [KeyTuple "ig_intr_md.ingress_port" (VInt 0)] ∈ port_keys).
  { apply list_elem_of_fmap. exists 0. split; [done|]. by apply elem_of_range. }
  assert (Hagain : ∀ p2 q2 i2 e2, value_of p2 = Some i2 → value_of q2 = Some e2 →
    ¬ (i2 = 0 ∧ e2 = 0) → is_ok (set_drop_probabilities p2 q2 w1).1 = false).
  { intros p2 q2 i2 e2 H2 H3 H4.
    by destruct (ends_drop_again p2 q2 i2 e2 _ _ _ _ _ w1 H2 H3 H4 Hk0 (HV _ Hk0) Hl1)
      as (exn & w2 & -> & _). }
  split.
  - unfold clear. destruct Hl1 as (Ha & _). apply (f_equal snd) in Ha as Hd. simpl in Hd.
    rewrite (run_bind_gets _ _ _ _ Hd). by eapply Hagain.
  - case_bool_decide as Hz.
    + destruct Hz as [-> ->].
      by destruct (ends_drop_off p' q' _ _ _ w1 Hp' Hq' Hl1) as (w2 & -> & _).
    + by eapply Hagain.
Qed.
End properties.
End DropSimulator.
