(* ===== verification/DebugLog.v ===== *)
(** * The packet log (py/DebugLog.py)

    The switch records a 51-bit word per packet; the controller reads the words
    and parses them. The word's layout is that of p4/DebugLog.p4. *)
From S2P Require Import Prelude PyMonad PyNum Bfrt Live World Counters.

Inductive PacketType :=
| MIRROR | BROADCAST | RETRANSMIT | IGNORE
| CONSUME0 | CONSUME1 | CONSUME2 | CONSUME3
| HARVEST0 | HARVEST1 | HARVEST2 | HARVEST3 | HARVEST4 | HARVEST5 | HARVEST6 | HARVEST7.
#[export] Instance PacketType_eq_dec : EqDecision PacketType.
Proof. solve_decision. Defined.

Definition packet_types : list PacketType :=
  [MIRROR; BROADCAST; RETRANSMIT; IGNORE; CONSUME0; CONSUME1; CONSUME2; CONSUME3;
   HARVEST0; HARVEST1; HARVEST2; HARVEST3; HARVEST4; HARVEST5; HARVEST6; HARVEST7].

Definition packet_type_value (t : PacketType) : Z :=
  match t with
  | MIRROR => 0x0 | BROADCAST => 0x1 | RETRANSMIT => 0x2 | IGNORE => 0x3
  | CONSUME0 => 0x4 | CONSUME1 => 0x5 | CONSUME2 => 0x6 | CONSUME3 => 0x7
  | HARVEST0 => 0x8 | HARVEST1 => 0x9 | HARVEST2 => 0xa | HARVEST3 => 0xb
  | HARVEST4 => 0xc | HARVEST5 => 0xd | HARVEST6 => 0xe | HARVEST7 => 0xf
  end.

(** [PacketType(z)]: the member with that value, or a [ValueError]. *)
Definition packet_type_of (z : Z) : option PacketType :=
  snd <$> list_find (λ t, packet_type_value t = z) packet_types.
Definition to_packet_type {S} (z : Z) : M S PacketType :=
  match packet_type_of z with Some t => mret t | None => raise ValueError end.

Lemma packet_type_of_value t : packet_type_of (packet_type_value t) = Some t.
Proof. by destruct t. Qed.

Lemma packet_type_total z : 0 ≤ z < 16 → ∃ t, packet_type_of z = Some t ∧ packet_type_value t = z.
Proof.
  intros Hz.
  assert (Hall : Forall (λ z, bool_decide (packet_type_value <$> packet_type_of z = Some z) = true)
    (range 0 16)) by (apply (bool_decide_unpack _); vm_compute; exact I).
  rewrite Forall_forall in Hall. specialize (Hall z ltac:(by apply elem_of_range)).
  apply bool_decide_eq_true in Hall. destruct (packet_type_of z) as [t|]; [|done].
  exists t. split; [done|]. by injection Hall.
Qed.

Record log_entry := LogEntry {
  le_index : Z;
  le_capture_pipe : Z;
  le_address_bits : Z;
  le_packet_id : Z;
  le_ingress_pipe : Z;
  le_worker_id : Z;
  le_first_packet_of_message : bool;
  le_last_packet_of_message : bool;
  le_nonzero_bitmap_before : bool;
  le_nonzero_map_result : bool;
  le_first_worker_for_slot : bool;
  le_last_worker_for_slot : bool;
  le_packet_type : PacketType;
  le_pool_index : Z;
  le_set : Z
}.

(** [1 == (1 & (entry >> n))] *)
Definition flag (entry n : Z) : bool := bool_decide (1 = 1 .& (entry .>> n)).

Definition parse_log_entry {S} (index capture_pipe entry : Z) : M S log_entry :=
  packet_type ← to_packet_type (0xf .& (entry .>> 15));
  mret {|
    le_index := index;
    le_capture_pipe := capture_pipe;
    le_address_bits := 0xff .& (entry .>> 43);
    le_packet_id := 0x7ff .& (entry .>> 32);
    le_ingress_pipe := 0x3 .& (entry .>> 30);
    le_worker_id := 0x1f .& (entry .>> 25);
    le_first_packet_of_message := flag entry 24;
    le_last_packet_of_message := flag entry 23;
    le_nonzero_bitmap_before := flag entry 22;
    le_nonzero_map_result := flag entry 21;
    le_first_worker_for_slot := flag entry 20;
    le_last_worker_for_slot := flag entry 19;
    le_packet_type := packet_type;
    le_pool_index := 0x3fff .& (entry .>> 1);
    le_set := 1 .& entry
  |}.

(** The word of the switch, [addr << 32 | data], field by field. *)
Definition bit (b : bool) : Z := if b then 1 else 0.
Definition log_fields (e : log_entry) : list (Z * Z) :=
  [(le_address_bits e, 8); (le_packet_id e, 11); (le_ingress_pipe e, 2); (le_worker_id e, 5);
   (bit (le_first_packet_of_message e), 1); (bit (le_last_packet_of_message e), 1);
   (bit (le_nonzero_bitmap_before e), 1); (bit (le_nonzero_map_result e), 1);
   (bit (le_first_worker_for_slot e), 1); (bit (le_last_worker_for_slot e), 1);
   (packet_type_value (le_packet_type e), 4); (le_pool_index e, 14); (le_set e, 1)].

(** Every field fits its width. *)
Definition log_entry_ok (e : log_entry) : Prop := fields_ok (log_fields e).
#[export] Instance log_entry_ok_dec e : Decision (log_entry_ok e).
Proof. unfold log_entry_ok, fields_ok. apply _. Defined.

Lemma bit_is_one b : bool_decide (1 = bit b) = b.
Proof. by destruct b. Qed.

(** The [i]th field, [n] bits from the right. *)
Lemma log_field e (i : nat) v w n m :
  log_entry_ok e → log_fields e !! i = Some (v, w) →
  fields_bits (drop (S i) (log_fields e)) = n → 2 ^ w - 1 = m →
  m .& (pack (log_fields e) .>> n) = v.
Proof.
  unfold log_entry_ok. generalize (log_fields e). intros fs Hok Hi <- <-.
  assert (Hfs : fs = take i fs ++ (v, w) :: drop (S i) fs) by (symmetry; by apply take_drop_middle).
  assert (Hgen : ∀ pre post, fs = pre ++ (v, w) :: post →
    (2 ^ w - 1) .& (pack fs .>> fields_bits post) = v).
  { intros pre post ->. by apply pack_field. }
  by apply (Hgen (take i fs)).
Qed.

(** Parsing recovers what the switch logged: for fields that fit, the word
    packed in the layout of the switch parses back to the same entry, whatever
    the register index and the pipe it was read from. *)
Theorem log_round_trip {S} (e : log_entry) (s : S) :
  log_entry_ok e →
  parse_log_entry (le_index e) (le_capture_pipe e) (pack (log_fields e)) s = (Ok e, s).
Proof.
  intros Hok. unfold parse_log_entry, to_packet_type, flag.
  rewrite (log_field e 10 (packet_type_value (le_packet_type e)) 4 15 0xf) by done.
  rewrite packet_type_of_value, run_bind_ret.
  rewrite (log_field e 0 (le_address_bits e) 8 43 0xff) by done.
  rewrite (log_field e 1 (le_packet_id e) 11 32 0x7ff) by done.
  rewrite (log_field e 2 (le_ingress_pipe e) 2 30 0x3) by done.
  rewrite (log_field e 3 (le_worker_id e) 5 25 0x1f) by done.
  rewrite (log_field e 4 (bit (le_first_packet_of_message e)) 1 24 1) by done.
  rewrite (log_field e 5 (bit (le_last_packet_of_message e)) 1 23 1) by done.
  rewrite (log_field e 6 (bit (le_nonzero_bitmap_before e)) 1 22 1) by done.
  rewrite (log_field e 7 (bit (le_nonzero_map_result e)) 1 21 1) by done.
  rewrite (log_field e 8 (bit (le_first_worker_for_slot e)) 1 20 1) by done.
  rewrite (log_field e 9 (bit (le_last_worker_for_slot e)) 1 19 1) by done.
  rewrite (log_field e 11 (le_pool_index e) 14 1 0x3fff) by done.
  rewrite <- (Z.shiftr_0_r (pack (log_fields e))) at 1.
  rewrite (log_field e 12 (le_set e) 1 0 1) by done.
  rewrite !bit_is_one. by destruct e.
Qed.

Definition sample_entry : log_entry :=
  LogEntry 7 2 0x81 0x123 1 5 true false true false false true HARVEST3 0x2aaa 1.

Lemma log_round_trip_witness :
  parse_log_entry 7 2 (pack (log_fields sample_entry)) tt = (Ok sample_entry, tt).
Proof.
  apply (log_round_trip sample_entry tt). apply (bool_decide_unpack _). vm_compute. exact I.
Defined.

(** The widths of the fields. *)
Definition log_widths : list Z := [8; 11; 2; 5; 1; 1; 1; 1; 1; 1; 4; 14; 1].

Lemma bit_flag x n : 0 ≤ n → bit (flag x n) = 1 .& (x .>> n).
Proof.
  intros Hn. unfold flag. replace (1 .& (x .>> n)) with ((2 ^ 1 - 1) .& (x .>> n)) by done.
  rewrite field_div_mod by lia. pose proof (Z.mod_pos_bound (x / 2 ^ n) (2 ^ 1) ltac:(done)).
  change (2 ^ 1) with 2 in *. unfold bit. case_bool_decide; lia.
Qed.

(** Every word parses: the packet type of any word is one of the sixteen,
    and the parsed entry packs back to the word's 51 low bits, so no two of the
    switch's words are confused. *)
Theorem log_word_round_trip index pipe x :
  ∃ e, (∀ {S} (s : S), parse_log_entry index pipe x s = (Ok e, s)) ∧
    log_entry_ok e ∧ pack (log_fields e) = x mod 2 ^ 51.
Proof.
  destruct (packet_type_total (0xf .& (x .>> 15))) as (t & Ht & Hv).
  { change 0xf with (2 ^ 4 - 1). rewrite field_div_mod by done. by apply Z.mod_pos_bound. }
  eexists. split.
  { intros S s. unfold parse_log_entry, to_packet_type. rewrite Ht, run_bind_ret. reflexivity. }
  match goal with |- log_entry_ok ?e ∧ _ => set (e0 := e) end.
  assert (Hf : log_fields e0 = unpack log_widths x).
  { unfold log_fields, e0, log_widths.
    cbn -[Z.land Z.shiftr Z.pow Z.sub bit flag packet_type_value].
    rewrite Hv, !bit_flag by done. rewrite Z.shiftr_0_r. reflexivity. }
  assert (Hw : Forall (λ w, 0 ≤ w) log_widths).
  { apply (bool_decide_unpack _). vm_compute. exact I. }
  unfold log_entry_ok. rewrite Hf. split; [apply (unpack_ok _ x Hw)|apply (pack_unpack _ x Hw)].
Qed.

(** ** The class *)

Module DebugLog.
Section debug_log.
Context `{BF : Bfrt} `{DO : DictOrder}.

Definition packet_id : string := "pipe.Ingress.debug_packet_id.counter".
Definition log : string := "pipe.Ingress.debug_log.log".
Definition egress_log : string := "pipe.Egress.debug_log.log".

Definition clear : M world unit := mret tt.
Definition clear_registers : M world unit := mret tt.
Definition add_default_entries : M world unit := mret tt.

Definition init : M world unit :=
  log_info "Setting up debug log..." [] ;;
  bf (TableGet packet_id) ;;
  bf (TableGet log) ;;
  bf (TableGet egress_log) ;;
  clear ;;
  add_default_entries.

(** Each register is synchronised and emptied twice. *)
Definition clear_register_twice (t : string) : M world unit :=
  bf (OperationsExecute t "Sync") ;;
  bf (EntryDel t None) ;;
  bf (OperationsExecute t "Sync") ;;
  bf (EntryDel t None) ;;
  bf (OperationsExecute t "Sync").

Definition clear_log : M world unit :=
  clear_register_twice packet_id ;;
  clear_register_twice log ;;
  clear_register_twice egress_log.

(** [addr0, addr1, addr2, addr3 = tuple(v[f])] *)
Definition four (d : gmap string pyval) (f : string) : M world (Z * Z * Z * Z) :=
  v ← field d f;
  match v with
  | VInts [a; b; c; d] => mret (a, b, c, d)
  | VInts _ => raise ValueError
  | _ => raise TypeError
  end.

Abbreviation words := (Z * Z * Z * Z)%type.

(** A row's four words, one per pipe. *)
Definition log_row (gress : string) (r : row) : M world (Z * words) :=
  index ← field_int (row_kdict r) "$REGISTER_INDEX";
  '(a0, a1, a2, a3) ← four (row_vdict r) (gress +:+ ".debug_log.log.addr")%string;
  '(p0, p1, p2, p3) ← four (row_vdict r) (gress +:+ ".debug_log.log.data")%string;
  mret (index, ((a0 .<< 32) .| p0, (a1 .<< 32) .| p1, (a2 .<< 32) .| p2, (a3 .<< 32) .| p3)).

Definition empty_words (v : words) : bool := bool_decide (v = (0, 0, 0, 0)).

(** The dict of the rows that are not empty; a later row of an index wins. *)
Fixpoint log_values (gress : string) (acc : gmap Z words) (rows : list row) : M world (gmap Z words) :=
  match rows with
  | [] => mret acc
  | r :: rows' =>
      '(index, v) ← log_row gress r;
      log_values gress (if empty_words v then acc else <[index := v]> acc) rows'
  end.

Definition get_log : M world (gmap Z words * gmap Z words) :=
  print "Getting packet log entries...." [] ;;
  resp ← entry_get log None true;
  values ← log_values "Ingress" ∅ resp;
  egress_resp ← entry_get egress_log None true;
  egress_values ← log_values "Egress" ∅ egress_resp;
  mret (values, egress_values).

(** [writable] tells whether the file can be opened and written. The result is
    what is written: the two dictionaries, as the log converter reads them. *)
Definition save_log (filename : string) (writable : bool) : M world (gmap Z words * gmap Z words) :=
  print "Saving packet log to {}" [VStr filename] ;;
  values ← get_log;
  print "" [VInt (Z.of_nat (size values.1) + Z.of_nat (size values.2))] ;;
  if writable then mret values else raise (Exn "IOError").

(** [format_log_entry] of one word: its fields, in the order of the columns. *)
Definition print_log_entry (index pipe entry : Z) : M world unit :=
  e ← parse_log_entry index pipe entry;
  print "{index:5}|{ingress_pipe:12}|{capture_pipe:12}|..."
    [VInt (le_index e); VInt (le_ingress_pipe e); VInt (le_capture_pipe e);
     VInt (le_address_bits e); VInt (le_packet_id e); VInt (le_worker_id e);
     VInt (le_pool_index e); VInt (le_set e); VInt (packet_type_value (le_packet_type e));
     VBool (le_nonzero_bitmap_before e); VBool (le_nonzero_map_result e);
     VBool (le_first_worker_for_slot e); VBool (le_last_worker_for_slot e);
     VBool (le_first_packet_of_message e); VBool (le_last_packet_of_message e)].

(** The four words of an index; a zero word is skipped. *)
Definition print_words (x : Z * words) : M world unit :=
  let '(i, (p0, p1, p2, p3)) := x in
  (if bool_decide (p0 ≠ 0) then print_log_entry i 0 p0 else mret tt) ;;
  (if bool_decide (p1 ≠ 0) then print_log_entry i 1 p1 else mret tt) ;;
  (if bool_decide (p2 ≠ 0) then print_log_entry i 2 p2 else mret tt) ;;
  (if bool_decide (p3 ≠ 0) then print_log_entry i 3 p3 else mret tt).

Definition print_log : M world unit :=
  '(ingress, egress) ← get_log;
  print "Index|Ingress Pipe|Capture Pipe|Address Bits|..." [] ;;
  print "Ingress:" [] ;;
  for_each (dict_items ingress) print_words ;;
  print "Egress:" [] ;;
  for_each (dict_items egress) print_words.
End debug_log.

Section quiet.
Context `{SF : BfrtSafe} `{DO : DictOrder}.

Lemma log_tables_unseen t :
  t ∈ [packet_id; log; egress_log] → t ∉ match_tables ∧ t ≠ "$pre.mgid".
Proof. revert t. apply Forall_forall. apply (bool_decide_unpack _). vm_compute. exact I. Qed.

Lemma debug_call_quiet c : call_table c ∈ [packet_id; log; egress_log] → stable quiet (bf c).
Proof. intros [H1 H2]%log_tables_unseen. by apply stable_quiet_unseen. Qed.

Lemma clear_log_quiet : stable quiet clear_log.
Proof.
  unfold clear_log, clear_register_twice. stable_walk.
  all: apply debug_call_quiet; apply (bool_decide_unpack _); vm_compute; exact I.
Qed.
End quiet.
End DebugLog.
