(* ===== verification/ConvertLog.v ===== *)
(** * Converting a packet log (tools/convert_log.py)

    The offline tool parses the words saved by the controller, splits them by
    pipe, rotates each pipe's list so that it starts with the oldest packet, and
    writes the rows of a spreadsheet. The model ends with the calls it makes of
    the spreadsheet library, in order; writing the file is the library's. *)
From S2P Require Import Prelude PyMonad DebugLog.

Module ConvertLog.

Inductive MessageSeq := MSG_MIDDLE | MSG_LAST | MSG_FIRST | MSG_ONLY.
Inductive WorkerSeq := W_MIDDLE | W_LAST | W_FIRST | W_ONLY | W_EGRESS.
Inductive MapResult := MAP_NOVEL | MAP_RETRANSMIT | MAP_EGRESS.
Inductive BitmapBefore := BITMAP_EMPTY | BITMAP_NONEMPTY | BITMAP_EGRESS.

#[export] Instance MessageSeq_eq_dec : EqDecision MessageSeq.
Proof. solve_decision. Defined.
#[export] Instance WorkerSeq_eq_dec : EqDecision WorkerSeq.
Proof. solve_decision. Defined.
#[export] Instance MapResult_eq_dec : EqDecision MapResult.
Proof. solve_decision. Defined.
#[export] Instance BitmapBefore_eq_dec : EqDecision BitmapBefore.
Proof. solve_decision. Defined.

(** [MessageSeq(n)] and [WorkerSeq(n)] on the sums of two flags, [MapResult(b)]
    and [BitmapBefore(b)] on a flag. *)
Definition message_seq (first last : bool) : MessageSeq :=
  match first, last with
  | false, false => MSG_MIDDLE | false, true => MSG_LAST
  | true, false => MSG_FIRST | true, true => MSG_ONLY
  end.
Definition worker_seq (first last : bool) : WorkerSeq :=
  match first, last with
  | false, false => W_MIDDLE | false, true => W_LAST
  | true, false => W_FIRST | true, true => W_ONLY
  end.
Definition map_result_of (b : bool) : MapResult := if b then MAP_RETRANSMIT else MAP_NOVEL.
Definition bitmap_before_of (b : bool) : BitmapBefore := if b then BITMAP_NONEMPTY else BITMAP_EMPTY.

(** The tool calls the first packet type NONE where the controller calls it
    MIRROR; the sixteen values are the same. *)
Record packet := Packet {
  capture_index : Z;
  capture_pipe : Z;
  address_bits : Z;
  packet_id : Z;
  ingress_pipe : Z;
  worker_id : Z;
  message_sequence : MessageSeq;
  bitmap_before : BitmapBefore;
  map_result : MapResult;
  worker_sequence : WorkerSeq;
  packet_type : PacketType;
  pool_index : Z;
  pool_set : Z
}.

(** [Packet.parse] *)
Definition parse {S} (index pipe entry : Z) : M S packet :=
  t ← to_packet_type (0xf .& (entry .>> 15));
  let first_packet_of_message := flag entry 24 in
  let last_packet_of_message := flag entry 23 in
  let nonzero_bitmap_before := flag entry 22 in
  let nonzero_map_result := flag entry 21 in
  let first_worker_for_slot := flag entry 20 in
  let last_worker_for_slot := flag entry 19 in
  let '(wseq, mres, before) :=
    match t with
    | BROADCAST => (W_EGRESS, MAP_NOVEL, BITMAP_EGRESS)
    | RETRANSMIT => (W_EGRESS, MAP_RETRANSMIT, BITMAP_EGRESS)
    | _ => (worker_seq first_worker_for_slot last_worker_for_slot,
            map_result_of nonzero_map_result, bitmap_before_of nonzero_bitmap_before)
    end in
  mret {|
    capture_index := index;
    capture_pipe := pipe;
    address_bits := entry .>> (32 + 11);
    packet_id := 0x7ff .& (entry .>> 32);
    ingress_pipe := 0x3 .& (entry .>> 30);
    worker_id := 0x1f .& (entry .>> 25);
    message_sequence := message_seq first_packet_of_message last_packet_of_message;
    bitmap_before := before;
    map_result := mres;
    worker_sequence := wseq;
    packet_type := t;
    pool_index := 0x3fff .& (entry .>> 1);
    pool_set := 1 .& entry
  |}.

(** The loop of [rotate_packet_list]: the positions where the capture index does
    not follow the one before. *)
Fixpoint possible_indices (i last_index : Z) (pkts : list packet) : list Z :=
  match pkts with
  | [] => []
  | p :: pkts' =>
      let rest := possible_indices (i + 1) (capture_index p) pkts' in
      if bool_decide (capture_index p ≠ last_index + 1) then i :: rest else rest
  end.

(** [rotate_packet_list]; its warnings are printed and change nothing. *)
Definition rotate_packet_list (pkts : list packet) : list packet :=
  match last (possible_indices 0 0 pkts) with
  | None => pkts
  | Some first_index =>
      if bool_decide (first_index = 0) then pkts
      else drop (Z.to_nat first_index) pkts ++ take (Z.to_nat first_index) pkts
  end.

(** The lists of one side of the log, one per pipe; [log[side].items()] comes
    in the order of the file. *)
Abbreviation words := (Z * Z * Z * Z)%type.
Definition pipe_word (k : Z) (v : words) : Z :=
  let '(p0, p1, p2, p3) := v in
  if bool_decide (k = 0) then p0 else if bool_decide (k = 1) then p1
  else if bool_decide (k = 2) then p2 else p3.

Fixpoint parse_side {S} (log : list (Z * words)) : M S (list packet * list packet * list packet * list packet) :=
  match log with
  | [] => mret ([], [], [], [])
  | (i, v) :: log' =>
      let one (k : Z) : M S (list packet) :=
        if bool_decide (pipe_word k v ≠ 0) then p ← parse i k (pipe_word k v); mret [p] else mret [] in
      a ← one 0; b ← one 1; c ← one 2; d ← one 3;
      '(la, lb, lc, ld) ← parse_side log';
      mret (a ++ la, b ++ lb, c ++ lc, d ++ ld)
  end.

Definition rotate_side (l : list packet * list packet * list packet * list packet) : list packet :=
  let '(a, b, c, d) := l in
  rotate_packet_list a ++ rotate_packet_list b ++ rotate_packet_list c ++ rotate_packet_list d.

(** [convert_file] up to the list it writes. *)
Definition convert {S} (ingress egress : list (Z * words)) : M S (list packet) :=
  i ← parse_side ingress;
  e ← parse_side egress;
  mret (rotate_side i ++ rotate_side e).

(** ** The tool and the controller read the same words *)

(** The tool's reading of an entry of the controller. *)
Definition of_log_entry (e : log_entry) : packet :=
  let egress := bool_decide (le_packet_type e = BROADCAST ∨ le_packet_type e = RETRANSMIT) in
  {| capture_index := le_index e; capture_pipe := le_capture_pipe e;
     address_bits := le_address_bits e; packet_id := le_packet_id e;
     ingress_pipe := le_ingress_pipe e; worker_id := le_worker_id e;
     message_sequence := message_seq (le_first_packet_of_message e) (le_last_packet_of_message e);
     bitmap_before := if egress then BITMAP_EGRESS else bitmap_before_of (le_nonzero_bitmap_before e);
     map_result := if bool_decide (le_packet_type e = BROADCAST) then MAP_NOVEL
                   else if bool_decide (le_packet_type e = RETRANSMIT) then MAP_RETRANSMIT
                   else map_result_of (le_nonzero_map_result e);
     worker_sequence := if egress then W_EGRESS
                        else worker_seq (le_first_worker_for_slot e) (le_last_worker_for_slot e);
     packet_type := le_packet_type e; pool_index := le_pool_index e; pool_set := le_set e |}.

(** On every 51-bit word the tool and the controller agree: the packet the
    tool parses is its reading of the entry the controller parses. *)
Theorem convert_agrees {S} index pipe entry (s : S) :
  0 ≤ entry < 2 ^ 51 →
  parse index pipe entry s = (e ← parse_log_entry index pipe entry; mret (of_log_entry e)) s.
Proof.
  intros Hx. unfold parse, parse_log_entry, to_packet_type.
  destruct (packet_type_of _) as [t|] eqn:Ht; [|done].
  rewrite run_bind_assoc, !run_bind_ret.
  assert (Ha : 0xff .& (entry .>> 43) = entry .>> (32 + 11)).
  { change 0xff with (2 ^ 8 - 1). rewrite field_div_mod, Z.shiftr_div_pow2 by done.
    apply Z.mod_small. split; [apply Z.div_pos; lia|]. apply Z.div_lt_upper_bound; lia. }
  unfold mret, M_ret, of_log_entry. simpl le_packet_type. rewrite <- Ha.
  by destruct t.
Qed.

Lemma convert_agrees_witness :
  ∃ p, parse 3 1 (pack (log_fields sample_entry)) tt = (Ok p, tt) ∧ packet_type p = HARVEST3.
Proof.
  eexists. split.
  - rewrite (convert_agrees 3 1 (pack (log_fields sample_entry)) tt); [reflexivity|].
    apply (bool_decide_unpack _). vm_compute. exact I.
  - reflexivity.
Defined.

(** ** Rotation *)

(** [run n pkts]: the capture indices count up from [n]. *)
Fixpoint run (n : Z) (pkts : list packet) : Prop :=
  match pkts with
  | [] => True
  | p :: pkts' => capture_index p = n ∧ run (n + 1) pkts'
  end.

Lemma possible_indices_bound i n pkts k :
  k ∈ possible_indices i n pkts → i ≤ k < i + Z.of_nat (length pkts).
Proof.
  revert i n. induction pkts as [|p pkts IH]; intros i n; simpl; [by intros ?%not_elem_of_nil|].
  case_bool_decide.
  - intros [->|Hk]%elem_of_cons; [lia|]. apply IH in Hk. lia.
  - intros Hk. apply IH in Hk. lia.
Qed.

Lemma possible_indices_run i n pkts : run (n + 1) pkts → possible_indices i n pkts = [].
Proof.
  revert i n. induction pkts as [|p pkts IH]; intros i n; simpl; [done|].
  intros [Hp Hr]. rewrite bool_decide_eq_false_2 by lia. apply IH. by rewrite Hp.
Qed.

Lemma possible_indices_app i n xs ys m :
  run (n + 1) xs → (m = n + Z.of_nat (length xs)) →
  possible_indices i n (xs ++ ys) = possible_indices (i + Z.of_nat (length xs)) m ys.
Proof.
  revert i n m. induction xs as [|x xs IH]; intros i n m; simpl.
  - intros _ ->. f_equal; lia.
  - intros [Hx Hr] ->. rewrite bool_decide_eq_false_2 by lia.
    rewrite (IH (i + 1) (capture_index x) (n + Z.of_nat (S (length xs)))); [|by rewrite Hx|lia].
    f_equal. lia.
Qed.

(** Rotating never loses, adds or reorders a packet beyond a rotation, and
    it restores the order of capture: when the log wrapped around, so that the
    list is a run of consecutive indices [xs] followed by an older run [ys]
    that does not continue it, the result is [ys] followed by [xs]; a single
    run is left as it is. *)
Theorem rotate_restores_order (xs ys : list packet) n m :
  (∀ pkts, ∃ k, rotate_packet_list pkts = drop k pkts ++ take k pkts) ∧
  (run n xs → run m ys → xs ≠ [] → ys ≠ [] → m ≠ n + Z.of_nat (length xs) →
   rotate_packet_list (xs ++ ys) = ys ++ xs) ∧
  (run n xs → rotate_packet_list xs = xs).
Proof.
  split_and!.
  - intros pkts. unfold rotate_packet_list.
    assert (H0 : pkts = drop 0 pkts ++ take 0 pkts) by (simpl; by rewrite app_nil_r).
    destruct (last _) as [k|]; [|by exists 0%nat]. case_bool_decide; [by exists 0%nat|].
    by eexists.
  - intros Hx Hy Hnx Hny Hm. unfold rotate_packet_list.
    assert (Hl : last (possible_indices 0 0 (xs ++ ys)) = Some (Z.of_nat (length xs))).
    { destruct xs as [|x xs]; [done|]. destruct Hx as [Hx Hr]. cbn [app possible_indices].
      rewrite (possible_indices_app _ (capture_index x) xs ys (n + Z.of_nat (length xs)));
        [|by rewrite Hx|lia].
      assert (Hys : possible_indices (0 + 1 + Z.of_nat (length xs)) (n + Z.of_nat (length xs)) ys
                    = [Z.of_nat (length (x :: xs))]).
      { destruct ys as [|y ys]; [done|]. destruct Hy as [Hy Hr']. cbn [possible_indices].
        rewrite bool_decide_eq_true_2 by (simpl in Hm; lia).
        rewrite possible_indices_run by by rewrite Hy. f_equal. simpl. lia. }
      rewrite Hys. by case_bool_decide. }
    rewrite Hl, bool_decide_eq_false_2 by (destruct xs; [done|simpl; lia]).
    rewrite Nat2Z.id, drop_app_length, take_app_length. done.
  - intros Hx. unfold rotate_packet_list. destruct xs as [|x xs]; [done|].
    destruct Hx as [Hx Hr]. cbn [possible_indices].
    rewrite possible_indices_run by by rewrite Hx. by case_bool_decide.
Qed.

Definition numbered (n : Z) : packet :=
  {| capture_index := n; capture_pipe := 0; address_bits := 0; packet_id := n; ingress_pipe := 0;
     worker_id := 0; message_sequence := MSG_MIDDLE; bitmap_before := BITMAP_EGRESS;
     map_result := MAP_EGRESS; worker_sequence := W_EGRESS; packet_type := MIRROR; pool_index := 0;
     pool_set := 0 |}.

Lemma rotate_restores_order_witness :
  rotate_packet_list (numbered <$> [7; 8; 9; 3; 4]) = numbered <$> [3; 4; 7; 8; 9].
Proof.
  destruct (rotate_restores_order (numbered <$> [7; 8; 9]) (numbered <$> [3; 4]) 7 3) as (_ & H & _).
  apply H; by repeat split || discriminate.
Defined.

(** ** The spreadsheet (convert_file) *)

(** [val.name] of the members of the enumerations. *)
Definition message_name (v : MessageSeq) : string :=
  match v with MSG_MIDDLE => "MIDDLE" | MSG_LAST => "LAST" | MSG_FIRST => "FIRST" | MSG_ONLY => "ONLY" end.
Definition worker_name (v : WorkerSeq) : string :=
  match v with
  | W_MIDDLE => "MIDDLE" | W_LAST => "LAST" | W_FIRST => "FIRST" | W_ONLY => "ONLY" | W_EGRESS => "EGRESS"
  end.
Definition map_result_name (v : MapResult) : string :=
  match v with MAP_NOVEL => "NOVEL" | MAP_RETRANSMIT => "RETRANSMIT" | MAP_EGRESS => "EGRESS" end.
Definition bitmap_name (v : BitmapBefore) : string :=
  match v with BITMAP_EMPTY => "EMPTY" | BITMAP_NONEMPTY => "NONEMPTY" | BITMAP_EGRESS => "EGRESS" end.
Definition type_name (t : PacketType) : string :=
  match t with
  | MIRROR => "NONE" | BROADCAST => "BROADCAST" | RETRANSMIT => "RETRANSMIT" | IGNORE => "IGNORE"
  | CONSUME0 => "CONSUME0" | CONSUME1 => "CONSUME1" | CONSUME2 => "CONSUME2" | CONSUME3 => "CONSUME3"
  | HARVEST0 => "HARVEST0" | HARVEST1 => "HARVEST1" | HARVEST2 => "HARVEST2" | HARVEST3 => "HARVEST3"
  | HARVEST4 => "HARVEST4" | HARVEST5 => "HARVEST5" | HARVEST6 => "HARVEST6" | HARVEST7 => "HARVEST7"
  end.

(** The calls of the library, by row and column; a format is its background
    and font colour. *)
Inductive cell := Text (s : string) | Number (n : Z).
Inductive sheet_call :=
| WriteString (row col : Z) (s : string)
| WriteNumber (row col n : Z)
| SetColumn (first last width : Z)
| AutoFilter (first_row first_col last_row last_col : Z)
| FreezePanes (row col : Z)
| ConditionalFormat (first_row first_col last_row last_col : Z) (criteria bg_color font_color : string).

(** The titles and the values of the columns: a member of an enumeration is
    written as its name, an integer as a number. *)
Definition fields : list (string * (packet → cell)) :=
  [("Capture Pipe", λ p, Number (capture_pipe p));
   ("Packet ID", λ p, Number (packet_id p));
   ("Worker ID", λ p, Number (worker_id p));
   ("Packet Type", λ p, Text (type_name (packet_type p)));
   ("Address Bits", λ p, Number (address_bits p));
   ("Pool Index", λ p, Number (pool_index p));
   ("Pool Set", λ p, Number (pool_set p));
   ("Worker Sequence", λ p, Text (worker_name (worker_sequence p)));
   ("Bitmap Before", λ p, Text (bitmap_name (bitmap_before p)));
   ("Map Result", λ p, Text (map_result_name (map_result p)));
   ("Message Sequence", λ p, Text (message_name (message_sequence p)));
   ("Ingress Pipe", λ p, Number (ingress_pipe p));
   ("Capture Index", λ p, Number (capture_index p))].

Definition write (row col : Z) (v : cell) : sheet_call :=
  match v with Text s => WriteString row col s | Number n => WriteNumber row col n end.
Definition header_calls : list sheet_call :=
  enumerate fields ≫= λ f, [WriteString 0 f.1 f.2.1; SetColumn f.1 f.1 12].
Definition row_calls (row : Z) (p : packet) : list sheet_call :=
  (λ f, write row f.1 (f.2.2 p)) <$> enumerate fields.
Definition rows_calls (parsed : list packet) : list sheet_call :=
  enumerate parsed ≫= λ ip, row_calls (ip.1 + 1) ip.2.
(** Text between double quotes. *)
Definition quoted (s : string) : string :=
  let quote := String (Ascii.ascii_of_nat 34) EmptyString in quote +:+ s +:+ quote.
Definition format_calls (row : Z) : list sheet_call :=
  let n := Z.of_nat (length fields) in
  [AutoFilter 0 0 row (n - 1); FreezePanes 1 0;
   ConditionalFormat 1 9 row (n - 4) ("$J2=" +:+ quoted "RETRANSMIT") "#F2F2F2" "#EA8532";
   ConditionalFormat 1 1 row (n - 2) "AND($B2=$B1,$A2=$A1)" "#C6EFCE" "#006100";
   ConditionalFormat 1 1 row (n - 2) "AND(OR($B2<$B1, $B2>$B1+1), $A2=$A1)" "#FFC7CE" "#9C0006";
   ConditionalFormat 1 0 row (n - 1) "$G2=1" "#FFEB9C" "#9C6500";
   ConditionalFormat 1 0 row (n - 1) "$G2=0" "#94ABD7" "#0000FF"].
Definition sheet (parsed : list packet) : list sheet_call :=
  header_calls ++ rows_calls parsed ++ format_calls (Z.of_nat (length parsed)).

(** What a cell holds after the calls, the last one winning. *)
Definition step_cell (row col : Z) (before : option cell) (c : sheet_call) : option cell :=
  match c with
  | WriteString r k s => if decide ((r, k) = (row, col)) then Some (Text s) else before
  | WriteNumber r k n => if decide ((r, k) = (row, col)) then Some (Number n) else before
  | _ => before
  end.
Definition cell_at (calls : list sheet_call) (row col : Z) : option cell :=
  foldl (step_cell row col) None calls.

(** A value among those of an enumeration, by its name. *)
Definition named {A} (name : A → string) (l : list A) (c : cell) : option A :=
  match c with Text s => snd <$> list_find (λ v, name v = s) l | Number _ => None end.
Definition number (c : cell) : option Z := match c with Number n => Some n | Text _ => None end.

(** A row read back. *)
Definition read_row (at_col : Z → option cell) : option packet :=
  pipe ← at_col 0 ≫= number; id ← at_col 1 ≫= number; wid ← at_col 2 ≫= number;
  type ← at_col 3 ≫= named type_name packet_types;
  address ← at_col 4 ≫= number; pool ← at_col 5 ≫= number; set ← at_col 6 ≫= number;
  wseq ← at_col 7 ≫= named worker_name [W_MIDDLE; W_LAST; W_FIRST; W_ONLY; W_EGRESS];
  before ← at_col 8 ≫= named bitmap_name [BITMAP_EMPTY; BITMAP_NONEMPTY; BITMAP_EGRESS];
  mres ← at_col 9 ≫= named map_result_name [MAP_NOVEL; MAP_RETRANSMIT; MAP_EGRESS];
  mseq ← at_col 10 ≫= named message_name [MSG_MIDDLE; MSG_LAST; MSG_FIRST; MSG_ONLY];
  ingress ← at_col 11 ≫= number; index ← at_col 12 ≫= number;
  Some (Packet index pipe address id ingress wid mseq before mres wseq type pool set).

(** Which calls write into a row. *)
Definition of_row (row : Z) (c : sheet_call) : bool :=
  match c with
  | WriteString r _ _ | WriteNumber r _ _ => bool_decide (r = row)
  | _ => false
  end.

Lemma step_other_row row col c b : of_row row c = false → step_cell row col b c = b.
Proof.
  destruct c; simpl; try done; intros Hr%bool_decide_eq_false; by rewrite decide_False by congruence.
Qed.
Lemma fold_other_row row col calls b :
  Forall (λ c, of_row row c = false) calls → foldl (step_cell row col) b calls = b.
Proof. induction 1 as [|c calls Hc _ IH]; simpl; [done|]. by rewrite step_other_row. Qed.

Lemma row_calls_other row row' p : row ≠ row' → Forall (λ c, of_row row c = false) (row_calls row' p).
Proof.
  intros Hne. unfold row_calls. apply Forall_fmap, Forall_forall. intros f _. simpl.
  unfold write. destruct (f.2.2 p); simpl; by apply bool_decide_eq_false_2.
Qed.

Lemma rows_calls_split parsed (i : nat) p :
  parsed !! i = Some p → ∃ before after,
    rows_calls parsed = before ++ row_calls (Z.of_nat i + 1) p ++ after ∧
    Forall (λ c, of_row (Z.of_nat i + 1) c = false) before ∧
    Forall (λ c, of_row (Z.of_nat i + 1) c = false) after.
Proof.
  intros Hi. unfold rows_calls.
  assert (He : enumerate parsed !! i = Some (Z.of_nat i, p)) by by rewrite enumerate_lookup, Hi.
  pose proof (take_drop_middle _ _ _ He) as Hs.
  exists (take i (enumerate parsed) ≫= λ ip, row_calls (ip.1 + 1) ip.2),
    (drop (S i) (enumerate parsed) ≫= λ ip, row_calls (ip.1 + 1) ip.2).
  split; [rewrite <- Hs at 1; by rewrite bind_app, bind_cons|].
  assert (Hother : ∀ (l : list (Z * packet)), (∀ j q, (j, q) ∈ l → j ≠ Z.of_nat i) →
    Forall (λ c, of_row (Z.of_nat i + 1) c = false) (l ≫= λ ip, row_calls (ip.1 + 1) ip.2)).
  { intros l Hl. apply Forall_bind, Forall_forall. intros [j q] Hj. simpl. apply row_calls_other.
    pose proof (Hl j q Hj). lia. }
  split; apply Hother; intros j q (k & Hk)%list_elem_of_lookup.
  - rewrite lookup_take_Some, enumerate_lookup in Hk. destruct Hk as [Hk Hlt].
    destruct (parsed !! k); simplify_eq/=. lia.
  - rewrite lookup_drop, enumerate_lookup in Hk. apply fmap_Some in Hk as (q' & _ & [= -> ->]). lia.
Qed.

(** A column of a row. *)
Lemma column_cell row p (k : nat) :
  foldl (step_cell row (Z.of_nat k)) None (row_calls row p) = (λ f, f.2 p) <$> fields !! k.
Proof.
  unfold row_calls. assert (Hw : ∀ (l : list (Z * (string * (packet → cell)))) b,
    (∀ f, f ∈ l → f.1 ≠ Z.of_nat k) →
    foldl (step_cell row (Z.of_nat k)) b ((λ f, write row f.1 (f.2.2 p)) <$> l) = b).
  { induction l as [|f l IH]; intros b Hl; simpl; [done|].
    rewrite IH by (intros g Hg; apply Hl; by right). pose proof (Hl f ltac:(by left)) as Hf.
    unfold write. destruct (f.2.2 p); simpl; by rewrite decide_False by congruence. }
  destruct (fields !! k) as [f|] eqn:Hf.
  - assert (He : enumerate fields !! k = Some (Z.of_nat k, f)) by by rewrite enumerate_lookup, Hf.
    rewrite <- (take_drop_middle _ _ _ He), fmap_app, fmap_cons, foldl_app.
    rewrite (Hw (take _ _)).
    2:{ intros g (j & [Hj Hlt]%lookup_take_Some)%list_elem_of_lookup. rewrite enumerate_lookup in Hj.
        destruct (fields !! j); simplify_eq/=. lia. }
    cbn [foldl fst snd]. rewrite Hw.
    2:{ intros g (j & Hj)%list_elem_of_lookup. rewrite lookup_drop, enumerate_lookup in Hj.
        apply fmap_Some in Hj as (q & _ & ->). simpl. lia. }
    destruct f as [name value]. unfold write. simpl. destruct (value p); simpl; by rewrite decide_True.
  - apply Hw. intros g (j & Hj)%list_elem_of_lookup. rewrite enumerate_lookup in Hj.
    destruct (fields !! j) eqn:Hg; simplify_eq/=. intros ?%Nat2Z.inj. congruence.
Qed.

(** The sheet loses nothing: row [i + 1] reads back as packet [i]. *)
Theorem sheet_round_trip parsed (i : nat) p :
  parsed !! i = Some p → read_row (cell_at (sheet parsed) (Z.of_nat i + 1)) = Some p.
Proof.
  intros Hi. destruct (rows_calls_split parsed i p Hi) as (before & after & Hs & Hb & Ha).
  assert (Hcell : ∀ col, cell_at (sheet parsed) (Z.of_nat i + 1) col =
    foldl (step_cell (Z.of_nat i + 1) col) None (row_calls (Z.of_nat i + 1) p)).
  { intros col. unfold cell_at, sheet. rewrite Hs, !foldl_app.
    rewrite (fold_other_row _ _ header_calls).
    2:{ apply Forall_bind, Forall_forall. intros f _.
        repeat constructor. simpl. apply bool_decide_eq_false_2. lia. }
    rewrite (fold_other_row _ _ before), (fold_other_row _ _ after), fold_other_row; [done|..|done|done].
    unfold format_calls. repeat constructor. }
  unfold read_row. rewrite !Hcell. generalize (Z.of_nat i + 1). intros row.
  assert (Hcol : ∀ col, 0 ≤ col → foldl (step_cell row col) None (row_calls row p) =
    (λ f, f.2 p) <$> fields !! Z.to_nat col).
  { intros col Hc. rewrite <- (column_cell row), Z2Nat.id; done. }
  rewrite !Hcol by done.
  clear. destruct p as [? ? ? ? ? ? mseq before mres wseq type ? ?].
  by destruct mseq, before, mres, wseq, type.
Qed.
End ConvertLog.
