(* ===== verification/Pipeline.v ===== *)
(** * The ingress pipeline of the switch (p4/)

    What the switch does with a SwitchML packet in one pass through a pipe:
    the worker bitmaps, the worker counts, the maximum of the exponents, the
    sums of the significands and the choice of the next step, each a definition
    with the name of its control, composed as [Ingress] in p4/switchml.p4
    composes them. A register array is a function from its index; a control
    that reads or writes one cell is a function on the cell's value.

    An [out] argument that a control does not assign keeps the header word it
    is copied back to: the program relies on that for the first exponent, which
    the last pass does not assign. *)
From stdpp Require Import functions.
From S2P Require Import Prelude Worker DebugLog GetWorkerBitmap.

Module Pipe.

(** ** Packets and registers (types.p4) *)

(** 128 bytes of data: 32 words, by lane. *)
Abbreviation block := (Z → Z).

(** The header bridged from pass to pass. *)
Record switchml_md := Md {
  mgid : Z;
  worker_id : Z;
  pool_index : Z;
  num_workers : Z;
  packet_size : PacketSize;
  worker_type : WorkerType;
  packet_type : PacketType;
  ingress_port : Z;
  last_packet_of_message : bool;
  first_flag : bool;
  last_flag : bool;
  map_result_nonzero : bool;
  bitmap_before_nonzero : bool
}.

(** A packet inside the switch; [tag] stands for the address or the tensor
    index that travels along untouched. *)
Record packet := Packet {
  md : switchml_md;
  e0 : Z;
  e1 : Z;
  tag : Z;
  blocks : list block
}.

(** The metadata of one pass. *)
Record locals := Locals {
  worker_bitmap : Z;
  worker_bitmap_before : Z;
  first_last_flag : Z;
  map_result : Z;
  ingress_drop_probability : Z;
  drop_ctl : bool
}.

(** The register arrays of a pipe, by pool index; the bitmaps by slot. *)
Record registers := Registers {
  rg_bitmap : Z → Z * Z;
  rg_count : Z → Z;
  rg_exponents : Z → Z * Z;
  rg_significands : Z → Z → Z * Z
}.
Definition cleared : registers :=
  Registers (λ _, (0, 0)) (λ _, 0) (λ _, (0, 0)) (λ _ _, (0, 0)).

Definition set_packet_type (t : PacketType) (m : switchml_md) : switchml_md :=
  Md (mgid m) (worker_id m) (pool_index m) (num_workers m) (packet_size m) (worker_type m) t
    (ingress_port m) (last_packet_of_message m) (first_flag m) (last_flag m)
    (map_result_nonzero m) (bitmap_before_nonzero m).
Definition set_ingress_port (p : Z) (m : switchml_md) : switchml_md :=
  Md (mgid m) (worker_id m) (pool_index m) (num_workers m) (packet_size m) (worker_type m)
    (packet_type m) p (last_packet_of_message m) (first_flag m) (last_flag m)
    (map_result_nonzero m) (bitmap_before_nonzero m).

Definition is_consume (t : PacketType) : bool :=
  match t with CONSUME0 | CONSUME1 | CONSUME2 | CONSUME3 => true | _ => false end.

(** ** UpdateAndCheckWorkerBitmap.p4 *)

(** Recirculated packets: the bitmap from the worker's number, the rest from
    the flags of the header. *)
Definition ReconstructWorkerBitmap (m : switchml_md) (l : locals) : locals :=
  Locals (1 .<< (worker_id m .& 0x1f))
    (if bitmap_before_nonzero m then 0xffffffff else worker_bitmap_before l)
    (if first_flag m then 0 else if last_flag m then 1 else first_last_flag l)
    (if map_result_nonzero m then 0xffffffff else map_result l)
    (ingress_drop_probability l) (drop_ctl l).

(** The two register actions: the bits of the set before, and the pair after. *)
Definition worker_bitmap_update_set0 (bitmap : Z) (value : Z * Z) : Z * (Z * Z) :=
  (value.1, (value.1 .| bitmap, value.2 .& Z.lnot bitmap)).
Definition worker_bitmap_update_set1 (bitmap : Z) (value : Z * Z) : Z * (Z * Z) :=
  (value.2, (value.1 .& Z.lnot bitmap, value.2 .| bitmap)).

Definition set_bitmap (i : Z) (v : Z * Z) (r : registers) : registers :=
  Registers (<[i := v]> (rg_bitmap r)) (rg_count r) (rg_exponents r) (rg_significands r).

Definition UpdateAndCheckWorkerBitmap (r : registers) (m : switchml_md) (l : locals) :
    registers * switchml_md * locals :=
  if bool_decide (packet_type m = CONSUME0 ∧ ingress_drop_probability l = 0xffff) then
    (r, set_packet_type IGNORE m,
     Locals (worker_bitmap l) (worker_bitmap_before l) (first_last_flag l) (map_result l)
       (ingress_drop_probability l) true)
  else if is_consume (packet_type m) then
    let slot := pool_index m .>> 1 in
    let '(before, value) :=
      if bool_decide (pool_index m .& 1 = 0)
      then worker_bitmap_update_set0 (worker_bitmap l) (rg_bitmap r slot)
      else worker_bitmap_update_set1 (worker_bitmap l) (rg_bitmap r slot) in
    (set_bitmap slot value r, m,
     Locals (worker_bitmap l) before (first_last_flag l) (before .& worker_bitmap l)
       (ingress_drop_probability l) (drop_ctl l))
  else (r, m, l).

(** ** CountWorkers.p4 *)

Definition worker_count_action (num_workers value : Z) : Z * Z :=
  (value, if bool_decide (value = 0) then (num_workers - 1) `mod` 2 ^ 8 else value - 1).

Definition set_count (i v : Z) (r : registers) : registers :=
  Registers (rg_bitmap r) (<[i := v]> (rg_count r)) (rg_exponents r) (rg_significands r).
Definition set_flag (f : Z) (l : locals) : locals :=
  Locals (worker_bitmap l) (worker_bitmap_before l) f (map_result l)
    (ingress_drop_probability l) (drop_ctl l).

Definition CountWorkers (r : registers) (m : switchml_md) (l : locals) : registers * locals :=
  if is_consume (packet_type m) then
    let '(read, value) := worker_count_action (num_workers m) (rg_count r (pool_index m)) in
    match bool_decide (num_workers m = 1), bool_decide (map_result l = 0) with
    | true, true => (set_count (pool_index m) value r, set_flag 1 l)
    | true, false => (r, set_flag 0 l)
    | false, true => (set_count (pool_index m) value r, set_flag read l)
    | false, false => (r, set_flag (rg_count r (pool_index m)) l)
    end
  else (r, l).

(** ** ExponentMax.p4 *)

(** The pair after, and the exponents of the header after. *)
Definition ExponentMax (m : switchml_md) (l : locals) (exponent0 exponent1 : Z) (value : Z * Z) :
    (Z * Z) * (Z * Z) :=
  match packet_type m with
  | CONSUME0 =>
      if bool_decide (worker_bitmap_before l = 0) then
        ((exponent0, exponent1), (exponent0, exponent1))
      else if bool_decide (map_result l = 0) then
        let value' := (Z.max value.1 exponent0, Z.max value.2 exponent1) in
        (value', (value'.1, exponent1))
      else (value, (value.1, exponent1))
  | HARVEST7 => (value, (exponent0, value.2))
  | _ => (value, (exponent0, exponent1))
  end.

(** ** SignificandSum.p4 *)

(** One lane: the pair after, and the two words of the header after. *)
Definition SignificandSum (m : switchml_md) (l : locals) (s0 s1 : Z) (value : Z * Z) :
    (Z * Z) * (Z * Z) :=
  match packet_type m with
  | CONSUME0 | CONSUME1 | CONSUME2 | CONSUME3 =>
      if bool_decide (worker_bitmap_before l = 0) then ((s0, s1), (s0, s1))
      else if bool_decide (map_result l = 0) then
        let value' := ((value.1 + s0) `mod` 2 ^ 32, (value.2 + s1) `mod` 2 ^ 32) in
        (value', (s0, value'.2))
      else (value, (value.1, s1))
  | HARVEST0 | HARVEST2 | HARVEST4 | HARVEST6 => (value, (s0, value.2))
  | HARVEST1 | HARVEST3 | HARVEST5 | HARVEST7 => (value, (value.1, s1))
  | _ => (value, (s0, s1))
  end.

(** ** NextStep.p4 *)

(** Where a packet goes after the pass: dropped, to a port (by a recirculation
    port without the egress pipeline), to a multicast group; or it is none of
    the aggregation's and is left to the blocks for other traffic. *)
Inductive exit :=
| Drop
| Recirculate (port : Z)
| Unicast (port : Z)
| Multicast (group : Z)
| OtherTraffic.
#[export] Instance exit_eq_dec : EqDecision exit.
Proof. solve_decision. Defined.

(** The headers with data that stay valid, the type and the way out. *)
Record step := Step { st_d0 : bool; st_d1 : bool; st_type : PacketType; st_exit : exit }.

Definition drop : step := Step true true IGNORE Drop.
(** The type is not changed. *)
Definition finish_consume (t : PacketType) : step := Step true true t Drop.
Definition recirculate_for_consume (t : PacketType) (port : Z) : step :=
  Step false false t (Recirculate port).
Definition recirculate_for_CONSUME1 : Z → step := recirculate_for_consume CONSUME1.
Definition next_pipe (pipe port : Z) : Z := (pipe .<< 7) .| (port .& 0x7f).
Definition recirculate_for_CONSUME2_same_port_next_pipe (port : Z) : step :=
  recirculate_for_consume CONSUME2 (next_pipe 2 port).
Definition recirculate_for_CONSUME3_same_port_next_pipe (port : Z) : step :=
  recirculate_for_consume CONSUME3 (next_pipe 3 port).
Definition recirculate_for_HARVEST1_1024B (port : Z) : step := Step false true HARVEST1 (Recirculate port).
Definition recirculate_for_HARVEST2 (port : Z) : step := Step true false HARVEST2 (Recirculate port).
Definition recirculate_for_HARVEST3_same_port (port : Z) : step := Step false true HARVEST3 (Recirculate port).
Definition recirculate_for_HARVEST4 (port : Z) : step := Step true false HARVEST4 (Recirculate port).
Definition recirculate_for_HARVEST5 (port : Z) : step := Step false true HARVEST5 (Recirculate port).
Definition recirculate_for_HARVEST6 (port : Z) : step := Step true false HARVEST6 (Recirculate port).
Definition recirculate_for_HARVEST7 (port : Z) : step := Step false true HARVEST7 (Recirculate port).
Definition recirculate_for_HARVEST7_256B (port : Z) : step := Step false true HARVEST7 (Recirculate port).
Definition broadcast_eth (group : Z) : step := Step true false BROADCAST (Multicast group).
Definition retransmit_eth (port : Z) : step := Step true false RETRANSMIT (Unicast port).

(** The table [next_step], its entries in order; [in_port] is the port of this
    pass, [ingress_port] of the header the port the packet first came in by. *)
Definition next_step (alternate_recirc_port : option Z) (in_port : Z) (m : switchml_md) (l : locals) : step :=
  let flag := first_last_flag l in
  let new := bool_decide (map_result l = 0) in
  let spread := recirculate_for_CONSUME1 (128 + 4 * (worker_id m .& 0xf)) in
  match packet_size m, packet_type m with
  | IBV_MTU_128, _ => drop
  | IBV_MTU_256, CONSUME0 =>
      if bool_decide (flag = 1) then recirculate_for_HARVEST7_256B 68
      else if new then finish_consume CONSUME0
      else if bool_decide (flag = 0) then recirculate_for_HARVEST7_256B 68
      else drop
  | IBV_MTU_512, _ => drop
  | IBV_MTU_1024, CONSUME0 =>
      if new then spread else if bool_decide (flag = 0) then spread else drop
  | IBV_MTU_1024, CONSUME1 => recirculate_for_CONSUME2_same_port_next_pipe in_port
  | IBV_MTU_1024, CONSUME2 => recirculate_for_CONSUME3_same_port_next_pipe in_port
  | IBV_MTU_1024, CONSUME3 =>
      if bool_decide (flag = 1) then recirculate_for_HARVEST1_1024B 452
      else if new then finish_consume CONSUME3
      else if bool_decide (flag = 0) then recirculate_for_HARVEST1_1024B 452
      else drop
  | IBV_MTU_1024, HARVEST0 => recirculate_for_HARVEST1_1024B 452
  | IBV_MTU_1024, HARVEST1 => recirculate_for_HARVEST2 324
  | IBV_MTU_1024, HARVEST2 => recirculate_for_HARVEST3_same_port in_port
  | IBV_MTU_1024, HARVEST3 =>
      match alternate_recirc_port with
      | Some port => recirculate_for_HARVEST4 port
      | None => recirculate_for_HARVEST4 196
      end
  | IBV_MTU_1024, HARVEST4 => recirculate_for_HARVEST5 196
  | IBV_MTU_1024, HARVEST5 => recirculate_for_HARVEST6 64
  | IBV_MTU_1024, HARVEST6 => recirculate_for_HARVEST7 68
  | _, HARVEST7 =>
      if new then
        if bool_decide (flag = 1) then
          match worker_type m with FORWARD_ONLY => drop | _ => broadcast_eth (mgid m) end
        else drop
      else if bool_decide (flag = 0) then
        match worker_type m with FORWARD_ONLY => drop | _ => retransmit_eth (ingress_port m) end
      else drop
  | _, _ => drop
  end.

(** The control: the table, then the flags for the passes to come. *)
Definition NextStep (alternate_recirc_port : option Z) (in_port : Z) (m : switchml_md) (l : locals) :
    step * switchml_md :=
  let s := next_step alternate_recirc_port in_port m l in
  (s, Md (mgid m) (worker_id m) (pool_index m) (num_workers m) (packet_size m) (worker_type m)
        (st_type s) (ingress_port m) (last_packet_of_message m)
        (first_flag m || bool_decide (first_last_flag l = 0))
        (last_flag m || bool_decide (first_last_flag l = 1))
        (map_result_nonzero m || bool_decide (map_result l ≠ 0))
        (bitmap_before_nonzero m || bool_decide (worker_bitmap_before l ≠ 0))).

(** ** One pass (parsers.p4, switchml.p4) *)

(** [parse_consume] takes two blocks from the packet; [parse_harvest] makes
    room for two in front of it. *)
Definition parse (t : PacketType) (bs : list block) : block * block * list block :=
  if is_consume t then
    match bs with
    | b0 :: b1 :: rest => (b0, b1, rest)
    | _ => (λ _, 0, λ _, 0, [])
    end
  else (λ _, 0, λ _, 0, bs).
Definition deparse (s : step) (d0 d1 : block) (rest : list block) : list block :=
  (if st_d0 s then [d0] else []) ++ (if st_d1 s then [d1] else []) ++ rest.

Definition set_exponents (i : Z) (v : Z * Z) (r : registers) : registers :=
  Registers (rg_bitmap r) (rg_count r) (<[i := v]> (rg_exponents r)) (rg_significands r).
Definition set_significands (i : Z) (v : Z → Z * Z) (r : registers) : registers :=
  Registers (rg_bitmap r) (rg_count r) (rg_exponents r) (<[i := v]> (rg_significands r)).

(** The sums of all lanes, [sum00] to [sum31]. *)
Definition sum_lanes (m : switchml_md) (l : locals) (d0 d1 : block) (value : Z → Z * Z) :
    (Z → Z * Z) * (block * block) :=
  (λ n, (SignificandSum m l (d0 n) (d1 n) (value n)).1,
   (λ n, (SignificandSum m l (d0 n) (d1 n) (value n)).2.1,
    λ n, (SignificandSum m l (d0 n) (d1 n) (value n)).2.2)).

(** The parser's initial values; the bitmap is the receiver's to set, the drop
    probability the simulator's. *)
Definition initial (bitmap drop_probability : Z) (dropped : bool) : locals :=
  Locals bitmap 0 0xff 0 drop_probability dropped.

(** The last part of [Ingress], for a packet that has not been dropped. *)
Definition aggregate (alternate_recirc_port : option Z) (in_port : Z) (r : registers) (m : switchml_md)
    (l : locals) (p : packet) (d0 d1 : block) (rest : list block) : registers * packet * exit :=
  if bool_decide (packet_type_value CONSUME0 ≤ packet_type_value (packet_type m)) then
    let '(exps, (x0, x1)) :=
      if last_packet_of_message m
      then ExponentMax m l (e0 p) (e1 p) (rg_exponents r (pool_index m))
      else (rg_exponents r (pool_index m), (e0 p, e1 p)) in
    let '(sums, (d0', d1')) := sum_lanes m l d0 d1 (rg_significands r (pool_index m)) in
    let '(s, m') := NextStep alternate_recirc_port in_port m l in
    (set_significands (pool_index m) sums (set_exponents (pool_index m) exps r),
     Packet m' x0 x1 (tag p) (deparse s d0' d1' rest), st_exit s)
  else (r, Packet m (e0 p) (e1 p) (tag p) (blocks p), OtherTraffic).

Definition Ingress (alternate_recirc_port : option Z) (in_port : Z) (l0 : locals) (r0 : registers) (p : packet) :
    registers * packet * exit :=
  let m0 := md p in
  let '(m1, l1) :=
    if bool_decide (packet_type m0 = CONSUME0) then (set_ingress_port in_port m0, l0)
    else if bool_decide (packet_type_value CONSUME1 ≤ packet_type_value (packet_type m0)) then
      (m0, ReconstructWorkerBitmap m0 l0)
    else (m0, l0) in
  let '(d0, d1, rest) := parse (packet_type m0) (blocks p) in
  let '(r1, m2, l2) :=
    if drop_ctl l1 then (r0, m1, l1)
    else if is_consume (packet_type m1) then
      let '(r1, m2, l2) := UpdateAndCheckWorkerBitmap r0 m1 l1 in
      let '(r2, l3) := CountWorkers r1 m2 l2 in (r2, m2, l3)
    else (r0, m1, l1) in
  if drop_ctl l2 then (r1, Packet m2 (e0 p) (e1 p) (tag p) (blocks p), Drop)
  else aggregate alternate_recirc_port in_port r1 m2 l2 p d0 d1 rest.
End Pipe.
