(* ===== verification/Recirculation.v ===== *)
(** * Recirculation ends (p4/NextStep.p4)

    A packet is sent round through the pipes until it has been consumed and its
    results have been collected. The type of a packet says how far it is; every
    recirculation goes on to a later type, so a packet that is let in leaves
    the switch, or is dropped, after at most eleven passes. *)
From stdpp Require Import functions relations.
From S2P Require Import Prelude Worker DebugLog GetWorkerBitmap Pipeline.
Import Pipe.

(** The pipe a port belongs to. *)
Definition pipe_of (port : Z) : Z := port .>> 7.

(** A packet through all its passes, each in the pipe of its port, with
    nothing else going on. [None] when the fuel is not enough. *)
Fixpoint travel (fuel : nat) (alternate_recirc_port : option Z) (in_port : Z) (l : locals)
    (pipes : Z → registers) (p : packet) : option ((Z → registers) * packet * exit) :=
  let '(r, p', e) := Ingress alternate_recirc_port in_port l (pipes (pipe_of in_port)) p in
  let pipes' := <[pipe_of in_port := r]> pipes in
  match e, fuel with
  | Recirculate port, S fuel' =>
      travel fuel' alternate_recirc_port port (initial 0 0 false) pipes' p'
  | Recirculate _, O => None
  | _, _ => Some (pipes', p', e)
  end.

(** How far a type is on the way. *)
Definition pass_rank (t : PacketType) : nat :=
  match t with
  | CONSUME0 => 0 | CONSUME1 => 1 | CONSUME2 => 2 | CONSUME3 => 3
  | HARVEST0 => 3 | HARVEST1 => 4 | HARVEST2 => 5 | HARVEST3 => 6 | HARVEST4 => 7
  | HARVEST5 => 8 | HARVEST6 => 9 | HARVEST7 => 10
  | MIRROR | BROADCAST | RETRANSMIT | IGNORE => 0
  end.

Lemma next_step_rank alt port m l q :
  st_exit (next_step alt port m l) = Recirculate q →
  (pass_rank (packet_type m) < pass_rank (st_type (next_step alt port m l)) ≤ 10)%nat.
Proof.
  unfold next_step. intros H.
  repeat (case_match; simpl in *; try discriminate; try lia).
Qed.

Lemma update_type r m l r' m' l' :
  UpdateAndCheckWorkerBitmap r m l = (r', m', l') →
  packet_type m' = packet_type m ∨ packet_type m' = IGNORE ∧ drop_ctl l' = true.
Proof.
  unfold UpdateAndCheckWorkerBitmap. intros H.
  repeat case_match; simplify_eq; simpl; tauto.
Qed.

Lemma count_drop r m l r' l' : CountWorkers r m l = (r', l') → drop_ctl l' = drop_ctl l.
Proof. unfold CountWorkers. intros H. repeat case_match; by simplify_eq. Qed.

(** A pass that recirculates a packet takes it to a later type. *)
Lemma ingress_rank alt in_port l r p r' p' q :
  Ingress alt in_port l r p = (r', p', Recirculate q) →
  (pass_rank (packet_type (md p)) < pass_rank (packet_type (md p')) ≤ 10)%nat.
Proof.
  unfold Ingress. set (x := if bool_decide (packet_type (md p) = CONSUME0) then _ else _).
  assert (Hx : packet_type x.1 = packet_type (md p)) by (unfold x; by repeat case_match).
  destruct x as [m1 l1]. simpl in Hx. destruct (parse _ _) as [[d0 d1] rest].
  set (y := if drop_ctl l1 then _ else _).
  assert (Hy : packet_type y.1.2 = packet_type (md p) ∨ drop_ctl y.2 = true).
  { unfold y. destruct (drop_ctl l1); [by left|]. destruct (is_consume _); [|by left].
    destruct (UpdateAndCheckWorkerBitmap r m1 l1) as [[r1 m2] l2] eqn:E.
    destruct (CountWorkers r1 m2 l2) as [r2 l3] eqn:E2. apply count_drop in E2. simpl.
    apply update_type in E as [E|[_ E]]; [left|right]; congruence. }
  destruct y as [[r1 m2] l2]. simpl in Hy. destruct (drop_ctl l2); [done|].
  destruct Hy as [Hy|Hy]; [|done]. unfold aggregate. case_bool_decide as Hc; [|done].
  destruct (if last_packet_of_message m2 then _ else _) as [exps [x0 x1]]. simpl. intros H.
  simplify_eq. simpl. rewrite <- Hy. by apply (next_step_rank alt in_port m2 l2 q).
Qed.

Lemma travel_enough fuel alt in_port l pipes p :
  (10 - pass_rank (packet_type (md p)) ≤ fuel)%nat →
  ∃ pipes' p' e, travel fuel alt in_port l pipes p = Some (pipes', p', e) ∧
    ∀ q, e ≠ Recirculate q.
Proof.
  revert in_port l pipes p. induction fuel as [|fuel IH]; intros in_port l pipes p Hf; simpl;
    destruct (Ingress _ _ _ _ _) as [[r p'] e] eqn:E; destruct e as [|q| | |]; try (by eauto);
    apply ingress_rank in E; [lia|]. apply IH. lia.
Qed.

Lemma travel_mono fuel fuel' alt in_port l pipes p x :
  travel fuel alt in_port l pipes p = Some x → (fuel ≤ fuel')%nat →
  travel fuel' alt in_port l pipes p = Some x.
Proof.
  revert fuel' in_port l pipes p. induction fuel as [|fuel IH]; intros fuel' in_port l pipes p H Hf;
    destruct fuel' as [|fuel']; simpl in *; try lia;
    destruct (Ingress _ _ _ _ _) as [[r p'] []]; try done.
  apply IH; [done|lia].
Qed.

(** A whole message of 1024 bytes of a job of one worker. *)
Definition lone_packet : packet :=
  Packet (Md 0x1234 0 0 1 IBV_MTU_1024 ROCEv2 CONSUME0 0 true false false false false) 7 9 0
    ((λ i n, i + n) <$> [0; 100; 200; 300; 400; 500; 600; 700]).

(** C18. A packet that is let into the switch leaves it or is dropped: eleven
    passes, that is ten recirculations, are always enough, whatever is in the
    registers of the pipes it goes through, and more fuel makes no difference.
    Ten recirculations are also needed, by the packet that completes a slot of
    1024 bytes. *)
Theorem recirculation_ends alt in_port l pipes p :
  (∃ pipes' p' e, travel 10 alt in_port l pipes p = Some (pipes', p', e) ∧ ∀ q, e ≠ Recirculate q) ∧
  (∀ fuel, (10 ≤ fuel)%nat → travel fuel alt in_port l pipes p = travel 10 alt in_port l pipes p) ∧
  travel 9 None 8 (initial 1 0 false) (λ _, cleared) lone_packet = None.
Proof.
  split; [apply travel_enough; lia|]. split; [|by vm_compute].
  intros fuel Hf. destruct (travel_enough 10 alt in_port l pipes p) as (pi & p' & e & E & _); [lia|].
  rewrite E. by eapply travel_mono.
Qed.
