(* ===== verification/Aggregation.v ===== *)
(** * A slot of the aggregator, under loss and retransmission (p4/)

    The workers of a job send their contributions to a slot phase after phase,
    to its two sets in turn; packets and results may be lost and are sent
    again. The file runs the pipeline of [Pipeline] under every such history,
    with other packets in between and with the recirculation queue made
    explicit, and shows what the switch sends back. Packets of 256 bytes, which
    stay in pipe 0. *)
From stdpp Require Import functions.
From S2P Require Import Prelude Worker DebugLog GetWorkerBitmap Pipeline.
Import Pipe.

Abbreviation worker_bit := GetWorkerBitmap.worker_bit.
Abbreviation collected := GetWorkerBitmap.collected.

(** ** The job and the network *)

(** A job as the pipeline sees it: the ranks, the multicast group, the kind of
    worker, what each worker contributes to the slot in each phase, and the
    port it is at. *)
Record job := Job {
  jb_ranks : list Z;
  jb_group : Z;
  jb_type : WorkerType;
  jb_slot : Z;
  jb_last : bool;
  jb_port : Z → Z;
  jb_e0 : Z → Z → Z;
  jb_e1 : Z → Z → Z;
  jb_d0 : Z → Z → block;
  jb_d1 : Z → Z → block
}.

Section network.
Context (J : job) (alternate : option Z).

Definition jb_size : Z := Z.of_nat (length (jb_ranks J)).
(** The pool index of a phase: the sets of the slot alternate. *)
Definition index (p : Z) : Z := 2 * jb_slot J + p `mod` 2.

(** The packet of worker [w] in phase [p] as the receiver passes it on. *)
Definition job_md (w p : Z) : switchml_md :=
  Md (jb_group J) w (index p) jb_size IBV_MTU_256 (jb_type J) CONSUME0 0 (jb_last J)
    false false false false.
Definition contribution (w p : Z) : packet :=
  Packet (job_md w p) (jb_e0 J w p) (jb_e1 J w p) p [jb_d0 J w p; jb_d1 J w p].

(** The state: the registers of the pipe, the recirculation queue, the phase
    of each worker's last packet, and what has left the switch. *)
Record net := Net {
  nt_regs : registers;
  nt_queue : list packet;
  nt_at : Z → Z;
  nt_out : list (exit * packet)
}.

Definition slot_of (p : packet) : Z := pool_index (md p) .>> 1.

(** Where a packet goes; packets sent to other pipes come back, if they do,
    among the other packets. *)
Definition route (e : exit) (p : packet) (s : net) : net :=
  match e with
  | Recirculate port =>
      if decide (port = 68) then Net (nt_regs s) (nt_queue s ++ [p]) (nt_at s) (nt_out s) else s
  | Unicast _ | Multicast _ => Net (nt_regs s) (nt_queue s) (nt_at s) (nt_out s ++ [(e, p)])
  | Drop | OtherTraffic => s
  end.

(** A result that a worker gets: sent to its group, or back to its port. *)
Definition reaches (w : Z) (x : exit * packet) : Prop :=
  x.1 = Multicast (jb_group J) ∨ x.1 = Unicast (jb_port J w) ∧ worker_id (md x.2) = w.
Definition emitted (w p : Z) (s : net) : Prop :=
  ∃ x, x ∈ nt_out s ∧ slot_of x.2 = jb_slot J ∧ tag x.2 = p ∧ reaches w x.

(** What a worker may have on the way: its last packet again, or the packet of
    the next phase when the switch has sent it the result of this one. *)
Definition may_send (w p : Z) (s : net) : Prop :=
  0 ≤ p ∧ (p = nt_at s w ∨ p = nt_at s w + 1 ∧ (p = 0 ∨ emitted w (p - 1) s)).

Inductive net_step : net → net → Prop :=
| net_arrive s w p prob r pk e :
    w ∈ jb_ranks J → may_send w p s → prob ≠ 0xffff →
    Ingress alternate (jb_port J w) (initial (worker_bit w) prob false) (nt_regs s) (contribution w p) =
      (r, pk, e) →
    net_step s (route e pk (Net r (nt_queue s) (<[w := p]> (nt_at s)) (nt_out s)))
| net_recirculate s p0 q r pk e :
    nt_queue s = p0 :: q →
    Ingress alternate 68 (initial 0 0 false) (nt_regs s) p0 = (r, pk, e) →
    net_step s (route e pk (Net r q (nt_at s) (nt_out s)))
| net_other s in_port l p0 r pk e :
    slot_of p0 ≠ jb_slot J →
    Ingress alternate in_port l (nt_regs s) p0 = (r, pk, e) →
    net_step s (route e pk (Net r (nt_queue s) (nt_at s) (nt_out s))).

Definition net_start (r : registers) : net := Net r [] (λ _, -1) [].
(** The registers as the controller leaves them. *)
Definition net_init : net := net_start cleared.

Definition net_reachable : net → Prop := rtc net_step net_init.

(** ** What is to be computed *)

Definition sum (f : Z → Z) (ws : list Z) : Z := foldr (λ w acc, f w + acc) 0 ws `mod` 2 ^ 32.
Definition maximum (f : Z → Z) (ws : list Z) : Z := foldr (λ w acc, Z.max (f w) acc) 0 ws.

(** The result of a phase as it leaves the switch; the second block is not
    the same for a broadcast and for a retransmission. *)
Definition result (p : Z) (second : block) (pk : packet) : Prop :=
  tag pk = p ∧ pool_index (md pk) = index p ∧
  (jb_last J = true →
   e0 pk = maximum (λ w, jb_e0 J w p) (jb_ranks J) ∧ e1 pk = maximum (λ w, jb_e1 J w p) (jb_ranks J)) ∧
  ∃ b0 b1, blocks pk = [b0; b1] ∧
    ∀ n, b0 n = sum (λ w, jb_d0 J w p n) (jb_ranks J) ∧ b1 n = second n.
Definition total1 (p : Z) : block := λ n, sum (λ w, jb_d1 J w p n) (jb_ranks J).

(** What the job is assumed to be. *)
Record job_ok : Prop := {
  jo_ranks : NoDup (jb_ranks J);
  jo_some : jb_ranks J ≠ [];
  jo_bits : ∀ w, w ∈ jb_ranks J → 0 ≤ w < 32;
  jo_type : jb_type J ≠ FORWARD_ONLY;
  jo_e : ∀ w p, w ∈ jb_ranks J → 0 ≤ jb_e0 J w p < 2 ^ 8 ∧ 0 ≤ jb_e1 J w p < 2 ^ 8;
  jo_d : ∀ w p n, w ∈ jb_ranks J → 0 ≤ jb_d0 J w p n < 2 ^ 32 ∧ 0 ≤ jb_d1 J w p n < 2 ^ 32
}.
End network.

(** ** Bits *)

Lemma collected_ext ws ws' :
  (∀ w, w ∈ ws → 0 ≤ w) → (∀ w, w ∈ ws ↔ w ∈ ws') → collected ws = collected ws'.
Proof.
  intros H0 H. apply Z_bits_ext. intros i Hi.
  rewrite !GetWorkerBitmap.testbit_collected by (done || intros w Hw; apply H0, H, Hw).
  by apply bool_decide_ext.
Qed.

Lemma collected_snoc ws w : collected ws .| worker_bit w = collected (w :: ws).
Proof. simpl. by rewrite Z.lor_comm. Qed.

Lemma collected_remove ws w :
  0 ≤ w → (∀ w', w' ∈ ws → 0 ≤ w') →
  collected ws .& Z.lnot (worker_bit w) = collected (filter (.≠ w) ws).
Proof.
  intros Hw H0. apply Z_bits_ext. intros i Hi.
  assert (H0' : ∀ w', w' ∈ filter (.≠ w) ws → 0 ≤ w') by (intros w' [_ H]%list_elem_of_filter; auto).
  rewrite Z.land_spec, Z.lnot_spec, !GetWorkerBitmap.testbit_collected,
    GetWorkerBitmap.testbit_worker_bit by done.
  repeat case_bool_decide; simpl; try done;
    rewrite list_elem_of_filter in *; naive_solver.
Qed.

Lemma collected_meets ws w :
  0 ≤ w → (∀ w', w' ∈ ws → 0 ≤ w') → collected ws .& worker_bit w = 0 ↔ w ∉ ws.
Proof.
  intros Hw H0. split.
  - intros H Hin. assert (Hb : Z.testbit (collected ws .& worker_bit w) w = true).
    { rewrite Z.land_spec, GetWorkerBitmap.testbit_collected, GetWorkerBitmap.testbit_worker_bit by done.
      by rewrite !bool_decide_eq_true_2. }
    rewrite H in Hb. by rewrite Z.testbit_0_l in Hb.
  - intros Hn. apply Z_bits_ext. intros i Hi.
    rewrite Z.land_spec, GetWorkerBitmap.testbit_collected, GetWorkerBitmap.testbit_worker_bit, Z.testbit_0_l by done.
    repeat case_bool_decide; naive_solver.
Qed.

Lemma collected_zero ws : (∀ w, w ∈ ws → 0 ≤ w) → collected ws = 0 ↔ ws = [].
Proof.
  intros H0. split; [|by intros ->]. intros H. destruct ws as [|w ws]; [done|]. exfalso.
  apply (collected_meets (w :: ws) w); [apply H0; by left|done| |by left]. by rewrite H.
Qed.

(** ** Single passes *)

(** Conditions that arithmetic decides. *)
Ltac decide_conditions :=
  repeat match goal with |- context [bool_decide ?P] =>
    first [ rewrite (bool_decide_eq_true_2 P) by lia | rewrite (bool_decide_eq_false_2 P) by lia ] end.

Section passes.
Context (J : job) (alternate : option Z).

(** The set of a phase in a pair of bitmaps. *)
Definition side (p : Z) (v : Z * Z) : Z := if bool_decide (p `mod` 2 = 0) then v.1 else v.2.

Lemma flip_phase p : (p + 1) `mod` 2 = 1 - p `mod` 2.
Proof.
  pose proof (Z.div_mod p 2). pose proof (Z.div_mod (p + 1) 2).
  pose proof (Z.mod_pos_bound p 2). pose proof (Z.mod_pos_bound (p + 1) 2). lia.
Qed.
Lemma index_slot p : index J p .>> 1 = jb_slot J.
Proof.
  unfold index. rewrite Z.shiftr_div_pow2 by lia. pose proof (Z.mod_pos_bound p 2).
  change (2 ^ 1) with 2. rewrite Z.mul_comm, Z.div_add_l, Z.div_small by lia. lia.
Qed.
Lemma index_set p : index J p .& 1 = p `mod` 2.
Proof.
  unfold index. change 1 with (Z.ones 1) at 1. rewrite Z.land_ones by lia. change (2 ^ 1) with 2.
  rewrite Z.add_comm, Z.mul_comm, Z.mod_add, Z.mod_mod by lia. done.
Qed.

Lemma update_sides r m l p :
  packet_type m = CONSUME0 → pool_index m = index J p → ingress_drop_probability l ≠ 0xffff →
  ∃ v, UpdateAndCheckWorkerBitmap r m l =
      (set_bitmap (jb_slot J) v r, m,
       Locals (worker_bitmap l) (side p (rg_bitmap r (jb_slot J))) (first_last_flag l)
         (side p (rg_bitmap r (jb_slot J)) .& worker_bitmap l) (ingress_drop_probability l) (drop_ctl l)) ∧
    side p v = side p (rg_bitmap r (jb_slot J)) .| worker_bitmap l ∧
    side (p + 1) v = side (p + 1) (rg_bitmap r (jb_slot J)) .& Z.lnot (worker_bitmap l).
Proof.
  intros Ht Hi Hp. unfold UpdateAndCheckWorkerBitmap.
  rewrite bool_decide_eq_false_2 by tauto. rewrite Ht, Hi, index_slot, index_set. simpl.
  unfold side. pose proof (Z.mod_pos_bound p 2).
  rewrite flip_phase.
  case_bool_decide as H1; [rewrite H1|assert (H2 : p `mod` 2 = 1) by lia; rewrite H2]; simpl;
    eexists; split; reflexivity || split; reflexivity.
Qed.

Definition harvest_md (w p : Z) (first last seen before : bool) : switchml_md :=
  Md (jb_group J) w (index J p) (jb_size J) IBV_MTU_256 (jb_type J) HARVEST7 (jb_port J w) (jb_last J)
    first last seen before.

(** The registers after a contribution that is new: the exponents, the sums,
    the count. *)
Definition new_exponents (w p : Z) (r : registers) : Z * Z :=
  if bool_decide (side p (rg_bitmap r (jb_slot J)) = 0) then (jb_e0 J w p, jb_e1 J w p)
  else (Z.max (rg_exponents r (index J p)).1 (jb_e0 J w p), Z.max (rg_exponents r (index J p)).2 (jb_e1 J w p)).
Definition new_sums (w p : Z) (r : registers) (n : Z) : Z * Z :=
  if bool_decide (side p (rg_bitmap r (jb_slot J)) = 0) then (jb_d0 J w p n, jb_d1 J w p n)
  else (((rg_significands r (index J p) n).1 + jb_d0 J w p n) `mod` 2 ^ 32,
        ((rg_significands r (index J p) n).2 + jb_d1 J w p n) `mod` 2 ^ 32).
Definition new_count (p : Z) (r : registers) : Z :=
  if bool_decide (rg_count r (index J p) = 0) then (jb_size J - 1) `mod` 2 ^ 8
  else rg_count r (index J p) - 1.
Definition new_regs (v : Z * Z) (w p : Z) (r : registers) : registers :=
  set_significands (index J p) (new_sums w p r)
    (set_exponents (index J p) (if jb_last J then new_exponents w p r else rg_exponents r (index J p))
       (set_count (index J p) (new_count p r) (set_bitmap (jb_slot J) v r))).

(** And after one that is not, in any pool index. *)
Definition same_data (i : Z) (r : registers) : registers :=
  set_significands i (λ n, rg_significands r i n) (set_exponents i (rg_exponents r i) r).

(** The second half of the pass of a contribution. *)
Definition arrived (w p : Z) : switchml_md := set_ingress_port (jb_port J w) (job_md J w p).

Lemma aggregate_new w p r v b f prob :
  b = side p (rg_bitmap r (jb_slot J)) →
  let res := aggregate alternate (jb_port J w)
    (set_count (index J p) (new_count p r) (set_bitmap (jb_slot J) v r)) (arrived w p)
    (Locals (worker_bit w) b f 0 prob false) (contribution J w p) (jb_d0 J w p) (jb_d1 J w p) [] in
  if bool_decide (f = 1) then
    res = (new_regs v w p r,
           Packet (harvest_md w p false true false (bool_decide (b ≠ 0)))
             (if jb_last J then (new_exponents w p r).1 else jb_e0 J w p)
             (jb_e1 J w p) p [λ n, (new_sums w p r n).2], Recirculate 68)
  else ∃ pk, res = (new_regs v w p r, pk, Drop).
Proof.
  intros Hb. unfold new_regs, new_sums, new_exponents. rewrite <- Hb. cbv zeta.
  case_bool_decide as Hf; [subst f|]; unfold aggregate, NextStep, next_step, harvest_md;
    cbn -[Z.modulo fn_insert Z.pow bool_decide new_count]; clear Hb;
    destruct (decide (b = 0)), (jb_last J); decide_conditions; first [reflexivity|by eexists].
Qed.

Lemma aggregate_again w p r v b f mr prob :
  b ≠ 0 → mr ≠ 0 →
  let r' := set_bitmap (jb_slot J) v r in
  let res := aggregate alternate (jb_port J w) r' (arrived w p)
    (Locals (worker_bit w) b f mr prob false) (contribution J w p) (jb_d0 J w p) (jb_d1 J w p) [] in
  let x0 := if jb_last J then (rg_exponents r (index J p)).1 else jb_e0 J w p in
  if bool_decide (f = 1) then
    res = (same_data (index J p) r',
           Packet (harvest_md w p false true true true) x0 (jb_e1 J w p) p [jb_d1 J w p], Recirculate 68)
  else if bool_decide (f = 0) then
    res = (same_data (index J p) r',
           Packet (harvest_md w p true false true true) x0 (jb_e1 J w p) p [jb_d1 J w p], Recirculate 68)
  else ∃ pk, res = (same_data (index J p) r', pk, Drop).
Proof.
  intros Hb Hmr. cbv zeta.
  case_bool_decide as Hf; [subst f|case_bool_decide as Hf0; [subst f|]]; 
    unfold aggregate, NextStep, next_step, harvest_md; cbn -[Z.modulo fn_insert Z.pow bool_decide new_count];
    decide_conditions; destruct (jb_last J); first [reflexivity|by eexists].
Qed.

(** The first half: the bitmap, then the count. *)
Definition old_side (p : Z) (r : registers) : Z := side p (rg_bitmap r (jb_slot J)).
Lemma ingress_contribution w p prob r :
  prob ≠ 0xffff → let b := old_side p r in let c := rg_count r (index J p) in
  ∃ v, side p v = b .| worker_bit w ∧
    side (p + 1) v = old_side (p + 1) r .& Z.lnot (worker_bit w) ∧
    Ingress alternate (jb_port J w) (initial (worker_bit w) prob false) r (contribution J w p) =
      let half r' f := aggregate alternate (jb_port J w) r' (arrived w p)
        (Locals (worker_bit w) b f (b .& worker_bit w) prob false) (contribution J w p)
        (jb_d0 J w p) (jb_d1 J w p) [] in
      if bool_decide (b .& worker_bit w = 0) then
        half (set_count (index J p) (new_count p r) (set_bitmap (jb_slot J) v r))
          (if bool_decide (jb_size J = 1) then 1 else c)
      else half (set_bitmap (jb_slot J) v r) (if bool_decide (jb_size J = 1) then 0 else c).
Proof.
  intros Hprob b c.
  destruct (update_sides r (arrived w p) (initial (worker_bit w) prob false) p)
    as (v & E & Hv1 & Hv2); [reflexivity|reflexivity|exact Hprob|].
  exists v. split; [exact Hv1|]. split; [exact Hv2|].
  unfold Ingress. change (bool_decide (packet_type (md (contribution J w p)) = CONSUME0)) with true.
  change (set_ingress_port (jb_port J w) (md (contribution J w p))) with (arrived w p).
  change (parse _ _) with (jb_d0 J w p, jb_d1 J w p, @nil block).
  change (drop_ctl (initial (worker_bit w) prob false)) with false.
  change (is_consume (packet_type (arrived w p))) with true. cbv iota zeta beta. rewrite E.
  unfold CountWorkers. change (is_consume (packet_type (arrived w p))) with true.
  unfold worker_count_action. cbn [num_workers arrived set_ingress_port job_md map_result].
  fold (old_side p r) b. change (worker_bitmap (initial (worker_bit w) prob false)) with (worker_bit w).
  fold (arrived w p).
  destruct (bool_decide (jb_size J = 1)), (bool_decide (b .& worker_bit w = 0)); reflexivity.
Qed.

(** The pass of a contribution that is new; it is the last one when the flag
    is one. *)
Lemma ingress_new w p prob r :
  prob ≠ 0xffff → old_side p r .& worker_bit w = 0 →
  ∃ v, side p v = old_side p r .| worker_bit w ∧
    side (p + 1) v = old_side (p + 1) r .& Z.lnot (worker_bit w) ∧
    let flag := if bool_decide (jb_size J = 1) then 1 else rg_count r (index J p) in
    let res := Ingress alternate (jb_port J w) (initial (worker_bit w) prob false) r (contribution J w p) in
    if bool_decide (flag = 1) then
      res = (new_regs v w p r,
             Packet (harvest_md w p false true false (bool_decide (old_side p r ≠ 0)))
               (if jb_last J then (new_exponents w p r).1 else jb_e0 J w p)
               (jb_e1 J w p) p [λ n, (new_sums w p r n).2], Recirculate 68)
    else ∃ pk, res = (new_regs v w p r, pk, Drop).
Proof.
  intros Hprob Hmap. destruct (ingress_contribution w p prob r Hprob) as (v & H1 & H2 & E).
  exists v. split; [done|]. split; [done|]. cbv zeta in *. rewrite E, Hmap.
  change (bool_decide (0 = 0)) with true. by apply aggregate_new.
Qed.

(** And of one that is not: a result is collected when the flag is zero. *)
Lemma ingress_again w p prob r :
  prob ≠ 0xffff → old_side p r .& worker_bit w ≠ 0 →
  ∃ v, side p v = old_side p r .| worker_bit w ∧
    side (p + 1) v = old_side (p + 1) r .& Z.lnot (worker_bit w) ∧
    let flag := if bool_decide (jb_size J = 1) then 0 else rg_count r (index J p) in
    let r' := same_data (index J p) (set_bitmap (jb_slot J) v r) in
    let x0 := if jb_last J then (rg_exponents r (index J p)).1 else jb_e0 J w p in
    let res := Ingress alternate (jb_port J w) (initial (worker_bit w) prob false) r (contribution J w p) in
    if bool_decide (flag = 1) then
      res = (r', Packet (harvest_md w p false true true true) x0 (jb_e1 J w p) p [jb_d1 J w p], Recirculate 68)
    else if bool_decide (flag = 0) then
      res = (r', Packet (harvest_md w p true false true true) x0 (jb_e1 J w p) p [jb_d1 J w p], Recirculate 68)
    else ∃ pk, res = (r', pk, Drop).
Proof.
  intros Hprob Hmap. destruct (ingress_contribution w p prob r Hprob) as (v & H1 & H2 & E).
  exists v. split; [done|]. split; [done|]. cbv zeta in *. rewrite E.
  rewrite (bool_decide_eq_false_2 (_ .& worker_bit w = 0)) by done. apply aggregate_again; [|done].
  intros Hb. apply Hmap. by rewrite Hb.
Qed.

(** The collecting pass: a result goes out to the group when it was the last
    contribution, back to the worker when the slot was complete before. *)
Lemma ingress_harvest w p first last seen before x0 x1 t b1 r :
  jb_type J ≠ FORWARD_ONLY →
  let res := Ingress alternate 68 (initial 0 0 false) r
    (Packet (harvest_md w p first last seen before) x0 x1 t [b1]) in
  let pk m := Packet m x0 (if jb_last J then (rg_exponents r (index J p)).2 else x1) t
    [λ n, (rg_significands r (index J p) n).1; b1] in
  let header m := pool_index m = index J p ∧ worker_id m = w in
  if seen && first then
    ∃ m, header m ∧ res = (same_data (index J p) r, pk m, Unicast (jb_port J w))
  else if negb seen && (negb first && last) then
    ∃ m, header m ∧ res = (same_data (index J p) r, pk m, Multicast (jb_group J))
  else ∃ pk, res = (same_data (index J p) r, pk, Drop).
Proof.
  intros Ht res. set (l := ReconstructWorkerBitmap (harvest_md w p first last seen before) (initial 0 0 false)).
  assert (Hres : res = aggregate alternate 68 r (harvest_md w p first last seen before) l
    (Packet (harvest_md w p first last seen before) x0 x1 t [b1]) (λ _, 0) (λ _, 0) [b1]) by reflexivity.
  rewrite Hres. clear res Hres. subst l. cbv zeta.
  unfold aggregate, NextStep, next_step, harvest_md.
  destruct seen, first, last; cbn -[Z.modulo fn_insert Z.pow bool_decide]; decide_conditions;
    destruct (jb_type J), (jb_last J); try done;
    first [by eexists|eexists; split; [|reflexivity]; done].
Qed.
End passes.
