(* ===== verification/Aggregated.v ===== *)
(** * What the aggregator sends back (p4/)

    The invariant of the network of [Aggregation], by which every result that
    leaves the switch is the one of its phase, and that the job never gets
    stuck. *)
From stdpp Require Import functions relations.
From S2P Require Import Prelude Worker DebugLog GetWorkerBitmap Pipeline Aggregation.
Import Pipe.

(** ** Sums and maxima *)

Lemma sum_perm f ws ws' : ws ≡ₚ ws' → sum f ws = sum f ws'.
Proof.
  intros H. unfold sum. f_equal. induction H; simpl; lia.
Qed.
Lemma sum_snoc f ws w : sum f (ws ++ [w]) = (sum f ws + f w) `mod` 2 ^ 32.
Proof.
  rewrite (sum_perm f (ws ++ [w]) (w :: ws)) by (by rewrite Permutation_app_comm).
  unfold sum. simpl. rewrite Z.add_mod_idemp_l by lia. f_equal. lia.
Qed.
Lemma sum_one f w : 0 ≤ f w < 2 ^ 32 → sum f [w] = f w.
Proof. intros H. unfold sum. simpl. rewrite Z.add_0_r. by apply Z.mod_small. Qed.

Lemma maximum_perm f ws ws' : ws ≡ₚ ws' → maximum f ws = maximum f ws'.
Proof. intros H. unfold maximum. induction H; simpl; lia. Qed.
Lemma maximum_snoc f ws w : maximum f (ws ++ [w]) = maximum f ws `max` f w.
Proof.
  rewrite (maximum_perm f (ws ++ [w]) (w :: ws)) by (by rewrite Permutation_app_comm).
  unfold maximum. simpl. lia.
Qed.
Lemma maximum_one f w : 0 ≤ f w → maximum f [w] = f w.
Proof. intros H. unfold maximum. simpl. lia. Qed.

Section invariant.
Context (J : job) (alternate : option Z) (HJ : job_ok J).

(** Registers that are the same as far as the slot is concerned. *)
Record agree (r r' : registers) : Prop := {
  ag_bitmap : rg_bitmap r' (jb_slot J) = rg_bitmap r (jb_slot J);
  ag_count p : rg_count r' (index J p) = rg_count r (index J p);
  ag_exponents p : rg_exponents r' (index J p) = rg_exponents r (index J p);
  ag_significands p n : rg_significands r' (index J p) n = rg_significands r (index J p) n
}.

Lemma lookup_same {A} (f : Z → A) i j : (<[i := f i]> f) j = f j.
Proof. destruct (decide (i = j)) as [->|]; [by rewrite fn_lookup_insert|by rewrite fn_lookup_insert_ne]. Qed.

Lemma agree_same i r : agree r (same_data i r).
Proof.
  split; intros; simpl; rewrite ?lookup_same; done.
Qed.

(** A pass of another slot's packet. *)
Lemma aggregate_slot port r m l p d0 d1 rest r' pk e :
  aggregate alternate port r m l p d0 d1 rest = (r', pk, e) →
  (pool_index m .>> 1 ≠ jb_slot J → agree r r') ∧ slot_of pk = pool_index m .>> 1.
Proof.
  unfold aggregate. case_bool_decide; [|intros; by simplify_eq].
  destruct (if last_packet_of_message m then _ else _) as [exps [x0 x1]]. simpl. intros E.
  simplify_eq. split; [|done]. intros Hs.
  assert (Hi : ∀ p, pool_index m ≠ index J p) by (intros q Hq; by rewrite Hq, index_slot in Hs).
  split; intros; simpl; rewrite ?fn_lookup_insert_ne; done.
Qed.

Lemma ingress_slot port l r p r' pk e :
  Ingress alternate port l r p = (r', pk, e) →
  (slot_of p ≠ jb_slot J → agree r r') ∧ slot_of pk = slot_of p.
Proof.
  assert (Hrefl : ∀ r, agree r r) by done.
  assert (Htrans : ∀ r1 r2 r3, agree r1 r2 → agree r2 r3 → agree r1 r3).
  { intros r1 r2 r3 [] []. split; intros; congruence. }
  unfold Ingress. set (x := if bool_decide (packet_type (md p) = CONSUME0) then _ else _).
  assert (Hx : pool_index x.1 = pool_index (md p)) by (unfold x; by repeat case_match).
  destruct x as [m1 l1]. simpl in Hx. destruct (parse _ _) as [[d0 d1] rest].
  set (y := if drop_ctl l1 then _ else _).
  assert (Hy : pool_index y.1.2 = pool_index (md p) ∧ (slot_of p ≠ jb_slot J → agree r y.1.1)).
  { unfold y, slot_of. destruct (drop_ctl l1); [done|]. destruct (is_consume _); [|done].
    rewrite <- Hx. assert (Hi : pool_index m1 .>> 1 ≠ jb_slot J → ∀ p, pool_index m1 ≠ index J p)
      by (intros Hs q Hq; by rewrite Hq, index_slot in Hs).
    unfold UpdateAndCheckWorkerBitmap, CountWorkers.
    repeat (case_match; simplify_eq; simpl); (split; [done|]); intros Hs; specialize (Hi Hs);
      split; intros; simpl; by rewrite ?fn_lookup_insert_ne. }
  destruct y as [[r1 m2] l2]. simpl in Hy. destruct Hy as [Hy1 Hy2].
  destruct (drop_ctl l2); [intros; simplify_eq; unfold slot_of in *; simpl; rewrite Hy1; auto|].
  intros E. apply aggregate_slot in E as [H1 H2]. unfold slot_of in *. rewrite Hy1 in *.
  split; [|done]. intros Hs. eapply Htrans; eauto.
Qed.

(** ** The invariant *)

Abbreviation ranks := (jb_ranks J).

(** The value of the count register when [ws] have contributed: how many are
    missing, and zero when it is none or all. *)
Definition missing (ws : list Z) : Z :=
  if bool_decide (ws = []) then 0 else jb_size J - Z.of_nat (length ws).

Definition sums (p : Z) (ws : list Z) (n : Z) : Z * Z :=
  (sum (λ w, jb_d0 J w p n) ws, sum (λ w, jb_d1 J w p n) ws).
Definition maxima (p : Z) (ws : list Z) : Z * Z :=
  (maximum (λ w, jb_e0 J w p) ws, maximum (λ w, jb_e1 J w p) ws).

(** The registers in phase [k] when [ws] have contributed: one set collects,
    the other still has the previous phase, with the bits of the workers that
    may ask for it. *)
Record holds (k : Z) (ws : list Z) (r : registers) : Prop := {
  hd_side : old_side J k r = collected ws;
  hd_other : old_side J (k + 1) r = if bool_decide (k = 0) then 0 else collected (filter (.∉ ws) ranks);
  hd_count : rg_count r (index J k) = missing ws;
  hd_count' : rg_count r (index J (k + 1)) = 0;
  hd_sums : ws ≠ [] → ∀ n, rg_significands r (index J k) n = sums k ws n;
  hd_sums' : k ≠ 0 → ∀ n, rg_significands r (index J (k + 1)) n = sums (k - 1) ranks n;
  hd_maxima : ws ≠ [] → jb_last J = true → rg_exponents r (index J k) = maxima k ws;
  hd_maxima' : k ≠ 0 → jb_last J = true → rg_exponents r (index J (k + 1)) = maxima (k - 1) ranks
}.

(** A packet in the recirculation queue, in phase [p]: another slot's, one that
    came too early to get a result, the last contribution of the phase, or one
    that comes again. *)
Inductive pending (p : Z) : packet → Prop :=
| pending_other pk : slot_of pk ≠ jb_slot J → pending p pk
| pending_early w q x0 x1 b before :
    pending p (Packet (harvest_md J w q false true true before) x0 x1 q [b])
| pending_last w x0 x1 b before :
    0 ≤ p → w ∈ ranks → (jb_last J = true → x0 = (maxima p ranks).1) → (∀ n, b n = (sums p ranks n).2) →
    pending p (Packet (harvest_md J w p false true false before) x0 x1 p [b])
| pending_again w x0 x1 before :
    0 ≤ p → w ∈ ranks → (jb_last J = true → x0 = (maxima p ranks).1) →
    pending p (Packet (harvest_md J w p true false true before) x0 x1 p [jb_d1 J w p]).

(** A packet that has left the switch, with all of the phases before [k]
    complete, and [k] itself if [full]. *)
Definition sound (x : exit * packet) (p : Z) : Prop :=
  (x.1 = Multicast (jb_group J) ∧ result J p (total1 J p) x.2) ∨
  (∃ w, w ∈ ranks ∧ x.1 = Unicast (jb_port J w) ∧ worker_id (md x.2) = w ∧ result J p (jb_d1 J w p) x.2).
Definition left (k : Z) (full : Prop) (x : exit * packet) : Prop :=
  slot_of x.2 = jb_slot J → ∃ p, 0 ≤ p ∧ (p < k ∨ p = k ∧ full) ∧ sound x p.

Definition full (ws : list Z) : Prop := length ws = length ranks.

Record inv (k : Z) (ws : list Z) (s : net) : Prop := {
  iv_phase : 0 ≤ k;
  iv_nodup : NoDup ws;
  iv_ranks : ∀ w, w ∈ ws → w ∈ ranks;
  iv_at : ∀ w, w ∈ ranks → nt_at s w = if bool_decide (w ∈ ws) then k else k - 1;
  iv_holds : holds k ws (nt_regs s);
  iv_queue : ∃ q1 q2, nt_queue s = q1 ++ q2 ∧ Forall (pending (k - 1)) q1 ∧ Forall (pending k) q2 ∧
    (¬ full ws → q2 = []) ∧ ((∃ w, emitted J w k s) → q1 = []);
  iv_out : Forall (left k (full ws)) (nt_out s)
}.

(** Facts on who has contributed. *)
Lemma ranks_nonneg (ws : list Z) : (∀ w, w ∈ ws → w ∈ ranks) → ∀ w, w ∈ ws → 0 ≤ w.
Proof. intros H w Hw. pose proof (jo_bits J HJ w (H w Hw)). lia. Qed.

Lemma full_perm (ws : list Z) : NoDup ws → (∀ w, w ∈ ws → w ∈ ranks) → full ws → ws ≡ₚ ranks.
Proof.
  intros Hnd Hsub Hf. apply submseteq_length_Permutation; [|by rewrite Hf].
  by apply NoDup_submseteq.
Qed.
Lemma full_all (ws : list Z) : NoDup ws → (∀ w, w ∈ ws → w ∈ ranks) → full ws ↔ ∀ w, w ∈ ranks → w ∈ ws.
Proof.
  intros Hnd Hsub. split.
  - intros Hf w Hw. by rewrite (full_perm ws Hnd Hsub Hf).
  - intros Hall. pose proof (jo_ranks J HJ). unfold full.
    apply Nat.le_antisymm; by apply submseteq_length, NoDup_submseteq.
Qed.
Lemma not_full_length (ws : list Z) (w : Z) :
  NoDup ws → (∀ w, w ∈ ws → w ∈ ranks) → w ∈ ranks → w ∉ ws → (length ws < length ranks)%nat.
Proof.
  intros Hnd Hsub Hw Hn.
  assert (H : (length (w :: ws) ≤ length ranks)%nat).
  { apply submseteq_length, NoDup_submseteq; [by constructor|].
    intros x [->|Hx]%elem_of_cons; [done|by apply Hsub]. }
  done.
Qed.

Lemma size_bounds : 1 ≤ jb_size J ≤ 32.
Proof.
  pose proof (jo_some J HJ). unfold jb_size. split; [destruct ranks; [done|simpl; lia]|].
  change 32 with (Z.of_nat (length (range 0 32))). apply inj_le, submseteq_length, NoDup_submseteq.
  - apply (jo_ranks J HJ).
  - intros w Hw. apply elem_of_range. by apply (jo_bits J HJ).
Qed.

(** The sets and pool indices alternate. *)
Lemma parity k k' : (k - k') `mod` 2 = 0 → k `mod` 2 = k' `mod` 2.
Proof.
  intros H. replace k with (k' + (k - k') `div` 2 * 2) by (pose proof (Z.div_mod (k - k') 2); lia).
  by rewrite Z.mod_add.
Qed.
Lemma index_even k k' : (k - k') `mod` 2 = 0 → index J k = index J k'.
Proof. intros H. unfold index. by rewrite (parity k k'). Qed.
Lemma old_side_even k k' r : (k - k') `mod` 2 = 0 → old_side J k r = old_side J k' r.
Proof. intros H. unfold old_side, side. by rewrite (parity k k'). Qed.
Lemma index_next k : index J k ≠ index J (k + 1).
Proof. unfold index. rewrite flip_phase. pose proof (Z.mod_pos_bound k 2). lia. Qed.

Lemma sides_eq p (u v : Z * Z) : side p u = side p v → side (p + 1) u = side (p + 1) v → u = v.
Proof.
  destruct u, v. unfold side. rewrite flip_phase. pose proof (Z.mod_pos_bound p 2).
  repeat case_bool_decide; simpl; intros; try lia; congruence.
Qed.

Lemma sides_any p a b : ∃ v, side p v = a ∧ side (p + 1) v = b.
Proof.
  exists (if bool_decide (p `mod` 2 = 0) then (a, b) else (b, a)). unfold side. rewrite flip_phase.
  pose proof (Z.mod_pos_bound p 2). repeat case_bool_decide; simpl; lia || done.
Qed.

Lemma holds_agree k ws r r' : holds k ws r → agree r r' → holds k ws r'.
Proof.
  intros [] []. split; intros; unfold old_side;
    rewrite ?ag_bitmap0, ?ag_count0, ?ag_exponents0, ?ag_significands0; auto.
Qed.

(** A contribution that is not new leaves the registers alone. *)
Lemma holds_repeat k ws r w p v :
  holds k ws r → (∀ w, w ∈ ws → w ∈ ranks) → w ∈ ranks →
  w ∈ ws ∧ p = k ∨ w ∉ ws ∧ k ≠ 0 ∧ p = k - 1 →
  side p v = old_side J p r .| worker_bit w → side (p + 1) v = old_side J (p + 1) r .& Z.lnot (worker_bit w) →
  old_side J p r .& worker_bit w ≠ 0 ∧
  agree r (same_data (index J p) (set_bitmap (jb_slot J) v r)).
Proof.
  intros [] Hsub Hw Hp Hv Hv'. pose proof (ranks_nonneg ws Hsub) as H0.
  assert (Hw0 : 0 ≤ w) by (by apply (ranks_nonneg ranks)).
  set (rest := filter (.∉ ws) ranks) in *.
  assert (Hrest : ∀ x, x ∈ rest → x ∉ ws ∧ 0 ≤ x).
  { intros x [Hx Hx']%list_elem_of_filter. split; [done|by apply (ranks_nonneg ranks)]. }
  assert (Hsides : ∃ A B : list Z, old_side J p r = collected A ∧ (old_side J (p + 1) r = collected B ∨ old_side J (p + 1) r = 0) ∧
    w ∈ A ∧ w ∉ B ∧ (∀ x, x ∈ A → 0 ≤ x) ∧ (∀ x, x ∈ B → 0 ≤ x)).
  { destruct Hp as [[Hin ->]|(Hn & Hk & ->)].
    - exists ws, rest. split; [done|]. rewrite hd_other0. split; [case_bool_decide; [by right|by left]|].
      split; [done|]. split; [by intros [? _]%Hrest|]. split; [done|]. by intros x [_ ?]%Hrest.
    - exists rest, ws. rewrite (old_side_even (k - 1) (k + 1)) by (by replace (k - 1 - (k + 1)) with (-2) by lia).
      replace (k - 1 + 1) with k by lia. rewrite hd_other0, bool_decide_eq_false_2 by done.
      split; [done|]. split; [by left|]. split; [by apply list_elem_of_filter|]. split; [done|].
      split; [by intros x [_ ?]%Hrest|done]. }
  destruct Hsides as (A & B & HA & HB & HwA & HwB & HA0 & HB0).
  split; [rewrite HA, collected_meets by done; tauto|].
  assert (Ev : v = rg_bitmap r (jb_slot J)).
  { apply (sides_eq p).
    - rewrite Hv, HA, collected_snoc. unfold old_side in HA. rewrite HA.
      apply collected_ext; [by intros x [->|Hx]%elem_of_cons; auto|].
      intros x. rewrite elem_of_cons. naive_solver.
    - rewrite Hv'. unfold old_side in *. destruct HB as [-> | ->]; [|done].
      rewrite collected_remove by done. apply collected_ext.
      + intros x [_ Hx]%list_elem_of_filter. auto.
      + intros x. rewrite list_elem_of_filter. naive_solver. }
  rewrite Ev. split; intros; simpl; rewrite ?lookup_same; done.
Qed.

Lemma repeat_seen k ws r w p :
  holds k ws r → (∀ w, w ∈ ws → w ∈ ranks) → w ∈ ranks →
  w ∈ ws ∧ p = k ∨ w ∉ ws ∧ k ≠ 0 ∧ p = k - 1 → old_side J p r .& worker_bit w ≠ 0.
Proof.
  intros Hr Hsub Hw Hp.
  destruct (sides_any p (old_side J p r .| worker_bit w) (old_side J (p + 1) r .& Z.lnot (worker_bit w)))
    as (v & Hv & Hv'). by eapply holds_repeat.
Qed.

(** The steps of a new contribution: the sums and the maxima, the count, the
    bits. *)
Lemma new_data k ws r w n :
  holds k ws r → (∀ x, x ∈ ws → x ∈ ranks) → w ∈ ranks →
  new_sums J w k r n = sums k (ws ++ [w]) n ∧
  (jb_last J = true → new_exponents J w k r = maxima k (ws ++ [w])).
Proof.
  intros [] Hsub Hw. pose proof (ranks_nonneg ws Hsub) as H0. unfold new_sums, new_exponents.
  fold (old_side J k r). rewrite hd_side0. unfold sums, maxima.
  destruct (jo_d J HJ w k n Hw), (jo_e J HJ w k Hw).
  destruct (decide (ws = [])) as [->|Hne].
  - rewrite bool_decide_eq_true_2 by done. cbn [app].
    rewrite !sum_one, !maximum_one by (done || lia). done.
  - rewrite bool_decide_eq_false_2 by (by rewrite collected_zero).
    rewrite !sum_snoc, !maximum_snoc, hd_sums0 by done. split; [done|]. intros Hl.
    by rewrite hd_maxima0.
Qed.

Lemma new_missing k ws r w :
  holds k ws r → NoDup ws → (∀ x, x ∈ ws → x ∈ ranks) → w ∈ ranks → w ∉ ws →
  new_count J k r = missing (ws ++ [w]).
Proof.
  intros [] Hnd Hsub Hw Hn. unfold new_count. rewrite hd_count0. pose proof size_bounds as Hs.
  pose proof (not_full_length ws w Hnd Hsub Hw Hn) as Hlt. unfold missing, jb_size in *.
  rewrite (bool_decide_eq_false_2 (ws ++ [w] = [])) by (by destruct ws). rewrite length_app. simpl.
  destruct ws as [|x ws]; simpl.
  - rewrite Z.mod_small; lia.
  - simpl in Hlt. rewrite bool_decide_eq_false_2 by lia. lia.
Qed.

Lemma holds_new k ws r w v :
  holds k ws r → NoDup ws → (∀ x, x ∈ ws → x ∈ ranks) → w ∈ ranks → w ∉ ws →
  side k v = old_side J k r .| worker_bit w → side (k + 1) v = old_side J (k + 1) r .& Z.lnot (worker_bit w) →
  holds k (ws ++ [w]) (new_regs J v w k r).
Proof.
  intros Hr Hnd Hsub Hw Hn Hv Hv'. pose proof (new_missing k ws r w Hr Hnd Hsub Hw Hn) as Hc.
  pose proof (λ n, new_data k ws r w n Hr Hsub Hw) as Hd. destruct Hr.
  pose proof (ranks_nonneg ws Hsub) as H0. pose proof (ranks_nonneg ranks (λ _ H, H)) as H0'.
  pose proof (index_next k) as Hne.
  split; unfold old_side; cbn [new_regs rg_bitmap rg_count rg_exponents rg_significands
    set_significands set_exponents set_count set_bitmap];
    rewrite ?fn_lookup_insert, ?(fn_lookup_insert_ne _ (index J k)) by done; auto.
  - rewrite Hv, hd_side0, collected_snoc. apply collected_ext.
    + intros x [->|Hx]%elem_of_cons; auto.
    + intros x. rewrite elem_of_cons, elem_of_app, list_elem_of_singleton. tauto.
  - rewrite Hv', hd_other0. case_bool_decide; [done|].
    rewrite collected_remove by (auto; intros x [_ Hx]%list_elem_of_filter; auto).
    apply collected_ext; [intros x [_ [_ Hx]%list_elem_of_filter]%list_elem_of_filter; auto|].
    intros x. rewrite !list_elem_of_filter, elem_of_app, list_elem_of_singleton. tauto.
  - intros _ n. apply (Hd n).
  - intros _ Hl. rewrite Hl. by apply (Hd 0).
Qed.

(** ** The steps *)

Lemma left_mono k (P Q : Prop) x : (P → Q) → left k P x → left k Q x.
Proof. intros H Hl Hs. destruct (Hl Hs) as (p & ? & ? & ?). exists p. naive_solver. Qed.

Lemma sound_tag x p : sound x p → tag x.2 = p.
Proof. by intros [[_ [? _]]|(w & _ & _ & _ & [? _])]. Qed.

(** A result of the current phase has left only if it is complete. *)
Lemma emitted_full k ws s : inv k ws s → (∃ w, emitted J w k s) → full ws.
Proof.
  intros [] (w & x & Hx & Hs & Ht & _). rewrite Forall_forall in iv_out0.
  destruct (iv_out0 x Hx Hs) as (p & _ & [Hp|[_ Hp]] & Hsound%sound_tag); [lia|done].
Qed.

Lemma full_dec ws : full ws ∨ ¬ full ws.
Proof. unfold full. lia. Qed.

Lemma inv_arrive k ws ws' s r at' items :
  inv k ws s → NoDup ws' → (∀ w, w ∈ ws' → w ∈ ranks) → (full ws → full ws') →
  (∀ w, w ∈ ranks → at' w = if bool_decide (w ∈ ws') then k else k - 1) → holds k ws' r →
  (full ws' → Forall (pending k) items) → (¬ full ws' → Forall (pending (k - 1)) items) →
  inv k ws' (Net r (nt_queue s ++ items) at' (nt_out s)).
Proof.
  intros Hi Hnd Hsub Hmono Hat Hr Hfull Hnot. pose proof (emitted_full k ws s Hi) as He.
  destruct Hi. destruct iv_queue0 as (q1 & q2 & Hq & Hq1 & Hq2 & Hq3 & Hq4). simpl in *.
  split; try done.
  - destruct (full_dec ws') as [Hf|Hf].
    + exists q1, (q2 ++ items). simpl. rewrite Hq, app_assoc. split; [done|]. split; [done|].
      split; [apply Forall_app; auto|]. split; [done|exact Hq4].
    + exists (q1 ++ items), []. simpl. rewrite Hq, (Hq3 (λ H, Hf (Hmono H))), !app_nil_r, Forall_app.
      split; [done|]. split; [auto|]. split; [done|]. split; [done|].
      intros Hem. by specialize (Hf (Hmono (He Hem))).
  - eapply Forall_impl; [exact iv_out0|]. intros x. by apply left_mono.
Qed.

Lemma inv_shrink k ws s p0 q r :
  inv k ws s → nt_queue s = p0 :: q → agree (nt_regs s) r →
  inv k ws (Net r q (nt_at s) (nt_out s)) ∧
  (pending (k - 1) p0 ∨ pending k p0 ∧ full ws ∧ Forall (pending k) q).
Proof.
  intros [] Hq Hr. destruct iv_queue0 as (q1 & q2 & Hq0 & Hq1 & Hq2 & Hq3 & Hq4). rewrite Hq in Hq0.
  split.
  - split; try done; [by eapply holds_agree|]. simpl.
    destruct q1 as [|x q1]; simpl in Hq0.
    + exists [], q. destruct q2 as [|y q2]; [done|]. simplify_eq. apply Forall_cons in Hq2 as [_ Hq2].
      split; [done|]. split; [done|]. split; [done|]. split; [|done]. intros Hf. by specialize (Hq3 Hf).
    + simplify_eq. apply Forall_cons in Hq1 as [_ Hq1]. exists q1, q2.
      split; [done|]. split; [done|]. split; [done|]. split; [done|]. intros He. by specialize (Hq4 He).
  - destruct q1 as [|x q1]; simpl in Hq0.
    + subst q2. apply Forall_cons in Hq2 as [H1 H2]. right. split; [done|]. split; [|done].
      destruct (full_dec ws) as [|Hf]; [done|by specialize (Hq3 Hf)].
    + simplify_eq. apply Forall_cons in Hq1 as [H1 _]. by left.
Qed.

Lemma inv_emit k ws s x :
  inv k ws s → left k (full ws) x →
  (slot_of x.2 = jb_slot J → tag x.2 = k → full ws ∧ Forall (pending k) (nt_queue s)) →
  inv k ws (Net (nt_regs s) (nt_queue s) (nt_at s) (nt_out s ++ [x])).
Proof.
  intros [] Hx Hk. split; try done.
  - destruct (decide (slot_of x.2 = jb_slot J ∧ tag x.2 = k)) as [[Hs Ht]|Hne].
    + destruct (Hk Hs Ht) as [Hf Hq]. exists [], (nt_queue s). simpl. by repeat split.
    + destruct iv_queue0 as (q1 & q2 & Hq & Hq1 & Hq2 & Hq3 & Hq4). exists q1, q2.
      repeat (split; [done|]). intros (w & y & Hy & Hs & Ht & Hw). apply Hq4. simpl in Hy.
      apply elem_of_app in Hy as [Hy|Hy%list_elem_of_singleton]; [|subst y; by destruct Hne].
      exists w, y. done.
  - simpl. apply Forall_app. split; [done|]. by apply Forall_singleton.
Qed.

(** What another slot's packet does. *)
Lemma inv_other k ws s r pk e :
  inv k ws s → agree (nt_regs s) r → slot_of pk ≠ jb_slot J →
  inv k ws (route e pk (Net r (nt_queue s) (nt_at s) (nt_out s))).
Proof.
  intros Hi Hr Hs.
  assert (Hi' : inv k ws (Net r (nt_queue s) (nt_at s) (nt_out s))).
  { destruct Hi. split; try done. by eapply holds_agree. }
  assert (Hleft : left k (full ws) (e, pk)) by (by intros H).
  unfold route. destruct e; try done.
  - destruct (decide _); [|done]. simpl. pose proof Hi' as []. simpl in *.
    apply (inv_arrive k ws ws _ r (nt_at s) [pk] Hi'); try done;
      intros _; apply Forall_singleton; by apply pending_other.
  - by apply (inv_emit k ws _ _ Hi').
  - by apply (inv_emit k ws _ _ Hi').
Qed.

Lemma snoc_ranks ws w :
  NoDup ws → (∀ x, x ∈ ws → x ∈ ranks) → w ∈ ranks → w ∉ ws →
  NoDup (ws ++ [w]) ∧ ∀ x, x ∈ ws ++ [w] → x ∈ ranks.
Proof.
  intros Hnd Hsub Hw Hn. split; [|intros x [Hx| ->%list_elem_of_singleton]%elem_of_app; auto].
  apply NoDup_app. split; [done|]. split; [|by apply NoDup_singleton].
  intros x Hx ->%list_elem_of_singleton. done.
Qed.

(** A new contribution is flagged as the last one when it completes the set. *)
Lemma new_flag k ws r :
  holds k ws r → ∀ w, (length ws < length ranks)%nat →
  (if bool_decide (jb_size J = 1) then 1 else rg_count r (index J k)) = 1 ↔ full (ws ++ [w]).
Proof.
  intros Hr w Hlt. rewrite (hd_count _ _ _ Hr). unfold missing, full, jb_size. rewrite length_app. simpl.
  destruct ws as [|x ws]; simpl in *; repeat (case_bool_decide; simpl in *); first [done|lia].
Qed.

(** A contribution that is new. *)
Lemma inv_new k ws s w prob r pk e :
  inv k ws s → w ∈ ranks → w ∉ ws → prob ≠ 0xffff →
  Ingress alternate (jb_port J w) (initial (worker_bit w) prob false) (nt_regs s) (contribution J w k) =
    (r, pk, e) →
  inv k (ws ++ [w]) (route e pk (Net r (nt_queue s) (<[w := k]> (nt_at s)) (nt_out s))).
Proof.
  intros Hi Hw Hn Hprob E. pose proof Hi as []. pose proof (ranks_nonneg ws iv_ranks0) as H0.
  assert (Hw0 : 0 ≤ w) by (by apply (ranks_nonneg ranks)).
  destruct (ingress_new J alternate w k prob (nt_regs s)) as (v & Hv & Hv' & Hres); [done| |].
  { rewrite (hd_side _ _ _ iv_holds0). by apply collected_meets. }
  rewrite E in Hres. cbv zeta in Hres.
  pose proof (holds_new k ws _ w v iv_holds0 iv_nodup0 iv_ranks0 Hw Hn Hv Hv') as Hr.
  pose proof (not_full_length ws w iv_nodup0 iv_ranks0 Hw Hn) as Hlt.
  pose proof (new_flag k ws _ iv_holds0 w Hlt) as Hflag.
  destruct (snoc_ranks ws w iv_nodup0 iv_ranks0 Hw Hn) as [Hnd Hsub].
  assert (Hat : ∀ x, x ∈ ranks → (<[w := k]> (nt_at s)) x = if bool_decide (x ∈ ws ++ [w]) then k else k - 1).
  { intros x Hx. destruct (decide (x = w)) as [->|Hne].
    - rewrite fn_lookup_insert, bool_decide_eq_true_2; [done|]. apply elem_of_app. right. by left.
    - rewrite fn_lookup_insert_ne, iv_at0 by done. erewrite bool_decide_ext; [done|].
      rewrite elem_of_app, list_elem_of_singleton. tauto. }
  assert (Hmono : full ws → full (ws ++ [w])) by (unfold full; lia).
  set (flag := if bool_decide (jb_size J = 1) then 1 else _) in Hres, Hflag. clearbody flag.
  case_bool_decide as Hf.
  - apply Hflag in Hf. simplify_eq. simpl. apply (inv_arrive k ws (ws ++ [w]) s); try done.
    intros _. apply Forall_singleton.
    pose proof (full_perm _ Hnd Hsub Hf) as Hperm.
    apply pending_last; [done|done| |].
    + intros Hl. rewrite Hl. rewrite (proj2 (new_data k ws _ w 0 iv_holds0 iv_ranks0 Hw)) by done.
      by apply maximum_perm.
    + intros n. rewrite (proj1 (new_data k ws _ w n iv_holds0 iv_ranks0 Hw)). by apply sum_perm.
  - destruct Hres as [pk' Hres]. simplify_eq. simpl.
    rewrite <- (app_nil_r (nt_queue s)). apply (inv_arrive k ws (ws ++ [w]) s); try done.
Qed.

(** The flag a packet finds that comes again, and the exponent it reads. *)
Lemma again_flag k ws r w p :
  holds k ws r → NoDup ws → (∀ x, x ∈ ws → x ∈ ranks) → w ∈ ranks →
  w ∈ ws ∧ p = k ∨ w ∉ ws ∧ k ≠ 0 ∧ p = k - 1 →
  let flag := if bool_decide (jb_size J = 1) then 0 else rg_count r (index J p) in
  (flag = 1 → ¬ full ws) ∧
  (flag = 0 → (p = k → full ws) ∧ (jb_last J = true → (rg_exponents r (index J p)).1 = (maxima p ranks).1)).
Proof.
  intros [] Hnd Hsub Hw [[Hin ->]|(Hn & Hk & ->)] flag.
  - assert (Hws : ws ≠ []) by (intros ->; by apply not_elem_of_nil in Hin).
    assert (Hle : (length ws ≤ length ranks)%nat) by (by apply submseteq_length, NoDup_submseteq).
    assert (Hpos : (0 < length ws)%nat) by (destruct ws; [done|simpl; lia]).
    assert (Hflag : flag = 1 ∧ ¬ full ws ∨ flag = 0 ∧ full ws ∨ 1 < flag).
    { unfold flag. rewrite hd_count0. unfold missing, full, jb_size.
      rewrite (bool_decide_eq_false_2 (ws = [])) by done. destruct (bool_decide_reflect (Z.of_nat (length ranks) = 1)); lia. }
    split; [intros; destruct Hflag as [[??]|[[??]|?]]; [done|lia|lia]|]. intros H0.
    destruct Hflag as [[??]|[[_ Hf]|?]]; [lia| |lia]. split; [done|]. intros Hl.
    rewrite hd_maxima0 by done. simpl. apply maximum_perm. by apply full_perm.
  - assert (Hi : index J (k - 1) = index J (k + 1))
      by (apply index_even; by replace (k - 1 - (k + 1)) with (-2) by lia).
    unfold flag. rewrite Hi, hd_count'0. split; [by destruct (bool_decide (jb_size J = 1))|]. intros _.
    split; [lia|]. intros Hl. by rewrite hd_maxima'0.
Qed.

Lemma inv_repeat k ws s w p prob r pk e :
  inv k ws s → w ∈ ranks → w ∈ ws ∧ p = k ∨ w ∉ ws ∧ k ≠ 0 ∧ p = k - 1 → prob ≠ 0xffff →
  Ingress alternate (jb_port J w) (initial (worker_bit w) prob false) (nt_regs s) (contribution J w p) =
    (r, pk, e) →
  inv k ws (route e pk (Net r (nt_queue s) (<[w := p]> (nt_at s)) (nt_out s))).
Proof.
  intros Hi Hw Hp Hprob E. pose proof Hi as [].
  pose proof (repeat_seen k ws _ w p iv_holds0 iv_ranks0 Hw Hp) as Hmap.
  destruct (ingress_again J alternate w p prob (nt_regs s) Hprob Hmap) as (v & Hv & Hv' & Hres).
  rewrite E in Hres. cbv zeta in Hres.
  destruct (holds_repeat k ws _ w p v iv_holds0 iv_ranks0 Hw Hp Hv Hv') as [_ Hr].
  apply (holds_agree k ws) in Hr; [|done].
  assert (Hat : ∀ x, x ∈ ranks → (<[w := p]> (nt_at s)) x = if bool_decide (x ∈ ws) then k else k - 1).
  { intros x Hx. destruct (decide (x = w)) as [->|Hne]; [|by rewrite fn_lookup_insert_ne, iv_at0].
    rewrite fn_lookup_insert. destruct Hp as [[Hin ->]|(Hn & _ & ->)];
      [by rewrite bool_decide_eq_true_2|by rewrite bool_decide_eq_false_2]. }
  destruct (again_flag k ws _ w p iv_holds0 iv_nodup0 iv_ranks0 Hw Hp) as [Hearly Hagain].
  set (flag := if bool_decide (jb_size J = 1) then 0 else _) in Hres, Hearly, Hagain. clearbody flag.
  case_bool_decide as Hf1; [|case_bool_decide as Hf0].
  - pose proof (Hearly Hf1) as Hnf. simplify_eq. simpl. apply (inv_arrive k ws ws s); try done.
    intros _. apply Forall_singleton. apply pending_early.
  - destruct (Hagain Hf0) as [Hfull Hx]. simplify_eq. simpl. apply (inv_arrive k ws ws s); try done.
    + intros Hf. apply Forall_singleton. destruct Hp as [[Hin ->]|(Hn & Hk & ->)].
      * apply pending_again; [done|done|]. intros Hl. rewrite Hl. by apply Hx.
      * destruct Hn. by apply (proj1 (full_all ws iv_nodup0 iv_ranks0) Hf).
    + intros Hf. apply Forall_singleton. destruct Hp as [[Hin ->]|(Hn & Hk & ->)]; [by destruct Hf; apply Hfull|].
      apply pending_again; [lia|done|]. intros Hl. rewrite Hl. by apply Hx.
  - destruct Hres as [pk' Hres]. simplify_eq. simpl.
    rewrite <- (app_nil_r (nt_queue s)). by apply (inv_arrive k ws ws s).
Qed.

(** What is read of a phase whose set is complete. *)
Lemma reads_total k ws r p :
  holds k ws r → NoDup ws → (∀ x, x ∈ ws → x ∈ ranks) →
  p = k ∧ full ws ∨ p = k - 1 ∧ 0 ≤ p →
  (∀ n, rg_significands r (index J p) n = sums p ranks n) ∧
  (jb_last J = true → rg_exponents r (index J p) = maxima p ranks).
Proof.
  intros [] Hnd Hsub [[-> Hf]|[-> H0]].
  - pose proof (full_perm ws Hnd Hsub Hf) as Hperm.
    assert (Hws : ws ≠ []).
    { intros ->. apply (jo_some J HJ). symmetry. by apply Permutation_nil_l. }
    split; [intros n; rewrite hd_sums0 by done; unfold sums; by rewrite !(sum_perm _ _ _ Hperm)|].
    intros Hl. rewrite hd_maxima0 by done. unfold maxima. by rewrite !(maximum_perm _ _ _ Hperm).
  - assert (Hi : index J (k - 1) = index J (k + 1))
      by (apply index_even; by replace (k - 1 - (k + 1)) with (-2) by lia).
    rewrite Hi. split; [intros n; by rewrite hd_sums'0 by lia|].
    intros Hl. by rewrite hd_maxima'0 by (done || lia).
Qed.

(** A result that is read when the set of its phase is complete. *)
Lemma result_read k ws r p m x0 x1 b1 second :
  holds k ws r → NoDup ws → (∀ x, x ∈ ws → x ∈ ranks) →
  p = k ∧ full ws ∨ p = k - 1 ∧ 0 ≤ p →
  pool_index m = index J p → (jb_last J = true → x0 = (maxima p ranks).1) → (∀ n, b1 n = second n) →
  result J p second
    (Packet m x0 (if jb_last J then (rg_exponents r (index J p)).2 else x1) p
       [λ n, (rg_significands r (index J p) n).1; b1]).
Proof.
  intros Hr Hnd Hsub Hp Hm Hx Hb. destruct (reads_total k ws r p Hr Hnd Hsub Hp) as [Hs He].
  split; [done|]. split; [done|]. split.
  - intros Hl. simpl. rewrite Hl. split; [by apply Hx|by rewrite He].
  - eexists _, _. split; [reflexivity|]. intros n. split; [by rewrite Hs|apply Hb].
Qed.

(** The head of the recirculation queue, of phase [p]. *)
Lemma inv_pop_pending k ws s p p0 q r pk e :
  inv k ws s → nt_queue s = p0 :: q → pending p p0 →
  p = k ∧ full ws ∧ Forall (pending k) q ∨ p = k - 1 →
  Ingress alternate 68 (initial 0 0 false) (nt_regs s) p0 = (r, pk, e) →
  inv k ws (route e pk (Net r q (nt_at s) (nt_out s))).
Proof.
  intros Hi Hq Hp0 Hp E. pose proof Hi as []. pose proof (jo_type J HJ) as Ht.
  assert (Hshrink : agree (nt_regs s) r → inv k ws (Net r q (nt_at s) (nt_out s))).
  { intros Hr. by destruct (inv_shrink k ws s p0 q r Hi Hq Hr). }
  assert (Hemit : agree (nt_regs s) r → 0 ≤ p → sound (e, pk) p →
    inv k ws (Net r q (nt_at s) (nt_out s ++ [(e, pk)]))).
  { intros Hr H0 Hs. apply (inv_emit k ws _ (e, pk) (Hshrink Hr)).
    - intros _. exists p. split; [done|]. split; [|done]. destruct Hp as [(-> & ? & _)| ->]; [by right|left; lia].
    - intros _ Htag. simpl. rewrite (sound_tag _ _ Hs) in Htag. destruct Hp as [(_ & ? & ?)|Hp]; [done|lia]. }
  assert (Hread : 0 ≤ p → p = k ∧ full ws ∨ p = k - 1 ∧ 0 ≤ p) by (destruct Hp as [(? & ? & _)|?]; tauto).
  destruct Hp0 as [p0 Hslot|w p1 x0 x1 b before|w x0 x1 b before H0 Hw Hx Hb|w x0 x1 before H0 Hw Hx].
  - apply ingress_slot in E as [Hr Hs]. apply (inv_other k ws _ r pk e (Hshrink (Hr Hslot))); [done|].
    by rewrite Hs.
  - destruct (ingress_harvest J alternate w p1 false true true before x0 x1 p1 b (nt_regs s) Ht) as (pk' & E').
    rewrite E in E'. simplify_eq. apply Hshrink, agree_same.
  - destruct (ingress_harvest J alternate w p false true false before x0 x1 p b (nt_regs s) Ht)
      as (m & [Hm1 Hm2] & E'). rewrite E in E'. simplify_eq. simpl.
    apply Hemit; [apply agree_same|done|]. left. split; [done|].
    apply (result_read k ws); auto.
  - destruct (ingress_harvest J alternate w p true false true before x0 x1 p (jb_d1 J w p) (nt_regs s) Ht)
      as (m & [Hm1 Hm2] & E'). rewrite E in E'. simplify_eq. simpl.
    apply Hemit; [apply agree_same|done|]. right. exists (worker_id m). repeat (split; [done|]).
    apply (result_read k ws); auto.
Qed.

Lemma inv_pop k ws s p0 q r pk e :
  inv k ws s → nt_queue s = p0 :: q →
  Ingress alternate 68 (initial 0 0 false) (nt_regs s) p0 = (r, pk, e) →
  inv k ws (route e pk (Net r q (nt_at s) (nt_out s))).
Proof.
  intros Hi Hq E. assert (Hrefl : agree (nt_regs s) (nt_regs s)) by done.
  destruct (inv_shrink k ws s p0 q _ Hi Hq Hrefl) as [_ [Hp|(Hp & Hf & Hall)]].
  - by apply (inv_pop_pending k ws s (k - 1) p0 q r pk e Hi Hq Hp (or_intror eq_refl)).
  - apply (inv_pop_pending k ws s k p0 q r pk e Hi Hq Hp); [by left|done].
Qed.

(** A complete phase seen as the start of the next one. *)
Lemma holds_advance k ws r :
  holds k ws r → 0 ≤ k → (∀ x, x ∈ ws → x ∈ ranks) → ws ≡ₚ ranks → holds (k + 1) [] r.
Proof.
  intros [] H0 Hsub Hperm. assert (Hws : ws ≠ []).
  { intros ->. apply (jo_some J HJ). symmetry. by apply Permutation_nil_l. }
  assert (Hparity : (k + 1 + 1 - k) `mod` 2 = 0) by (by replace (k + 1 + 1 - k) with 2 by lia).
  split; try done; rewrite ?(index_even (k + 1 + 1) k), ?(old_side_even (k + 1 + 1) k) by done;
    replace (k + 1 - 1) with k by lia.
  - rewrite hd_other0. case_bool_decide; [done|].
    apply (collected_ext _ []); [intros w [_ Hw]%list_elem_of_filter; by apply (ranks_nonneg ranks)|].
    intros w. rewrite list_elem_of_filter, Hperm. split; [tauto|by intros ?%not_elem_of_nil].
  - rewrite hd_side0, bool_decide_eq_false_2 by lia.
    apply collected_ext; [by apply ranks_nonneg|].
    intros w. rewrite list_elem_of_filter, Hperm. split; [|tauto]. intros H. split; [apply not_elem_of_nil|done].
  - rewrite hd_count0. unfold missing. rewrite bool_decide_eq_false_2 by done.
    apply Permutation_length in Hperm. unfold jb_size. lia.
  - intros _ n. rewrite hd_sums0 by done. unfold sums. by rewrite !(sum_perm _ ws ranks).
  - intros _ Hl. rewrite hd_maxima0 by done. unfold maxima. by rewrite !(maximum_perm _ ws ranks).
Qed.

(** The next phase begins when a worker has the result of this one. *)
Lemma inv_advance k ws s : inv k ws s → (∃ w, emitted J w k s) → inv (k + 1) [] s.
Proof.
  intros Hi He. pose proof (emitted_full k ws s Hi He) as Hf. destruct Hi as [].
  pose proof (full_perm ws iv_nodup0 iv_ranks0 Hf) as Hperm.
  split; try done; [lia|apply NoDup_nil_2|by intros w ?%not_elem_of_nil| |by eapply holds_advance| |].
  - intros w Hw. rewrite iv_at0 by done. rewrite !bool_decide_decide.
    rewrite decide_True by (by rewrite Hperm). rewrite decide_False by apply not_elem_of_nil. lia.
  - destruct iv_queue0 as (q1 & q2 & Hq & Hq1 & Hq2 & Hq3 & Hq4). exists q2, [].
    rewrite (Hq4 He) in Hq. replace (k + 1 - 1) with k by lia. rewrite app_nil_r.
    repeat (split; [done|]). intros (w & x & Hx & Hs & Ht & _). rewrite Forall_forall in iv_out0.
    destruct (iv_out0 x Hx Hs) as (p & _ & Hp & Hsound%sound_tag). destruct Hp as [?|[??]]; lia.
  - eapply Forall_impl; [exact iv_out0|]. intros x Hl Hs. destruct (Hl Hs) as (p & ? & Hp & ?).
    exists p. split; [done|]. split; [|done]. left. destruct Hp as [?|[??]]; lia.
Qed.

Lemma inv_init : inv 0 [] net_init.
Proof.
  split; [done|apply NoDup_nil_2|by intros w ?%not_elem_of_nil| | | |apply Forall_nil_2].
  - intros w _. by rewrite bool_decide_eq_false_2 by apply not_elem_of_nil.
  - split; try done; unfold old_side, side; case_bool_decide; done.
  - exists [], []. by repeat split.
Qed.

Lemma inv_step k ws s s' : inv k ws s → net_step J alternate s s' → ∃ k' ws', inv k' ws' s'.
Proof.
  intros Hi Hstep. destruct Hstep as [s w p prob r pk e Hw [H0 Hsend] Hprob E|s p0 q r pk e Hq E|s port l p0 r pk e Hs E].
  - pose proof Hi as []. rewrite (iv_at0 w Hw) in Hsend.
    destruct (bool_decide_reflect (w ∈ ws)) as [Hin|Hn].
    + destruct Hsend as [->|[-> [?|He]]]; [|lia|].
      * exists k, ws. eapply inv_repeat; eauto.
      * replace (k + 1 - 1) with k in He by lia.
        exists (k + 1), ([] ++ [w]). eapply inv_new; eauto; [|apply not_elem_of_nil].
        eapply inv_advance; eauto.
    + destruct Hsend as [->|[-> _]].
      * exists k, ws. eapply inv_repeat; eauto. right. split; [done|]. lia.
      * exists k, (ws ++ [w]). replace (k - 1 + 1) with k in * by lia. eapply inv_new; eauto.
  - exists k, ws. eapply inv_pop; eauto.
  - exists k, ws. apply ingress_slot in E as [Hr Hpk]. apply inv_other; auto. by rewrite Hpk.
Qed.

Lemma inv_reachable s : net_reachable J alternate s → ∃ k ws, inv k ws s.
Proof.
  intros Hs. unfold net_reachable in Hs. revert s Hs. apply rtc_ind_r.
  - exists 0, []. exact inv_init.
  - intros y z _ Hstep (k & ws & Hi). by eapply inv_step.
Qed.

Lemma out_sound s x :
  net_reachable J alternate s → x ∈ nt_out s → slot_of x.2 = jb_slot J →
  ∃ p, 0 ≤ p ∧
    ((x.1 = Multicast (jb_group J) ∧ result J p (total1 J p) x.2) ∨
     (∃ w, w ∈ jb_ranks J ∧ x.1 = Unicast (jb_port J w) ∧ worker_id (md x.2) = w ∧
       result J p (jb_d1 J w p) x.2)).
Proof.
  intros (k & ws & [])%inv_reachable Hx Hs. rewrite Forall_forall in iv_out0.
  destruct (iv_out0 x Hx Hs) as (p & H0 & _ & Hsound). by exists p.
Qed.

(** C1. Whatever is lost, sent again or reordered between the workers, and
    whatever other slots do in between, a result the switch broadcasts is the
    sum of what all the workers contributed to its phase, each once, word by
    word modulo 2^32, with the maximum of each exponent; a result it sends
    back to one worker has the same exponents and the same first block. *)
Theorem aggregation_sound s x :
  net_reachable J alternate s → x ∈ nt_out s → slot_of x.2 = jb_slot J →
  ∃ p, 0 ≤ p ∧
    ((x.1 = Multicast (jb_group J) ∧ result J p (total1 J p) x.2) ∨
     (∃ w, w ∈ jb_ranks J ∧ x.1 = Unicast (jb_port J w) ∧ worker_id (md x.2) = w ∧
       result J p (jb_d1 J w p) x.2)).
Proof. apply out_sound. Qed.
End invariant.
