(* ===== verification/AggregationLive.v ===== *)
(** * The aggregator never gets stuck (p4/)

    From every state of the network of [Aggregation] the job can go on: the
    workers that have not contributed can do so, after asking again for the
    result they have not got, and every worker then gets the result. *)
From stdpp Require Import functions relations.
From S2P Require Import Prelude Worker DebugLog GetWorkerBitmap Pipeline Recirculation Aggregation.
From S2P Require Import Aggregated.
Import Pipe.

Section liveness.
Context (J : job) (alternate : option Z) (HJ : job_ok J).
Abbreviation ranks := (jb_ranks J).
Abbreviation steps := (rtc (net_step J alternate)).

(** What has left stays so. *)
Definition keeps_out (s s' : net) : Prop := ∀ x, x ∈ nt_out s → x ∈ nt_out s'.
#[local] Instance keeps_out_preorder : PreOrder keeps_out.
Proof. split; [by intros s x|intros s1 s2 s3 H1 H2 x Hx; by apply H2, H1]. Qed.

Lemma emitted_keeps w p s s' : keeps_out s s' → emitted J w p s → emitted J w p s'.
Proof. intros H (x & Hx & Hr). exists x. split; [by apply H|done]. Qed.
Lemma route_keeps e pk s : keeps_out s (route e pk s).
Proof.
  intros x Hx. unfold route. destruct e; simpl; try done; [by case_decide|..]; apply elem_of_app; by left.
Qed.

(** ** The queue can be worked off *)

Definition work (q : list packet) : nat :=
  sum_list_with (λ p, 11 - pass_rank (packet_type (md p)))%nat q.

(** Asked again for, a result is in the queue like this. *)
Definition asked (w p : Z) (q : list packet) : Prop :=
  ∃ x0 x1 b before, Packet (harvest_md J w p true false true before) x0 x1 p [b] ∈ q.

(** One packet of the queue. *)
Lemma pop_step k ws s p0 q :
  inv J k ws s → nt_queue s = p0 :: q →
  ∃ s', net_step J alternate s s' ∧ inv J k ws s' ∧ (work (nt_queue s') < work (nt_queue s))%nat ∧
    nt_at s' = nt_at s ∧ keeps_out s s' ∧
    ∀ w p, asked w p (nt_queue s) → asked w p (nt_queue s') ∨ emitted J w p s'.
Proof.
  intros Hi Hq. destruct (Ingress alternate 68 (initial 0 0 false) (nt_regs s) p0) as [[r pk] e] eqn:E.
  exists (route e pk (Net r q (nt_at s) (nt_out s))).
  split; [by eapply net_recirculate|]. split; [by eapply inv_pop|]. split; [|split; [|split]].
  - rewrite Hq. unfold route, work. simpl.
    assert (Hrank : (pass_rank (packet_type (md p0)) ≤ 10)%nat) by (destruct (packet_type _); simpl; lia).
    destruct e; simpl; try lia. apply ingress_rank in E. case_decide; simpl; [|lia].
    rewrite sum_list_with_app. simpl. lia.
  - unfold route. destruct e; simpl; try done. by case_decide.
  - apply (route_keeps e pk (Net r q (nt_at s) (nt_out s))).
  - intros w p (x0 & x1 & b & before & Hin). rewrite Hq in Hin. apply elem_of_cons in Hin as [Heq|Hin].
    + right. subst p0. destruct (ingress_harvest J alternate w p true false true before x0 x1 p b (nt_regs s) (jo_type J HJ))
        as (m & [Hm1 Hm2] & E'). rewrite E in E'. simplify_eq. simpl.
      eexists. split; [apply elem_of_app; right; by left|]. simpl. unfold slot_of. simpl. rewrite Hm1.
      split; [apply index_slot|]. split; [done|]. right. done.
    + left. exists x0, x1, b, before. unfold route. destruct e; simpl; try done.
      case_decide; simpl; [|done]. apply elem_of_app. by left.
Qed.

(** The whole queue. *)
Lemma drain k ws s :
  inv J k ws s → ∃ s', steps s s' ∧ inv J k ws s' ∧ nt_at s' = nt_at s ∧ keeps_out s s' ∧
    ∀ w p, asked w p (nt_queue s) → emitted J w p s'.
Proof.
  remember (work (nt_queue s)) as n eqn:Hn. revert s Hn.
  induction (lt_wf n) as [n _ IH]. intros s Hn Hi. destruct (nt_queue s) as [|p0 q] eqn:Hq.
  - exists s. split; [done|]. split; [done|]. split; [done|]. split; [done|].
    intros w p (? & ? & ? & ? & Hin). by apply not_elem_of_nil in Hin.
  - destruct (pop_step k ws s p0 q Hi Hq) as (s1 & Hs1 & Hi1 & Hw1 & Hat1 & Hk1 & Ha1).
    destruct (IH (work (nt_queue s1))) with (s := s1) as (s2 & Hs2 & Hi2 & Hat2 & Hk2 & Ha2); [|done..|].
    { rewrite Hn, <- Hq. done. }
    exists s2. split; [by eapply rtc_l|]. split; [done|]. split; [by rewrite Hat2|].
    split; [by transitivity s1|]. rewrite <- Hq. intros w p Hin. destruct (Ha1 w p Hin) as [Ha|He]; [by apply Ha2|].
    by eapply emitted_keeps.
Qed.

(** ** Asking for a result *)

Lemma arrive_step k ws s w p :
  inv J k ws s → w ∈ ranks → may_send J w p s →
  ∃ r pk e, Ingress alternate (jb_port J w) (initial (worker_bit w) 0 false) (nt_regs s) (contribution J w p) =
      (r, pk, e) ∧
    net_step J alternate s (route e pk (Net r (nt_queue s) (<[w := p]> (nt_at s)) (nt_out s))).
Proof.
  intros Hi Hw Hsend. destruct (Ingress _ _ _ _ _) as [[r pk] e] eqn:E.
  exists r, pk, e. split; [done|]. by apply (net_arrive J alternate s w p 0 r pk e).
Qed.

(** The count of a complete phase is zero. *)
Lemma count_zero k ws r w p :
  holds J k ws r → w ∈ ws ∧ p = k ∨ w ∉ ws ∧ k ≠ 0 ∧ p = k - 1 → (w ∈ ws → full J ws) →
  rg_count r (index J p) = 0.
Proof.
  intros [] [[Hin ->]|(Hn & Hk & ->)] Hf.
  - rewrite hd_count. unfold missing, jb_size. destruct (bool_decide (ws = [])); [done|]. rewrite (Hf Hin). lia.
  - rewrite (index_even J (k - 1) (k + 1)) by (by replace (k - 1 - (k + 1)) with (-2) by lia). done.
Qed.

(** A worker that has contributed to a complete phase gets its result. *)
Lemma ask k ws s w :
  inv J k ws s → w ∈ ranks → 0 ≤ nt_at s w → (w ∈ ws → full J ws) →
  ∃ s', steps s s' ∧ inv J k ws s' ∧ keeps_out s s' ∧ emitted J w (nt_at s w) s'.
Proof.
  intros Hi Hw H0 Hfull. set (p := nt_at s w). pose proof Hi as [].
  assert (Hp : w ∈ ws ∧ p = k ∨ w ∉ ws ∧ k ≠ 0 ∧ p = k - 1).
  { unfold p in *. rewrite (iv_at w Hw) in *. case_bool_decide; [by left|right]. split; [done|]. lia. }
  assert (Hsend : may_send J w p s) by (split; [done|by left]).
  destruct (arrive_step k ws s w p Hi Hw Hsend) as (r & pk & e & E & Hstep).
  pose proof (inv_repeat J alternate HJ k ws s w p 0 r pk e Hi Hw Hp ltac:(done) E) as Hi1.
  set (s1 := route e pk (Net r (nt_queue s) (<[w := p]> (nt_at s)) (nt_out s))) in *.
  assert (Hk : keeps_out s s1) by apply (route_keeps e pk (Net r (nt_queue s) _ (nt_out s))).
  assert (Hasked : asked w p (nt_queue s1)).
  { pose proof (repeat_seen J HJ k ws _ w p iv_holds iv_ranks Hw Hp) as Hmap.
    destruct (ingress_again J alternate w p 0 (nt_regs s) ltac:(done) Hmap) as (v & _ & _ & Hres).
    rewrite E, (count_zero k ws _ w p iv_holds Hp Hfull) in Hres. cbv zeta in Hres.
    assert (Hflag : (if bool_decide (jb_size J = 1) then 0 else 0) = 0) by (by destruct (bool_decide (jb_size J = 1))).
    rewrite Hflag in Hres. change (bool_decide (0 = 1)) with false in Hres.
    change (bool_decide (0 = 0)) with true in Hres. cbv iota in Hres. simplify_eq.
    eexists _, _, _, _. simpl. apply elem_of_app. right. by left. }
  destruct (drain k ws s1 Hi1) as (s2 & Hs2 & Hi2 & _ & Hk2 & Ha2).
  exists s2. split; [by eapply rtc_l|]. split; [done|]. split; [by transitivity s1|]. by apply Ha2.
Qed.

(** ** Completing a phase *)

(** One more worker contributes. *)
Lemma contribute k ws s w :
  inv J k ws s → w ∈ ranks → w ∉ ws →
  ∃ s', steps s s' ∧ inv J k (ws ++ [w]) s' ∧ keeps_out s s'.
Proof.
  intros Hi Hw Hn. pose proof Hi as []. pose proof (iv_at w Hw) as Hat.
  rewrite bool_decide_eq_false_2 in Hat by done.
  assert (Hready : ∃ s1, steps s s1 ∧ inv J k ws s1 ∧ keeps_out s s1 ∧ may_send J w k s1).
  { destruct (decide (k = 0)) as [->|Hk].
    - exists s. split; [done|]. split; [done|]. split; [done|]. split; [done|]. right. split; [lia|by left].
    - destruct (ask k ws s w Hi Hw) as (s1 & Hs1 & Hi1 & Hk1 & He1); [lia|done|].
      exists s1. split; [done|]. split; [done|]. split; [done|]. split; [done|]. right.
      pose proof Hi1 as []. rewrite (iv_at0 w Hw), bool_decide_eq_false_2 by done. rewrite Hat in He1.
      split; [lia|by right]. }
  destruct Hready as (s1 & Hs1 & Hi1 & Hk1 & Hsend).
  destruct (arrive_step k ws s1 w k Hi1 Hw Hsend) as (r & pk & e & E & Hstep).
  eexists. split; [by eapply rtc_r|]. split; [by eapply (inv_new J alternate HJ k ws s1 w 0)|].
  transitivity s1; [done|]. apply (route_keeps e pk (Net r (nt_queue s1) _ (nt_out s1))).
Qed.

Lemma complete k ws s :
  inv J k ws s → ∃ s' ws', steps s s' ∧ inv J k ws' s' ∧ keeps_out s s' ∧ full J ws'.
Proof.
  remember (length ranks - length ws)%nat as n eqn:Hn. revert ws s Hn.
  induction n as [|n IH]; intros ws s Hn Hi; pose proof Hi as [];
    pose proof (submseteq_length _ _ (NoDup_submseteq ws ranks iv_nodup iv_ranks)) as Hle.
  - exists s, ws. split; [done|]. split; [done|]. split; [done|]. unfold full. lia.
  - destruct (decide (Forall (.∈ ws) ranks)) as [Hall|(w & Hw & Hnw)%not_Forall_Exists%Exists_exists];
      [|..|apply _].
    + assert (Hf : full J ws); [|unfold full in Hf; lia].
      rewrite Forall_forall in Hall. by apply (full_all J HJ ws iv_nodup iv_ranks).
    + destruct (contribute k ws s w Hi Hw Hnw) as (s1 & Hs1 & Hi1 & Hk1).
      destruct (IH (ws ++ [w]) s1) as (s2 & ws2 & Hs2 & Hi2 & Hk2 & Hf); [rewrite length_app; simpl; lia|done|].
      exists s2, ws2. split; [by etrans|]. split; [done|]. split; [by transitivity s1|done].
Qed.

(** Every worker gets the result of a complete phase. *)
Lemma deliver (l : list Z) k ws s :
  inv J k ws s → full J ws → (∀ w, w ∈ l → w ∈ ranks) →
  ∃ s', steps s s' ∧ inv J k ws s' ∧ keeps_out s s' ∧ ∀ w, w ∈ l → emitted J w k s'.
Proof.
  intros Hi Hf. revert s Hi. induction l as [|w l IH]; intros s Hi Hl.
  - exists s. split; [done|]. split; [done|]. split; [done|]. by intros w ?%not_elem_of_nil.
  - pose proof Hi as []. assert (Hw : w ∈ ranks) by (apply Hl; by left).
    assert (Hat : nt_at s w = k).
    { rewrite (iv_at w Hw), bool_decide_eq_true_2; [done|]. by apply (full_all J HJ ws iv_nodup iv_ranks). }
    destruct (ask k ws s w Hi Hw) as (s1 & Hs1 & Hi1 & Hk1 & He1); [lia|done|]. rewrite Hat in He1.
    destruct (IH s1 Hi1) as (s2 & Hs2 & Hi2 & Hk2 & He2); [intros x Hx; apply Hl; by right|].
    exists s2. split; [by etrans|]. split; [done|]. split; [by transitivity s1|].
    intros x [->|Hx]%elem_of_cons; [by eapply emitted_keeps|by apply He2].
Qed.

(** C4. From every state the network can get into, the job can be carried on,
    through any number of phases, until every worker has been sent the result
    of the last: no loss and no interleaving leaves the slot stuck. *)
Theorem aggregation_live s n :
  net_reachable J alternate s →
  ∃ s' k, rtc (net_step J alternate) s s' ∧ n ≤ k ∧ ∀ w, w ∈ jb_ranks J → emitted J w k s'.
Proof.
  intros (k & ws & Hi)%(inv_reachable J alternate HJ).
  assert (Hgo : ∀ m : nat, ∃ s' k', steps s s' ∧ k + Z.of_nat m ≤ k' ∧ (∃ ws', inv J k' ws' s') ∧
    ∀ w, w ∈ ranks → emitted J w k' s').
  { induction m as [|m (s1 & k1 & Hs1 & Hk1 & [ws1 Hi1] & He1)].
    - destruct (complete k ws s Hi) as (s1 & ws1 & Hs1 & Hi1 & _ & Hf).
      destruct (deliver ranks k ws1 s1 Hi1 Hf) as (s2 & Hs2 & Hi2 & _ & He2); [done|].
      exists s2, k. split; [by etrans|]. split; [lia|]. split; [by exists ws1|done].
    - assert (Hadv : inv J (k1 + 1) [] s1).
      { apply (inv_advance J HJ k1 ws1); [done|]. pose proof (jo_some J HJ).
        destruct ranks as [|w l] eqn:Hl; [done|]. exists w. apply He1. by left. }
      destruct (complete _ _ _ Hadv) as (s2 & ws2 & Hs2 & Hi2 & _ & Hf).
      destruct (deliver ranks _ _ _ Hi2 Hf) as (s3 & Hs3 & Hi3 & _ & He3); [done|].
      exists s3, (k1 + 1). split; [by do 2 (etrans; [eassumption|])|]. split; [lia|]. split; [by exists ws2|done]. }
  destruct (Hgo (Z.to_nat (n - k))) as (s' & k' & Hs' & Hk' & _ & He). exists s', k'.
  split; [done|]. split; [lia|done].
Qed.
End liveness.

(** ** A run *)

(** The steps as functions, to run small cases. *)
Definition arrive (J : job) (w p : Z) (s : net) : net :=
  let '(r, pk, e) := Ingress None (jb_port J w) (initial (worker_bit w) 0 false) (nt_regs s) (contribution J w p) in
  route e pk (Net r (nt_queue s) (<[w := p]> (nt_at s)) (nt_out s)).
Definition recirculate (s : net) : net :=
  match nt_queue s with
  | [] => s
  | p0 :: q =>
      let '(r, pk, e) := Ingress None 68 (initial 0 0 false) (nt_regs s) p0 in
      route e pk (Net r q (nt_at s) (nt_out s))
  end.

Lemma reach_arrive J w p s :
  net_reachable J None s → w ∈ jb_ranks J → may_send J w p s → net_reachable J None (arrive J w p s).
Proof.
  intros Hs Hw Hp. unfold net_reachable in *. eapply rtc_r; [exact Hs|]. unfold arrive.
  destruct (Ingress _ _ _ _ _) as [[r pk] e] eqn:E. by apply (net_arrive J None s w p 0 r pk e).
Qed.
Lemma reach_recirculate J s : net_reachable J None s → net_reachable J None (recirculate s).
Proof.
  intros Hs. unfold recirculate. destruct (nt_queue s) as [|p0 q] eqn:Hq; [done|].
  destruct (Ingress _ _ _ _ _) as [[r pk] e] eqn:E. unfold net_reachable in *.
  eapply rtc_r; [exact Hs|]. by apply (net_recirculate J None s p0 q r pk e).
Qed.

(** Two workers that contribute their rank plus one, and ten times that. *)
Definition two_workers : job :=
  Job [0; 1] 0x1234 ROCEv2 5 true (λ w, 8 + 4 * w) (λ w _, 100 + w) (λ w _, 200 - w)
    (λ w _ n, w + 1) (λ w _ n, 10 * (w + 1)).

(** Worker 0, worker 1, and worker 0 again before it has the result. *)
Definition repeated_run : net :=
  recirculate (recirculate (arrive two_workers 0 0 (arrive two_workers 1 0 (arrive two_workers 0 0 net_init)))).

Lemma repeated_run_reachable : net_reachable two_workers None repeated_run.
Proof.
  unfold repeated_run. do 2 apply reach_recirculate.
  apply reach_arrive; [|by left|split; [lia|by left]].
  apply reach_arrive; [|right; by left|split; [lia|right; split; [done|by left]]].
  apply reach_arrive; [apply rtc_refl|by left|]. split; [lia|right; split; [done|by left]].
Qed.

(** C35. A worker that sends its packet again, because the result is late, can
    be sent a wrong result: the first block is the sum over all the workers,
    but the second is the worker's own contribution. The pass that finds a
    repeated packet reads the first word of each pair, and it is the second
    block that goes on with the packet. *)
Theorem repeated_result_wrong :
  ∃ s x b0 b1, net_reachable two_workers None s ∧ x ∈ nt_out s ∧ x.1 = Unicast (jb_port two_workers 0) ∧
    tag x.2 = 0 ∧ blocks x.2 = [b0; b1] ∧
    b0 0 = sum (λ w, jb_d0 two_workers w 0 0) (jb_ranks two_workers) ∧
    b1 0 = jb_d1 two_workers 0 0 0 ∧ b1 0 ≠ total1 two_workers 0 0.
Proof.
  exists repeated_run. set (x := nth 1 (nt_out repeated_run) (Drop, contribution two_workers 0 0)).
  exists x, (nth 0 (blocks x.2) (λ _, 0)), (nth 1 (blocks x.2) (λ _, 0)).
  split; [exact repeated_run_reachable|]. split.
  - apply list_elem_of_In, nth_In. vm_compute. lia.
  - repeat split; vm_compute; first [reflexivity|discriminate].
Qed.
