(* ===== verification/FourPipes.v ===== *)
(** * Packets of 1024 bytes (p4/)

    A contribution of eight blocks visits the four pipes, two blocks to each,
    and a result is collected on the way back. Each pipe holds its two blocks
    as it would those of a job with packets of 256 bytes, so the file reuses
    what [Aggregated] knows of one pipe. Journeys are taken one after the other
    here: a packet has passed all its pipes before the next one of the slot
    comes in. *)
From stdpp Require Import functions relations.
From S2P Require Import Prelude Worker DebugLog GetWorkerBitmap Pipeline Recirculation Aggregation.
From S2P Require Import Aggregated AggregationLive.
Import Pipe.

Module FourPipes.

(** ** The job *)

(** As [Aggregation.job], with the eight blocks a worker contributes. *)
Record large := Large {
  lg_ranks : list Z;
  lg_group : Z;
  lg_type : WorkerType;
  lg_slot : Z;
  lg_last : bool;
  lg_port : Z → Z;
  lg_e0 : Z → Z → Z;
  lg_e1 : Z → Z → Z;
  lg_block : Z → Z → nat → block
}.

Section large.
Context (L : large) (alternate : option Z).

(** The part of the job that pipe [q] sees: two blocks; the exponents are
    kept in the first pipe. *)
Definition share (q : nat) : job :=
  Job (lg_ranks L) (lg_group L) (lg_type L) (lg_slot L) (lg_last L && bool_decide (q = 0%nat)) (lg_port L)
    (lg_e0 L) (lg_e1 L) (λ w p, lg_block L w p (2 * q)) (λ w p, lg_block L w p (2 * q + 1)).
Abbreviation home := (share 0).

(** The header on its way: type and flags. *)
Definition large_md (w p : Z) (t : PacketType) (port : Z) (first last seen before : bool) : switchml_md :=
  Md (lg_group L) w (index home p) (jb_size home) IBV_MTU_1024 (lg_type L) t port (lg_last L)
    first last seen before.
Definition large_contribution (w p : Z) : packet :=
  Packet (large_md w p CONSUME0 0 false false false false) (lg_e0 L w p) (lg_e1 L w p) p
    (lg_block L w p <$> seq 0 8).

(** ** One pass *)

(** The bitmap and the count, in any of the consuming passes. *)
Definition bitmap_and_count (r : registers) (m : switchml_md) (l : locals) :
    registers * switchml_md * locals :=
  let '(r1, m2, l2) := UpdateAndCheckWorkerBitmap r m l in
  let '(r2, l3) := CountWorkers r1 m2 l2 in (r2, m2, l3).

Lemma consume_half J r m l w p :
  is_consume (packet_type m) = true → pool_index m = index J p → num_workers m = jb_size J →
  worker_bitmap l = worker_bit w → ingress_drop_probability l ≠ 0xffff →
  let b := old_side J p r in let c := rg_count r (index J p) in
  let after f := Locals (worker_bit w) b f (b .& worker_bit w) (ingress_drop_probability l) (drop_ctl l) in
  ∃ v, side p v = b .| worker_bit w ∧
    side (p + 1) v = old_side J (p + 1) r .& Z.lnot (worker_bit w) ∧
    bitmap_and_count r m l =
      if bool_decide (b .& worker_bit w = 0)
      then (set_count (index J p) (new_count J p r) (set_bitmap (jb_slot J) v r), m,
            after (if bool_decide (jb_size J = 1) then 1 else c))
      else (set_bitmap (jb_slot J) v r, m, after (if bool_decide (jb_size J = 1) then 0 else c)).
Proof.
  intros Ht Hi Hn Hw Hp b c after.
  assert (Hup : ∃ v, UpdateAndCheckWorkerBitmap r m l =
      (set_bitmap (jb_slot J) v r, m, Locals (worker_bitmap l) b (first_last_flag l)
         (b .& worker_bitmap l) (ingress_drop_probability l) (drop_ctl l)) ∧
    side p v = b .| worker_bitmap l ∧ side (p + 1) v = old_side J (p + 1) r .& Z.lnot (worker_bitmap l)).
  { unfold UpdateAndCheckWorkerBitmap. rewrite bool_decide_eq_false_2 by tauto.
    rewrite Ht, Hi, (index_slot J), (index_set J). unfold b, old_side, side.
    rewrite flip_phase. pose proof (Z.mod_pos_bound p 2).
    case_bool_decide as H1; [rewrite H1|assert (H2 : p `mod` 2 = 1) by lia; rewrite H2]; simpl;
      eexists; split; reflexivity || split; reflexivity. }
  destruct Hup as (v & E & H1 & H2). rewrite Hw in *. exists v. split; [done|]. split; [done|].
  unfold bitmap_and_count. rewrite E. unfold CountWorkers. rewrite Ht, Hn, Hi. simpl.
  fold c. unfold new_count, worker_count_action.
  destruct (bool_decide (jb_size J = 1)), (bool_decide (b .& worker_bit w = 0)); reflexivity.
Qed.

(** What goes in: the type of a consuming pass, the port the packet first came
    in by, and the metadata of the pass. *)
Definition consume_type (q : nat) : PacketType :=
  match q with 0%nat => CONSUME0 | 1%nat => CONSUME1 | 2%nat => CONSUME2 | _ => CONSUME3 end.
Definition first_port (q : nat) (port0 port : Z) : Z := match q with O => port | _ => port0 end.
Definition pass_locals (q : nat) (w prob : Z) : locals :=
  match q with O => initial (worker_bit w) prob false | _ => initial 0 0 false end.

Lemma worker_bit_again w : 0 ≤ w < 32 → 1 .<< (w .& 0x1f) = worker_bit w.
Proof.
  intros H. unfold worker_bit, GetWorkerBitmap.worker_bit. f_equal.
  change 0x1f with (Z.ones 5). rewrite Z.land_ones by lia. by apply Z.mod_small.
Qed.

(** The first half of a consuming pass. *)
Lemma ingress_consume q port port0 r w p prob first last seen before x0 x1 rest :
  (q < 4)%nat → 0 ≤ w < 32 → prob ≠ 0xffff →
  let J := share q in let b := old_side J p r in let c := rg_count r (index J p) in
  let m := large_md w p (consume_type q) (first_port q port0 port) first last seen before in
  let P := Packet (large_md w p (consume_type q) port0 first last seen before) x0 x1 p
    (jb_d0 J w p :: jb_d1 J w p :: rest) in
  ∃ v prob', side p v = b .| worker_bit w ∧
    side (p + 1) v = old_side J (p + 1) r .& Z.lnot (worker_bit w) ∧
    Ingress alternate port (pass_locals q w prob) r P =
      let half r' f := aggregate alternate port r' m
        (Locals (worker_bit w) b f (b .& worker_bit w) prob' false) P (jb_d0 J w p) (jb_d1 J w p) rest in
      if bool_decide (b .& worker_bit w = 0) then
        half (set_count (index J p) (new_count J p r) (set_bitmap (jb_slot J) v r))
          (if bool_decide (jb_size J = 1) then 1 else c)
      else half (set_bitmap (jb_slot J) v r) (if bool_decide (jb_size J = 1) then 0 else c).
Proof.
  intros Hq Hw Hprob J b c m P.
  set (l := match q with O => initial (worker_bit w) prob false
            | _ => ReconstructWorkerBitmap m (initial 0 0 false) end).
  assert (Hl : worker_bitmap l = worker_bit w ∧ ingress_drop_probability l ≠ 0xffff ∧ drop_ctl l = false).
  { unfold l. destruct q; split_and!; [done|exact Hprob|done|exact (worker_bit_again w Hw)|done|done]. }
  destruct Hl as (Hl1 & Hl2 & Hd).
  destruct (consume_half J r m l w p) as (v & H1 & H2 & E);
    [by destruct q as [|[|[|[]]]]|done|done|done|done|].
  exists v, (ingress_drop_probability l). split; [done|]. split; [done|].
  assert (Hi : Ingress alternate port (pass_locals q w prob) r P =
    let '(r2, m2, l3) := bitmap_and_count r m l in
    if drop_ctl l3 then (r2, Packet m2 x0 x1 p (blocks P), Drop)
    else aggregate alternate port r2 m2 l3 P (jb_d0 J w p) (jb_d1 J w p) rest).
  { unfold Ingress, bitmap_and_count. set (x := if bool_decide (_ = CONSUME0) then _ else _).
    assert (Hx : x = (m, l)) by (destruct q as [|[|[|[|]]]]; [..|lia]; reflexivity). rewrite Hx.
    assert (Ht : is_consume (packet_type m) = true) by (by destruct q as [|[|[|]]]).
    change (packet_type (md P)) with (packet_type m). unfold parse. rewrite Ht, Hd. simpl.
    destruct (UpdateAndCheckWorkerBitmap _ _ _) as [[??]?]. by destruct (CountWorkers _ _ _). }
  rewrite Hi, E. rewrite Hd.
  subst b c. by destruct (bool_decide (_ .& _ = 0)).
Qed.

(** A pass of a contribution that is new. *)
Lemma consume_new q port port0 r w p prob first last before x0 x1 rest :
  (q < 4)%nat → 0 ≤ w < 32 → prob ≠ 0xffff → (q = 0%nat → x0 = lg_e0 L w p ∧ x1 = lg_e1 L w p) →
  let J := share q in let b := old_side J p r in b .& worker_bit w = 0 →
  ∃ v, side p v = b .| worker_bit w ∧
    side (p + 1) v = old_side J (p + 1) r .& Z.lnot (worker_bit w) ∧
    let flag := if bool_decide (jb_size J = 1) then 1 else rg_count r (index J p) in
    let res := Ingress alternate port (pass_locals q w prob) r
      (Packet (large_md w p (consume_type q) port0 first last false before) x0 x1 p
         (jb_d0 J w p :: jb_d1 J w p :: rest)) in
    let go t port' bs := res = (new_regs J v w p r,
      Packet (large_md w p t (first_port q port0 port) (first || bool_decide (flag = 0))
                (last || bool_decide (flag = 1)) false (before || bool_decide (b ≠ 0)))
        (if jb_last J then (new_exponents J w p r).1 else x0) x1 p bs, Recirculate port') in
    match q with
    | 0%nat => go CONSUME1 (128 + 4 * (w .& 0xf)) rest
    | 1%nat => go CONSUME2 (next_pipe 2 port) rest
    | 2%nat => go CONSUME3 (next_pipe 3 port) rest
    | _ =>
        if bool_decide (flag = 1) then go HARVEST1 452 ((λ n, (new_sums J w p r n).2) :: rest)
        else ∃ pk, res = (new_regs J v w p r, pk, Drop)
    end.
Proof.
  intros Hq Hw Hprob Hx J b Hmap.
  destruct (ingress_consume q port port0 r w p prob first last false before x0 x1 rest Hq Hw Hprob)
    as (v & prob' & H1 & H2 & E). exists v. split; [done|]. split; [done|].
  fold J in E. fold b in E. cbv zeta in *. rewrite E, Hmap. change (bool_decide (0 = 0)) with true. cbv iota.
  clear E H1 H2. unfold aggregate, NextStep, next_step, new_regs, new_sums, new_exponents.
  fold (old_side J p r). fold b. set (flag := if bool_decide (jb_size J = 1) then 1 else _). clearbody flag.
  clearbody b. subst J. destruct q as [|[|[|[|]]]]; [destruct Hx as [-> ->]; [done|]|..|lia];
    [..|case_bool_decide as Hf; [subst flag|]];
    cbn -[Z.modulo fn_insert Z.pow bool_decide new_count]; unfold large_md;
    destruct (lg_last L), (decide (b = 0)); decide_conditions; first [reflexivity|by eexists].
Qed.

(** A pass of a contribution that comes again: it goes on when the flag is
    zero, with its own words in the last block; the first pass drops it
    otherwise. *)
Lemma consume_again q port port0 r w p prob first last seen before x0 x1 rest :
  (q < 4)%nat → 0 ≤ w < 32 → prob ≠ 0xffff →
  let J := share q in let b := old_side J p r in b .& worker_bit w ≠ 0 →
  let flag := if bool_decide (jb_size J = 1) then 0 else rg_count r (index J p) in
  (q ≠ 0%nat → flag = 0) →
  ∃ v, side p v = b .| worker_bit w ∧
    side (p + 1) v = old_side J (p + 1) r .& Z.lnot (worker_bit w) ∧
    let r' := same_data (index J p) (set_bitmap (jb_slot J) v r) in
    let res := Ingress alternate port (pass_locals q w prob) r
      (Packet (large_md w p (consume_type q) port0 first last seen before) x0 x1 p
         (jb_d0 J w p :: jb_d1 J w p :: rest)) in
    let go t port' bs := res = (r',
      Packet (large_md w p t (first_port q port0 port) true last true true)
        (if jb_last J then (rg_exponents r (index J p)).1 else x0) x1 p bs, Recirculate port') in
    match q with
    | 0%nat => if bool_decide (flag = 0) then go CONSUME1 (128 + 4 * (w .& 0xf)) rest
               else ∃ pk, res = (r', pk, Drop)
    | 1%nat => go CONSUME2 (next_pipe 2 port) rest
    | 2%nat => go CONSUME3 (next_pipe 3 port) rest
    | _ => go HARVEST1 452 (jb_d1 J w p :: rest)
    end.
Proof.
  intros Hq Hw Hprob J b Hmap flag Hflag.
  destruct (ingress_consume q port port0 r w p prob first last seen before x0 x1 rest Hq Hw Hprob)
    as (v & prob' & H1 & H2 & E). exists v. split; [done|]. split; [done|].
  fold J in E. fold b in E. fold flag in E. cbv zeta in *. rewrite E.
  rewrite (bool_decide_eq_false_2 (b .& _ = 0)) by done. cbv iota.
  assert (Hb : b ≠ 0) by (intros Hb; apply Hmap; by rewrite Hb).
  clear E H1 H2. unfold aggregate, NextStep, next_step, same_data.
  set (mr := b .& worker_bit w) in *. clearbody mr flag b. subst J.
  destruct q as [|[|[|[|]]]]; [..|lia]; [case_bool_decide as Hf; [subst flag|]|rewrite Hflag by done..];
    cbn -[Z.modulo fn_insert Z.pow bool_decide]; unfold large_md;
    destruct (lg_last L), first, last, seen, before; decide_conditions; first [reflexivity|by eexists].
Qed.

(** ** Collecting the result *)

Definition harvest_type (i : nat) : PacketType :=
  match i with
  | 1%nat => HARVEST1 | 2%nat => HARVEST2 | 3%nat => HARVEST3 | 4%nat => HARVEST4
  | 5%nat => HARVEST5 | 6%nat => HARVEST6 | _ => HARVEST7
  end.
(** The port to the next pass, and the pipe of a pass. *)
Definition harvest_port (i : nat) (port : Z) : Z :=
  match i with
  | 1%nat => 324 | 3%nat => default 196 alternate | 4%nat => 196 | 5%nat => 64 | 6%nat => 68
  | _ => port
  end.
Definition harvest_pipe (i : nat) : nat :=
  match i with 1%nat => 3 | 2%nat | 3%nat => 2 | 4%nat | 5%nat => 1 | _ => 0 end.
(** The word of a pair that a pass adds to the packet. *)
Definition half (i : nat) (v : Z * Z) : Z := if Nat.odd i then v.1 else v.2.

Lemma harvest_pass i port port0 r w p first last seen before x0 x1 bs :
  (1 ≤ i < 7)%nat →
  Ingress alternate port (initial 0 0 false) r
    (Packet (large_md w p (harvest_type i) port0 first last seen before) x0 x1 p bs) =
  (same_data (index home p) r,
   Packet (large_md w p (harvest_type (S i)) port0 first (last) seen before) x0 x1 p
     ((λ n, half i (rg_significands r (index home p) n)) :: bs),
   Recirculate (harvest_port i port)).
Proof.
  intros Hi. unfold same_data, large_md, harvest_port.
  destruct i as [|[|[|[|[|[|[|]]]]]]]; [lia|..|lia];
    destruct first, last, seen, before, (lg_last L); first [reflexivity|by destruct alternate].
Qed.

Lemma harvest_last w p port0 first last seen before x0 x1 bs r :
  lg_type L ≠ FORWARD_ONLY →
  let res := Ingress alternate 68 (initial 0 0 false) r
    (Packet (large_md w p HARVEST7 port0 first last seen before) x0 x1 p bs) in
  let pk m := Packet m x0 (if lg_last L then (rg_exponents r (index home p)).2 else x1) p
    ((λ n, (rg_significands r (index home p) n).1) :: bs) in
  let header m := pool_index m = index home p ∧ worker_id m = w in
  if seen && first then
    ∃ m, header m ∧ res = (same_data (index home p) r, pk m, Unicast port0)
  else if negb seen && (negb first && last) then
    ∃ m, header m ∧ res = (same_data (index home p) r, pk m, Multicast (lg_group L))
  else ∃ pk, res = (same_data (index home p) r, pk, Drop).
Proof.
  intros Ht. unfold same_data, large_md.
  destruct seen, first, last, before; simpl; destruct (lg_type L), (lg_last L); try done;
    first [by eexists|eexists; split; [|reflexivity]; done].
Qed.

(** ** Journeys *)

Lemma travel_next f port l pipes p r p' q :
  Ingress alternate port l (pipes (pipe_of port)) p = (r, p', Recirculate q) →
  travel (S f) alternate port l pipes p = travel f alternate q (initial 0 0 false) (<[pipe_of port := r]> pipes) p'.
Proof. intros E. simpl. by rewrite E. Qed.
Lemma travel_end f port l pipes p r p' e :
  Ingress alternate port l (pipes (pipe_of port)) p = (r, p', e) → (∀ q, e ≠ Recirculate q) →
  travel f alternate port l pipes p = Some (<[pipe_of port := r]> pipes, p', e).
Proof. intros E He. destruct f; simpl; rewrite E; by destruct e as [|q| | |]; [|destruct (He q)|..]. Qed.

Lemma pipe_of_spread w : pipe_of (128 + 4 * (w .& 0xf)) = 1.
Proof.
  unfold pipe_of. change 0xf with (Z.ones 4). rewrite Z.land_ones, Z.shiftr_div_pow2 by lia.
  pose proof (Z.mod_pos_bound w (2 ^ 4)). symmetry. apply Z.div_unique with (r := 4 * (w `mod` 2 ^ 4)); lia.
Qed.
Lemma pipe_of_next pipe port : 0 ≤ pipe → pipe_of (next_pipe pipe port) = pipe.
Proof.
  intros H. unfold pipe_of, next_pipe. rewrite Z.shiftr_lor, Z.shiftr_shiftl_l by lia.
  change 0x7f with (Z.ones 7). rewrite Z.land_ones, (Z.shiftr_div_pow2 (_ `mod` _)) by lia.
  rewrite Z.div_small by (apply Z.mod_pos_bound; lia). by rewrite Z.lor_0_r, Z.sub_diag, Z.shiftl_0_r.
Qed.

(** What the job is assumed to be: as for [Aggregation.job_ok], the workers in
    the first pipe, the alternate port in the second. *)
Record large_ok : Prop := {
  lo_ranks : NoDup (lg_ranks L);
  lo_some : lg_ranks L ≠ [];
  lo_bits : ∀ w, w ∈ lg_ranks L → 0 ≤ w < 32;
  lo_type : lg_type L ≠ FORWARD_ONLY;
  lo_e : ∀ w p, w ∈ lg_ranks L → 0 ≤ lg_e0 L w p < 2 ^ 8 ∧ 0 ≤ lg_e1 L w p < 2 ^ 8;
  lo_block : ∀ w p i n, w ∈ lg_ranks L → 0 ≤ lg_block L w p i n < 2 ^ 32;
  lo_port : ∀ w, w ∈ lg_ranks L → pipe_of (lg_port L w) = 0;
  lo_alternate : ∀ port, alternate = Some port → pipe_of port = 1
}.
Context (HL : large_ok).

Lemma share_ok q : job_ok (share q).
Proof. destruct HL. split; simpl; auto. Qed.
Abbreviation ranks := (lg_ranks L).

(** Every pipe holds its part; or the first [n] already hold the contribution
    of [w]. *)
Definition good (k : Z) (ws : list Z) (pipes : Z → registers) : Prop :=
  ∀ q, (q < 4)%nat → holds (share q) k ws (pipes (Z.of_nat q)).
Definition good_upto (n : nat) (k w : Z) (ws : list Z) (pipes : Z → registers) : Prop :=
  ∀ q, (q < 4)%nat → holds (share q) k (if (q <? n)%nat then ws ++ [w] else ws) (pipes (Z.of_nat q)).

Lemma good_insert k ws pipes q port r :
  good k ws pipes → pipe_of port = Z.of_nat q → holds (share q) k ws r → good k ws (<[pipe_of port := r]> pipes).
Proof.
  intros Hg -> Hr q' Hq'. destruct (decide (q' = q)) as [->|Hne]; [by rewrite fn_lookup_insert|].
  rewrite fn_lookup_insert_ne by lia. by apply Hg.
Qed.
Lemma good_upto_insert k w ws pipes q port r :
  good_upto q k w ws pipes → pipe_of port = Z.of_nat q → holds (share q) k (ws ++ [w]) r →
  good_upto (S q) k w ws (<[pipe_of port := r]> pipes).
Proof.
  intros Hg -> Hr q' Hq'. destruct (decide (q' = q)) as [->|Hne].
  - rewrite fn_lookup_insert. by rewrite (proj2 (Nat.ltb_lt q (S q))) by lia.
  - rewrite fn_lookup_insert_ne by lia. specialize (Hg q' Hq').
    destruct (Nat.ltb_spec q' q), (Nat.ltb_spec q' (S q)); try lia; done.
Qed.

(** The consuming passes of a contribution that is new, up to the third pipe. *)
Lemma pass_new q port port0 k w ws pipes prob first last before x0 x1 rest :
  (q < 3)%nat → w ∈ ranks → w ∉ ws → NoDup ws → (∀ x, x ∈ ws → x ∈ ranks) → prob ≠ 0xffff →
  pipe_of port = Z.of_nat q → good_upto q k w ws pipes →
  (q = 0%nat → x0 = lg_e0 L w k ∧ x1 = lg_e1 L w k) →
  (q ≠ 0%nat → lg_last L = true → x0 = (maxima home k (ws ++ [w])).1) →
  (full home (ws ++ [w]) → first = false) →
  ∃ r first' last' before' x0' port',
    Ingress alternate port (pass_locals q w prob) (pipes (pipe_of port))
      (Packet (large_md w k (consume_type q) port0 first last false before) x0 x1 k
         (lg_block L w k (2 * q) :: lg_block L w k (2 * q + 1) :: rest)) =
    (r, Packet (large_md w k (consume_type (S q)) (first_port q port0 port) first' last' false before')
          x0' x1 k rest, Recirculate port') ∧
    pipe_of port' = Z.of_nat (S q) ∧ good_upto (S q) k w ws (<[pipe_of port := r]> pipes) ∧
    (lg_last L = true → x0' = (maxima home k (ws ++ [w])).1) ∧
    (full home (ws ++ [w]) → first' = false).
Proof.
  intros Hq Hw Hn Hnd Hsub Hprob Hport Hg Hx0 Hx Hfirst. pose proof (share_ok q) as HJ.
  assert (Hr : holds (share q) k ws (pipes (pipe_of port))).
  { rewrite Hport. specialize (Hg q ltac:(lia)). by rewrite Nat.ltb_irrefl in Hg. }
  pose proof (ranks_nonneg (share q) HJ ws Hsub) as H0. pose proof (lo_bits HL w Hw) as Hw32.
  destruct (consume_new q port port0 (pipes (pipe_of port)) w k prob first last before x0 x1 rest)
    as (v & Hv & Hv' & E); [lia|done..| |].
  { rewrite (hd_side _ _ _ _ Hr). apply collected_meets; [lia|done|done]. }
  cbv zeta in E.
  pose proof (holds_new (share q) HJ k ws _ w v Hr Hnd Hsub Hw Hn Hv Hv') as Hr'.
  pose proof (good_upto_insert k w ws pipes q port _ Hg Hport Hr') as Hg'.
  pose proof (new_flag (share q) k ws _ Hr w (not_full_length (share q) ws w Hnd Hsub Hw Hn)) as Hflag.
  set (flag := if bool_decide (_ = 1) then 1 else _) in *. clearbody flag.
  assert (Hf : full home (ws ++ [w]) → first || bool_decide (flag = 0) = false).
  { intros Hf. rewrite (Hfirst Hf). apply Hflag in Hf. by subst flag. }
  assert (HX : lg_last L = true →
    (if jb_last (share q) then (new_exponents (share q) w k (pipes (pipe_of port))).1 else x0) =
    (maxima home k (ws ++ [w])).1).
  { intros Hl. destruct q as [|q]; simpl; rewrite Hl; [|by apply Hx]. simpl.
    rewrite (proj2 (new_data home HJ k ws _ w 0 Hr Hsub Hw)); [done|]. simpl. by rewrite Hl. }
  destruct q as [|[|[|]]]; [..|lia]; eexists _, _, _, _, _, _; (split; [exact E|]);
    split_and!; try done; [apply pipe_of_spread|by apply pipe_of_next..].
Qed.

(** The port a collecting pass goes to belongs to the next one's pipe. *)
Lemma harvest_next i port :
  (1 ≤ i < 7)%nat → pipe_of port = Z.of_nat (harvest_pipe i) →
  pipe_of (harvest_port i port) = Z.of_nat (harvest_pipe (S i)).
Proof.
  intros Hi Hport. destruct i as [|[|[|[|[|[|[|]]]]]]]; try lia; try done. unfold harvest_port.
  destruct alternate as [a|] eqn:Ha; [|done]. by apply (lo_alternate HL).
Qed.

(** The result of a phase as it leaves the switch; the last block is not the
    same for a broadcast and for a retransmission. *)
Definition total (p : Z) (i : nat) : block := λ n, sum (λ w, lg_block L w p i n) ranks.
Definition same_blocks : list block → list block → Prop := Forall2 (λ b b', ∀ n, b n = b' n).
Definition large_result (p : Z) (final : block) (pk : packet) : Prop :=
  tag pk = p ∧ pool_index (md pk) = index home p ∧
  (lg_last L = true →
   e0 pk = maximum (λ w, lg_e0 L w p) ranks ∧ e1 pk = maximum (λ w, lg_e1 L w p) ranks) ∧
  same_blocks (blocks pk) ((total p <$> seq 0 7) ++ [final]).

(** A phase [p] that is complete when [ws] have contributed to phase [k]. *)
Definition ready (k : Z) (ws : list Z) (p : Z) : Prop := p = k ∧ full home ws ∨ p = k - 1 ∧ 0 ≤ p.

Lemma same_agree k ws pipes q i :
  good k ws pipes → (q < 4)%nat → holds (share q) k ws (same_data i (pipes (Z.of_nat q))).
Proof. intros Hg Hq. eapply holds_agree; [by apply Hg|apply agree_same]. Qed.

(** What a collecting pass reads is a block of the result. *)
Lemma harvest_reads k ws pipes p i :
  good k ws pipes → NoDup ws → (∀ x, x ∈ ws → x ∈ ranks) → ready k ws p → (1 ≤ i ≤ 7)%nat →
  ∀ n, half i (rg_significands (pipes (Z.of_nat (harvest_pipe i))) (index home p) n) = total p (7 - i) n.
Proof.
  intros Hg Hnd Hsub Hp Hi n. set (q := harvest_pipe i).
  assert (Hq : (q < 4)%nat) by (unfold q; destruct i as [|[|[|[|[|[|]]]]]]; simpl; lia).
  destruct (reads_total (share q) (share_ok q) k ws _ p (Hg q Hq) Hnd Hsub Hp) as [Hs _].
  change (index home p) with (index (share q) p). rewrite Hs. unfold half, sums, total, q.
  destruct i as [|[|[|[|[|[|[|[|]]]]]]]]; reflexivity || lia.
Qed.

(** The collecting passes: the last one, and from any of them on. *)
Lemma collect_last port0 k ws pipes p w first last (seen : bool) before x0 x1 bs final :
  good k ws pipes → NoDup ws → (∀ x, x ∈ ws → x ∈ ranks) → ready k ws p →
  (lg_last L = true → x0 = (maxima home p ranks).1) →
  same_blocks bs ((total p <$> seq 1 6) ++ [final]) →
  (if seen then first = true else first = false ∧ last = true) →
  ∃ pipes' pk, travel 0 alternate 68 (initial 0 0 false) pipes
      (Packet (large_md w p HARVEST7 port0 first last seen before) x0 x1 p bs) =
    Some (pipes', pk, if seen then Unicast port0 else Multicast (lg_group L)) ∧
    good k ws pipes' ∧ large_result p final pk ∧ worker_id (md pk) = w.
Proof.
  intros Hg Hnd Hsub Hp Hx Hbs Hflags.
  pose proof (harvest_reads k ws pipes p 7 Hg Hnd Hsub Hp ltac:(lia)) as Hread.
  destruct (reads_total home (share_ok 0) k ws _ p (Hg 0%nat ltac:(lia)) Hnd Hsub Hp) as [_ He].
  pose proof (harvest_last w p port0 first last seen before x0 x1 bs (pipes (pipe_of 68)) (lo_type HL)) as E.
  assert (Hres : ∃ m, (pool_index m = index home p ∧ worker_id m = w) ∧
    Ingress alternate 68 (initial 0 0 false) (pipes (pipe_of 68))
      (Packet (large_md w p HARVEST7 port0 first last seen before) x0 x1 p bs) =
    (same_data (index home p) (pipes (pipe_of 68)),
     Packet m x0 (if lg_last L then (rg_exponents (pipes (pipe_of 68)) (index home p)).2 else x1) p
       ((λ n, (rg_significands (pipes (pipe_of 68)) (index home p) n).1) :: bs),
     if seen then Unicast port0 else Multicast (lg_group L))).
  { cbv zeta in E. destruct seen; [rewrite Hflags in E |- *; exact E|]. destruct Hflags as [-> ->]. exact E. }
  destruct Hres as (m & [Hm1 Hm2] & Hres). eexists _, _.
  split; [apply travel_end; [exact Hres|intros q; by destruct seen]|]. split; [|split; [|exact Hm2]].
  - apply (good_insert k ws pipes 0); [done|done|]. by apply (same_agree k ws pipes 0); [|lia].
  - split; [done|]. split; [done|]. split; [|constructor; [exact Hread|exact Hbs]].
    intros Hl. simpl. rewrite Hl. split; [by apply Hx|].
    change (pipe_of 68) with (Z.of_nat 0). rewrite He; [done|]. simpl. by rewrite Hl.
Qed.

Lemma collect m i port port0 k ws pipes p w first last (seen : bool) before x0 x1 bs final :
  (1 ≤ i)%nat → (i + m = 7)%nat → pipe_of port = Z.of_nat (harvest_pipe i) → (i = 7%nat → port = 68) →
  good k ws pipes → NoDup ws → (∀ x, x ∈ ws → x ∈ ranks) → ready k ws p →
  (lg_last L = true → x0 = (maxima home p ranks).1) →
  same_blocks bs ((total p <$> seq (8 - i) (i - 1)) ++ [final]) →
  (if seen then first = true else first = false ∧ last = true) →
  ∃ pipes' pk, travel m alternate port (initial 0 0 false) pipes
      (Packet (large_md w p (harvest_type i) port0 first last seen before) x0 x1 p bs) =
    Some (pipes', pk, if seen then Unicast port0 else Multicast (lg_group L)) ∧
    good k ws pipes' ∧ large_result p final pk ∧ worker_id (md pk) = w.
Proof.
  revert i port pipes bs. induction m as [|m IH];
    intros i port pipes bs Hi Him Hport H7 Hg Hnd Hsub Hp Hx Hbs Hflags.
  - assert (i = 7%nat) as -> by lia. rewrite (H7 eq_refl). by apply (collect_last port0 k ws).
  - pose proof (harvest_reads k ws pipes p i Hg Hnd Hsub Hp ltac:(lia)) as Hread. rewrite <- Hport in Hread.
    pose proof (harvest_pass i port port0 (pipes (pipe_of port)) w p first last seen before x0 x1 bs ltac:(lia)) as E.
    rewrite (travel_next m port _ pipes _ _ _ _ E).
    apply IH; try done; try lia.
    + apply harvest_next; [lia|done].
    + intros [= ->]. done.
    + apply (good_insert k ws pipes (harvest_pipe i)); [done|done|]. rewrite Hport.
      apply same_agree; [done|]. destruct i as [|[|[|[|[|[|]]]]]]; simpl; lia.
    + replace (8 - S i)%nat with (7 - i)%nat by lia. replace (S i - 1)%nat with (S (i - 1)) by lia.
      replace (8 - i)%nat with (S (7 - i)) in Hbs by lia. simpl. by constructor.
Qed.

(** The last consuming pass of a contribution that is new, and what follows. *)
Lemma finish_new port port0 k w ws pipes prob first last before x0 x1 :
  w ∈ ranks → w ∉ ws → NoDup ws → (∀ x, x ∈ ws → x ∈ ranks) → 0 ≤ k → prob ≠ 0xffff →
  pipe_of port = 3 → good_upto 3 k w ws pipes →
  (lg_last L = true → x0 = (maxima home k (ws ++ [w])).1) → (full home (ws ++ [w]) → first = false) →
  ∃ pipes' pk e, travel 7 alternate port (pass_locals 3 w prob) pipes
      (Packet (large_md w k CONSUME3 port0 first last false before) x0 x1 k
         [lg_block L w k 6; lg_block L w k 7]) = Some (pipes', pk, e) ∧
    good k (ws ++ [w]) pipes' ∧
    (full home (ws ++ [w]) → e = Multicast (lg_group L) ∧ large_result k (total k 7) pk) ∧
    (¬ full home (ws ++ [w]) → e = Drop).
Proof.
  intros Hw Hn Hnd Hsub Hk Hprob Hport Hg Hx Hfirst. pose proof (share_ok 3) as HJ.
  pose proof (Hg 3%nat ltac:(lia)) as Hr. rewrite Nat.ltb_irrefl in Hr. change (Z.of_nat 3) with 3 in Hr.
  rewrite <- Hport in Hr.
  pose proof (ranks_nonneg (share 3) HJ ws Hsub) as H0. pose proof (lo_bits HL w Hw) as Hw32.
  destruct (consume_new 3 port port0 (pipes (pipe_of port)) w k prob first last before x0 x1 [])
    as (v & Hv & Hv' & E); [lia|done..| |].
  { rewrite (hd_side _ _ _ _ Hr). apply collected_meets; [lia|done|done]. }
  cbv zeta in E.
  pose proof (holds_new (share 3) HJ k ws _ w v Hr Hnd Hsub Hw Hn Hv Hv') as Hr'.
  pose proof (good_upto_insert k w ws pipes 3 port _ Hg Hport Hr') as Hg'.
  assert (Hgood : good k (ws ++ [w]) (<[pipe_of port := new_regs (share 3) v w k (pipes (pipe_of port))]> pipes)).
  { intros q Hq. specialize (Hg' q Hq). by rewrite (proj2 (Nat.ltb_lt q 4)) in Hg'. }
  pose proof (new_flag (share 3) k ws _ Hr w (not_full_length (share 3) ws w Hnd Hsub Hw Hn)) as Hflag.
  destruct (snoc_ranks (share 3) ws w Hnd Hsub Hw Hn) as [Hnd' Hsub'].
  set (flag := if bool_decide (_ = 1) then 1 else _) in *. clearbody flag.
  case_bool_decide as Hf.
  - pose proof (proj1 Hflag Hf) as Hfull. pose proof (full_perm (share 3) _ Hnd' Hsub' Hfull) as Hperm.
    rewrite (Hfirst Hfull) in E |- *. rewrite Hf, orb_true_r in E.
    destruct (collect 6 1 452 port0 k (ws ++ [w])
      (<[pipe_of port := new_regs (share 3) v w k (pipes (pipe_of port))]> pipes) k w
      false true false (before || bool_decide (old_side (share 3) k (pipes (pipe_of port)) ≠ 0))
      x0 x1 [λ n, (new_sums (share 3) w k (pipes (pipe_of port)) n).2] (total k 7))
      as (pipes' & pk & Ht & Hg2 & Hres & _); try done; try lia.
    + by left.
    + intros Hl. rewrite Hx by done. simpl. by apply maximum_perm.
    + constructor; [|constructor]. intros n.
      rewrite (proj1 (new_data (share 3) HJ k ws _ w n Hr Hsub Hw)). by apply sum_perm.
    + eexists _, _, _. split; [|split; [exact Hg2|split; [intros _; split; [reflexivity|exact Hres]|done]]].
      etrans; [exact (travel_next 6 port _ pipes _ _ _ _ E)|]. simpl jb_last. rewrite andb_false_r. exact Ht.
  - destruct E as [pk E]. eexists _, _, _. split; [by apply travel_end; [exact E|]|].
    split; [done|]. split; [intros Hfull; by apply Hflag in Hfull|done].
Qed.

(** The whole way of a contribution that is new. *)
Lemma journey_new k ws w pipes prob :
  good k ws pipes → NoDup ws → (∀ x, x ∈ ws → x ∈ ranks) → w ∈ ranks → w ∉ ws → 0 ≤ k → prob ≠ 0xffff →
  ∃ pipes' pk e, travel 10 alternate (lg_port L w) (initial (worker_bit w) prob false) pipes
      (large_contribution w k) = Some (pipes', pk, e) ∧
    good k (ws ++ [w]) pipes' ∧
    (full home (ws ++ [w]) → e = Multicast (lg_group L) ∧ large_result k (total k 7) pk) ∧
    (¬ full home (ws ++ [w]) → e = Drop).
Proof.
  intros Hg Hnd Hsub Hw Hn Hk Hprob.
  destruct (pass_new 0 (lg_port L w) 0 k w ws pipes prob false false false (lg_e0 L w k) (lg_e1 L w k)
    (lg_block L w k <$> seq 2 6)) as (r0 & f1 & l1 & b1 & x1 & q1 & E0 & Hq1 & Hg1 & Hx1 & Hf1);
    [lia|done..|by apply lo_port| | |done|done|]; [by intros q Hq; apply Hg|done|].
  set (p1 := <[pipe_of (lg_port L w) := r0]> pipes) in *.
  destruct (pass_new 1 q1 (lg_port L w) k w ws p1 prob f1 l1 b1 x1 (lg_e1 L w k)
    (lg_block L w k <$> seq 4 4)) as (r1 & f2 & l2 & b2 & x2 & q2 & E1 & Hq2 & Hg2 & Hx2 & Hf2);
    [lia|done..|].
  set (p2 := <[pipe_of q1 := r1]> p1) in *.
  destruct (pass_new 2 q2 (lg_port L w) k w ws p2 prob f2 l2 b2 x2 (lg_e1 L w k)
    (lg_block L w k <$> seq 6 2)) as (r2 & f3 & l3 & b3 & x3 & q3 & E2 & Hq3 & Hg3 & Hx3 & Hf3);
    [lia|done..|].
  destruct (finish_new q3 (lg_port L w) k w ws _ prob f3 l3 b3 x3 (lg_e1 L w k) Hw Hn Hnd Hsub Hk Hprob Hq3 Hg3 Hx3 Hf3)
    as (pipes' & pk & e & E3 & Hres). exists pipes', pk, e. split; [|exact Hres].
  etrans; [exact (travel_next 9 _ _ _ _ _ _ _ E0)|].
  etrans; [exact (travel_next 8 _ _ _ _ _ _ _ E1)|].
  etrans; [exact (travel_next 7 _ _ _ _ _ _ _ E2)|]. exact E3.
Qed.

(** The consuming passes of a contribution that comes again when the set is
    complete. *)
Definition again_type (q : nat) : PacketType := match q with 3%nat => HARVEST1 | _ => consume_type (S q) end.
Definition again_blocks (q : nat) (w p : Z) (rest : list block) : list block :=
  match q with 3%nat => lg_block L w p 7 :: rest | _ => rest end.

Lemma pass_again q port port0 k w p ws pipes prob first last seen before x0 x1 rest :
  (q < 4)%nat → w ∈ ranks → NoDup ws → (∀ x, x ∈ ws → x ∈ ranks) → prob ≠ 0xffff →
  pipe_of port = Z.of_nat q → good k ws pipes →
  w ∈ ws ∧ p = k ∨ w ∉ ws ∧ k ≠ 0 ∧ p = k - 1 → (w ∈ ws → full home ws) →
  (q ≠ 0%nat → lg_last L = true → x0 = (maxima home p ranks).1) →
  ∃ r x0' port',
    Ingress alternate port (pass_locals q w prob) (pipes (pipe_of port))
      (Packet (large_md w p (consume_type q) port0 first last seen before) x0 x1 p
         (lg_block L w p (2 * q) :: lg_block L w p (2 * q + 1) :: rest)) =
    (r, Packet (large_md w p (again_type q) (first_port q port0 port) true last true true)
          x0' x1 p (again_blocks q w p rest), Recirculate port') ∧
    pipe_of port' = Z.of_nat (S q `min` 3) ∧ good k ws (<[pipe_of port := r]> pipes) ∧
    (lg_last L = true → x0' = (maxima home p ranks).1).
Proof.
  intros Hq Hw Hnd Hsub Hprob Hport Hg Hp Hfull Hx. pose proof (share_ok q) as HJ.
  pose proof (Hg q Hq) as Hr. rewrite <- Hport in Hr.
  pose proof (repeat_seen (share q) HJ k ws _ w p Hr Hsub Hw Hp) as Hmap.
  pose proof (count_zero (share q) k ws _ w p Hr Hp Hfull) as Hc.
  pose proof (again_flag (share q) k ws _ w p Hr Hnd Hsub Hw Hp) as [_ Hagain]. cbv zeta in Hagain.
  assert (Hflag : (if bool_decide (jb_size (share q) = 1) then 0
    else rg_count (pipes (pipe_of port)) (index (share q) p)) = 0) by (rewrite Hc; by case_match).
  destruct (Hagain Hflag) as [_ He].
  destruct (consume_again q port port0 (pipes (pipe_of port)) w p prob first last seen before x0 x1 rest)
    as (v & Hv & Hv' & E); [done|by apply (lo_bits HL)|done|done|done|]. cbv zeta in E.
  destruct (holds_repeat (share q) HJ k ws _ w p v Hr Hsub Hw Hp Hv Hv') as [_ Hag].
  pose proof (good_insert k ws pipes q port _ Hg Hport (holds_agree (share q) k ws _ _ Hr Hag)) as Hg'.
  assert (HX : lg_last L = true →
    (if jb_last (share q) then (rg_exponents (pipes (pipe_of port)) (index (share q) p)).1 else x0) =
    (maxima home p ranks).1).
  { intros Hl. destruct q as [|q]; simpl in *; rewrite Hl in *; [by apply He|by apply Hx]. }
  rewrite Hflag in E. change (bool_decide (0 = 0)) with true in E.
  destruct q as [|[|[|[|]]]]; [..|lia]; eexists _, _, _; (split; [exact E|]); split_and!; try done;
    [apply pipe_of_spread|by apply pipe_of_next..].
Qed.

(** The whole way of one that comes again: to the worker with the result, or
    no further than the first pass when the set is not complete. *)
Lemma journey_again k ws w p pipes prob :
  good k ws pipes → NoDup ws → (∀ x, x ∈ ws → x ∈ ranks) → w ∈ ranks → 0 ≤ p → prob ≠ 0xffff →
  w ∈ ws ∧ p = k ∨ w ∉ ws ∧ k ≠ 0 ∧ p = k - 1 → (w ∈ ws → full home ws) →
  ∃ pipes' pk, travel 10 alternate (lg_port L w) (initial (worker_bit w) prob false) pipes
      (large_contribution w p) = Some (pipes', pk, Unicast (lg_port L w)) ∧
    good k ws pipes' ∧ large_result p (lg_block L w p 7) pk ∧ worker_id (md pk) = w.
Proof.
  intros Hg Hnd Hsub Hw H0 Hprob Hp Hfull.
  destruct (pass_again 0 (lg_port L w) 0 k w p ws pipes prob false false false false (lg_e0 L w p) (lg_e1 L w p)
    (lg_block L w p <$> seq 2 6)) as (r0 & x1 & q1 & E0 & Hq1 & Hg1 & Hx1); [lia|done|done|done|done|by apply lo_port|done..|].
  set (p1 := <[pipe_of (lg_port L w) := r0]> pipes) in *.
  destruct (pass_again 1 q1 (lg_port L w) k w p ws p1 prob true false true true x1 (lg_e1 L w p)
    (lg_block L w p <$> seq 4 4)) as (r1 & x2 & q2 & E1 & Hq2 & Hg2 & Hx2); [lia|done..|].
  set (p2 := <[pipe_of q1 := r1]> p1) in *.
  destruct (pass_again 2 q2 (lg_port L w) k w p ws p2 prob true false true true x2 (lg_e1 L w p)
    (lg_block L w p <$> seq 6 2)) as (r2 & x3 & q3 & E2 & Hq3 & Hg3 & Hx3); [lia|done..|].
  set (p3 := <[pipe_of q2 := r2]> p2) in *.
  destruct (pass_again 3 q3 (lg_port L w) k w p ws p3 prob true false true true x3 (lg_e1 L w p) [])
    as (r3 & x4 & q4 & E3 & Hq4 & Hg4 & Hx4); [lia|done..|].
  set (p4 := <[pipe_of q3 := r3]> p3) in *.
  destruct (collect 6 1 q4 (lg_port L w) k ws p4 p w true false true true x4 (lg_e1 L w p)
    [lg_block L w p 7] (lg_block L w p 7)) as (pipes' & pk & E4 & Hres); try done; try lia.
  { unfold ready. destruct Hp as [[Hin ->]|(_ & _ & ->)]; [left|right]; auto. }
  { by constructor. }
  exists pipes', pk. split; [|exact Hres].
  etrans; [exact (travel_next 9 _ _ _ _ _ _ _ E0)|].
  etrans; [exact (travel_next 8 _ _ _ _ _ _ _ E1)|].
  etrans; [exact (travel_next 7 _ _ _ _ _ _ _ E2)|].
  etrans; [exact (travel_next 6 _ _ _ _ _ _ _ E3)|]. exact E4.
Qed.

Lemma journey_early k ws w pipes prob :
  good k ws pipes → NoDup ws → (∀ x, x ∈ ws → x ∈ ranks) → w ∈ ranks → prob ≠ 0xffff →
  w ∈ ws → ¬ full home ws →
  ∃ pipes' pk, travel 10 alternate (lg_port L w) (initial (worker_bit w) prob false) pipes
      (large_contribution w k) = Some (pipes', pk, Drop) ∧ good k ws pipes'.
Proof.
  intros Hg Hnd Hsub Hw Hprob Hin Hfull. pose proof (share_ok 0) as HJ.
  pose proof (Hg 0%nat ltac:(lia)) as Hr. change (Z.of_nat 0) with 0 in Hr.
  assert (Hport : pipe_of (lg_port L w) = 0) by (by apply lo_port). rewrite <- Hport in Hr.
  assert (Hp : w ∈ ws ∧ k = k ∨ w ∉ ws ∧ k ≠ 0 ∧ k = k - 1) by (by left).
  pose proof (repeat_seen home HJ k ws _ w k Hr Hsub Hw Hp) as Hmap.
  pose proof (again_flag home k ws _ w k Hr Hnd Hsub Hw Hp) as [_ Hagain]. cbv zeta in Hagain.
  destruct (consume_again 0 (lg_port L w) 0 (pipes (pipe_of (lg_port L w))) w k prob false false false false
    (lg_e0 L w k) (lg_e1 L w k) (lg_block L w k <$> seq 2 6)) as (v & Hv & Hv' & E);
    [lia|by apply (lo_bits HL)|done..|]. cbv zeta in E.
  destruct (holds_repeat home HJ k ws _ w k v Hr Hsub Hw Hp Hv Hv') as [_ Hag].
  rewrite bool_decide_eq_false_2 in E by (intros H0; apply Hfull, (Hagain H0); done).
  destruct E as [pk E]. eexists _, _. split; [by apply travel_end; [exact E|]|].
  apply (good_insert k ws pipes 0); [done|done|]. by eapply holds_agree.
Qed.

(** Packets of other slots do not matter. *)
Lemma travel_other f k ws port l pipes p pipes' pk e :
  good k ws pipes → slot_of p ≠ lg_slot L → travel f alternate port l pipes p = Some (pipes', pk, e) →
  good k ws pipes' ∧ slot_of pk ≠ lg_slot L.
Proof.
  revert port l pipes p. induction f as [|f IH]; intros port l pipes p Hg Hs; simpl;
    destruct (Ingress _ _ _ _ _) as [[r p'] e'] eqn:E;
    (assert (Hstep : good k ws (<[pipe_of port := r]> pipes) ∧ slot_of p' ≠ lg_slot L);
     [split; [intros q Hq|by apply (ingress_slot home) in E as [_ ->]]|]).
  1, 3: destruct (decide (pipe_of port = Z.of_nat q)) as [Heq|Hne];
    [rewrite Heq, fn_lookup_insert; rewrite Heq in E|rewrite fn_lookup_insert_ne by done; by apply Hg];
    apply (ingress_slot (share q)) in E as [Hag _]; eapply holds_agree; [by apply Hg|by apply Hag].
  - destruct e'; intros; simplify_eq; done.
  - destruct e' as [|port'| | |]; try (intros; simplify_eq; done).
    intros H. destruct Hstep as [Hg' Hs']. by apply (IH port' _ _ _ Hg' Hs' H).
Qed.

(** ** The network *)

(** The state: the registers of the pipes, the phase of each worker's last
    packet, and what has left the switch. *)
Record large_net := LargeNet {
  ln_pipes : Z → registers;
  ln_at : Z → Z;
  ln_out : list (exit * packet)
}.
Definition leave (e : exit) (pk : packet) (out : list (exit * packet)) : list (exit * packet) :=
  match e with Unicast _ | Multicast _ => out ++ [(e, pk)] | _ => out end.

Definition large_emitted (w p : Z) (s : large_net) : Prop :=
  ∃ x, x ∈ ln_out s ∧ slot_of x.2 = lg_slot L ∧ tag x.2 = p ∧
    (x.1 = Multicast (lg_group L) ∨ x.1 = Unicast (lg_port L w) ∧ worker_id (md x.2) = w).
Definition large_may_send (w p : Z) (s : large_net) : Prop :=
  0 ≤ p ∧ (p = ln_at s w ∨ p = ln_at s w + 1 ∧ (p = 0 ∨ large_emitted w (p - 1) s)).

Inductive large_step : large_net → large_net → Prop :=
| large_arrive s w p prob pipes' pk e :
    w ∈ ranks → large_may_send w p s → prob ≠ 0xffff →
    travel 10 alternate (lg_port L w) (initial (worker_bit w) prob false) (ln_pipes s) (large_contribution w p) =
      Some (pipes', pk, e) →
    large_step s (LargeNet pipes' (<[w := p]> (ln_at s)) (leave e pk (ln_out s)))
| large_other s port l p0 pipes' pk e :
    slot_of p0 ≠ lg_slot L →
    travel 10 alternate port l (ln_pipes s) p0 = Some (pipes', pk, e) →
    large_step s (LargeNet pipes' (ln_at s) (leave e pk (ln_out s))).

Definition large_init : large_net := LargeNet (λ _, cleared) (λ _, -1) [].
Definition large_reachable : large_net → Prop := rtc large_step large_init.

(** What may leave, and what has to. *)
Definition large_answer (x : exit * packet) (p : Z) : Prop :=
  (x.1 = Multicast (lg_group L) ∧ large_result p (total p 7) x.2) ∨
  (∃ w, w ∈ ranks ∧ x.1 = Unicast (lg_port L w) ∧ worker_id (md x.2) = w ∧
    large_result p (lg_block L w p 7) x.2).
Definition closed (k : Z) (ws : list Z) (p : Z) : Prop := 0 ≤ p ∧ (p < k ∨ p = k ∧ full home ws).

Record large_inv (k : Z) (ws : list Z) (s : large_net) : Prop := {
  li_phase : 0 ≤ k;
  li_nodup : NoDup ws;
  li_ranks : ∀ w, w ∈ ws → w ∈ ranks;
  li_at : ∀ w, w ∈ ranks → ln_at s w = if bool_decide (w ∈ ws) then k else k - 1;
  li_good : good k ws (ln_pipes s);
  li_out : ∀ x, x ∈ ln_out s → slot_of x.2 = lg_slot L → ∃ p, closed k ws p ∧ large_answer x p;
  li_sent : ∀ p, closed k ws p → ∃ x, x ∈ ln_out s ∧ slot_of x.2 = lg_slot L ∧ tag x.2 = p ∧
    x.1 = Multicast (lg_group L)
}.

(** ** The steps *)

Lemma leave_keeps x e pk out : x ∈ out → x ∈ leave e pk out.
Proof. intros H. destruct e; try done; apply elem_of_app; by left. Qed.
Lemma elem_of_leave x e pk out : x ∈ leave e pk out → x ∈ out ∨ x = (e, pk) ∧ e ≠ Drop.
Proof.
  destruct e; simpl; try (by left); intros [H|H%list_elem_of_singleton]%elem_of_app; subst;
    first [by left|by right].
Qed.

Lemma closed_mono k k' ws ws' p :
  k < k' ∨ k = k' ∧ (full home ws → full home ws') → closed k ws p → closed k' ws' p.
Proof. intros H [H0 Hp]. split; [done|]. destruct Hp as [?|[-> ?]], H as [?|[-> ?]]; try (left; lia); tauto. Qed.

(** A journey that leaves the sets as they are. *)
Lemma large_frame k ws s pipes' at' e pk :
  large_inv k ws s → good k ws pipes' →
  (∀ w, w ∈ ranks → at' w = ln_at s w) →
  (e ≠ Drop → slot_of pk = lg_slot L → ∃ p, closed k ws p ∧ large_answer (e, pk) p) →
  large_inv k ws (LargeNet pipes' at' (leave e pk (ln_out s))).
Proof.
  intros [] Hg Hat Hx. split; simpl; try done.
  - intros w Hw. by rewrite Hat, li_at0.
  - intros x [Hin|[-> He]]%elem_of_leave Hs; [by apply li_out0|by apply Hx].
  - intros p Hp. destruct (li_sent0 p Hp) as (x & Hin & Hrest). exists x. split; [by apply leave_keeps|done].
Qed.

(** A contribution that is new. *)
Lemma large_new k ws s w pipes' pk e :
  large_inv k ws s → w ∈ ranks → w ∉ ws → good k (ws ++ [w]) pipes' →
  (full home (ws ++ [w]) → e = Multicast (lg_group L) ∧ large_result k (total k 7) pk) →
  (¬ full home (ws ++ [w]) → e = Drop) →
  large_inv k (ws ++ [w]) (LargeNet pipes' (<[w := k]> (ln_at s)) (leave e pk (ln_out s))).
Proof.
  intros [] Hw Hn Hg Hfull Hnot. destruct (snoc_ranks home ws w li_nodup0 li_ranks0 Hw Hn) as [Hnd Hsub].
  assert (Hmono : ∀ p, closed k ws p → closed k (ws ++ [w]) p).
  { intros p. apply closed_mono. right. split; [done|]. unfold full. rewrite length_app.
    pose proof (not_full_length home ws w li_nodup0 li_ranks0 Hw Hn). simpl in *. lia. }
  split; simpl; try done.
  - intros x Hx. destruct (decide (x = w)) as [->|Hne].
    + rewrite fn_lookup_insert, bool_decide_eq_true_2; [done|]. apply elem_of_app. right. by left.
    + rewrite fn_lookup_insert_ne, li_at0 by done. erewrite bool_decide_ext; [done|].
      rewrite elem_of_app, list_elem_of_singleton. tauto.
  - intros x [Hin|[-> He]]%elem_of_leave Hs.
    + destruct (li_out0 x Hin Hs) as (p & Hp & Ha). exists p. split; [by apply Hmono|done].
    + destruct (full_dec home (ws ++ [w])) as [Hf|Hf]; [|by destruct He; apply Hnot].
      destruct (Hfull Hf) as [-> Hres]. exists k. split; [split; [done|by right]|]. by left.
  - intros p [H0 [Hp|[-> Hf]]].
    + destruct (li_sent0 p) as (x & Hin & Hrest); [split; [done|by left]|].
      exists x. split; [by apply leave_keeps|done].
    + destruct (Hfull Hf) as [-> Hres]. exists (Multicast (lg_group L), pk). split; [apply elem_of_app; right; by left|].
      destruct Hres as (Htag & Hidx & _). unfold slot_of. simpl. rewrite Hidx. split; [apply index_slot|done].
Qed.

(** The next phase. *)
Lemma large_advance k ws s : large_inv k ws s → full home ws → large_inv (k + 1) [] s.
Proof.
  intros [] Hf. pose proof (share_ok 0) as HJ.
  pose proof (full_perm home ws li_nodup0 li_ranks0 Hf) as Hperm.
  assert (Hiff : ∀ p, closed (k + 1) [] p → closed k ws p).
  { intros p [H0 [Hp|[_ Hempty]]]; [split; [done|]|].
    - destruct (decide (p = k)); [by right|left; lia].
    - destruct (lo_some HL). unfold full in Hempty. simpl in *. by destruct ranks. }
  split; try done; [lia|apply NoDup_nil_2|by intros w ?%not_elem_of_nil| | | |].
  - intros w Hw. rewrite li_at0 by done. rewrite !bool_decide_decide.
    rewrite decide_True by (by rewrite Hperm). rewrite decide_False by apply not_elem_of_nil. lia.
  - intros q Hq. apply (holds_advance (share q) (share_ok q) k ws); auto.
  - intros x Hin Hs. destruct (li_out0 x Hin Hs) as (p & Hp & Ha). exists p. split; [|done].
    eapply closed_mono; [|exact Hp]. left. lia.
  - intros p Hp. apply li_sent0, Hiff, Hp.
Qed.

(** A contribution that comes again. *)
Lemma large_repeat k ws s w p prob pipes' pk e :
  large_inv k ws s → w ∈ ranks → 0 ≤ p → p = ln_at s w → prob ≠ 0xffff →
  travel 10 alternate (lg_port L w) (initial (worker_bit w) prob false) (ln_pipes s) (large_contribution w p) =
    Some (pipes', pk, e) →
  large_inv k ws (LargeNet pipes' (<[w := p]> (ln_at s)) (leave e pk (ln_out s))).
Proof.
  intros Hi Hw H0 Hat Hprob E. pose proof Hi as [].
  assert (Hat' : ∀ x, x ∈ ranks → (<[w := p]> (ln_at s)) x = ln_at s x).
  { intros x _. destruct (decide (x = w)) as [->|]; [by rewrite fn_lookup_insert|by rewrite fn_lookup_insert_ne]. }
  assert (Hp : w ∈ ws ∧ p = k ∨ w ∉ ws ∧ k ≠ 0 ∧ p = k - 1).
  { rewrite li_at0 in Hat by done. case_bool_decide; [by left|right]. split; [done|]. lia. }
  assert (Hcase : w ∈ ws ∧ ¬ full home ws ∨ (w ∈ ws → full home ws))
    by (destruct (decide (w ∈ ws)), (full_dec home ws); tauto).
  destruct Hcase as [[Hin Hnf]|Hfull].
  - destruct Hp as [[_ ->]|[? _]]; [|done].
    destruct (journey_early k ws w (ln_pipes s) prob) as (pi & pk' & E' & Hg); [done..|].
    rewrite E in E'. simplify_eq. by apply large_frame.
  - destruct (journey_again k ws w p (ln_pipes s) prob) as (pi & pk' & E' & Hg & Hres & Hid); [done..|].
    rewrite E in E'. injection E' as -> -> ->. apply large_frame; [done..|]. intros _ _. exists p.
    split; [split; [done|]|right; by exists w].
    destruct Hp as [[Hin ->]|(_ & _ & ->)]; [right; by auto|left; lia].
Qed.

Lemma large_inv_init : large_inv 0 [] large_init.
Proof.
  assert (Hno : ∀ p, ¬ closed 0 [] p).
  { intros p [H0 [Hp|[_ Hf]]]; [lia|]. pose proof (lo_some HL). unfold full in Hf. simpl in *. by destruct ranks. }
  split; [done|apply NoDup_nil_2|by intros w ?%not_elem_of_nil|..].
  - intros w _. by rewrite bool_decide_eq_false_2 by apply not_elem_of_nil.
  - intros q Hq. split; try done; unfold old_side, side; case_bool_decide; done.
  - by intros x ?%not_elem_of_nil.
  - intros p Hp. by destruct (Hno p).
Qed.

Lemma large_inv_step k ws s s' : large_inv k ws s → large_step s s' → ∃ k' ws', large_inv k' ws' s'.
Proof.
  intros Hi Hs. destruct Hs as [s w p prob pipes' pk e Hw [H0 Hsend] Hprob E|s port l p0 pipes' pk e Hslot E].
  - assert (Hnew : ∀ k ws, large_inv k ws s → w ∉ ws → p = k →
      ∃ k' ws', large_inv k' ws' (LargeNet pipes' (<[w := p]> (ln_at s)) (leave e pk (ln_out s)))).
    { clear k ws Hi. intros k ws Hi Hn ->. pose proof Hi as [].
      destruct (journey_new k ws w (ln_pipes s) prob) as (pi & pk' & e' & E' & Hg & Hf & Hnf); [done..|].
      rewrite E in E'. simplify_eq. exists k, (ws ++ [w]). by apply large_new. }
    destruct (decide (p = ln_at s w)) as [Hat|Hat]; [exists k, ws; by eapply large_repeat|].
    destruct Hsend as [?|[Hnext Hres]]; [done|]. pose proof Hi as [].
    rewrite li_at0 in Hnext by done. case_bool_decide as Hin; [|by apply (Hnew k ws); [done..|lia]].
    destruct Hres as [?|(x & Hx & Hsl & Htag & _)]; [lia|].
    apply (Hnew (k + 1) []); [|apply not_elem_of_nil|lia]. apply (large_advance k ws); [done|].
    destruct (li_out0 x Hx Hsl) as (p' & [_ Hp'] & Ha).
    assert (Htag' : tag x.2 = p') by (destruct Ha as [(_ & ? & _)|(_ & _ & _ & _ & ? & _)]; done).
    destruct Hp' as [?|[_ ?]]; [lia|done].
  - pose proof Hi as []. destruct (travel_other _ _ _ _ _ _ _ _ _ _ li_good0 Hslot E) as [Hg Hs'].
    exists k, ws. by apply large_frame.
Qed.

Lemma large_inv_reachable s : large_reachable s → ∃ k ws, large_inv k ws s.
Proof.
  intros Hs. unfold large_reachable in Hs. revert s Hs. apply rtc_ind_r.
  - exists 0, []. exact large_inv_init.
  - intros y z _ Hstep (k & ws & Hi). by eapply large_inv_step.
Qed.

(** C5. The answers of a slot of 1024 bytes, when each packet passes all its pipes
    before the next comes. Whatever is lost and sent again, and whatever the
    packets of other slots do in between, what leaves the switch for a phase
    has the sums over all the workers in the first seven blocks and the maxima
    of the exponents, in a broadcast the sums in the last block too; what a
    worker gets that asks again has its own words there. Where packets pass at
    the same time this does not hold ([Overtaking]). *)
Theorem large_answers_right s x :
  large_reachable s → x ∈ ln_out s → slot_of x.2 = lg_slot L → 0 ≤ tag x.2 ∧ large_answer x (tag x.2).
Proof.
  intros (k & ws & [])%large_inv_reachable Hx Hs. destruct (li_out0 x Hx Hs) as (p & [H0 _] & Ha).
  assert (Htag : tag x.2 = p) by (destruct Ha as [(_ & ? & _)|(_ & _ & _ & _ & ? & _)]; done).
  by rewrite Htag.
Qed.

(** ** Going on *)

Lemma sent_emitted k ws s w p : large_inv k ws s → closed k ws p → large_emitted w p s.
Proof.
  intros [] Hp. destruct (li_sent0 p Hp) as (x & Hx & Hs & Ht & Hm). exists x. by auto.
Qed.

(** One more worker contributes. *)
Lemma large_contribute k ws s w :
  large_inv k ws s → w ∈ ranks → w ∉ ws → ∃ s', large_step s s' ∧ large_inv k (ws ++ [w]) s'.
Proof.
  intros Hi Hw Hn. pose proof Hi as [].
  destruct (journey_new k ws w (ln_pipes s) 0) as (pi & pk & e & E & Hg & Hf & Hnf); [done..|].
  exists (LargeNet pi (<[w := k]> (ln_at s)) (leave e pk (ln_out s))). split; [|by apply large_new].
  apply (large_arrive s w k 0); [done| |done|done]. split; [done|]. right.
  rewrite li_at0, bool_decide_eq_false_2 by done. split; [lia|].
  destruct (decide (k = 0)) as [->|Hk]; [by left|right].
  apply (sent_emitted k ws); [done|]. split; [lia|left; lia].
Qed.

Lemma large_complete k ws s :
  large_inv k ws s → ∃ s' ws', rtc large_step s s' ∧ large_inv k ws' s' ∧ full home ws'.
Proof.
  remember (length ranks - length ws)%nat as n eqn:Hn. revert ws s Hn.
  induction n as [|n IH]; intros ws s Hn Hi; pose proof Hi as [];
    pose proof (submseteq_length _ _ (NoDup_submseteq ws ranks li_nodup0 li_ranks0)) as Hle.
  - exists s, ws. split; [done|]. split; [done|]. unfold full. simpl. lia.
  - destruct (decide (Forall (.∈ ws) ranks)) as [Hall|(w & Hw & Hnw)%not_Forall_Exists%Exists_exists];
      [|..|apply _].
    + assert (Hf : full home ws); [|unfold full in Hf; simpl in Hf; lia].
      rewrite Forall_forall in Hall. by apply (full_all home (share_ok 0) ws li_nodup0 li_ranks0).
    + destruct (large_contribute k ws s w Hi Hw Hnw) as (s1 & Hs1 & Hi1).
      destruct (IH (ws ++ [w]) s1) as (s2 & ws2 & Hs2 & Hi2 & Hf); [rewrite length_app; simpl; lia|done|].
      exists s2, ws2. split; [by eapply rtc_l|done].
Qed.

(** C9. A slot of 1024 bytes does not get stuck, when each packet passes all its
    pipes before the next comes: from every state the job can be carried on until the
    result of a phase as late as one likes has been broadcast; and on the way every
    phase had its broadcast, with the sums over all the workers in all eight
    blocks and the maxima of the exponents. *)
Theorem large_live s n :
  large_reachable s →
  ∃ s' k, rtc large_step s s' ∧ n ≤ k ∧
    ∀ p, 0 ≤ p ≤ k → ∃ x, x ∈ ln_out s' ∧ slot_of x.2 = lg_slot L ∧
      x.1 = Multicast (lg_group L) ∧ large_result p (total p 7) x.2.
Proof.
  intros (k & ws & Hi)%large_inv_reachable.
  assert (Hgo : ∀ m : nat, ∃ s' k' ws', rtc large_step s s' ∧ k + Z.of_nat m ≤ k' ∧
    large_inv k' ws' s' ∧ full home ws').
  { induction m as [|m (s1 & k1 & ws1 & Hs1 & Hk1 & Hi1 & Hf1)].
    - destruct (large_complete k ws s Hi) as (s1 & ws1 & Hs1 & Hi1 & Hf). exists s1, k, ws1.
      split_and!; [done|lia|done|done].
    - destruct (large_complete _ _ _ (large_advance k1 ws1 s1 Hi1 Hf1)) as (s2 & ws2 & Hs2 & Hi2 & Hf2).
      exists s2, (k1 + 1), ws2. split_and!; [by etrans|lia|done|done]. }
  destruct (Hgo (Z.to_nat (n - k))) as (s' & k' & ws' & Hs' & Hk' & Hi' & Hf'). exists s', k'.
  split; [done|]. split; [lia|]. intros p [H0 Hp]. destruct Hi'.
  destruct (li_sent0 p) as (x & Hx & Hs & Ht & Hm).
  { split; [done|]. destruct (decide (p = k')); [by right|left; lia]. }
  exists x. split; [done|]. split; [done|]. split; [done|].
  destruct (li_out0 x Hx Hs) as (p' & _ & [[_ Hres]|(w & _ & Hu & _)]); [|congruence].
  assert (p' = p) as -> by (destruct Hres as [<- _]; done). done.
Qed.
End large.

(** ** A run *)

(** The step of an arrival as a function, to run small cases. *)
Definition large_arrival (L : large) (w p : Z) (s : large_net) : large_net :=
  match travel 10 None (lg_port L w) (initial (worker_bit w) 0 false) (ln_pipes s) (large_contribution L w p) with
  | Some (pipes', pk, e) => LargeNet pipes' (<[w := p]> (ln_at s)) (leave e pk (ln_out s))
  | None => s
  end.

Lemma reach_large_arrival L w p s :
  large_reachable L None s → w ∈ lg_ranks L → large_may_send L w p s →
  large_reachable L None (large_arrival L w p s).
Proof.
  intros Hs Hw Hp. unfold large_arrival. destruct (travel _ _ _ _ _ _) as [[[pi pk] e]|] eqn:E; [|done].
  unfold large_reachable in *. eapply rtc_r; [exact Hs|]. by apply (large_arrive L None s w p 0 pi pk e).
Qed.

(** Three workers with exponents of ten times their rank plus ten, whose words
    are all their rank plus one. *)
Definition three_workers : large :=
  Large [0; 1; 2] 0x1234 ROCEv2 5 true (λ w, 8 + 4 * w) (λ w _, 10 * (w + 1)) (λ w _, 10 * (w + 1))
    (λ w _ _ _, w + 1).

(** All three contribute, and the first one again. *)
Definition large_run : large_net :=
  foldr (λ w, large_arrival three_workers w 0) large_init [0; 2; 1; 0].

Lemma large_run_reachable : large_reachable three_workers None large_run.
Proof.
  unfold large_run. simpl foldr.
  apply reach_large_arrival; [|by left|split; [done|left; by vm_compute]].
  apply reach_large_arrival; [|right; right; by left|split; [done|right; split; [by vm_compute|by left]]].
  apply reach_large_arrival; [|right; by left|split; [done|right; split; [by vm_compute|by left]]].
  apply reach_large_arrival; [apply rtc_refl|by left|split; [done|right; split; [done|by left]]].
Qed.
End FourPipes.
