(* ===== verification/Overtaking.v ===== *)
(** * Packets that overtake each other between the pipes (p4/)

    The passes of packets of 1024 bytes, each pipe and each recirculation port
    on its own: a port is a queue, but the packets of different workers take
    different ports, so those of one can pass a pipe before, and the next one
    after, those of another. [FourPipes] has what the switch sends back when a
    packet finishes its journey first; here is what may happen when it does
    not. *)
From stdpp Require Import functions relations.
From S2P Require Import Prelude Worker DebugLog GetWorkerBitmap Pipeline Recirculation Aggregation.
From S2P Require Import Aggregated FourPipes.
Import Pipe FourPipes.

Module Overtaking.

Section flight.
Context (L : large) (alternate : option Z).

(** The registers of the pipes, the queue of each port, the phase of each
    worker's last packet, and what has left the switch. *)
Record flight := Flight {
  fl_pipes : Z → registers;
  fl_queue : Z → list packet;
  fl_at : Z → Z;
  fl_out : list (exit * packet)
}.

Definition land (e : exit) (pk : packet) (s : flight) : flight :=
  match e with
  | Recirculate port =>
      Flight (fl_pipes s) (<[port := fl_queue s port ++ [pk]]> (fl_queue s)) (fl_at s) (fl_out s)
  | _ => Flight (fl_pipes s) (fl_queue s) (fl_at s) (leave e pk (fl_out s))
  end.

(** One pass of a packet of worker [w], or of the packet that is first at a
    port. *)
Definition arrive (w p : Z) (s : flight) : flight :=
  let port := lg_port L w in
  let '(r, pk, e) := Ingress alternate port (initial (worker_bit w) 0 false) (fl_pipes s (pipe_of port))
    (large_contribution L w p) in
  land e pk (Flight (<[pipe_of port := r]> (fl_pipes s)) (fl_queue s) (<[w := p]> (fl_at s)) (fl_out s)).
Definition pass (port : Z) (s : flight) : flight :=
  match fl_queue s port with
  | [] => s
  | p0 :: q =>
      let '(r, pk, e) := Ingress alternate port (initial 0 0 false) (fl_pipes s (pipe_of port)) p0 in
      land e pk (Flight (<[pipe_of port := r]> (fl_pipes s)) (<[port := q]> (fl_queue s)) (fl_at s) (fl_out s))
  end.

(** A worker sends again what it has sent last, or starts. *)
Inductive flight_step : flight → flight → Prop :=
| fly_start s w : w ∈ lg_ranks L → fl_at s w = -1 → flight_step s (arrive w 0 s)
| fly_again s w : w ∈ lg_ranks L → 0 ≤ fl_at s w → flight_step s (arrive w (fl_at s w) s)
| fly_pass s port : flight_step s (pass port s).

Definition flight_init : flight := Flight (λ _, cleared) (λ _, []) (λ _, -1) [].
Definition flight_reachable : flight → Prop := rtc flight_step flight_init.

Lemma reach_start s w :
  flight_reachable s → w ∈ lg_ranks L → fl_at s w = -1 → flight_reachable (arrive w 0 s).
Proof. intros Hs Hw Hat. eapply rtc_r; [exact Hs|by apply fly_start]. Qed.
Lemma pass_steps ports s : rtc flight_step s (foldr pass s ports).
Proof. induction ports as [|port ports IH]; [done|]. eapply rtc_r; [exact IH|apply fly_pass]. Qed.
Lemma reach_pass ports s : flight_reachable s → flight_reachable (foldr pass s ports).
Proof. unfold flight_reachable. intros Hs. etrans; [exact Hs|apply pass_steps]. Qed.
End flight.

(** ** Without loss *)

Section swarm.
Context (L : large) (alternate : option Z) (HL : large_ok L alternate).
Abbreviation ranks := (lg_ranks L).
Abbreviation home := (share L 0).

(** All the packets on their way, with the port they come in by next; the next
    pass is any one's. *)
Record swarm := Swarm {
  sw_pipes : Z → registers;
  sw_flying : list (Z * packet);
  sw_at : Z → Z;
  sw_out : list (exit * packet)
}.
Definition go (e : exit) (pk : packet) (s : swarm) : swarm :=
  match e with
  | Recirculate port => Swarm (sw_pipes s) (sw_flying s ++ [(port, pk)]) (sw_at s) (sw_out s)
  | _ => Swarm (sw_pipes s) (sw_flying s) (sw_at s) (leave e pk (sw_out s))
  end.
Definition swarm_emitted (w p : Z) (s : swarm) : Prop :=
  ∃ x, x ∈ sw_out s ∧ slot_of x.2 = lg_slot L ∧ tag x.2 = p ∧ x.1 = Multicast (lg_group L).

(** A worker contributes to the first phase, or to the next one when it has
    the result; a packet makes a pass; a packet of another slot makes one. *)
Inductive swarm_step : swarm → swarm → Prop :=
| swarm_arrive s w prob r pk e :
    w ∈ ranks → sw_at s w = -1 ∨ swarm_emitted w (sw_at s w) s → prob ≠ 0xffff →
    Ingress alternate (lg_port L w) (initial (worker_bit w) prob false) (sw_pipes s (pipe_of (lg_port L w)))
      (large_contribution L w (sw_at s w + 1)) = (r, pk, e) →
    swarm_step s (go e pk (Swarm (<[pipe_of (lg_port L w) := r]> (sw_pipes s)) (sw_flying s)
      (<[w := sw_at s w + 1]> (sw_at s)) (sw_out s)))
| swarm_pass s l1 port p0 l2 r pk e :
    sw_flying s = l1 ++ (port, p0) :: l2 →
    Ingress alternate port (initial 0 0 false) (sw_pipes s (pipe_of port)) p0 = (r, pk, e) →
    swarm_step s (go e pk (Swarm (<[pipe_of port := r]> (sw_pipes s)) (l1 ++ l2) (sw_at s) (sw_out s)))
| swarm_other s port l p0 r pk e :
    slot_of p0 ≠ lg_slot L →
    Ingress alternate port l (sw_pipes s (pipe_of port)) p0 = (r, pk, e) →
    swarm_step s (Swarm (<[pipe_of port := r]> (sw_pipes s)) (sw_flying s) (sw_at s) (sw_out s)).

Definition swarm_init : swarm := Swarm (λ _, cleared) [] (λ _, -1) [].
Definition swarm_reachable : swarm → Prop := rtc swarm_step swarm_init.

(** What leaves: everything is right but the first exponent, which is the
    maximum of some of the workers. *)
Definition some_maximum (p w x0 : Z) : Prop :=
  ∃ ws, w ∈ ws ∧ (∀ w', w' ∈ ws → w' ∈ ranks) ∧ x0 = maximum (λ w', lg_e0 L w' p) ws.
Definition swarm_result (p : Z) (pk : packet) : Prop :=
  tag pk = p ∧ pool_index (md pk) = index home p ∧
  (lg_last L = true →
   some_maximum p (worker_id (md pk)) (e0 pk) ∧ e1 pk = maximum (λ w, lg_e1 L w p) ranks) ∧
  same_blocks (blocks pk) (total L p <$> seq 0 8).

(** A packet on its way through the consuming passes; [W q] has contributed in
    pipe [q]. And one on its way back. *)
Inductive consuming (k : Z) (W : nat → list Z) : Z * packet → Prop :=
| consuming_at q port w first last before x0 :
    (1 ≤ q ≤ 3)%nat → pipe_of port = Z.of_nat q → w ∈ W (q - 1)%nat → w ∉ W q →
    (lg_last L = true → some_maximum k w x0) →
    consuming k W (port, Packet (large_md L w k (consume_type q) (lg_port L w) first last false before)
      x0 (lg_e1 L w k) k (lg_block L w k <$> seq (2 * q) (8 - 2 * q))).
Inductive harvesting (k : Z) : Z * packet → Prop :=
| harvesting_at i port w first before x0 x1 bs :
    (1 ≤ i ≤ 7)%nat → pipe_of port = Z.of_nat (harvest_pipe i) → (i = 7%nat → port = 68) →
    (lg_last L = true → some_maximum k w x0) → same_blocks bs (total L k <$> seq (8 - i) i) →
    harvesting k (port, Packet (large_md L w k (harvest_type i) (lg_port L w) first true false before)
      x0 x1 k bs).

Definition workers_of (l : list (Z * packet)) : list Z := (λ x, worker_id (md x.2)) <$> l.

Record swarm_inv (k : Z) (W : nat → list Z) (s : swarm) : Prop := {
  si_phase : 0 ≤ k;
  si_nodup q : (q < 4)%nat → NoDup (W q);
  si_ranks q : (q < 4)%nat → ∀ w, w ∈ W q → w ∈ ranks;
  si_chain q : (q < 3)%nat → ∀ w, w ∈ W (S q) → w ∈ W q;
  si_at w : w ∈ ranks → sw_at s w = if bool_decide (w ∈ W 0%nat) then k else k - 1;
  si_holds q : (q < 4)%nat → holds (share L q) k (W q) (sw_pipes s (Z.of_nat q));
  si_flying :
    ¬ full home (W 3%nat) ∧ Forall (consuming k W) (sw_flying s) ∧ NoDup (workers_of (sw_flying s)) ∨
    full home (W 3%nat) ∧ (sw_flying s = [] ∨ ∃ x, sw_flying s = [x] ∧ harvesting k x);
  si_out x : x ∈ sw_out s → slot_of x.2 = lg_slot L →
    ∃ p, 0 ≤ p ∧ (p < k ∨ p = k ∧ full home (W 3%nat) ∧ sw_flying s = []) ∧
      x.1 = Multicast (lg_group L) ∧ swarm_result p x.2
}.

(** A consuming pass in a pipe where [ws] have contributed. *)
Lemma swarm_consume q port port0 k w ws r prob first last before x0 rest :
  (q < 4)%nat → w ∈ ranks → w ∉ ws → NoDup ws → (∀ x, x ∈ ws → x ∈ ranks) → prob ≠ 0xffff →
  holds (share L q) k ws r → (q = 0%nat → x0 = lg_e0 L w k) →
  (q ≠ 0%nat → lg_last L = true → some_maximum k w x0) →
  ∃ r' first' before' x0', holds (share L q) k (ws ++ [w]) r' ∧
    (lg_last L = true → some_maximum k w x0') ∧
    let res := Ingress alternate port (pass_locals q w prob) r
      (Packet (large_md L w k (consume_type q) port0 first last false before) x0 (lg_e1 L w k) k
         (lg_block L w k (2 * q) :: lg_block L w k (2 * q + 1) :: rest)) in
    let goes t last' bs port' := res = (r',
      Packet (large_md L w k t (first_port q port0 port) first' last' false before') x0' (lg_e1 L w k) k bs,
      Recirculate port') in
    if decide (q = 3%nat) then
      (full home (ws ++ [w]) → ∃ b, goes HARVEST1 true (b :: rest) 452 ∧ ∀ n, b n = total L k 7 n) ∧
      (¬ full home (ws ++ [w]) → ∃ pk, res = (r', pk, Drop))
    else ∃ last' port', pipe_of port' = Z.of_nat (S q) ∧ goes (consume_type (S q)) last' rest port'.
Proof.
  intros Hq Hw Hn Hnd Hsub Hprob Hr H0 Hx. pose proof (share_ok L alternate HL q) as HJ.
  pose proof (ranks_nonneg (share L q) HJ ws Hsub) as Hpos. pose proof (lo_bits L alternate HL w Hw) as Hw32.
  destruct (consume_new L alternate q port port0 r w k prob first last before x0 (lg_e1 L w k) rest)
    as (v & Hv & Hv' & E); [lia|done|done|by intros ->; split; [apply H0|]| |].
  { rewrite (hd_side _ _ _ _ Hr). apply collected_meets; [lia|done|done]. }
  cbv zeta in E.
  pose proof (holds_new (share L q) HJ k ws _ w v Hr Hnd Hsub Hw Hn Hv Hv') as Hr'.
  pose proof (new_flag (share L q) k ws _ Hr w (not_full_length (share L q) ws w Hnd Hsub Hw Hn)) as Hflag.
  destruct (snoc_ranks (share L q) ws w Hnd Hsub Hw Hn) as [Hnd' Hsub'].
  set (flag := if bool_decide (_ = 1) then 1 else _) in *. clearbody flag.
  eexists _, _, _, _. split; [exact Hr'|]. split; [|cbv zeta].
  { instantiate (1 := if jb_last (share L q) then (new_exponents (share L q) w k r).1 else x0).
    intros Hl. destruct q as [|q]; simpl; rewrite Hl; [|by apply Hx]. exists (ws ++ [w]).
    split; [apply elem_of_app; right; by left|]. split; [done|]. simpl.
    rewrite (proj2 (new_data home HJ k ws _ w 0 Hr Hsub Hw)); [done|]. simpl. by rewrite Hl. }
  destruct q as [|[|[|[|]]]]; [..|lia].
  - eexists _, _. split; [apply pipe_of_spread|exact E].
  - eexists _, _. split; [by apply pipe_of_next|exact E].
  - eexists _, _. split; [by apply pipe_of_next|exact E].
  - case_bool_decide as Hf; (split; [intros Hfull|intros Hfull]).
    + subst flag. rewrite orb_true_r in E. eexists. split; [exact E|]. intros n.  cbv beta.
      rewrite (proj1 (new_data (share L 3) HJ k ws _ w n Hr Hsub Hw)). apply sum_perm.
      by apply (full_perm (share L 3)).
    + by apply Hflag in Hf.
    + by apply Hflag in Hfull.
    + exact E.
Qed.

(** ** Who has contributed where *)

Definition put (q : nat) (w : Z) (W : nat → list Z) : nat → list Z := <[q := W q ++ [w]]> W.
Lemma put_same q w W : put q w W q = W q ++ [w].
Proof. apply fn_lookup_insert. Qed.
Lemma put_other q q' w W : q ≠ q' → put q w W q' = W q'.
Proof. apply fn_lookup_insert_ne. Qed.
Lemma elem_of_put q q' w w' W : w' ∈ put q w W q' ↔ w' ∈ W q' ∨ q = q' ∧ w' = w.
Proof.
  destruct (decide (q = q')) as [->|Hne].
  - rewrite put_same, elem_of_app, list_elem_of_singleton. tauto.
  - rewrite put_other by done. tauto.
Qed.

Lemma below k W s q q' w : swarm_inv k W s → (q' ≤ q < 4)%nat → w ∈ W q → w ∈ W q'.
Proof.
  intros Hi [Hle Hq] Hw. induction Hle as [|q Hle IH]; [done|]. apply IH; [lia|].
  by apply (si_chain k W s Hi); [lia|].
Qed.

Lemma consuming_put k q w W x :
  consuming k W x → worker_id (md x.2) ≠ w → consuming k (put q w W) x.
Proof.
  intros [q' port w' first last before x0 Hq Hport Hin Hn Hx] Hne. simpl in Hne.
  constructor; [done|done| | |done]; rewrite elem_of_put; tauto.
Qed.

(** The parts of the invariant that a new contribution in pipe [q] changes. *)
Lemma put_parts k W s q w port r :
  swarm_inv k W s → (q < 4)%nat → w ∈ ranks → w ∉ W q → (q = 0%nat ∨ w ∈ W (q - 1)%nat) →
  pipe_of port = Z.of_nat q → holds (share L q) k (W q ++ [w]) r →
  (∀ q', (q' < 4)%nat → NoDup (put q w W q')) ∧
  (∀ q', (q' < 4)%nat → ∀ w', w' ∈ put q w W q' → w' ∈ ranks) ∧
  (∀ q', (q' < 3)%nat → ∀ w', w' ∈ put q w W (S q') → w' ∈ put q w W q') ∧
  (∀ q', (q' < 4)%nat → holds (share L q') k (put q w W q') (<[pipe_of port := r]> (sw_pipes s) (Z.of_nat q'))).
Proof.
  intros [] Hq Hw Hn Hbefore Hport Hr.
  destruct (snoc_ranks (share L q) (W q) w (si_nodup0 q Hq) (si_ranks0 q Hq) Hw Hn) as [Hnd Hsub].
  split_and!.
  - intros q' Hq'. destruct (decide (q = q')) as [->|Hne]; [by rewrite put_same|rewrite put_other by done; auto].
  - intros q' Hq' w' [Hin|[-> ->]]%elem_of_put; [by apply (si_ranks0 q')|done].
  - intros q' Hq' w' [Hin|[-> ->]]%elem_of_put; apply elem_of_put; left; [by apply si_chain0|].
    destruct Hbefore as [?|Hin]; [done|]. by replace (S q' - 1)%nat with q' in Hin by lia.
  - intros q' Hq'. rewrite Hport. destruct (decide (q = q')) as [->|Hne].
    + by rewrite put_same, fn_lookup_insert.
    + rewrite put_other, fn_lookup_insert_ne by lia || done. auto.
Qed.

(** A new contribution in one of the first three pipes. *)
Lemma swarm_goes_on k W s q w port r at' l pk port' :
  swarm_inv k W s → (q < 3)%nat → w ∈ ranks → w ∉ W q → (q = 0%nat ∨ w ∈ W (q - 1)%nat) →
  pipe_of port = Z.of_nat q → holds (share L q) k (W q ++ [w]) r →
  (∀ w', w' ∈ ranks → at' w' = if bool_decide (w' ∈ put q w W 0%nat) then k else k - 1) →
  ¬ full home (W 3%nat) → Forall (consuming k W) l → NoDup (w :: workers_of l) →
  consuming k (put q w W) (port', pk) → worker_id (md pk) = w →
  swarm_inv k (put q w W)
    (go (Recirculate port') pk (Swarm (<[pipe_of port := r]> (sw_pipes s)) l at' (sw_out s))).
Proof.
  intros Hi Hq Hw Hn Hbefore Hport Hr Hat Hnf Hl Hids Hpk Hid.
  destruct (put_parts k W s q w port r Hi ltac:(lia) Hw Hn Hbefore Hport Hr) as (H1 & H2 & H3 & H4).
  destruct Hi. apply NoDup_cons in Hids as [Hfresh Hids]. split; simpl; try done.
  - left. rewrite put_other by lia. split; [done|]. split.
    + apply Forall_app. split; [|by apply Forall_singleton]. rewrite Forall_forall in *.
      intros x Hx. apply consuming_put; [by apply Hl|]. intros Heq. apply Hfresh.
      rewrite <- Heq. by apply (list_elem_of_fmap_2 (λ x : Z * packet, worker_id (md x.2))).
    + unfold workers_of. rewrite fmap_app. apply NoDup_app. split; [done|].
      split; [|apply NoDup_singleton]. simpl. rewrite Hid. by intros x Hx ->%list_elem_of_singleton.
  - intros x Hx Hs. destruct (si_out0 x Hx Hs) as (p & Hp0 & [Hp|(_ & ? & _)] & Hres); [|done].
    exists p. split; [done|]. split; [by left|done].
Qed.

(** A new contribution in the last pipe: the rest are still to come, or it is
    the only packet left. *)
Lemma swarm_ends_there k W s w port r l e pk :
  swarm_inv k W s → w ∈ ranks → w ∉ W 3%nat → w ∈ W 2%nat →
  pipe_of port = 3 → holds (share L 3) k (W 3%nat ++ [w]) r →
  ¬ full home (W 3%nat) → Forall (consuming k W) l → NoDup (w :: workers_of l) →
  (full home (W 3%nat ++ [w]) → ∃ port', e = Recirculate port' ∧ harvesting k (port', pk)) →
  (¬ full home (W 3%nat ++ [w]) → e = Drop) →
  swarm_inv k (put 3 w W)
    (go e pk (Swarm (<[pipe_of port := r]> (sw_pipes s)) l (sw_at s) (sw_out s))).
Proof.
  intros Hi Hw Hn Hbefore Hport Hr Hnf Hl Hids Hfull Hnot.
  destruct (put_parts k W s 3 w port r Hi ltac:(lia) Hw Hn ltac:(by right) Hport Hr) as (H1 & H2 & H3 & H4).
  pose proof Hi as []. apply NoDup_cons in Hids as [Hfresh Hids]. rewrite Forall_forall in Hl.
  assert (Hl' : ∀ x, x ∈ l → consuming k (put 3 w W) x ∧ worker_id (md x.2) ≠ w).
  { intros x Hx. assert (Hne : worker_id (md x.2) ≠ w); [|by split; [apply consuming_put; [apply Hl|]|]].
    intros Heq. apply Hfresh. rewrite <- Heq. by apply (list_elem_of_fmap_2 (λ x : Z * packet, worker_id (md x.2))). }
  destruct (full_dec home (W 3%nat ++ [w])) as [Hf|Hf].
  - destruct (Hfull Hf) as (port' & -> & Hh).
    assert (Hnone : l = []).
    { destruct l as [|x l]; [done|]. destruct (Hl' x ltac:(by left)) as [Hc Hne]. exfalso.
      destruct Hc as [q port0 w' first last before x0 Hq Hport0 Hin Hn' Hx]. simpl in Hne. apply Hn'.
      assert (Hw' : w' ∈ ranks).
      { rewrite elem_of_put in Hin. destruct Hin as [Hin|[? ->]]; [by apply (si_ranks0 (q - 1)%nat); [lia|]|done]. }
      assert (H3' : w' ∈ put 3 w W 3%nat).
      { rewrite put_same. destruct (snoc_ranks (share L 3) (W 3%nat) w (si_nodup0 3%nat ltac:(lia))
          (si_ranks0 3%nat ltac:(lia)) Hw Hn) as [Hnd Hsub].
        by apply (full_all home (share_ok L alternate HL 0) (W 3%nat ++ [w]) Hnd Hsub). }
      rewrite elem_of_put in H3'. rewrite elem_of_put. left. destruct H3' as [H3'|[_ ->]]; [|done].
      by apply (below k W s 3 q w' Hi ltac:(lia)). }
    subst l. simpl. split; simpl; try done.
    + right. rewrite put_same. split; [done|]. right. eexists. split; [reflexivity|done].
    + intros x Hx Hs. destruct (si_out0 x Hx Hs) as (p & Hp0 & [Hp|(_ & ? & _)] & Hres); [|done].
      exists p. split; [done|]. split; [by left|done].
  - rewrite (Hnot Hf). simpl. split; simpl; try done.
    + left. rewrite put_same. split; [done|]. split; [|done]. apply Forall_forall. intros x Hx. by apply Hl'.
    + intros x Hx Hs. destruct (si_out0 x Hx Hs) as (p & Hp0 & [Hp|(_ & ? & _)] & Hres); [|done].
      exists p. split; [done|]. split; [by left|done].
Qed.

(** ** The steps *)

Lemma swarm_arrive_new k W s w prob r pk e :
  swarm_inv k W s → w ∈ ranks → w ∉ W 0%nat → prob ≠ 0xffff →
  Ingress alternate (lg_port L w) (initial (worker_bit w) prob false) (sw_pipes s (pipe_of (lg_port L w)))
    (large_contribution L w k) = (r, pk, e) →
  swarm_inv k (put 0 w W)
    (go e pk (Swarm (<[pipe_of (lg_port L w) := r]> (sw_pipes s)) (sw_flying s) (<[w := k]> (sw_at s)) (sw_out s))).
Proof.
  intros Hi Hw Hn Hprob E. pose proof Hi as [].
  assert (Hport : pipe_of (lg_port L w) = 0) by (by apply (lo_port L alternate HL)).
  pose proof (si_holds0 0%nat ltac:(lia)) as Hr. change (Z.of_nat 0) with 0 in Hr. rewrite <- Hport in Hr.
  destruct (swarm_consume 0 (lg_port L w) 0 k w (W 0%nat) _ prob false false false (lg_e0 L w k)
    (lg_block L w k <$> seq 2 6) ltac:(lia) Hw Hn (si_nodup0 0%nat ltac:(lia))
    (si_ranks0 0%nat ltac:(lia)) Hprob Hr ltac:(done) ltac:(done))
    as (r' & first' & before' & x0' & Hr' & Hx' & last' & port' & Hport' & E'). cbv zeta in E'.
  assert (Heq : (r, pk, e) = (r', Packet (large_md L w k CONSUME1 (lg_port L w) first' last' false before')
    x0' (lg_e1 L w k) k (lg_block L w k <$> seq 2 6), Recirculate port')) by (rewrite <- E; exact E').
  simplify_eq.
  assert (Hnf : ¬ full home (W 3%nat)).
  { intros Hf. apply Hn, (below k W s 3 0 w Hi ltac:(lia)).
    by apply (full_all home (share_ok L alternate HL 0) _ (si_nodup0 3%nat ltac:(lia)) (si_ranks0 3%nat ltac:(lia))). }
  destruct si_flying0 as [(_ & Hl & Hids)|[? _]]; [|done].
  apply (swarm_goes_on k W s 0 w); [done|lia|done|done|by left|done|done| |done|done| | |done].
  - intros w' Hw'. destruct (decide (w' = w)) as [->|Hne].
    + rewrite fn_lookup_insert, bool_decide_eq_true_2; [done|]. rewrite elem_of_put. by right.
    + rewrite fn_lookup_insert_ne, si_at0 by done. erewrite bool_decide_ext; [done|].
      rewrite elem_of_put. tauto.
  - apply NoDup_cons. split; [|done]. intros (x & -> & Hx)%list_elem_of_fmap. apply Hn.
    rewrite Forall_forall in Hl. destruct (Hl x Hx) as [q port w last first before x0 Hq _ Hin _ _].
    by apply (below k W s (q - 1) 0 w Hi ltac:(lia)).
  - apply (consuming_at k _ 1 port' w first' last' before' x0'); [lia|done| | |done].
    + apply elem_of_put. by right.
    + rewrite elem_of_put. intros [Hin|[? _]]; [|done]. by apply Hn, (below k W s 1 0 w Hi ltac:(lia)).
Qed.

(** A pass of a packet that is being consumed. *)
Lemma swarm_pass_consuming k W s l1 port p0 l2 r pk e :
  swarm_inv k W s → sw_flying s = l1 ++ (port, p0) :: l2 → ¬ full home (W 3%nat) →
  Ingress alternate port (initial 0 0 false) (sw_pipes s (pipe_of port)) p0 = (r, pk, e) →
  ∃ W', swarm_inv k W' (go e pk (Swarm (<[pipe_of port := r]> (sw_pipes s)) (l1 ++ l2) (sw_at s) (sw_out s))).
Proof.
  intros Hi Hfly Hnf E. pose proof Hi as []. destruct si_flying0 as [(_ & Hl & Hids)|[? _]]; [|done].
  rewrite Hfly in Hl, Hids.
  assert (Hperm : l1 ++ (port, p0) :: l2 ≡ₚ (port, p0) :: l1 ++ l2) by (by rewrite Permutation_middle).
  unfold workers_of in Hids. rewrite Hperm in Hl, Hids. apply Forall_cons in Hl as [Hc Hl].
  simpl in Hids. fold (workers_of (l1 ++ l2)) in Hids.
  inversion Hc as [q port' w first last before x0 Hq Hport Hin Hn Hx Heq]. subst port' p0. simpl in Hids.
  assert (Hw : w ∈ ranks) by (by apply (si_ranks0 (q - 1)%nat); [lia|]).
  pose proof (si_holds0 q ltac:(lia)) as Hr. rewrite <- Hport in Hr.
  destruct (swarm_consume q port (lg_port L w) k w (W q) _ 0 first last before x0
    (lg_block L w k <$> seq (2 * S q) (8 - 2 * S q)) ltac:(lia) Hw Hn (si_nodup0 q ltac:(lia))
    (si_ranks0 q ltac:(lia)) ltac:(done) Hr ltac:(lia) ltac:(done))
    as (r' & first' & before' & x0' & Hr' & Hx' & E'). cbv zeta in E'. exists (put q w W).
  assert (Hon : (q < 3)%nat → ∀ port' last', pipe_of port' = Z.of_nat (S q) →
    (r, pk, e) = (r', Packet (large_md L w k (consume_type (S q)) (lg_port L w) first' last' false before')
      x0' (lg_e1 L w k) k (lg_block L w k <$> seq (2 * S q) (8 - 2 * S q)), Recirculate port') →
    swarm_inv k (put q w W)
      (go e pk (Swarm (<[pipe_of port := r]> (sw_pipes s)) (l1 ++ l2) (sw_at s) (sw_out s)))).
  { intros Hq3 port' last' Hport' [= -> -> ->].
    apply (swarm_goes_on k W s q w); [done|done|done|done|by right|done|done| |done|done|done| |done].
    - intros w' Hw'. rewrite put_other by lia. by apply si_at0.
    - apply (consuming_at k _ (S q) port' w first' last' before' x0'); [lia|done| | |done].
      + rewrite elem_of_put. right. split; [lia|done].
      + rewrite elem_of_put. intros [H|[? _]]; [|lia]. by apply Hn, (below k W s (S q) q w Hi ltac:(lia)). }
  destruct q as [|[|[|[|]]]]; [lia|..|lia]; simpl in E'.
  - destruct E' as (last' & port' & Hport' & E'). apply (Hon ltac:(lia) port' last' Hport'). rewrite <- E. exact E'.
  - destruct E' as (last' & port' & Hport' & E'). apply (Hon ltac:(lia) port' last' Hport'). rewrite <- E. exact E'.
  - destruct E' as [Hf1 Hf2].
    assert (Hreg : r = r').
    { destruct (full_dec home (W 3%nat ++ [w])) as [Hf|Hf].
      - destruct (Hf1 Hf) as (b & E' & _). pose proof (eq_trans (eq_sym E) E'). by simplify_eq.
      - destruct (Hf2 Hf) as (pk' & E'). pose proof (eq_trans (eq_sym E) E'). by simplify_eq. }
    apply (swarm_ends_there k W s w); try done; [by subst r| |]; intros Hf.
    + destruct (Hf1 Hf) as (b & E' & Hb). pose proof (eq_trans (eq_sym E) E'). simplify_eq. exists 452. split; [done|].
      apply (harvesting_at k 1); [lia|done|done|done|]. by constructor.
    + destruct (Hf2 Hf) as (pk' & E'). pose proof (eq_trans (eq_sym E) E'). by simplify_eq.
Qed.

(** A pass of the packet that collects the result. *)
Lemma swarm_complete k W s q :
  swarm_inv k W s → full home (W 3%nat) → (q < 4)%nat →
  (∀ n, rg_significands (sw_pipes s (Z.of_nat q)) (index home k) n = sums (share L q) k ranks n) ∧
  (jb_last (share L q) = true →
   rg_exponents (sw_pipes s (Z.of_nat q)) (index home k) = maxima (share L q) k ranks).
Proof.
  intros Hi Hf Hq. pose proof Hi as [].
  apply (reads_total (share L q) (share_ok L alternate HL q) k (W q)); [auto|auto|by apply si_ranks0|].
  left. split; [done|]. apply (full_all (share L q) (share_ok L alternate HL q)); [auto|by apply si_ranks0|].
  intros w Hw. apply (below k W s 3 q w Hi ltac:(lia)).
  by apply (full_all home (share_ok L alternate HL 0) _ (si_nodup0 3%nat ltac:(lia)) (si_ranks0 3%nat ltac:(lia))).
Qed.

Lemma swarm_reads k W s i :
  swarm_inv k W s → full home (W 3%nat) → (1 ≤ i ≤ 7)%nat →
  ∀ n, half i (rg_significands (sw_pipes s (Z.of_nat (harvest_pipe i))) (index home k) n) = total L k (7 - i) n.
Proof.
  intros Hi Hf Hi7 n.
  destruct (swarm_complete k W s (harvest_pipe i) Hi Hf) as [Hs _].
  { destruct i as [|[|[|[|[|[|]]]]]]; simpl; lia. }
  rewrite Hs. unfold half, sums, total. destruct i as [|[|[|[|[|[|[|[|]]]]]]]]; reflexivity || lia.
Qed.

(** The registers are read only, what flies is the packet again or nothing. *)
Lemma swarm_read k W s port q r flying' e pk :
  swarm_inv k W s → full home (W 3%nat) → (∃ x, sw_flying s = [x]) →
  (q < 4)%nat → pipe_of port = Z.of_nat q →
  r = same_data (index home k) (sw_pipes s (pipe_of port)) →
  flying' = [] ∨ (∃ x, flying' = [x] ∧ harvesting k x) →
  (e ≠ Drop → flying' = [] ∧ e = Multicast (lg_group L) ∧ swarm_result k pk) →
  swarm_inv k W (Swarm (<[pipe_of port := r]> (sw_pipes s)) flying' (sw_at s) (leave e pk (sw_out s))).
Proof.
  intros Hi Hf [x0 Hfly] Hq Hport -> Hfly' He. pose proof Hi as []. split; simpl; try done; [|by right|].
  - intros q' Hq'. rewrite Hport. destruct (decide (q = q')) as [->|Hne].
    + rewrite fn_lookup_insert. eapply holds_agree; [by apply si_holds0|apply agree_same].
    + rewrite fn_lookup_insert_ne by lia. auto.
  - intros x [Hx|[-> Hne]]%elem_of_leave Hs.
    + destruct (si_out0 x Hx Hs) as (p & Hp0 & [Hp|(_ & _ & Hnil)] & Hres); [|by rewrite Hfly in Hnil].
      exists p. split; [done|]. split; [by left|done].
    + destruct (He Hne) as (-> & -> & Hres). exists k. split; [done|]. by split; [right|].
Qed.

Lemma swarm_pass_harvesting k W s port p0 r pk e :
  swarm_inv k W s → sw_flying s = [(port, p0)] → full home (W 3%nat) → harvesting k (port, p0) →
  Ingress alternate port (initial 0 0 false) (sw_pipes s (pipe_of port)) p0 = (r, pk, e) →
  swarm_inv k W (go e pk (Swarm (<[pipe_of port := r]> (sw_pipes s)) [] (sw_at s) (sw_out s))).
Proof.
  intros Hi Hfly Hf Hh E.
  inversion Hh as [i port' w first before x0 x1 bs Hi7 Hport H68 Hx Hbs Heq]. subst port' p0.
  assert (Hq : (harvest_pipe i < 4)%nat) by (destruct i as [|[|[|[|[|[|]]]]]]; simpl; lia).
  pose proof (swarm_reads k W s i Hi Hf Hi7) as Hread. rewrite <- Hport in Hread.
  destruct (decide (i = 7%nat)) as [->|Hne].
  - rewrite (H68 eq_refl) in *.
    pose proof (harvest_last L alternate w k (lg_port L w) first true false before x0 x1 bs
      (sw_pipes s (pipe_of 68)) (lo_type L alternate HL)) as E'.
    destruct (swarm_complete k W s 0 Hi Hf ltac:(lia)) as [_ He].
    destruct first; simpl in E'.
    + destruct E' as [pk' E']. pose proof (eq_trans (eq_sym E) E'). simplify_eq.
      by apply (swarm_read k W s 68 0 _ [] Drop pk'); eauto.
    + destruct E' as (m & [Hm1 Hm2] & E'). pose proof (eq_trans (eq_sym E) E'). simplify_eq.
      apply (swarm_read k W s 68 0 _ []); eauto. intros _. split; [done|]. split; [done|].
      split; [done|]. split; [done|]. split; [|by constructor].
      intros Hl. simpl. rewrite Hl. split; [by apply Hx|]. change (pipe_of 68) with (Z.of_nat 0).
      rewrite He; [done|]. simpl. by rewrite Hl.
  - pose proof (harvest_pass L alternate i port (lg_port L w) (sw_pipes s (pipe_of port)) w k first true false
      before x0 x1 bs ltac:(lia)) as E'. pose proof (eq_trans (eq_sym E) E'). simplify_eq.
    apply (swarm_read k W s port (harvest_pipe i) _ _ Drop (large_contribution L w k)); eauto; [|done]. right. eexists. split; [reflexivity|].
    apply (harvesting_at k (S i)); [lia| | |done|].
    + apply (harvest_next L alternate HL); [lia|done].
    + intros [= ->]. done.
    + replace (8 - S i)%nat with (7 - i)%nat by lia. replace (8 - i)%nat with (S (7 - i)) in Hbs by lia.
      simpl. by constructor.
Qed.

(** The next phase. *)
Lemma swarm_advance k W s :
  swarm_inv k W s → full home (W 3%nat) → sw_flying s = [] → swarm_inv (k + 1) (λ _, []) s.
Proof.
  intros Hi Hf Hnil. pose proof Hi as []. pose proof (lo_some L alternate HL) as Hsome.
  assert (Hall : ∀ q w, (q < 4)%nat → w ∈ ranks → w ∈ W q).
  { intros q w Hq Hw. apply (below k W s 3 q w Hi ltac:(lia)).
    by apply (full_all home (share_ok L alternate HL 0) _ (si_nodup0 3%nat ltac:(lia)) (si_ranks0 3%nat ltac:(lia))). }
  split; try done; [lia|intros; apply NoDup_nil_2|by intros ??? ?%not_elem_of_nil| | | |].
  - intros w Hw. rewrite si_at0, bool_decide_eq_true_2 by (done || by apply Hall; [lia|]).
    rewrite bool_decide_eq_false_2 by apply not_elem_of_nil. lia.
  - intros q Hq. pose proof (share_ok L alternate HL q) as HJ.
    apply (holds_advance (share L q) HJ k (W q)); [by apply si_holds0|done|by apply si_ranks0|].
    apply (full_perm (share L q) (W q) (si_nodup0 q Hq) (si_ranks0 q Hq)).
    apply (full_all (share L q) HJ (W q) (si_nodup0 q Hq) (si_ranks0 q Hq)). intros w Hw. by apply Hall.
  - left. rewrite Hnil. split; [|split; [done|apply NoDup_nil_2]]. unfold full. simpl. by destruct ranks.
  - intros x Hx Hs. destruct (si_out0 x Hx Hs) as (p & Hp0 & Hp & Hres).
    exists p. split; [done|]. split; [left; lia|done].
Qed.

Lemma swarm_inv_init : swarm_inv 0 (λ _, []) swarm_init.
Proof.
  pose proof (lo_some L alternate HL) as Hsome.
  split; [done|intros; apply NoDup_nil_2|by intros ??? ?%not_elem_of_nil|done|..].
  - intros w _. by rewrite bool_decide_eq_false_2 by apply not_elem_of_nil.
  - intros q Hq. split; try done; unfold old_side, side; case_bool_decide; done.
  - left. split; [|split; [done|apply NoDup_nil_2]]. unfold full. simpl. by destruct ranks.
  - by intros x ?%not_elem_of_nil.
Qed.

Lemma swarm_inv_step k W s s' : swarm_inv k W s → swarm_step s s' → ∃ k' W', swarm_inv k' W' s'.
Proof.
  intros Hi Hs. destruct Hs as [s w prob r pk e Hw Hsend Hprob E|s l1 port p0 l2 r pk e Hfly E|s port l p0 r pk e Hslot E];
    pose proof Hi as [].
  - assert (Hnew : ∀ k W, swarm_inv k W s → w ∉ W 0%nat → sw_at s w + 1 = k → ∃ k' W', swarm_inv k' W'
      (go e pk (Swarm (<[pipe_of (lg_port L w) := r]> (sw_pipes s)) (sw_flying s)
        (<[w := sw_at s w + 1]> (sw_at s)) (sw_out s)))).
    { clear -HL Hw Hprob E. intros k W Hi Hn Hk. rewrite Hk in E |- *. exists k, (put 0 w W).
      by apply (swarm_arrive_new k W s w prob). }
    pose proof (si_at0 w Hw) as Hat. case_bool_decide as Hin; [|by apply (Hnew k W); [done..|lia]].
    destruct Hsend as [?|(x & Hx & Hsl & Ht & _)]; [lia|].
    destruct (si_out0 x Hx Hsl) as (p & _ & Hp & _ & Ht' & _).
    destruct Hp as [?|(_ & Hf & Hnil)]; [lia|].
    apply (Hnew (k + 1) (λ _, [])); [by apply (swarm_advance k W)|apply not_elem_of_nil|lia].
  - destruct si_flying0 as [(Hnf & _)|[Hf [Hnil|(x & Hx & Hh)]]].
    + destruct (swarm_pass_consuming k W s l1 port p0 l2 r pk e Hi Hfly Hnf E) as [W' Hi']. by exists k, W'.
    + rewrite Hnil in Hfly. by destruct l1.
    + rewrite Hx in Hfly. destruct l1 as [|y l1]; [|by destruct l1]. exists k, W.
      simpl in Hfly. injection Hfly as -> <-. by apply (swarm_pass_harvesting k W s port p0).
  - exists k, W. split; simpl; try done. intros q Hq. destruct (decide (pipe_of port = Z.of_nat q)) as [Heq|Hne].
    + rewrite Heq, fn_lookup_insert. rewrite Heq in E. apply (ingress_slot (share L q)) in E as [Hag _].
      eapply holds_agree; [by apply si_holds0|by apply Hag].
    + rewrite fn_lookup_insert_ne by done. auto.
Qed.

Lemma swarm_inv_reachable s : swarm_reachable s → ∃ k W, swarm_inv k W s.
Proof.
  intros Hs. unfold swarm_reachable in Hs. revert s Hs. apply rtc_ind_r.
  - exists 0, (λ _, []). exact swarm_inv_init.
  - intros y z _ Hstep (k & W & Hi). by eapply swarm_inv_step.
Qed.

(** C7. The passes of the contributions to a slot of 1024 bytes interleave in
    any order, in the four pipes and with the passes of other slots' packets.
    As long as no packet is sent twice, what leaves the switch is broadcast and
    has the sums over all the workers in all eight blocks and the maximum of
    the second exponent; of the first exponent it has the maximum of some of
    the workers, the one that collected the result among them. *)
Theorem interleaved_sums_right s x :
  swarm_reachable s → x ∈ sw_out s → slot_of x.2 = lg_slot L →
  0 ≤ tag x.2 ∧ x.1 = Multicast (lg_group L) ∧ swarm_result (tag x.2) x.2.
Proof.
  intros (k & W & [])%swarm_inv_reachable Hx Hs. destruct (si_out0 x Hx Hs) as (p & H0 & _ & Hm & Hres).
  pose proof Hres as [-> _]. done.
Qed.
End swarm.

(** ** Three workers *)

(** The ports of a worker's journey, the last one first: to the pipe where it
    is consumed, and all the way with the result. *)
Definition way_in (w : Z) : list Z := (λ pipe, pipe .<< 7 .| (4 * w)) <$> [3; 2; 1].
Definition way_out : list Z := [68; 64; 196; 196; 324; 324; 452].

(** The three packets come in by rank. *)
Definition arrivals : flight := 
  arrive three_workers None 2 0 (arrive three_workers None 1 0 (arrive three_workers None 0 0 flight_init)).
Lemma arrivals_reachable : flight_reachable three_workers None arrivals.
Proof.
  unfold arrivals. apply reach_start; [|right; right; by left|by vm_compute].
  apply reach_start; [|right; by left|by vm_compute]. apply reach_start; [apply rtc_refl|by left|done].
Qed.
(** The last one is the first in the other pipes. *)
Definition overtaken : flight :=
  foldr (pass None) arrivals (way_out ++ way_in 1 ++ way_in 0 ++ way_in 2).
(** The first one is the last in the other pipes. *)
Definition overtaken_first : flight :=
  foldr (pass None) arrivals (way_out ++ way_in 0 ++ way_in 2 ++ way_in 1).

(** The blocks are the sums, in every lane. *)
Definition sums_right (L : large) (p : Z) (bs : list block) : Prop :=
  length bs = 8%nat ∧ ∀ i b n, bs !! i = Some b → b n = total L p i n.
Lemma constant_blocks (bs : list block) (vs : list Z) :
  (∀ n, (λ b : block, b n) <$> bs = vs) →
  length bs = length vs ∧ ∀ i b n, bs !! i = Some b → vs !! i = Some (b n).
Proof.
  intros H. split; [by rewrite <- (H 0), length_fmap|]. intros i b n Hb.
  by rewrite <- (H n), list_lookup_fmap, Hb.
Qed.

(** C38. The passes of a packet take place at different times in different pipes,
    and the flag that tells the last contribution is looked at in each of them:
    a result can have a wrong exponent. In a run of three workers each has been in
    the first pipe once, worker 2 as the last, and all three packets are on their way to the
    second pipe; then that of worker 2 is overtaken by that of worker 1, which
    collects the result and broadcasts it. Its first exponent is the one it had when it
    left the first pipe, less than the maximum of all the workers. The second
    exponent and the sums are read later and are right. *)
Theorem overtaken_result_wrong :
  ∃ s0 pk1 s x, flight_reachable three_workers None s0 ∧ fl_out s0 = [] ∧
    fl_queue s0 132 = [pk1] ∧ worker_id (md pk1) = 1 ∧ last_flag (md pk1) = false ∧
    (∃ pk2, fl_queue s0 136 = [pk2] ∧ worker_id (md pk2) = 2 ∧ last_flag (md pk2) = true) ∧
    rtc (flight_step three_workers None) s0 s ∧ x ∈ fl_out s ∧
    x.1 = Multicast (lg_group three_workers) ∧ tag x.2 = 0 ∧ worker_id (md x.2) = 1 ∧
    e0 x.2 = e0 pk1 ∧ e0 x.2 < maximum (λ w, lg_e0 three_workers w 0) (lg_ranks three_workers) ∧
    e1 x.2 = maximum (λ w, lg_e1 three_workers w 0) (lg_ranks three_workers) ∧
    sums_right three_workers 0 (blocks x.2).
Proof.
  assert (Hs : rtc (flight_step three_workers None) arrivals overtaken) by apply pass_steps.
  set (x := nth 0 (fl_out overtaken) (Drop, large_contribution three_workers 0 0)).
  assert (Hb : ∀ n, (λ b : block, b n) <$> blocks x.2 = [6; 6; 6; 6; 6; 6; 6; 6]).
  { intros n. vm_compute. reflexivity. }
  exists arrivals, (nth 0 (fl_queue arrivals 132) (large_contribution three_workers 0 0)), overtaken, x.
  split; [exact arrivals_reachable|].
  split; [by vm_compute|]. split; [by vm_compute|]. split; [by vm_compute|]. split; [by vm_compute|].
  split.
  { exists (nth 0 (fl_queue arrivals 136) (large_contribution three_workers 0 0)). by split_and!; vm_compute. }
  split; [exact Hs|]. split; [apply list_elem_of_In, nth_In; vm_compute; lia|].
  do 6 (split; [by vm_compute|]). apply constant_blocks in Hb as [Hl Hb]. split; [exact Hl|].
  intros i b n Hi. specialize (Hb i b n Hi). change [6; 6; 6; 6; 6; 6; 6; 6] with (replicate 8 6) in Hb.
  apply lookup_replicate in Hb as [-> _]. vm_compute. reflexivity.
Qed.

(** And when the packet that was the first in one pipe is the last in the last
    one, its header has both flags: the result is collected and then dropped,
    and no worker gets it before it asks again. *)
Theorem overtaken_result_lost :
  ∃ s, flight_reachable three_workers None s ∧ fl_out s = [] ∧
    (∀ w, w ∈ lg_ranks three_workers → fl_at s w = 0) ∧
    (∀ w port, w ∈ lg_ranks three_workers → port ∈ way_in w ++ way_out → fl_queue s port = []).
Proof.
  assert (Hr : flight_reachable three_workers None overtaken_first) by apply reach_pass, arrivals_reachable.
  exists overtaken_first. split; [exact Hr|]. split; [by vm_compute|]. split.
  - intros w Hw. repeat (apply elem_of_cons in Hw as [->|Hw]; [by vm_compute|]). by apply not_elem_of_nil in Hw.
  - assert (Hall : forallb (λ w, forallb (λ port, bool_decide (length (fl_queue overtaken_first port) = 0%nat))
      (way_in w ++ way_out)) (lg_ranks three_workers) = true) by (by vm_compute).
    intros w port Hw Hp. rewrite forallb_forall in Hall. specialize (Hall w ltac:(by apply list_elem_of_In)).
    rewrite forallb_forall in Hall. specialize (Hall port ltac:(by apply list_elem_of_In)).
    by apply bool_decide_eq_true, nil_length_inv in Hall.
Qed.
(** ** A repeated packet that is too fast *)

(** The first worker contributes; the packet of the second one has been in the
    first pipe only when the first worker asks for the result. *)
Definition two_large : large :=
  Large [0; 1] 0x1234 ROCEv2 5 true (λ w, 8 + 4 * w) (λ w _, 10 * (w + 1)) (λ w _, 10 * (w + 1))
    (λ w _ _ _, w + 1).
Definition before_asking : flight :=
  arrive two_large None 1 0 (foldr (pass None) (arrive two_large None 0 0 flight_init) (way_in 0)).
Definition asked_early : flight :=
  foldr (pass None) (arrive two_large None 0 0 before_asking) (way_out ++ way_in 0).

Lemma before_asking_reachable : flight_reachable two_large None before_asking.
Proof.
  unfold before_asking. apply reach_start; [|right; by left|by vm_compute].
  apply reach_pass, reach_start; [apply rtc_refl|by left|done].
Qed.
Lemma asked_early_from : rtc (flight_step two_large None) before_asking asked_early.
Proof.
  eapply (rtc_l _ _ (arrive two_large None 0 0 before_asking)); [|apply pass_steps].
  assert (Hat : fl_at before_asking 0 = 0) by (by vm_compute). rewrite <- Hat at 2.
  apply fly_again; [by left|by rewrite Hat].
Qed.

Lemma incomplete_words i v n :
  [3; 3; 1; 1; 1; 1; 1; 1] !! i = Some v →
  if bool_decide (i < 2)%nat then v = total two_large 0 i n
  else v = lg_block two_large 0 0 i n ∧ v ≠ total two_large 0 i n.
Proof.
  intros H. repeat (destruct i as [|i]; [injection H as <-; vm_compute; first [reflexivity|by split]|]). done.
Qed.

(** C37. A worker that asks again can be sent a result that is not complete: when
    all the contributions have been in the first pipe its packet goes on as one
    that collects the result, and if it then overtakes the last contribution,
    the last pass lets it through, because one is missing there. In a run of two workers
    the contribution of worker 1 has been in the first pipe only when worker 0 asks again,
    and is still on its way to the second one when worker 0 is answered: in every lane the first two
    blocks of the answer are the sums, and the other six are worker 0's own words, which are not. *)
Theorem incomplete_result_sent :
  ∃ s0 s x late, flight_reachable two_large None s0 ∧ fl_out s0 = [] ∧ fl_at s0 0 = 0 ∧ fl_at s0 1 = 0 ∧
    fl_queue s0 132 = [late] ∧ worker_id (md late) = 1 ∧
    rtc (flight_step two_large None) s0 s ∧ fl_queue s 132 = [late] ∧
    x ∈ fl_out s ∧ x.1 = Unicast (lg_port two_large 0) ∧ tag x.2 = 0 ∧ length (blocks x.2) = 8%nat ∧
    ∀ i b n, blocks x.2 !! i = Some b →
      if bool_decide (i < 2)%nat then b n = total two_large 0 i n
      else b n = lg_block two_large 0 0 i n ∧ b n ≠ total two_large 0 i n.
Proof.
  set (x := nth 0 (fl_out asked_early) (Drop, large_contribution two_large 0 0)).
  assert (Hb : ∀ n, (λ b : block, b n) <$> blocks x.2 = [3; 3; 1; 1; 1; 1; 1; 1]).
  { intros n. vm_compute. reflexivity. }
  exists before_asking, asked_early, x, (nth 0 (fl_queue before_asking 132) (large_contribution two_large 0 0)).
  split; [exact before_asking_reachable|]. do 5 (split; [by vm_compute|]).
  split; [exact asked_early_from|]. split; [by vm_compute|].
  split; [apply list_elem_of_In, nth_In; vm_compute; lia|]. do 2 (split; [by vm_compute|]).
  apply constant_blocks in Hb as [Hl Hb]. split; [exact Hl|]. intros i b n Hi. apply incomplete_words, (Hb i b n Hi).
Qed.

(** ** The same run without queues *)

Definition swarm_in (L : large) (w : Z) (s : swarm) : swarm :=
  let port := lg_port L w in
  let '(r, pk, e) := Ingress None port (initial (worker_bit w) 0 false) (sw_pipes s (pipe_of port))
    (large_contribution L w (sw_at s w + 1)) in
  go e pk (Swarm (<[pipe_of port := r]> (sw_pipes s)) (sw_flying s) (<[w := sw_at s w + 1]> (sw_at s)) (sw_out s)).
(** A pass of the [n]-th packet. *)
Definition swarm_nth (n : nat) (s : swarm) : swarm :=
  match skipn n (sw_flying s) with
  | [] => s
  | (port, p0) :: l2 =>
      let '(r, pk, e) := Ingress None port (initial 0 0 false) (sw_pipes s (pipe_of port)) p0 in
      go e pk (Swarm (<[pipe_of port := r]> (sw_pipes s)) (firstn n (sw_flying s) ++ l2) (sw_at s) (sw_out s))
  end.

Lemma reach_swarm_in L w s :
  swarm_reachable L None s → w ∈ lg_ranks L → sw_at s w = -1 → swarm_reachable L None (swarm_in L w s).
Proof.
  intros Hs Hw Hat. unfold swarm_reachable in *. eapply rtc_r; [exact Hs|]. unfold swarm_in.
  destruct (Ingress _ _ _ _ _) as [[r pk] e] eqn:E.
  apply (swarm_arrive L None s w 0 r pk e); [done|by left|done|exact E].
Qed.
Lemma reach_swarm_nth L ns s : swarm_reachable L None s → swarm_reachable L None (foldr swarm_nth s ns).
Proof.
  intros Hs. induction ns as [|n ns IH]; [done|]. simpl. set (s1 := foldr swarm_nth s ns) in *. clearbody s1.
  unfold swarm_nth. destruct (skipn n (sw_flying s1)) as [|[port p0] l2] eqn:Hd; [done|].
  destruct (Ingress _ _ _ _ _) as [[r pk] e] eqn:E. unfold swarm_reachable in *. eapply rtc_r; [exact IH|].
  apply (swarm_pass L None s1 (firstn n (sw_flying s1)) port p0 l2 r pk e); [|exact E].
  rewrite <- Hd. symmetry. apply firstn_skipn.
Qed.

(** As [overtaken]: the last packet first, then the first one, then the one
    between them all the way. *)
Definition swarm_run : swarm :=
  foldr swarm_nth (foldr (swarm_in three_workers) swarm_init [2; 1; 0])
    (replicate 10 0 ++ replicate 2 1 ++ [0] ++ replicate 3 2)%nat.

Lemma swarm_run_reachable : swarm_reachable three_workers None swarm_run.
Proof.
  unfold swarm_run. apply reach_swarm_nth. simpl foldr.
  apply reach_swarm_in; [|right; right; by left|by vm_compute].
  apply reach_swarm_in; [|right; by left|by vm_compute]. apply reach_swarm_in; [apply rtc_refl|by left|done].
Qed.
End Overtaking.
