(* ===== verification/Job.v ===== *)
(** * The job (py/Job.py)

    The object that owns the blocks and offers the operations the command line
    and the RPC server call: ports, MAC addresses, workers. *)
From S2P Require Import Prelude PyText PyMonad PyNum Bfrt Live World Ports Counters Worker PRE.
From S2P Require Import NonSwitchMLForward GetWorkerBitmap SetDstAddr Packets RDMAReceiver.
From S2P Require Import RDMASender Registers NextStep Mirror ARPandICMP DropSimulator DebugLog.

Module Job.
Section job.
Context `{BF : Bfrt} `{DO : DictOrder} `{ML : MathLog}.

(** ** Clearing: the lists [registers_to_clear], [counters_to_clear] and
    [tables_to_clear] the constructor builds, in order *)

Definition clear_registers : M world unit :=
  UpdateAndCheckWorkerBitmap.clear_registers ;;
  CountWorkers.clear_registers ;;
  ExponentMax.clear_registers ;;
  for_each (range 0 32) SignificandSum.clear_registers ;;
  DebugLog.clear_registers.

Definition counters_to_clear : list (M world unit) :=
  [GetWorkerBitmap.clear_counters; RDMAReceiver.clear_counters; SetDstAddr.clear_counters;
   RDMASender.clear_counters; NextStep.clear_counters].
Definition clear_counters : M world unit :=
  for_each counters_to_clear (λ m, try_except m (except_any (λ _, print "Oops: {}" []))).

Definition clear_all : M world unit :=
  GetWorkerBitmap.clear ;;
  RDMAReceiver.clear ;;
  DropSimulator.clear ;;
  DebugLog.clear ;;
  NextStep.clear ;;
  SetDstAddr.clear ;;
  RDMASender.clear.

(** ** MAC addresses *)

Definition mac_address_add (mac : string) (port lane : Z) : M world unit :=
  Forward.worker_add mac port lane.
Definition mac_address_del (mac : string) : M world unit := Forward.worker_del mac.
Definition mac_address_list (mac : option string) : M world unit := Forward.worker_print mac.
(** [mac] is not bound in the method. *)
Definition mac_address_clear_all : M world unit := raise NameError.

(** ** Ports *)

Definition port_rid (dev_port : Z) : Z := 0x8000 + dev_port.

Definition port_add (port lane speed : Z) (fec : string) : M world unit :=
  Ports.port_add port lane speed fec ;;
  dev_port ← Ports.get_dev_port port lane;
  g ← gets (all_ports_mgid ∘ w_job);
  PRE.worker_add g (port_rid dev_port) port lane.

Definition port_del (port lane : Z) : M world unit :=
  Ports.port_delete port lane ;;
  dev_port ← Ports.get_dev_port port lane;
  g ← gets (all_ports_mgid ∘ w_job);
  PRE.worker_del g (port_rid dev_port).

Definition port_clear_all : M world unit :=
  Ports.delete_all_ports ;;
  g ← gets (all_ports_mgid ∘ w_job);
  PRE.worker_clear_all g.

Definition port_clear_counters : M world unit := Ports.clear_counters.

(** [v['f']] of a configuration entry, as text. *)
Definition config_str (v : gmap string pyval) (f : string) : M world string :=
  x ← field v f;
  match x with VStr s => mret s | _ => raise AttributeError end.
Definition opt_value {A} (o : option A) : M world A :=
  match o with Some a => mret a | None => raise ValueError end.

(** The body of the loop of [port_load_file]; a MAC address that the file's
    parser does not read as text is taken for the same error as a speed that
    is not text. The file has been parsed into
    the items of its forwarding section. *)
Definition load_port (item : Z * gmap string pyval) : M world unit :=
  let '(dev_port, v) := item in
  '(fp_port, fp_lane) ← Ports.get_fp_port dev_port;
  s ← config_str v "speed";
  speed ← opt_value (speed_int s);
  fec ← (if bool_decide (is_Some (v !! "fec")) then f ← config_str v "fec"; mret (lower_str f)
         else mret "none");
  port_add fp_port fp_lane speed fec ;;
  mac ← config_str v "mac";
  mac_address_add mac fp_port fp_lane.
Definition port_load_file (forward : list (Z * gmap string pyval)) : M world unit :=
  for_each forward load_port.

(** ** Workers *)

Definition max_workers : Z := 32.
Definition msg_too_many : string :=
  "Current design supports only 32 SwitchML workers per job; you requested {}".

(** [1 << rank]: a negative shift is a [ValueError]. *)
Definition worker_mask (rank : Z) : M world Z :=
  if bool_decide (rank < 0) then raise ValueError else mret (1 .<< rank).

Definition worker_add_udp (rank count : Z) (mac ip : string) : M world unit :=
  if bool_decide (count > 32) then print msg_too_many [VInt count]
  else
    mask ← worker_mask rank;
    j ← gets w_job;
    GetWorkerBitmap.add_udp_entry (switch_mac j) (switch_ip j) (switch_udp_port j)
      (switch_udp_port_mask j) rank mac ip mask count 10 (switchml_workers_mgid j) 0 22528 ;;
    '(port, lane) ← Forward.worker_port_get mac;
    PRE.worker_add (switchml_workers_mgid j) rank port lane ;;
    SetDstAddr.add_udp_entry rank mac ip.

(** Three lines print the worker's parameters before the egress is set up. *)
Definition worker_add_roce (rank count : Z) (mac ip : string) (rkey packet_size message_size : Z)
    (qpns_and_psns : list (Z * Z)) : M world unit :=
  if bool_decide (count > 32) then print msg_too_many [VInt count]
  else
    mask ← worker_mask rank;
    j ← gets w_job;
    RDMAReceiver.add_entry (switch_mac j) (switch_ip j) (switch_partition_key j)
      (switchml_workers_mgid j) ip rank mask packet_size count ;;
    '(port, lane) ← Forward.worker_port_get mac;
    PRE.worker_add (switchml_workers_mgid j) rank port lane ;;
    print "" [VStr mac] ;;
    print "" [VStr ip] ;;
    print "" [VInts (qpns_and_psns.*1); VInts (qpns_and_psns.*2)] ;;
    RDMASender.add_write_worker rank mac ip rkey packet_size message_size qpns_and_psns.

Definition worker_del : M world unit := print "Unimplemented." [].

Definition worker_list : M world unit :=
  GetWorkerBitmap.print_counters ;;
  RDMAReceiver.print_counters ;;
  SetDstAddr.print_counters ;;
  RDMASender.print_counters.

Definition worker_clear_all : M world unit :=
  GetWorkerBitmap.clear ;;
  RDMAReceiver.clear ;;
  clear_registers ;;
  clear_counters ;;
  g ← gets (switchml_workers_mgid ∘ w_job);
  PRE.worker_clear_all g ;;
  SetDstAddr.clear_udp_entries ;;
  RDMASender.clear_workers ;;
  DropSimulator.clear ;;
  DebugLog.clear_log.

(** The body of the loop of [worker_load_file]; [Some tt] returns from the
    method. *)
Definition load_worker (count : Z) (item : Z * Z) : M world (option unit) :=
  let '(i, dev_port) := item in
  '(fp_port, fp_lane) ← Ports.get_fp_port dev_port;
  macs ← Forward.get_macs_on_port fp_port fp_lane;
  match macs with
  | [] =>
      print "Port {}/{} (dev_port {}) not currently configured."
        [VInt fp_port; VInt fp_lane; VInt dev_port] ;;
      mret (Some tt)
  | mac :: _ => worker_add_udp i count mac "0.0.0.0" ;; mret None
  end.
(** The parsed file's [workers_ports], when it has that section. *)
Definition worker_load_file (workers_ports : option (list Z)) : M world unit :=
  worker_clear_all ;;
  match workers_ports with
  | Some ports => for_return (enumerate ports) (load_worker (Z.of_nat (length ports))) ;; mret tt
  | None => mret tt
  end.

Definition file_worker (worker_ports : list Z) (item : Z * gmap string pyval) : M world worker :=
  let '(dev_port, v) := item in
  '(fp_port, fp_lane) ← Ports.get_fp_port dev_port;
  s ← config_str v "speed";
  speed ← opt_value (speed_int s);
  mac ← config_str v "mac";
  ip ← config_str v "ip";
  mret (Worker (strip_str mac) (strip_str ip) fp_port fp_lane speed "none" None
          (if bool_decide (dev_port ∈ worker_ports) then Some 12345 else None) None 0 0xffff).
Definition get_workers_from_files (forward : list (Z * gmap string pyval)) (worker_ports : list Z)
    : M world (list worker) :=
  map_each (file_worker worker_ports) forward.

(** ** Construction *)

Definition add_worker_port (wk : worker) : M world unit :=
  port_add (front_panel_port wk) (lane wk) (wk_speed wk) (wk_fec wk) ;;
  mac_address_add (wk_mac wk) (front_panel_port wk) (lane wk).

(** A file that has been parsed: [None] when it cannot be read. *)
Definition opened {A} (file : option A) : M world A :=
  match file with Some a => mret a | None => raise (Exn "No such file or directory") end.

(** The workers are used when there are any, then the ports file, when it has a
    name. *)
Definition init (ip mac : string) (udp_port udp_port_mask : Z) (workers : list worker)
    (ports_file : option (option (list (Z * gmap string pyval)))) : M world unit :=
  Ports.init ;;
  Ports.enable_loopback_ports ;;
  modify (set_job {| switch_mac := mac; switch_ip := ip; switch_udp_port := udp_port;
                     switch_udp_port_mask := udp_port_mask; switch_partition_key := 0xffff;
                     switchml_workers_mgid := 0x1234; all_ports_mgid := 0x1235;
                     cpu_port := 320 |}) ;;
  ARPandICMP.init ;;
  GetWorkerBitmap.init ;;
  RDMAReceiver.init ;;
  UpdateAndCheckWorkerBitmap.init ;;
  CountWorkers.init ;;
  ExponentMax.init ;;
  for_each (range 0 32) SignificandSum.init ;;
  PRE.init 0x1234 0x1235 320 ;;
  Mirror.init 320 ;;
  DropSimulator.init ;;
  DebugLog.init ;;
  NextStep.init ;;
  Forward.init 0x1235 ;;
  SetDstAddr.init mac ip ;;
  RDMASender.init mac ip ;;
  match workers, ports_file with
  | _ :: _, _ => for_each workers add_worker_port
  | [], Some file => forward ← opened file; port_load_file forward
  | [], None => mret tt
  end ;;
  if bool_decide (mac ≠ "" ∧ ip ≠ "") then ARPandICMP.add_switch_mac_and_ip mac ip else mret tt.
End job.
End Job.
