(* ===== verification/JobPorts.v ===== *)
(** * Ports over the life of the job

    Every operation of the job keeps the invariant of the active ports, so it
    holds in every reachable state; and what adding and removing a port does to
    the ports and to the multicast group of all ports together. *)
From S2P Require Import Prelude PyText PyMonad PyNum Bfrt Live World Ports Counters Worker PRE.
From S2P Require Import NonSwitchMLForward GetWorkerBitmap SetDstAddr Packets RDMAReceiver.
From S2P Require Import RDMASender Registers NextStep Mirror ARPandICMP DropSimulator DebugLog.
From S2P Require Import Job.

(** ** Operations that do not touch the ports *)

Section frame.
Context `{SF : BfrtSafe} `{DO : DictOrder} `{ML : MathLog}.

Lemma forward_add_same mac p l : stable Ports.same_ports (Forward.worker_add mac p l).
Proof. unfold Forward.worker_add, Ports.get_dev_port. stable_walk. Qed.
Lemma forward_del_same mac : stable Ports.same_ports (Forward.worker_del mac).
Proof. unfold Forward.worker_del. stable_walk. Qed.
Lemma forward_print_same mac : stable Ports.same_ports (Forward.worker_print mac).
Proof. unfold Forward.worker_print. stable_walk. Qed.
Lemma forward_port_get_same mac : stable Ports.same_ports (Forward.worker_port_get mac).
Proof. unfold Forward.worker_port_get. stable_walk. Qed.
Lemma forward_macs_same p l : stable Ports.same_ports (Forward.get_macs_on_port p l).
Proof. unfold Forward.get_macs_on_port, Forward.check_mac. stable_walk. Qed.

Lemma pre_add_same g r p l : stable Ports.same_ports (PRE.worker_add g r p l).
Proof. unfold PRE.worker_add, PRE.try_del, PRE.rids_of, Ports.get_dev_port. stable_walk. Qed.
Lemma pre_del_same g r : stable Ports.same_ports (PRE.worker_del g r).
Proof. unfold PRE.worker_del. stable_walk. Qed.
Lemma pre_clear_same g : stable Ports.same_ports (PRE.worker_clear_all g).
Proof. unfold PRE.worker_clear_all, PRE.worker_clear, PRE.try_del, PRE.rids_of. stable_walk. Qed.

Lemma direct_same msg t : t ≠ "$PORT" → stable Ports.same_ports (clear_direct_counters msg t).
Proof.
  intros Ht. assert (Hbf : ∀ c, call_table c = t → stable Ports.same_ports (bf c)).
  { intros c Hc. apply Ports.stable_same_bf. apply orb_true_intro. right.
    apply bool_decide_eq_true. by rewrite Hc. }
  unfold clear_direct_counters, zero_row, action_name. stable_walk; by apply Hbf.
Qed.

Lemma significand_same n : stable Ports.same_ports (SignificandSum.clear_registers n).
Proof. unfold SignificandSum.clear_registers. stable_walk. Qed.

Lemma clear_registers_same : stable Ports.same_ports Job.clear_registers.
Proof.
  unfold Job.clear_registers, UpdateAndCheckWorkerBitmap.clear_registers,
    CountWorkers.clear_registers, ExponentMax.clear_registers, DebugLog.clear_registers.
  stable_walk. apply significand_same.
Qed.

Lemma clear_counters_job_same : stable Ports.same_ports Job.clear_counters.
Proof.
  unfold Job.clear_counters. apply stable_for_each; [apply _|]. intros m Hm.
  apply stable_try_any; [apply _| |intros e; by eauto with stable].
  revert m Hm. apply Forall_forall. unfold Job.counters_to_clear.
  repeat apply Forall_cons_2; [..|apply Forall_nil_2].
  - by apply direct_same.
  - unfold RDMAReceiver.clear_counters.
    apply stable_bind; [apply _|by apply direct_same|]. intros _. stable_walk.
  - by apply direct_same.
  - by apply direct_same.
  - unfold NextStep.clear_counters, NextStep.clear_counter, NextStep.counters. simpl. stable_walk.
Qed.

Lemma drop_set_same p q : stable Ports.same_ports (DropSimulator.set_drop_probabilities p q).
Proof. unfold DropSimulator.set_drop_probabilities, DropSimulator.drop_value. stable_walk. Qed.
Lemma drop_clear_same : stable Ports.same_ports DropSimulator.clear.
Proof. unfold DropSimulator.clear. stable_walk. apply drop_set_same. Qed.
End frame.

#[export] Hint Resolve forward_add_same forward_del_same forward_print_same forward_port_get_same
  forward_macs_same pre_add_same pre_del_same pre_clear_same clear_registers_same
  clear_counters_job_same drop_set_same drop_clear_same : stable.
#[export] Hint Resolve Ports.get_fp_port_same Ports.clear_counters_same Ports.list_ports_same : stable.

Section operations.
Context `{SF : BfrtSafe} `{DO : DictOrder} `{ML : MathLog}.

Lemma receiver_clear_same : stable Ports.same_ports RDMAReceiver.clear.
Proof. unfold RDMAReceiver.clear. stable_walk. Qed.
Lemma receiver_add_same a b c d e f g h i :
  stable Ports.same_ports (RDMAReceiver.add_entry a b c d e f g h i).
Proof.
  unfold RDMAReceiver.add_entry, RDMAReceiver.opcodes, RDMAReceiver.add_opcode_entry. stable_walk.
Qed.
Lemma sender_add_same a b c d e f g :
  stable Ports.same_ports (RDMASender.add_write_worker a b c d e f g).
Proof. unfold RDMASender.add_write_worker, RDMASender.add_qp. stable_walk. Qed.
Lemma sender_clear_same : stable Ports.same_ports RDMASender.clear_workers.
Proof. unfold RDMASender.clear_workers. stable_walk. Qed.
Lemma clear_log_same : stable Ports.same_ports DebugLog.clear_log.
Proof. unfold DebugLog.clear_log, DebugLog.clear_register_twice. stable_walk. Qed.

Lemma worker_add_udp_same r n mac ip : stable Ports.same_ports (Job.worker_add_udp r n mac ip).
Proof.
  unfold Job.worker_add_udp, Job.worker_mask, GetWorkerBitmap.add_udp_entry,
    SetDstAddr.add_udp_entry. stable_walk.
Qed.
Lemma worker_add_roce_same r n mac ip k ps ms q :
  stable Ports.same_ports (Job.worker_add_roce r n mac ip k ps ms q).
Proof.
  pose proof receiver_add_same. pose proof sender_add_same.
  unfold Job.worker_add_roce, Job.worker_mask. stable_walk.
Qed.
Lemma worker_clear_all_same : stable Ports.same_ports Job.worker_clear_all.
Proof.
  pose proof receiver_clear_same. pose proof sender_clear_same. pose proof clear_log_same.
  unfold Job.worker_clear_all, GetWorkerBitmap.clear, SetDstAddr.clear_udp_entries. stable_walk.
Qed.
Lemma worker_load_same o : stable Ports.same_ports (Job.worker_load_file o).
Proof.
  pose proof worker_clear_all_same. pose proof worker_add_udp_same.
  unfold Job.worker_load_file, Job.load_worker. stable_walk.
Qed.
Lemma clear_all_same : stable Ports.same_ports Job.clear_all.
Proof.
  pose proof receiver_clear_same. pose proof sender_clear_same.
  unfold Job.clear_all, GetWorkerBitmap.clear, SetDstAddr.clear, RDMASender.clear,
    DebugLog.clear, NextStep.clear. stable_walk.
Qed.

(** ** Operations on ports *)

Lemma job_port_add_keeps p l speed fec :
  stable (keeps Ports.ports_inv) (Job.port_add p l speed fec).
Proof.
  pose proof Ports.port_add_keeps. unfold Job.port_add. stable_walk.
  - apply Ports.same_ports_keeps. unfold Ports.get_dev_port. stable_walk.
  - apply Ports.same_ports_keeps, pre_add_same.
Qed.
Lemma job_port_del_keeps p l : stable (keeps Ports.ports_inv) (Job.port_del p l).
Proof.
  pose proof Ports.port_delete_keeps. unfold Job.port_del. stable_walk.
  - apply Ports.same_ports_keeps. unfold Ports.get_dev_port. stable_walk.
  - apply Ports.same_ports_keeps, pre_del_same.
Qed.
Lemma port_load_keeps forward : stable (keeps Ports.ports_inv) (Job.port_load_file forward).
Proof.
  pose proof job_port_add_keeps.
  unfold Job.port_load_file, Job.load_port, Job.config_str, Job.opt_value, Job.mac_address_add.
  stable_walk.
  all: apply Ports.same_ports_keeps; eauto with stable.
Qed.
Lemma port_clear_all_ok w w' :
  Job.port_clear_all w = (Ok tt, w') → Ports.ports_inv w'.
Proof.
  unfold Job.port_clear_all. rewrite run_bind.
  destruct (Ports.delete_all_ports w) as [[[]|] w1] eqn:E; [|done]. intros Hrun.
  apply Ports.delete_all_ports_inv in E.
  assert (Hs : stable Ports.same_ports
    (g ← gets (all_ports_mgid ∘ w_job); PRE.worker_clear_all g)) by stable_walk.
  specialize (Ports.same_ports_keeps _ Hs w1 E). by rewrite Hrun.
Qed.

(** The calls a client of the job may make; each is one of the methods. *)
Inductive job_call :=
| CPortAdd (port lane speed : Z) (fec : string)
| CPortDel (port lane : Z)
| CPortClearAll
| CPortClearCounters
| CPortList (port lane : option Z)
| CPortLoad (forward : list (Z * gmap string pyval))
| CMacAdd (mac : string) (port lane : Z)
| CMacDel (mac : string)
| CMacList (mac : option string)
| CMacClearAll
| CWorkerAddUdp (rank count : Z) (mac ip : string)
| CWorkerAddRoce (rank count : Z) (mac ip : string) (rkey packet_size message_size : Z)
    (qps : list (Z * Z))
| CWorkerClearAll
| CWorkerLoad (workers_ports : option (list Z))
| CWorkerDel
| CClearRegisters
| CClearCounters
| CClearAll
| CDropSet (ingress egress : pynum).

Definition run_call (c : job_call) : M world unit :=
  match c with
  | CPortAdd p l s f => Job.port_add p l s f
  | CPortDel p l => Job.port_del p l
  | CPortClearAll => Job.port_clear_all
  | CPortClearCounters => Job.port_clear_counters
  | CPortList p l => Ports.list_ports p l
  | CPortLoad f => Job.port_load_file f
  | CMacAdd m p l => Job.mac_address_add m p l
  | CMacDel m => Job.mac_address_del m
  | CMacList m => Job.mac_address_list m
  | CMacClearAll => Job.mac_address_clear_all
  | CWorkerAddUdp r n m i => Job.worker_add_udp r n m i
  | CWorkerAddRoce r n m i k ps ms q => Job.worker_add_roce r n m i k ps ms q
  | CWorkerClearAll => Job.worker_clear_all
  | CWorkerLoad o => Job.worker_load_file o
  | CWorkerDel => Job.worker_del
  | CClearRegisters => Job.clear_registers
  | CClearCounters => Job.clear_counters
  | CClearAll => Job.clear_all
  | CDropSet p q => DropSimulator.set_drop_probabilities p q
  end.

(** Sequences of calls: a call may end with an exception, which its caller
    reports before it goes on. Deleting all ports has to return. *)
Inductive steps : world → world → Prop :=
| steps_refl w : steps w w
| steps_call w1 w2 c r w3 :
    steps w1 w2 → run_call c w2 = (r, w3) → (c = CPortClearAll → r = Ok tt) → steps w1 w3.

Lemma run_call_keeps c : c ≠ CPortClearAll → stable (keeps Ports.ports_inv) (run_call c).
Proof.
  pose proof job_port_add_keeps. pose proof job_port_del_keeps. pose proof port_load_keeps.
  pose proof worker_add_udp_same. pose proof worker_add_roce_same. pose proof worker_clear_all_same.
  pose proof worker_load_same. pose proof clear_all_same.
  intros Hc. destruct c; simpl; auto; try done.
  all: apply Ports.same_ports_keeps; auto with stable.
  - unfold Job.mac_address_clear_all. stable_walk.
  - unfold Job.worker_del. stable_walk.
Qed.

(** In every state that any sequence of the job's calls can reach, whether
    the calls succeeded, failed or left the switch half configured, the list
    of active ports has no duplicates and every port on it has its entry in
    the switch's port table. *)
Theorem ports_inv_reachable w w' : steps w w' → Ports.ports_inv w → Ports.ports_inv w'.
Proof.
  intros Hs Hi. induction Hs as [|w1 w2 c r w3 Hs IH Hrun Hok]; [done|].
  assert (c = CPortClearAll ∨ c ≠ CPortClearAll) as [->|Hc] by (destruct c; (by left) || by right).
  { rewrite Hok in Hrun by done. by eapply port_clear_all_ok. }
  pose proof (run_call_keeps c Hc w2 (IH Hi)) as H. by rewrite Hrun in H.
Qed.
End operations.

(** ** What adding and removing a port does *)

Section effects.
Context `{LF : BfrtLive} `{DO : DictOrder} `{ML : MathLog}.

Lemma ends_all_ports w0 V G w :
  looks w0 V G w →
  ends (gets (all_ports_mgid ∘ w_job)) w (Ok (all_ports_mgid (w_job w0))) (looks w0 V G).
Proof. apply (ends_attr (all_ports_mgid ∘ w_job)). attr_solver. Qed.

(** The world and the switch after a port has been added. *)
Definition port_added (d : Z) (m : gmap Z Z) (w : world) : world :=
  PRE.put_rids (all_ports_mgid (w_job w)) (<[d := Job.port_rid d]> m)
    (Ports.set_active_ports (active_ports (w_ports w) ++ [d]) w).
Definition port_entries (d : Z) (speed fec : string) (V : entries) : entries :=
  <[("$pre.node", node_key (Job.port_rid d)) := PRE.node_data (Job.port_rid d) d]>
    (<[("$PORT", Ports.port_key d) := Ports.port_data speed fec]> V).

(** Nothing of the port [d] is known yet, and there is room for it. *)
Record port_new (d : Z) (m : gmap Z Z) (old : list Z) (w : world) (V : entries)
    (G : gmap Z (list Z)) : Prop := {
  pn_inactive : d ∉ active_ports (w_ports w);
  pn_port : V !! ("$PORT", Ports.port_key d) = None;
  pn_room : count_entries "$PORT" V < bf_size "$PORT";
  pn_rids : rids (w_pre w) !! all_ports_mgid (w_job w) = Some m;
  pn_rid : m !! Job.port_rid d = None;
  pn_group : G !! all_ports_mgid (w_job w) = Some old;
  pn_member : Job.port_rid d ∉ old;
  pn_node : V !! ("$pre.node", node_key (Job.port_rid d)) = None;
  pn_nodes : count_entries "$pre.node" V < bf_size "$pre.node"
}.

Lemma ends_job_port_add p l speed fec d s f m old w0 V G w :
  hdl !! (p, l) = Some d →
  Ports.speed_conversion_table speed = Some s → Ports.fec_conversion_table fec = Some f →
  port_new d m old w0 V G → looks w0 V G w →
  ends (Job.port_add p l speed fec) w (Ok tt)
    (looks (port_added d m w0) (port_entries d s f V)
       (<[all_ports_mgid (w_job w0) := old ++ [Job.port_rid d]]> G)).
Proof.
  intros Hd Hs Hf [] Hl. unfold Job.port_add.
  eapply ends_bind; [by eapply Ports.port_add_fresh|]. intros w1 Hl1.
  eapply ends_bind; [by eapply Ports.ends_get_dev_port|]. intros w2 Hl2.
  eapply ends_bind; [apply ends_all_ports, Hl2|]. intros w3 Hl3.
  eapply (PRE.ends_pre_add _ _ _ _ d m old); try done.
  - by rewrite lookup_insert_ne.
  - by rewrite count_entries_insert_ne.
Qed.

(** Adding a new port configures it on the switch, lists it as active, and
    joins it to the multicast group of all ports under a node identifier of
    its own, [0x8000] plus its device port; nothing else changes. *)
Theorem job_port_add_effect p l speed fec d s f m old w :
  hdl !! (p, l) = Some d →
  Ports.speed_conversion_table speed = Some s → Ports.fec_conversion_table fec = Some f →
  port_new d m old w (wview w) (wgroups w) →
  ends (Job.port_add p l speed fec) w (Ok tt)
    (looks (port_added d m w) (port_entries d s f (wview w))
       (<[all_ports_mgid (w_job w) := old ++ [Job.port_rid d]]> (wgroups w))).
Proof. intros. by eapply ends_job_port_add. Qed.

(** Removing a port that has been added takes it off the list and off the
    switch (its port entry, its node and its membership of the group), and
    then always fails with a [NameError]; the controller goes on recording
    the node that no longer exists. *)
Theorem job_port_del_stale p l speed fec d s f m old w :
  hdl !! (p, l) = Some d →
  Ports.speed_conversion_table speed = Some s → Ports.fec_conversion_table fec = Some f →
  port_new d m old w (wview w) (wgroups w) →
  ends (Job.port_add p l speed fec ;; Job.port_del p l) w (Raise NameError) (λ w', ∃ G',
    looks (PRE.put_rids (all_ports_mgid (w_job w)) (<[d := Job.port_rid d]> m) w)
      (wview w) G' w' ∧
    ∀ ids, G' !! all_ports_mgid (w_job w) = Some ids → Job.port_rid d ∉ ids).
Proof.
  intros Hd Hs Hf Hn. pose proof Hn as [].
  eapply ends_bind; [exact (ends_job_port_add p l speed fec d s f m old w _ _ w Hd Hs Hf Hn (looks_refl w))|].
  intros w1 Hl1. unfold Job.port_del. eapply ends_bind.
  { eapply (Ports.port_delete_active p l d (active_ports (w_ports w))); [done| | |exact Hl1].
    - simpl. by apply list_remove_last.
    - unfold port_entries. rewrite lookup_insert_ne by done. rewrite lookup_insert_eq. by eexists. }
  intros w2 Hl2.
  eapply ends_bind; [by eapply Ports.ends_get_dev_port|]. intros w3 Hl3.
  eapply ends_bind; [apply ends_all_ports, Hl3|]. intros w4 Hl4.
  eapply ends_mono.
  - eapply PRE.ends_pre_del; [| |exact Hl4].
    + eexists. split; [apply lookup_insert_eq|]. simpl. set_solver.
    + unfold port_entries. rewrite lookup_delete_ne by done. rewrite lookup_insert_eq. by eexists.
  - intros w5 (G' & (Ha & HV & HG) & HG'). exists G'. split; [|exact HG'].
    split; [|split; [|done]].
    + rewrite Ha. unfold attrs. simpl. by destruct (w_ports w).
    + rewrite HV. unfold port_entries. simpl.
      rewrite delete_insert_ne by done. rewrite (delete_insert_id (wview w)) by done.
      by rewrite delete_insert_id.
Qed.

Lemma ends_delete_all w0 V G w :
  looks w0 V G w →
  ends Ports.delete_all_ports w (Ok tt)
    (looks (Ports.set_active_ports [] w0)
       (del_entries "$PORT" (Ports.port_key <$> Ports.four_pipe_dev_ports) V) G).
Proof.
  generalize (Ports.delete_all_ports_run w). unfold ends.
  assert (Hok : is_ok (Ports.delete_all_ports w).1 = true).
  { unfold Ports.delete_all_ports. rewrite (run_bind_ok _ _ _ _ _ (run_log_info _ _ _)).
    rewrite (run_bind_ok _ _ _ _ _ (run_bf_done _ _ (live_del_ports _ _))). done. }
  destruct (Ports.delete_all_ports w) as [[[]|] w'] eqn:E; [|done]. intros Hr (Ha & HV & HG).
  exists w'. split; [done|]. subst V G. destruct Hr as (Ha' & HV' & HG'). split; [|done].
  rewrite Ha'. injection Ha. intros. unfold attrs. simpl. congruence.
Qed.

(** Clearing all ports empties the list and removes every front-panel port
    of the four pipes from the switch, the loopback ports among them, then
    removes every node on record from the group of all ports. *)
Theorem port_clear_all_effect m w :
  rids (w_pre w) !! all_ports_mgid (w_job w) = Some m →
  ends Job.port_clear_all w (Ok tt) (λ w', ∃ G',
    G' !! all_ports_mgid (w_job w) =
      filter (.∉ (dict_items m).*2) <$> wgroups w !! all_ports_mgid (w_job w) ∧
    looks (PRE.put_rids (all_ports_mgid (w_job w)) ∅ (Ports.set_active_ports [] w))
      (del_entries "$pre.node" (node_key <$> (dict_items m).*2)
         (del_entries "$PORT" (Ports.port_key <$> Ports.four_pipe_dev_ports) (wview w))) G' w').
Proof.
  intros Hm. unfold Job.port_clear_all.
  eapply ends_bind; [apply ends_delete_all, looks_refl|]. intros w1 Hl1.
  eapply ends_bind; [apply ends_all_ports, Hl1|]. intros w2 Hl2.
  by apply PRE.ends_pre_clear.
Qed.
End effects.
