(* ===== verification/JobWorkers.v ===== *)
(** * Workers of the job

    What adding a worker and clearing all workers do to the switch as a whole:
    the ingress entry, the multicast group and the egress entries together. *)
From S2P Require Import Prelude PyText PyMonad PyNum Bfrt Live World Ports Counters Worker PRE.
From S2P Require Import NonSwitchMLForward GetWorkerBitmap SetDstAddr Packets RDMAReceiver.
From S2P Require Import RDMASender Registers NextStep Mirror ARPandICMP DropSimulator DebugLog.
From S2P Require Import Job.

(** ** Adding a UDP worker

    What [worker_add_udp] asks for, and what becomes of it. *)

Section udp.
Context `{LF : BfrtLive} `{DO : DictOrder} `{ML : MathLog}.

Lemma ends_job w0 V G w :
  looks w0 V G w → ends (gets w_job) w (Ok (w_job w0)) (looks w0 V G).
Proof. apply (ends_attr w_job). attr_solver. Qed.

Lemma ends_worker_mask rank w0 V G w :
  0 ≤ rank → looks w0 V G w →
  ends (Job.worker_mask rank) w (Ok (GetWorkerBitmap.worker_bit rank)) (looks w0 V G).
Proof.
  intros Hr Hl. unfold Job.worker_mask. rewrite bool_decide_eq_false_2 by lia. by apply ends_ret.
Qed.

(** The ingress entry it asks for. *)
Definition job_udp_key (j : JobState) (mac ip : string) : key :=
  GetWorkerBitmap.udp_key (switch_mac j) (switch_ip j) (switch_udp_port j)
    (switch_udp_port_mask j) mac ip 10.
Definition job_udp_data (j : JobState) (rank count : Z) : datum :=
  GetWorkerBitmap.udp_data rank (GetWorkerBitmap.worker_bit rank) count
    (switchml_workers_mgid j) 0 22528.

(** A job of more than 32 workers is only reported. Otherwise the ingress entry
    comes first, and the client refuses its key. *)
Lemma ends_job_udp_too_many rank count mac ip w0 V G w :
  count > 32 → looks w0 V G w →
  ends (Job.worker_add_udp rank count mac ip) w (Ok tt) (looks w0 V G).
Proof.
  intros Hc Hl. unfold Job.worker_add_udp. rewrite bool_decide_eq_true_2 by lia.
  apply ends_print, Hl.
Qed.
Lemma ends_job_udp_refused rank count mac ip w0 V G w :
  count ≤ 32 → looks w0 V G w →
  ∃ e, ends (Job.worker_add_udp rank count mac ip) w (Raise e) (looks w0 V G).
Proof.
  intros Hc Hl. unfold Job.worker_add_udp, Job.worker_mask. rewrite bool_decide_eq_false_2 by lia.
  destruct (decide (rank < 0)) as [Hr|Hr].
  - rewrite bool_decide_eq_true_2 by done. exists ValueError.
    eapply ends_bind_raise; [by apply ends_raise|done].
  - rewrite bool_decide_eq_false_2 by done.
    destruct (GetWorkerBitmap.ends_bitmap_add_udp (switch_mac (w_job w0)) (switch_ip (w_job w0))
      (switch_udp_port (w_job w0)) (switch_udp_port_mask (w_job w0)) rank mac ip
      (1 .<< rank) count 10 (switchml_workers_mgid (w_job w0)) 0 22528 w0 V G w Hl) as [e He].
    exists e. eapply (ends_bind _ _ _ _ _ (eq w)); [by apply ends_ret|]. intros w1 <-.
    assert (Hj : w_job w = w_job w0) by (destruct Hl as [Ha _]; by injection Ha).
    eapply (ends_bind _ _ _ _ _ (eq w)); [by exists w|]. intros w1 <-. rewrite Hj.
    eapply ends_bind_raise; [exact He|done].
Qed.

(** What the switch and the controller must not know about a worker yet. *)
Record worker_new (rank d : Z) (m : gmap Z Z) (old : list Z) (w : world) (V : entries)
    (G : gmap Z (list Z)) : Prop := {
  wn_rids : rids (w_pre w) !! switchml_workers_mgid (w_job w) = Some m;
  wn_rid : m !! rank = None;
  wn_group : G !! switchml_workers_mgid (w_job w) = Some old;
  wn_member : rank ∉ old;
  wn_node : V !! ("$pre.node", node_key rank) = None;
  wn_nodes : count_entries "$pre.node" V < bf_size "$pre.node"
}.

(** The controller after the worker has joined the job's group. *)
Definition worker_joined (rank d : Z) (m : gmap Z Z) (w : world) : world :=
  PRE.put_rids (switchml_workers_mgid (w_job w)) (<[d := rank]> m) w.
End udp.

(** ** Adding a RoCE worker *)

Section roce.
Context `{LF : BfrtLive} `{DO : DictOrder} `{ML : MathLog}.

(** The ingress entries of a RoCE worker. *)
Definition roce_ingress (j : JobState) (rank count : Z) (ip : string) (size : Z) (V : entries) : entries :=
  add_entries RDMAReceiver.table
    (RDMAReceiver.worker_entries (switch_ip j) (switch_partition_key j) (switchml_workers_mgid j) ip
       rank (GetWorkerBitmap.worker_bit rank) size count RDMAReceiver.write_opcodes) V.
(** The receiver remembers the worker for its counters. *)
Definition roce_known (rank : Z) (w : world) : world :=
  RDMAReceiver.set_worker_ids (worker_ids (w_rx w) ++ [rank]) w.

(** What makes room for a RoCE worker in the tables of the job. *)
Record roce_new (rank k : Z) (ip : string) (j : JobState) (qps : list (Z * Z)) (V : entries) : Prop := {
  rn_ingress : ∀ op, V !! (RDMAReceiver.table,
    RDMAReceiver.entry_key ip (switch_ip j) (switch_partition_key j) op rank) = None;
  rn_ingress_room : count_entries RDMAReceiver.table V + 6 ≤ bf_size RDMAReceiver.table;
  rn_create : V !! (RDMASender.create_roce_packet, RDMASender.rid_key rank) = None;
  rn_create_room :
    count_entries RDMASender.create_roce_packet V < bf_size RDMASender.create_roce_packet;
  rn_fill : ∀ i, V !! (RDMASender.fill_in_qpn_and_psn,
    RDMASender.qp_key rank (i .<< (k + 1)) (RDMASender.qp_mask (2 ^ k))) = None;
  rn_fill_room : count_entries RDMASender.fill_in_qpn_and_psn V + Z.of_nat (length qps)
    ≤ bf_size RDMASender.fill_in_qpn_and_psn
}.

Lemma count_add_entries_ne t t' kds V :
  t ≠ t' → count_entries t (add_entries t' kds V) = count_entries t V.
Proof.
  intros Ht. induction kds as [|[k d] kds IH]; simpl; [done|].
  by rewrite count_entries_insert_ne.
Qed.

Lemma ends_job_roce rank count mac ip rkey size message qps p l d m old k w0 V G w :
  0 ≤ rank → count ≤ 32 → message / RDMASender.packet_bytes size = 2 ^ k → 0 ≤ k ≤ 28 →
  mac_addresses (w_fwd w0) !! mac = Some (p, l) → hdl !! (p, l) = Some d →
  worker_new rank d m old w0 V G → roce_new rank k ip (w_job w0) qps V →
  looks w0 V G w →
  ends (Job.worker_add_roce rank count mac ip rkey size message qps) w (Ok tt)
    (looks (worker_joined rank d m (roce_known rank w0))
       (RDMASender.sender_entries rank k mac ip rkey qps
          (<[("$pre.node", node_key rank) := PRE.node_data rank d]>
             (roce_ingress (w_job w0) rank count ip size V)))
       (<[switchml_workers_mgid (w_job w0) := old ++ [rank]]> G)).
Proof.
  intros Hr Hc Hm Hk Hmac Hd [] [] Hl. unfold Job.worker_add_roce.
  rewrite bool_decide_eq_false_2 by lia.
  eapply ends_bind; [by apply ends_worker_mask|]. intros w1 Hl1.
  eapply ends_bind; [apply ends_job, Hl1|]. intros w2 Hl2.
  eapply ends_bind; [apply RDMAReceiver.ends_receiver_add; [done|done|exact Hl2]|].
  intros w3 Hl3.
  eapply ends_bind; [eapply Forward.ends_worker_port_get; [|exact Hl3]; exact Hmac|]. intros w4 Hl4.
  eapply ends_bind.
  { eapply (PRE.ends_pre_add _ rank p l d m old); [exact Hd|..|exact Hl4]; try done.
    - by rewrite lookup_add_entries_ne.
    - by rewrite count_add_entries_ne. }
  intros w5 Hl5. eapply ends_bind; [apply ends_print, Hl5|]. intros w6 Hl6.
  eapply ends_bind; [apply ends_print, Hl6|]. intros w7 Hl7.
  eapply ends_bind; [apply ends_print, Hl7|]. intros w8 Hl8.
  apply RDMASender.ends_sender_add; [done|done|..|exact Hl8]; unfold roce_ingress.
  - by rewrite lookup_insert_ne, lookup_add_entries_ne.
  - intros i. by rewrite lookup_insert_ne, lookup_add_entries_ne.
  - by rewrite count_entries_insert_ne, count_add_entries_ne.
  - by rewrite count_entries_insert_ne, count_add_entries_ne.
Qed.

(** C25. Adding a RoCE worker sets up the whole path: the six ingress entries
    that carry its bit, its node in the job's multicast group at the device
    port its MAC address was learnt on, its egress entry, and one entry per
    queue pair it asked for; the receiver remembers it, and nothing else
    changes. *)
Theorem worker_add_roce_effect rank count mac ip rkey size message qps p l d m old k w :
  0 ≤ rank → count ≤ 32 → message / RDMASender.packet_bytes size = 2 ^ k → 0 ≤ k ≤ 28 →
  mac_addresses (w_fwd w) !! mac = Some (p, l) → hdl !! (p, l) = Some d →
  worker_new rank d m old w (wview w) (wgroups w) → roce_new rank k ip (w_job w) qps (wview w) →
  ends (Job.worker_add_roce rank count mac ip rkey size message qps) w (Ok tt)
    (looks (worker_joined rank d m (roce_known rank w))
       (RDMASender.sender_entries rank k mac ip rkey qps
          (<[("$pre.node", node_key rank) := PRE.node_data rank d]>
             (roce_ingress (w_job w) rank count ip size (wview w))))
       (<[switchml_workers_mgid (w_job w) := old ++ [rank]]> (wgroups w))).
Proof.
  intros. apply (ends_job_roce rank count mac ip rkey size message qps p l d m old k w
    (wview w) (wgroups w) w); try done. 
Qed.

Lemma ends_job_roce_unknown rank count mac ip rkey size message qps w0 V G w :
  0 ≤ rank → count ≤ 32 → mac_addresses (w_fwd w0) !! mac = None →
  (∀ op, V !! (RDMAReceiver.table,
    RDMAReceiver.entry_key ip (switch_ip (w_job w0)) (switch_partition_key (w_job w0)) op rank) = None) →
  count_entries RDMAReceiver.table V + 6 ≤ bf_size RDMAReceiver.table →
  looks w0 V G w →
  ends (Job.worker_add_roce rank count mac ip rkey size message qps) w (Raise Forward.not_configured)
    (looks (roce_known rank w0) (roce_ingress (w_job w0) rank count ip size V) G).
Proof.
  intros Hr Hc Hmac Hn Hroom Hl. unfold Job.worker_add_roce.
  rewrite bool_decide_eq_false_2 by lia.
  eapply ends_bind; [by apply ends_worker_mask|]. intros w1 Hl1.
  eapply ends_bind; [apply ends_job, Hl1|]. intros w2 Hl2.
  eapply ends_bind; [apply RDMAReceiver.ends_receiver_add; [done|done|exact Hl2]|].
  intros w3 Hl3. eapply ends_bind_raise; [|intros w4 H; exact H].
  eapply Forward.ends_worker_port_get_none; [|exact Hl3]. exact Hmac.
Qed.

Lemma ends_job_roce_too_many rank count mac ip rkey size message qps w0 V G w :
  count > 32 → looks w0 V G w →
  ends (Job.worker_add_roce rank count mac ip rkey size message qps) w (Ok tt) (looks w0 V G).
Proof.
  intros Hc Hl. unfold Job.worker_add_roce. rewrite bool_decide_eq_true_2 by lia.
  apply ends_print, Hl.
Qed.
End roce.

(** ** Clearing all workers *)

Section clearing.
Context `{LF : BfrtLive} `{DO : DictOrder} `{ML : MathLog}.

(** The counters of the receiver are arrays of the same size. *)
Definition counter_sizes : Prop :=
  let n := bf_size RDMAReceiver.rdma_message_counter in
  0 ≤ n ≤ bf_size RDMAReceiver.rdma_packet_counter ∧
  n ≤ bf_size RDMAReceiver.rdma_sequence_violation_counter ∧
  n ≤ bf_size RDMAReceiver.simulated_drop_counter.

Lemma ends_clear_cells t n w0 V G w :
  t ∈ counter_tables → 0 ≤ n ≤ bf_size t → looks w0 V G w →
  ends (bf (EntryAdd t (counter_range n) (Some (zero_cells n)))) w (Ok tt) (looks w0 V G).
Proof.
  intros Ht Hn Hl. apply ends_counter_add; [done| | |done].
  - unfold counter_range, zero_cells. rewrite length_fmap, length_replicate.
    pose proof (length_range 0 n). lia.
  - intros k (i & -> & Hi)%list_elem_of_fmap. exists i. apply elem_of_range in Hi.
    split; [done|lia].
Qed.

Lemma ends_receiver_clear w0 V G w :
  counter_sizes → looks w0 V G w →
  ends RDMAReceiver.clear w (Ok tt)
    (looks (RDMAReceiver.set_worker_ids [] w0) (clear_entries RDMAReceiver.table V) G).
Proof.
  intros (Hn & Hs & Hd) Hl. unfold RDMAReceiver.clear.
  eapply ends_bind.
  { apply (ends_assign (RDMAReceiver.set_worker_ids [])); [attr_solver|done|exact Hl]. }
  intros w1 Hl1. eapply ends_bind; [apply ends_clear; [in_tables|done|exact Hl1]|].
  intros w2 Hl2.
  eapply ends_bind; [apply ends_clear_cells; [in_tables|lia|exact Hl2]|]. intros w3 Hl3.
  eapply ends_bind; [apply ends_clear_cells; [in_tables|lia|exact Hl3]|]. intros w4 Hl4.
  eapply ends_bind; [apply ends_clear_cells; [in_tables|lia|exact Hl4]|]. intros w5 Hl5.
  apply ends_clear_cells; [in_tables|lia|exact Hl5].
Qed.

Ltac unseen := apply (bool_decide_unpack _); vm_compute; exact I.

Lemma ends_clear_registers w0 V G w :
  looks w0 V G w → ends Job.clear_registers w (Ok tt) (looks w0 V G).
Proof.
  intros Hl. unfold Job.clear_registers.
  eapply ends_bind.
  { unfold UpdateAndCheckWorkerBitmap.clear_registers.
    eapply ends_bind; [apply ends_log_info, Hl|]. intros w1 Hl1.
    apply ends_clear_unseen; [unseen|done|exact Hl1]. }
  intros w1 Hl1. eapply ends_bind.
  { unfold CountWorkers.clear_registers. apply ends_clear_unseen; [unseen|done|exact Hl1]. }
  intros w2 Hl2. eapply ends_bind.
  { unfold ExponentMax.clear_registers.
    eapply ends_bind; [apply ends_log_info, Hl2|]. intros w3 Hl3.
    apply ends_clear_unseen; [unseen|done|exact Hl3]. }
  intros w3 Hl3. eapply ends_bind.
  { apply (ends_for_each_inv _ _ (looks w0 V G)); [done|]. intros n w4 Hn Hl4.
    apply elem_of_range in Hn. unfold SignificandSum.clear_registers.
    eapply ends_bind; [apply ends_log_info, Hl4|]. intros w5 Hl5.
    destruct (significand_unseen n Hn) as [H1 H2].
    eapply ends_bind; [apply ends_clear_unseen; [done|done|exact Hl5]|]. intros w6 Hl6.
    apply ends_log_info, Hl6. }
  intros w4 Hl4. by apply ends_ret.
Qed.

Lemma counters_quiet m : m ∈ Job.counters_to_clear → stable quiet m.
Proof.
  revert m. apply Forall_forall. unfold Job.counters_to_clear.
  repeat apply Forall_cons_2; [..|apply Forall_nil_2].
  - apply GetWorkerBitmap.bitmap_clear_counters_quiet.
  - unfold RDMAReceiver.clear_counters.
    apply stable_bind; [apply _|by apply clear_direct_counters_quiet|]. intros _.
    stable_walk; (apply stable_quiet_unseen; [unseen|done]).
  - apply SetDstAddr.setdst_clear_counters_quiet.
  - apply RDMASender.sender_clear_counters_quiet.
  - apply NextStep.next_step_clear_counters_quiet.
Qed.

(** Clearing the counters always returns and shows nowhere. *)
Lemma ends_clear_counters w0 V G w :
  looks w0 V G w → ends Job.clear_counters w (Ok tt) (looks w0 V G).
Proof.
  intros Hl. apply (ends_for_each_inv _ _ (looks w0 V G)); [done|].
  intros m w1 Hm Hl1. apply ends_guarded; [by apply counters_quiet|done].
Qed.

Lemma ends_sender_clear w0 V G w :
  looks w0 V G w →
  ends RDMASender.clear_workers w (Ok tt)
    (looks w0 (clear_entries RDMASender.fill_in_qpn_and_psn
                 (clear_entries RDMASender.create_roce_packet V)) G).
Proof.
  intros Hl. unfold RDMASender.clear_workers.
  eapply ends_bind; [apply ends_clear; [in_tables|done|exact Hl]|]. intros w1 Hl1.
  eapply ends_bind; [apply ends_client; [done..|exact Hl1]|]. intros w2 Hl2.
  eapply ends_bind; [apply ends_clear; [in_tables|done|exact Hl2]|]. intros w3 Hl3.
  apply ends_client; [done..|exact Hl3].
Qed.

Lemma ends_clear_log w0 V G w :
  looks w0 V G w → ends DebugLog.clear_log w (Ok tt) (looks w0 V G).
Proof.
  intros Hl. unfold DebugLog.clear_log.
  assert (Ht : ∀ t w1, t ∈ [DebugLog.packet_id; DebugLog.log; DebugLog.egress_log] →
    looks w0 V G w1 → ends (DebugLog.clear_register_twice t) w1 (Ok tt) (looks w0 V G)).
  { intros t w1 [Hu Hm]%DebugLog.log_tables_unseen Hl1. unfold DebugLog.clear_register_twice.
    assert (Hn : t ≠ "$pre.node") by (intros ->; apply Hu; in_tables).
    eapply ends_bind; [apply ends_client; [done..|exact Hl1]|]. intros w2 Hl2.
    eapply ends_bind; [apply ends_clear_unseen; [done..|exact Hl2]|]. intros w3 Hl3.
    eapply ends_bind; [apply ends_client; [done..|exact Hl3]|]. intros w4 Hl4.
    eapply ends_bind; [apply ends_clear_unseen; [done..|exact Hl4]|]. intros w5 Hl5.
    apply ends_client; [done..|exact Hl5]. }
  eapply ends_bind; [apply Ht; [unseen|exact Hl]|]. intros w1 Hl1.
  eapply ends_bind; [apply Ht; [unseen|exact Hl1]|]. intros w2 Hl2.
  apply Ht; [unseen|exact Hl2].
Qed.

(** The tables [worker_clear_all] empties before it sets the drop
    probabilities again, and their contents afterwards. *)
Definition cleared_tables : list string :=
  [GetWorkerBitmap.table; RDMAReceiver.table; SetDstAddr.table;
   RDMASender.create_roce_packet; RDMASender.fill_in_qpn_and_psn].
Definition clear_tables (ts : list string) (V : entries) : entries := foldr clear_entries V ts.

(** The record and the switch once the workers are gone. *)
Definition workers_gone (w : world) : world :=
  PRE.put_rids (switchml_workers_mgid (w_job w)) ∅ (RDMAReceiver.set_worker_ids [] w).
Definition entries_gone (nodes : list Z) (V : entries) : entries :=
  clear_entries RDMASender.fill_in_qpn_and_psn (clear_entries RDMASender.create_roce_packet
    (clear_entries SetDstAddr.table (del_entries "$pre.node" (node_key <$> nodes)
      (clear_entries RDMAReceiver.table (clear_entries GetWorkerBitmap.table V))))).

(** What [worker_clear_all] has done when it reaches the drop simulator. *)
Lemma run_workers_gone m w0 V G w :
  counter_sizes → rids (w_pre w0) !! switchml_workers_mgid (w_job w0) = Some m →
  looks w0 V G w →
  ∃ w1 G', G' !! switchml_workers_mgid (w_job w0) =
      filter (.∉ (dict_items m).*2) <$> G !! switchml_workers_mgid (w_job w0) ∧
    looks (workers_gone w0) (entries_gone ((dict_items m).*2) V) G' w1 ∧
    ∀ rest : M world unit,
      (GetWorkerBitmap.clear ;; RDMAReceiver.clear ;; Job.clear_registers ;; Job.clear_counters ;;
       g ← gets (switchml_workers_mgid ∘ w_job);
       PRE.worker_clear_all g ;; SetDstAddr.clear_udp_entries ;; RDMASender.clear_workers ;; rest) w =
      rest w1.
Proof.
  intros Hsz Hm Hl.
  destruct (ends_clear GetWorkerBitmap.table _ _ _ w ltac:(in_tables) ltac:(done) Hl) as (w1 & R1 & H1).
  destruct (ends_receiver_clear _ _ _ w1 ltac:(done) H1) as (w2 & R2 & H2).
  destruct (ends_clear_registers _ _ _ w2 H2) as (w3 & R3 & H3).
  destruct (ends_clear_counters _ _ _ w3 H3) as (w4 & R4 & H4).
  destruct (ends_attr (switchml_workers_mgid ∘ w_job) _ _ _ w4 ltac:(attr_solver) H4) as (w5 & R5 & H5).
  destruct (PRE.ends_pre_clear (switchml_workers_mgid (w_job w0)) m
    (RDMAReceiver.set_worker_ids [] w0) _ _ w5 Hm H5) as (w6 & R6 & G' & HG' & H6).
  destruct (ends_clear SetDstAddr.table _ _ _ w6 ltac:(in_tables) ltac:(done) H6) as (w7 & R7 & H7).
  destruct (ends_sender_clear _ _ _ w7 H7) as (w8 & R8 & H8).
  exists w8, G'. split; [exact HG'|]. split; [exact H8|]. intros rest.
  repeat (erewrite run_bind_ok by eassumption). done.
Qed.

Lemma lookup_entries_gone nodes V t k :
  entries_gone nodes V !! (t, k) =
    if bool_decide (t ∈ cleared_tables ∨ (t = "$pre.node" ∧ k ∈ node_key <$> nodes)) then None
    else V !! (t, k).
Proof.
  unfold entries_gone. rewrite !lookup_clear_entries, lookup_del_entries, !lookup_clear_entries.
  unfold cleared_tables. repeat case_decide; repeat case_bool_decide; try done; set_solver.
Qed.

Lemma set_drop_same w0 :
  attrs (set_drop {| ingress_drop_probability := ingress_drop_probability (w_drop w0);
                     egress_drop_probability := egress_drop_probability (w_drop w0) |} w0) = attrs w0.
Proof. unfold attrs. simpl. by destruct (w_drop w0). Qed.

(** Clearing the drop simulator, by what it is set to. *)
Lemma run_drop_clear w0 V G w :
  looks w0 V G w →
  DropSimulator.clear w =
    DropSimulator.set_drop_probabilities (ingress_drop_probability (w_drop w0))
      (egress_drop_probability (w_drop w0)) w.
Proof.
  intros (Ha & _). unfold DropSimulator.clear. apply (f_equal snd) in Ha. simpl in Ha.
  by rewrite (run_bind_gets _ _ _ _ Ha).
Qed.

Lemma ends_worker_clear_all m w0 V G w :
  counter_sizes → rids (w_pre w0) !! switchml_workers_mgid (w_job w0) = Some m →
  DropSimulator.value_of (ingress_drop_probability (w_drop w0)) = Some 0 →
  DropSimulator.value_of (egress_drop_probability (w_drop w0)) = Some 0 →
  looks w0 V G w →
  ends Job.worker_clear_all w (Ok tt) (λ w', ∃ G',
    G' !! switchml_workers_mgid (w_job w0) =
      filter (.∉ (dict_items m).*2) <$> G !! switchml_workers_mgid (w_job w0) ∧
    looks (workers_gone w0)
      (clear_entries DropSimulator.table (entries_gone ((dict_items m).*2) V)) G' w').
Proof.
  intros Hsz Hm Hp Hq Hl. unfold Job.worker_clear_all.
  destruct (run_workers_gone m w0 V G w Hsz Hm Hl) as (w1 & G' & HG' & Hl1 & Hrun).
  unfold ends, Job.worker_clear_all. rewrite Hrun.
  eapply ends_bind with (a := tt).
  { unfold ends. rewrite (run_drop_clear _ _ _ _ Hl1).
    apply (DropSimulator.ends_drop_off _ _ _ _ _ _ Hp Hq Hl1). }
  intros w2 Hl2. eapply ends_mono; [apply ends_clear_log, Hl2|].
  intros w3 (Ha & HV & HG). exists G'. split; [exact HG'|]. split; [|done].
  rewrite Ha. apply (set_drop_same (workers_gone w0)).
Qed.

(** C30. With simulated loss off, [worker_clear_all] always returns. The five
    tables of the workers and the drop table are empty, the nodes on record
    are gone from the node table and from the job's group, the controller
    remembers no worker, and every other entry of the switch is as it was. *)
Theorem worker_clear_all_effect m w :
  counter_sizes → rids (w_pre w) !! switchml_workers_mgid (w_job w) = Some m →
  DropSimulator.value_of (ingress_drop_probability (w_drop w)) = Some 0 →
  DropSimulator.value_of (egress_drop_probability (w_drop w)) = Some 0 →
  ends Job.worker_clear_all w (Ok tt) (λ w', ∃ V' G',
    looks (workers_gone w) V' G' w' ∧
    G' !! switchml_workers_mgid (w_job w) =
      filter (.∉ (dict_items m).*2) <$> wgroups w !! switchml_workers_mgid (w_job w) ∧
    ∀ t k, V' !! (t, k) =
      if bool_decide (t ∈ DropSimulator.table :: cleared_tables ∨
                      (t = "$pre.node" ∧ k ∈ node_key <$> (dict_items m).*2))
      then None else wview w !! (t, k)).
Proof.
  intros Hsz Hm Hp Hq.
  eapply ends_mono; [exact (ends_worker_clear_all m w _ _ w Hsz Hm Hp Hq (looks_refl w))|].
  intros w1 (G' & HG' & Hl1). eexists _, G'. split; [exact Hl1|]. split; [exact HG'|].
  intros t k. rewrite lookup_clear_entries, lookup_entries_gone.
  case_decide as Ht.
  - rewrite bool_decide_eq_true_2; [done|]. left. rewrite Ht. by left.
  - erewrite (bool_decide_ext (t ∈ DropSimulator.table :: cleared_tables ∨ _)); [done|].
    rewrite elem_of_cons. naive_solver.
Qed.

(** While simulated loss is on, clearing the workers fails: everything
    before the drop simulator has been cleared, but setting the current
    probabilities again adds entries the switch already has, which raises; so
    the packet log is not cleared and neither is what a caller does next. *)
Theorem worker_clear_all_fails m i e x w :
  counter_sizes → rids (w_pre w) !! switchml_workers_mgid (w_job w) = Some m →
  DropSimulator.value_of (ingress_drop_probability (w_drop w)) = Some i →
  DropSimulator.value_of (egress_drop_probability (w_drop w)) = Some e →
  ¬ (i = 0 ∧ e = 0) →
  wview w !! (DropSimulator.table, [KeyTuple "ig_intr_md.ingress_port" (VInt 0)]) = Some x →
  ∃ exn w', Job.worker_clear_all w = (Raise exn, w') ∧
    worker_ids (w_rx w') = [] ∧ rids (w_pre w') !! switchml_workers_mgid (w_job w) = Some ∅.
Proof.
  intros Hsz Hm Hp Hq Hie Hx.
  assert (Hk0 : [KeyTuple "ig_intr_md.ingress_port" (VInt 0)] ∈ DropSimulator.port_keys).
  { apply list_elem_of_fmap. exists 0. split; [done|]. by apply elem_of_range. }
  assert (Hno : ∀ V G w1, looks (workers_gone w) V G w1 →
    V !! (DropSimulator.table, [KeyTuple "ig_intr_md.ingress_port" (VInt 0)]) = Some x →
    ∃ exn w2, (DropSimulator.clear ;; DebugLog.clear_log) w1 = (Raise exn, w2) ∧
      worker_ids (w_rx w2) = [] ∧ rids (w_pre w2) !! switchml_workers_mgid (w_job w) = Some ∅).
  { intros V G w1 Hl1 HV.
    destruct (DropSimulator.ends_drop_again _ _ i e _ x _ _ _ w1 Hp Hq Hie Hk0 HV Hl1)
      as (exn & w2 & Hrun & V' & _ & Hl2).
    exists exn, w2. rewrite run_bind, (run_drop_clear _ _ _ _ Hl1). simpl in Hrun |- *.
    rewrite Hrun. split; [done|]. destruct Hl2 as (Ha & _). injection Ha as _ Hpre _ Hrx.
    rewrite Hrx, Hpre. simpl. split; [done|]. apply lookup_insert_eq. }
  destruct (run_workers_gone m w _ _ w Hsz Hm (looks_refl w)) as (w1 & G' & _ & Hl1 & Hrun).
  destruct (Hno _ _ w1 Hl1) as (exn & w2 & Hr & Hw2).
  { rewrite lookup_entries_gone, bool_decide_eq_false_2; [exact Hx|].
    intros [Ht|[[=] _]]. unfold cleared_tables in Ht. set_solver. }
  exists exn, w2. split; [|exact Hw2]. unfold Job.worker_clear_all. rewrite Hrun. exact Hr.
Qed.
End clearing.
