(* ===== verification/CLI.v ===== *)
(** * The command line (py/Job.py, the [do_] methods)

    The text of a command is parsed and checked, then one method of the job is
    called. The regular expressions of the source never need to back-track:
    each group takes the longest prefix it can, so a match is a scan. *)
From Stdlib Require Import Floats.SpecFloat.
From S2P Require Import Prelude PyText PyMonad PyNum PyFloat Bfrt Live World Ports Counters PortStats Worker PRE.
From S2P Require Import NonSwitchMLForward GetWorkerBitmap SetDstAddr Packets RDMAReceiver.
From S2P Require Import RDMASender Registers NextStep Mirror ARPandICMP DropSimulator DebugLog.
From S2P Require Import Job JobPorts.
From Stdlib Require Import Ascii.

(** ** Scanning *)

Definition is_digit (c : ascii) : bool :=
  let n := Z.of_N (N_of_ascii c) in bool_decide (48 ≤ n ≤ 57).
Definition is_hex (c : ascii) : bool :=
  match char_digit c with Some d => bool_decide (d < 16) | None => false end.

(** The longest prefix whose characters satisfy [p], and the rest. *)
Fixpoint span (p : ascii → bool) (cs : list ascii) : list ascii * list ascii :=
  match cs with
  | c :: cs' => if p c then let '(a, b) := span p cs' in (c :: a, b) else ([], cs)
  | [] => ([], [])
  end.
Definition skip_spaces (cs : list ascii) : list ascii := (span (λ c, bool_decide (c = " "%char)) cs).2.

(** ['([0-9]+)/?([x]?)'], where [x] is the class of the lane's digit: the two
    groups and the rest. *)
Definition match_port (lane_digit : ascii → bool) (cs : list ascii)
    : option (list ascii * list ascii * list ascii) :=
  let '(g1, r1) := span is_digit cs in
  match g1 with
  | [] => None
  | _ =>
      let r2 := match r1 with c :: r => if bool_decide (c = "/"%char) then r else r1 | [] => [] end in
      match r2 with
      | c :: r3 => if lane_digit c then Some (g1, [c], r3) else Some (g1, [], r2)
      | [] => Some (g1, [], [])
      end
  end.

(** The expression of [port_add]: a port and a lane as above, blanks, a number,
    blanks, and the rest of the line; the four groups. *)
Definition match_port_add (cs : list ascii)
    : option (list ascii * list ascii * list ascii * list ascii) :=
  match match_port is_digit cs with
  | None => None
  | Some (g1, g2, r) =>
      let '(g3, r3) := span is_digit (skip_spaces r) in
      Some (g1, g2, g3, (span (λ c, bool_decide (c ≠ "010"%char)) (skip_spaces r3)).1)
  end.

(** The six pairs of hexadecimal digits of [mac_address_re], and the rest. *)
Fixpoint match_pairs (n : nat) (cs : list ascii) : option (list ascii * list ascii) :=
  match cs with
  | a :: b :: r =>
      if is_hex a && is_hex b then
        match n with
        | O => Some ([a; b], r)
        | S n' =>
            match r with
            | c :: r' =>
                if bool_decide (c = ":"%char) then
                  '(g, rest) ← match_pairs n' r'; Some (a :: b :: c :: g, rest)
                else None
            | [] => None
            end
        end
      else None
  | _ => None
  end.
(** ['(MAC) +([0-9]+)/?([0-3]?)']. *)
Definition is_lane_digit (c : ascii) : bool :=
  let n := Z.of_N (N_of_ascii c) in bool_decide (48 ≤ n ≤ 51).
Definition match_mac_port (cs : list ascii)
    : option (list ascii * list ascii * list ascii) :=
  match match_pairs 5 cs with
  | Some (mac, c :: r) =>
      if bool_decide (c = " "%char) then
        match match_port is_lane_digit (skip_spaces r) with
        | Some (g2, g3, _) => Some (mac, g2, g3)
        | None => None
        end
      else None
  | _ => None
  end.

(** [arg.split()]: the maximal runs of characters that are not blank. *)
Fixpoint words_from (cur : list ascii) (cs : list ascii) : list (list ascii) :=
  match cs with
  | [] => match cur with [] => [] | _ => [reverse cur] end
  | c :: cs' =>
      if is_space c then
        match cur with [] => words_from [] cs' | _ => reverse cur :: words_from [] cs' end
      else words_from (c :: cur) cs'
  end.
Definition split_words (cs : list ascii) : list (list ascii) := words_from [] cs.

(** [int(text, 0)] of a word: the prefix gives the base, and an old-style octal
    number starts with a zero. A number with a prefix that does not fit a
    machine integer is read by the parser of long integers, which accepts a
    trailing L. *)
Definition based (cs : list ascii) : option Z :=
  match cs with
  | z :: x :: ds =>
      if bool_decide (z = "0"%char) then
        if bool_decide (x ∈ ["x"%char; "X"%char]) then parse_number 16 ds
        else if bool_decide (x ∈ ["o"%char; "O"%char]) then parse_number 8 ds
        else if bool_decide (x ∈ ["b"%char; "B"%char]) then parse_number 2 ds
        else parse_number 8 (x :: ds)
      else parse_number 10 cs
  | _ => parse_number 10 cs
  end.
Definition long0 (cs : list ascii) : option Z :=
  match cs, reverse cs with
  | z :: _, c :: ds =>
      if bool_decide (z = "0"%char ∧ c ∈ ["L"%char; "l"%char]) then
        n ← based (reverse ds); if bool_decide (2 ^ 63 ≤ n) then Some n else None
      else None
  | _, _ => None
  end.
Definition int0 (cs : list ascii) : option Z :=
  match cs with
  | c :: ds =>
      if bool_decide (c = "-"%char) then Z.opp <$> based ds
      else if bool_decide (c = "+"%char) then based ds
      else match based cs with Some z => Some z | None => long0 cs end
  | [] => None
  end.

(** [zip(l[7::2], l[8::2])] of the words from the eighth on. *)
Fixpoint adjacent {A} (l : list A) : list (A * A) :=
  match l with
  | x :: y :: l' => (x, y) :: adjacent l'
  | _ => []
  end.

Module CLI.
Section cli.
Context `{BF : Bfrt} `{DO : DictOrder} `{ML : MathLog}.

Abbreviation str := String.string_of_list_ascii.
Abbreviation chars := String.list_ascii_of_string.

(** The [except Exception] clause of a command: the trace and the usage are
    printed, and the method returns. *)
Definition complain (usage : string) : M world unit :=
  print "Error: {}" [] ;; print "Usage:
   {}" [VStr usage].
Definition guarded (usage : string) (m : M world unit) : M world unit :=
  try_except m (except_any (λ _, complain usage)).
(** A parser that is guarded: [None] when the method has returned. *)
Definition parse_guarded {A} (usage : string) (m : M world A) : M world (option A) :=
  try_except (x ← m; mret (Some x)) (except_any (λ _, complain usage ;; mret None)).

Definition invalid_port {A} : M world A := raise (Exn "Port number invalid.").
Definition lane_too_big {A} : M world A := raise (Exn "Lane too big.").

(** The checks of the port and the lane that three commands share. *)
Definition port_of (g1 : list ascii) : M world Z :=
  port ← Job.opt_value (parse_number 10 g1);
  if bool_decide (1 ≤ port ≤ 64) then mret port else invalid_port.
Definition lane_of (g2 : list ascii) : M world Z :=
  match g2 with
  | [] => print "Assuming lane 0." [] ;; mret 0
  | _ =>
      lane ← Job.opt_value (parse_number 10 g2);
      if bool_decide (lane ∈ range 0 4) then mret lane else lane_too_big
  end.

Definition port_add_args (arg : string) : M world (Z * Z * Z * string) :=
  match match_port_add (chars arg) with
  | None => invalid_port
  | Some (g1, g2, g3, g4) =>
      port ← port_of g1;
      lane ← lane_of g2;
      speed ← match g3 with
              | [] => print "Assuming speed 100." [] ;; mret 100
              | _ =>
                  speed ← Job.opt_value (parse_number 10 g3);
                  if bool_decide (speed ∈ [10; 25; 40; 50; 100]) then mret speed
                  else raise (Exn "Speed invalid.")
              end;
      fec ← match g4 with
            | [] => print "Assuming fec none." [] ;; mret "none"
            | _ => if bool_decide (str g4 ∈ ["none"; "fc"; "rs"]) then mret (str g4)
                   else raise (Exn "Error correction invalid.")
            end;
      mret (port, lane, speed, fec)
  end.
Definition port_add_usage : string :=
  "Add a port. Usage: port_add <front panel port>/<lane> <speed: 10, 25, 40, 50, or 100> <error correction: none, rs, or fc>".
Definition do_port_add (arg : string) : M world unit :=
  r ← parse_guarded port_add_usage (port_add_args arg);
  match r with
  | None => mret tt
  | Some (port, lane, speed, fec) =>
      print "Configuring port {}/{} speed {} fec {}." [VInt port; VInt lane; VInt speed; VStr fec] ;;
      Job.port_add port lane speed fec
  end.

Definition port_args (arg : string) : M world (Z * Z) :=
  match match_port is_digit (chars arg) with
  | None => invalid_port
  | Some (g1, g2, _) => port ← port_of g1; lane ← lane_of g2; mret (port, lane)
  end.
Definition do_port_del (arg : string) : M world unit :=
  r ← parse_guarded "Delete a port. Usage: port_del <front panel port>/<lane>" (port_args arg);
  match r with
  | None => mret tt
  | Some (port, lane) =>
      print "Deleting port {}/{}." [VInt port; VInt lane] ;; Job.port_del port lane
  end.
Definition do_port_list (arg : string) : M world unit :=
  if bool_decide (arg = "") then Ports.list_ports None None
  else
    r ← parse_guarded "List active ports." (port_args arg);
    match r with
    | None => mret tt
    | Some (port, lane) => Ports.list_ports (Some port) (Some lane)
    end.

(** The file has been parsed; a file that cannot be read is [None]. *)
Definition do_port_file (file : option (list (Z * gmap string pyval))) : M world unit :=
  guarded "Add ports from yaml file. Does not clear ports before adding. Usage: do_port_load_file <filename>"
    (match file with Some forward => Job.port_load_file forward | None => raise (Exn "No such file or directory") end).
Definition do_port_clear_all : M world unit := guarded "Clear all active ports." Job.port_clear_all.
Definition do_port_clear_counters : M world unit :=
  guarded "Clear counters on ports." Job.port_clear_counters.

Definition do_alternate_recirc_port_enable (arg : string) : M world unit :=
  let port := match parse_int10 (chars arg) with Some z => z | None => 192 end in
  Ports.enable_alternate_recirc_port ;; NextStep.enable_alternate_recirc_port port.
Definition do_alternate_recirc_port_disable : M world unit :=
  NextStep.disable_alternate_recirc_port ;; Ports.disable_alternate_recirc_port.

(** [print_switch_mac_and_ip] takes no argument but is called with two. *)
Definition set_switch (mac ip : string) (w : world) : world :=
  let j := w_job w in
  set_job {| switch_mac := mac; switch_ip := ip; switch_udp_port := switch_udp_port j;
             switch_udp_port_mask := switch_udp_port_mask j;
             switch_partition_key := switch_partition_key j;
             switchml_workers_mgid := switchml_workers_mgid j;
             all_ports_mgid := all_ports_mgid j; cpu_port := cpu_port j |} w.
Definition do_set_switch_address (arg : string) : M world unit :=
  guarded "List active ports."
    (match split_words (chars arg) with
     | [mac; ip] => modify (set_switch (str mac) (str ip)) ;; raise TypeError
     | _ => raise ValueError
     end).
Definition do_get_switch_address : M world unit := ARPandICMP.print_switch_mac_and_ip.

Definition mac_port_args (arg : string) : M world (string * Z * Z) :=
  match match_mac_port (chars arg) with
  | None => raise (Exn ("MAC address invalid: '" +:+ arg +:+ "'"))
  | Some (mac, g2, g3) => port ← port_of g2; lane ← lane_of g3; mret (str mac, port, lane)
  end.
Definition do_mac_address_add (arg : string) : M world unit :=
  r ← parse_guarded "Add non-SwitchML MAC address forwarding entry to the switch. Usage: mac_address_add <MAC address> <Front-panel port>/<lane>"
        (mac_port_args arg);
  match r with
  | None => mret tt
  | Some (mac, port, lane) => Job.mac_address_add mac port lane
  end.
Definition do_mac_address_del (arg : string) : M world unit := Job.mac_address_del arg.
Definition do_mac_address_list (arg : string) : M world unit := Job.mac_address_list (Some arg).

Definition do_worker_clear_all : M world unit :=
  guarded "Clear all active SwitchML workers." Job.worker_clear_all.

(** [result[i]] and [int(result[i], 0)]. *)
Definition word (l : list (list ascii)) (i : nat) : M world string :=
  match l !! i with Some t => mret (str t) | None => raise IndexError end.
Definition int_word (l : list (list ascii)) (i : nat) : M world Z :=
  match l !! i with Some t => Job.opt_value (int0 t) | None => raise IndexError end.

Definition udp_usage : string :=
  "Add a UDP SwitchML worker. Usage: worker_add_udp <worker rank> <total number of workers> <MAC address> <IP address>".
Definition do_worker_add_udp (arg : string) : M world unit :=
  guarded udp_usage
    (let result := split_words (chars arg) in
     rank ← int_word result 0;
     count ← int_word result 1;
     mac ← word result 2;
     ip ← word result 3;
     Job.worker_add_udp rank count mac ip).

(** The packet size in bytes is converted to its code; another number is used
    as it is. *)
Definition packet_code (packet_size : Z) : Z :=
  if bool_decide (packet_size = 128) then packet_size_value IBV_MTU_128
  else if bool_decide (packet_size = 256) then packet_size_value IBV_MTU_256
  else if bool_decide (packet_size = 512) then packet_size_value IBV_MTU_512
  else if bool_decide (packet_size = 1024) then packet_size_value IBV_MTU_1024
  else packet_size.
Definition roce_usage : string :=
  "Add a RoCEv2 SwitchML worker. Usage: worker_add_roce <worker rank> <total number of workers> <MAC address> <IP address> <Rkey> <Packet size> <Message size> <list of QPN and PSNs>".
Definition do_worker_add_roce (arg : string) : M world unit :=
  guarded roce_usage
    (let result := split_words (chars arg) in
     rank ← int_word result 0;
     count ← int_word result 1;
     mac ← word result 2;
     ip ← word result 3;
     rkey ← int_word result 4;
     packet_size ← int_word result 5;
     message_size ← int_word result 6;
     qpns_and_psns ← map_each (λ '(qpn, psn),
       q ← Job.opt_value (int0 qpn); p ← Job.opt_value (int0 psn); mret (q, p))
       (adjacent (drop 7 result));
     Job.worker_add_roce rank count mac ip rkey (packet_code packet_size) message_size qpns_and_psns).

Definition do_worker_list : M world unit := Job.worker_list.
Definition do_worker_file (file : option (option (list Z))) : M world unit :=
  match file with
  | Some job => Job.worker_load_file job
  | None => Job.worker_clear_all ;; raise (Exn "No such file or directory")
  end.
(** [worker_del] takes no argument but is called with one. *)
Definition do_worker_del (arg : string) : M world unit :=
  Job.opt_value (int0 (strip (chars arg))) ;; raise TypeError.

Definition do_clear : M world unit :=
  print "Clearing all registers..." [] ;; Job.clear_registers ;; print "Registers cleared." [].
Definition do_clear_all : M world unit :=
  print "Clearing all registers, counters, and tables..." [] ;; Job.clear_all ;;
  print "Registers, counters, and tables cleared." [].
Definition do_clear_counters : M world unit := Job.clear_counters ;; Job.port_clear_counters.
Definition do_log_clear : M world unit := DebugLog.clear_log.
Definition do_log_dump : M world unit := DebugLog.print_log.

(** The window of the commands that print a range: nothing, a count, or a start
    and a count; anything else is ignored. *)
Definition window (count : Z) (arg : string) : M world (Z * Z) :=
  match split " "%char (chars arg) with
  | [[]] => mret (0, count)
  | [a] => n ← Job.opt_value (int0 (strip a)); mret (0, if bool_decide (n ≤ 0) then 1 else n)
  | [a; b] =>
      start ← Job.opt_value (int0 (strip a)); n ← Job.opt_value (int0 (strip b)); mret (start, n)
  | _ => mret (0, count)
  end.
Definition do_bitmaps (arg : string) : M world unit :=
  try_except ('(start, count) ← window 16 arg; UpdateAndCheckWorkerBitmap.show_bitmaps start count)
    (except_any (λ _, print "Didn't understand that. Continuing...." [])).
Definition do_bitmaps_weirdness_search : M world unit :=
  UpdateAndCheckWorkerBitmap.show_weird_bitmaps.
Definition do_queue_pair_counters (arg : string) : M world unit :=
  '(start, count) ← window 8 arg;
  print "Showing {} queue pair counters starting from {}." [VInt count; VInt start] ;;
  RDMAReceiver.get_queue_pair_counters start count.
Definition do_get_counters (arg : string) : M world unit :=
  try_except
    ('(start, count) ← window 16 arg;
     GetWorkerBitmap.print_counters ;;
     RDMAReceiver.print_counters ;;
     SetDstAddr.print_counters ;;
     RDMASender.print_counters ;;
     print "Showing {} pool index counters starting from {}." [VInt count; VInt start] ;;
     NextStep.print_counters start count ;;
     PortStats.print_port_stats)
    (except_any (λ _, print "Oops: {}" [])).
Definition do_timing_loop (clock : option (spec_float * spec_float)) : M world unit :=
  Forward.timing_loop clock.
Definition do_log_save (arg : string) (writable : bool) : M world unit :=
  DebugLog.save_log arg writable ;; mret tt.

(** One probability of the command: what cannot be read, or is missing, is 0. *)
Definition probability (result : list (list ascii)) (i : nat) : spec_float :=
  default (S754_zero false) (result !! i ≫= parse_float).
(** The usage printed on an error is the one of [worker_add_roce]. *)
Definition do_drop_probability (arg : string) : M world unit :=
  guarded roce_usage
    (let result := split_words (chars arg) in
     print "Setting drop probabilities. Ingress: {} Egress: {}" [] ;;
     DropSimulator.set_drop_probabilities (PFloat (probability result 0)) (PFloat (probability result 1))).
Definition do_get_drop_probability : M world unit := DropSimulator.print_drop_probabilities.

(** ** The loop *)

(** A line as the command interpreter hands it to a method. *)
Inductive command :=
| EmptyLine
| PortAdd (arg : string) | PortDel (arg : string) | PortList (arg : string)
| PortFile (file : option (list (Z * gmap string pyval))) | PortClearAll | PortClearCounters
| AlternateRecircEnable (arg : string) | AlternateRecircDisable
| SetSwitchAddress (arg : string) | GetSwitchAddress
| MacAddressAdd (arg : string) | MacAddressDel (arg : string) | MacAddressList (arg : string)
| WorkerClearAll | WorkerAddUdp (arg : string) | WorkerAddRoce (arg : string)
| WorkerList | WorkerFile (file : option (option (list Z))) | WorkerDel (arg : string)
| Clear | ClearAll | ClearCounters | LogClear | LogDump | Bitmaps (arg : string)
| BitmapsWeirdnessSearch | QueuePairCounters (arg : string) | GetDropProbability
| GetCounters (arg : string) | TimingLoop (clock : option (spec_float * spec_float))
| LogSave (arg : string) (writable : bool) | DropProbability (arg : string).

Definition run_command (c : command) : M world unit :=
  match c with
  | EmptyLine => mret tt
  | PortAdd a => do_port_add a
  | PortDel a => do_port_del a
  | PortList a => do_port_list a
  | PortFile f => do_port_file f
  | PortClearAll => do_port_clear_all
  | PortClearCounters => do_port_clear_counters
  | AlternateRecircEnable a => do_alternate_recirc_port_enable a
  | AlternateRecircDisable => do_alternate_recirc_port_disable
  | SetSwitchAddress a => do_set_switch_address a
  | GetSwitchAddress => do_get_switch_address
  | MacAddressAdd a => do_mac_address_add a
  | MacAddressDel a => do_mac_address_del a
  | MacAddressList a => do_mac_address_list a
  | WorkerClearAll => do_worker_clear_all
  | WorkerAddUdp a => do_worker_add_udp a
  | WorkerAddRoce a => do_worker_add_roce a
  | WorkerList => do_worker_list
  | WorkerFile f => do_worker_file f
  | WorkerDel a => do_worker_del a
  | Clear => do_clear
  | ClearAll => do_clear_all
  | ClearCounters => do_clear_counters
  | LogClear => do_log_clear
  | LogDump => do_log_dump
  | Bitmaps a => do_bitmaps a
  | BitmapsWeirdnessSearch => do_bitmaps_weirdness_search
  | QueuePairCounters a => do_queue_pair_counters a
  | GetDropProbability => do_get_drop_probability
  | GetCounters a => do_get_counters a
  | TimingLoop c => do_timing_loop c
  | LogSave a writable => do_log_save a writable
  | DropProbability a => do_drop_probability a
  end.

(** [run_command_loop]: an exception a method lets escape is printed and the
    loop is entered again. *)
Definition run_command_loop (lines : list command) : M world unit :=
  for_each lines (λ c,
    try_except (run_command c) (except_any (λ _,
      print "Got exception: {}" [] ;; print "Continuing..." []))).
End cli.
End CLI.

(** ** What the parsers accept *)

Section parsing.
Context `{BF : Bfrt} `{DO : DictOrder} `{ML : MathLog}.

(** The world after some lines have been printed. *)
Definition printed (ls : list line) (w : world) : world := foldl (λ w l, add_line l w) w ls.

(** [reads m P]: [m] only prints; when it returns, its value satisfies [P]. *)
Definition reads {A} (m : M world A) (P : A → Prop) : Prop :=
  ∀ w, ∃ ls, match m w with
             | (Ok a, w') => P a ∧ w' = printed ls w
             | (Raise _, w') => w' = printed ls w
             end.

Lemma reads_ret {A} (a : A) (P : A → Prop) : P a → reads (mret a) P.
Proof. intros Ha w. by exists []. Qed.
Lemma reads_raise {A} e (P : A → Prop) : reads (raise e) P.
Proof. intros w. by exists []. Qed.
Lemma reads_print f a (P : unit → Prop) : P tt → reads (print f a) P.
Proof. intros H w. by exists [Printed f a]. Qed.
Lemma reads_bind {A B} (m : M world A) (f : A → M world B) (P : A → Prop) (Q : B → Prop) :
  reads m P → (∀ a, P a → reads (f a) Q) → reads (m ≫= f) Q.
Proof.
  intros Hm Hf w. destruct (Hm w) as [ls H]. rewrite run_bind.
  destruct (m w) as [[a|e] w1]; [|by exists ls].
  destruct H as [Ha ->]. destruct (Hf a Ha (printed ls w)) as [ls' H']. exists (ls ++ ls').
  unfold printed in *. rewrite foldl_app. by destruct (f a _) as [[b|e] w2].
Qed.
Lemma reads_opt {A} (o : option A) (P : A → Prop) :
  (∀ a, o = Some a → P a) → reads (Job.opt_value o) P.
Proof. intros H. destruct o; [by apply reads_ret, H|apply reads_raise]. Qed.

Definition valid_port (p : Z) : Prop := 1 ≤ p ≤ 64.
Definition valid_lane (l : Z) : Prop := 0 ≤ l < 4.
Definition valid_speed (s : Z) : Prop := s ∈ [10; 25; 40; 50; 100].
Definition valid_fec (f : string) : Prop := f ∈ ["none"; "fc"; "rs"].

Lemma reads_port g : reads (CLI.port_of g) valid_port.
Proof.
  unfold CLI.port_of. eapply reads_bind; [by apply (reads_opt _ (λ _, True))|]. intros p _.
  case_bool_decide; [by apply reads_ret|apply reads_raise].
Qed.
Lemma reads_lane g : reads (CLI.lane_of g) valid_lane.
Proof.
  unfold CLI.lane_of. destruct g as [|c g].
  - eapply reads_bind; [by apply (reads_print _ _ (λ _, True))|]. intros _ _. by apply reads_ret.
  - eapply reads_bind; [by apply (reads_opt _ (λ _, True))|]. intros l _.
    case_bool_decide as Hl; [|apply reads_raise]. apply reads_ret. by apply elem_of_range in Hl.
Qed.

Lemma reads_port_add arg :
  reads (CLI.port_add_args arg) (λ '(p, l, s, f), valid_port p ∧ valid_lane l ∧ valid_speed s ∧ valid_fec f).
Proof.
  unfold CLI.port_add_args. destruct (match_port_add _) as [[[[g1 g2] g3] g4]|]; [|apply reads_raise].
  eapply reads_bind; [apply reads_port|]. intros p Hp.
  eapply reads_bind; [apply reads_lane|]. intros l Hl.
  eapply reads_bind with (P := valid_speed).
  { destruct g3 as [|c g3].
    - eapply reads_bind; [by apply (reads_print _ _ (λ _, True))|]. intros _ _. apply reads_ret.
      unfold valid_speed. set_solver.
    - eapply reads_bind; [by apply (reads_opt _ (λ _, True))|]. intros s _.
      case_bool_decide; [by apply reads_ret|apply reads_raise]. }
  intros s Hs. eapply reads_bind with (P := valid_fec).
  { destruct g4 as [|c g4].
    - eapply reads_bind; [by apply (reads_print _ _ (λ _, True))|]. intros _ _. apply reads_ret.
      unfold valid_fec. set_solver.
    - case_bool_decide; [by apply reads_ret|apply reads_raise]. }
  intros f Hf. by apply reads_ret.
Qed.

Lemma reads_guarded {A} usage (m : M world A) P :
  reads m P → ∀ w, ∃ ls r, CLI.parse_guarded usage m w = (Ok r, printed ls w) ∧ (∀ a, r = Some a → P a).
Proof.
  intros Hm w. destruct (Hm w) as [ls H]. unfold CLI.parse_guarded, try_except. rewrite run_bind.
  destruct (m w) as [[a|e] w1].
  - destruct H as [Ha ->]. exists ls, (Some a). split; [done|]. by intros a' [= <-].
  - subst w1. simpl. eexists (ls ++ [_; _]), None. split; [|done].
    unfold printed. rewrite foldl_app. reflexivity.
Qed.

(** Whatever is typed after [port_add], the job is only asked to add a port
    with a number from 1 to 64, a lane from 0 to 3 and a speed and an error
    correction that the port table knows; any other text is answered with the
    usage and nothing is called. *)
Theorem port_add_checked arg w :
  ∃ ls, CLI.do_port_add arg w = (Ok tt, printed ls w) ∨
    ∃ p l s f, valid_port p ∧ valid_lane l ∧ valid_speed s ∧ valid_fec f ∧
      CLI.do_port_add arg w = Job.port_add p l s f (printed ls w).
Proof.
  unfold CLI.do_port_add.
  destruct (reads_guarded CLI.port_add_usage _ _ (reads_port_add arg) w) as (ls & r & Hrun & Hr).
  destruct r as [[[[p l] s] f]|].
  - exists (ls ++ [Printed "Configuring port {}/{} speed {} fec {}." [VInt p; VInt l; VInt s; VStr f]]).
    right. exists p, l, s, f. destruct (Hr _ eq_refl) as (Hp & Hl & Hs & Hf). split_and!; try done.
    rewrite (run_bind_ok _ _ _ _ _ Hrun). unfold printed. by rewrite foldl_app.
  - exists ls. left. by rewrite (run_bind_ok _ _ _ _ _ Hrun).
Qed.
End parsing.
