(* ===== verification/Session.v ===== *)
(** * A session at the command line

    Whatever is typed, the loop goes on and the ports stay consistent; and the
    commands that add ports, MAC addresses and workers call the job with what
    the text says. *)
From S2P Require Import Prelude PyText PyMonad PyNum Bfrt Live World Ports Counters PortStats Worker PRE.
From S2P Require Import NonSwitchMLForward GetWorkerBitmap SetDstAddr Packets RDMAReceiver.
From S2P Require Import RDMASender Registers NextStep Mirror ARPandICMP DropSimulator DebugLog.
From S2P Require Import Job JobPorts CLI.
From Stdlib Require Import Ascii.

(** ** Every command keeps the ports consistent *)

Section safety.
Context `{LF : BfrtLive} `{DO : DictOrder} `{ML : MathLog}.

Abbreviation keeps_ports := (stable (keeps Ports.ports_inv)).

Lemma keeps_print f a : keeps_ports (print f a).
Proof. apply Ports.same_ports_keeps. eauto with stable. Qed.

Lemma keeps_guarded usage m : keeps_ports m → keeps_ports (CLI.guarded usage m).
Proof.
  pose proof keeps_print. intros Hm. unfold CLI.guarded, CLI.complain. stable_walk.
Qed.

Lemma reads_keeps {A} (m : M world A) P : reads m P → keeps_ports m.
Proof.
  intros Hm w Hw. destruct (Hm w) as [ls H].
  assert (Hp : Ports.ports_inv (printed ls w)).
  { clear H. unfold printed. revert w Hw. induction ls as [|l ls IH]; intros w Hw; [done|].
    apply IH. destruct l; exact Hw. }
  destruct (m w) as [[a|e] w']; [destruct H as [_ ->]|subst w']; done.
Qed.

Lemma keeps_parse {A} usage (m : M world A) P : reads m P → keeps_ports (CLI.parse_guarded usage m).
Proof.
  intros Hm%reads_keeps. pose proof keeps_print. unfold CLI.parse_guarded, CLI.complain. stable_walk.
Qed.

Lemma reads_port_args arg : reads (CLI.port_args arg) (λ '(p, l), valid_port p ∧ valid_lane l).
Proof.
  unfold CLI.port_args. destruct (match_port _ _) as [[[g1 g2] r]|]; [|apply reads_raise].
  eapply reads_bind; [apply reads_port|]. intros p Hp.
  eapply reads_bind; [apply reads_lane|]. intros l Hl. by apply reads_ret.
Qed.
Lemma reads_mac_args arg :
  reads (CLI.mac_port_args arg) (λ '(_, p, l), valid_port p ∧ valid_lane l).
Proof.
  unfold CLI.mac_port_args. destruct (match_mac_port _) as [[[g1 g2] g3]|]; [|apply reads_raise].
  eapply reads_bind; [apply reads_port|]. intros p Hp.
  eapply reads_bind; [apply reads_lane|]. intros l Hl. by apply reads_ret.
Qed.

Lemma port_clear_all_keeps : keeps_ports Job.port_clear_all.
Proof.
  unfold Job.port_clear_all. intros w Hw. rewrite run_bind.
  destruct (ends_delete_all w _ _ w (looks_refl w)) as (w1 & E & _). rewrite E.
  apply Ports.delete_all_ports_inv in E.
  assert (Hs : stable Ports.same_ports
    (g ← gets (all_ports_mgid ∘ w_job); PRE.worker_clear_all g)) by stable_walk.
  exact (Ports.same_ports_keeps _ Hs w1 E).
Qed.

(** The commands that only print. *)
Lemma show_same s n : stable Ports.same_ports (UpdateAndCheckWorkerBitmap.show_bitmaps s n).
Proof.
  unfold UpdateAndCheckWorkerBitmap.show_bitmaps, UpdateAndCheckWorkerBitmap.bitmap_row,
    UpdateAndCheckWorkerBitmap.print_bitmap, field_first. stable_walk.
Qed.
Lemma weird_same : stable Ports.same_ports UpdateAndCheckWorkerBitmap.show_weird_bitmaps.
Proof.
  unfold UpdateAndCheckWorkerBitmap.show_weird_bitmaps, UpdateAndCheckWorkerBitmap.bitmap_row,
    UpdateAndCheckWorkerBitmap.print_bitmap, field_first. stable_walk.
Qed.
Lemma queue_pairs_same s n : stable Ports.same_ports (RDMAReceiver.get_queue_pair_counters s n).
Proof. unfold RDMAReceiver.get_queue_pair_counters, counter_dict, counter_row. stable_walk. Qed.
Lemma log_values_same g acc rows : stable Ports.same_ports (DebugLog.log_values g acc rows).
Proof.
  revert acc. induction rows as [|r rows IH]; intros acc; simpl;
    unfold DebugLog.log_row, DebugLog.four; stable_walk.
Qed.
Lemma print_log_same : stable Ports.same_ports DebugLog.print_log.
Proof.
  pose proof log_values_same.
  unfold DebugLog.print_log, DebugLog.get_log, DebugLog.print_words, DebugLog.print_log_entry,
    parse_log_entry, to_packet_type.
  stable_walk.
Qed.
Lemma total_rows_same acc rows : stable Ports.same_ports (RDMAReceiver.total_rows acc rows).
Proof.
  revert acc. induction rows as [|r rows IH]; intros acc; simpl; unfold RDMAReceiver.total_row; stable_walk.
Qed.
Lemma direct_counters_same t fmt fields :
  (∀ r, stable Ports.same_ports (fields r)) → stable Ports.same_ports (print_direct_counters t fmt fields).
Proof. intros Hf. unfold print_direct_counters. stable_walk. Qed.
Lemma bitmap_counters_same : stable Ports.same_ports GetWorkerBitmap.print_counters.
Proof. apply direct_counters_same. intros r. unfold GetWorkerBitmap.counter_fields. stable_walk. Qed.
Lemma receiver_counters_same : stable Ports.same_ports RDMAReceiver.print_counters.
Proof. pose proof total_rows_same. unfold RDMAReceiver.print_counters. stable_walk. Qed.
Lemma set_dst_counters_same : stable Ports.same_ports SetDstAddr.print_counters.
Proof. apply direct_counters_same. intros r. unfold SetDstAddr.counter_fields. stable_walk. Qed.
Lemma sender_counters_same : stable Ports.same_ports RDMASender.print_counters.
Proof. apply direct_counters_same. intros r. unfold RDMASender.counter_fields. stable_walk. Qed.
#[local] Hint Resolve bitmap_counters_same receiver_counters_same set_dst_counters_same
  sender_counters_same : stable.
Lemma worker_list_same : stable Ports.same_ports Job.worker_list.
Proof. unfold Job.worker_list. stable_walk. Qed.
Lemma next_counters_same s n : stable Ports.same_ports (NextStep.print_counters s n).
Proof.
  unfold NextStep.print_counters, NextStep.read_counter, NextStep.print_index, counter_dict, counter_row.
  stable_walk.
Qed.
Lemma save_log_same f b : stable Ports.same_ports (DebugLog.save_log f b).
Proof. pose proof log_values_same. unfold DebugLog.save_log, DebugLog.get_log. stable_walk. Qed.
Lemma timing_loop_same c : stable Ports.same_ports (Forward.timing_loop c).
Proof. unfold Forward.timing_loop. stable_walk. Qed.

Lemma opt_value_keeps {A} (o : option A) : keeps_ports (Job.opt_value o).
Proof. unfold Job.opt_value. stable_walk. Qed.
Lemma int_word_keeps l i : keeps_ports (CLI.int_word l i).
Proof. pose proof (@opt_value_keeps). unfold CLI.int_word. stable_walk. Qed.
Lemma word_keeps l i : keeps_ports (CLI.word l i).
Proof. unfold CLI.word. stable_walk. Qed.
Lemma window_keeps n arg : keeps_ports (CLI.window n arg).
Proof. pose proof (@opt_value_keeps). unfold CLI.window. stable_walk. Qed.

(** A command: its own steps first, then the calls that leave the ports alone. *)
Ltac keeps_command :=
  stable_walk; apply Ports.same_ports_keeps; stable_walk.

#[local] Hint Resolve keeps_print opt_value_keeps int_word_keeps word_keeps window_keeps
  job_port_add_keeps job_port_del_keeps port_load_keeps port_clear_all_keeps
  worker_add_udp_same worker_add_roce_same worker_clear_all_same worker_load_same clear_all_same
  clear_log_same show_same weird_same queue_pairs_same print_log_same worker_list_same
  next_counters_same save_log_same timing_loop_same
  Ports.enable_recirc_same : stable.

Lemma run_command_keeps c : keeps_ports (CLI.run_command c).
Proof.
  destruct c; simpl.
  - stable_walk.
  - pose proof (keeps_parse CLI.port_add_usage _ _ (reads_port_add arg)).
    unfold CLI.do_port_add. stable_walk.
  - pose proof (λ u, keeps_parse u _ _ (reads_port_args arg)). unfold CLI.do_port_del. stable_walk.
  - pose proof (λ u, keeps_parse u _ _ (reads_port_args arg)). unfold CLI.do_port_list. keeps_command.
  - apply keeps_guarded. stable_walk.
  - apply keeps_guarded. stable_walk.
  - apply keeps_guarded. keeps_command.
  - unfold CLI.do_alternate_recirc_port_enable, NextStep.enable_alternate_recirc_port. keeps_command.
  - unfold CLI.do_alternate_recirc_port_disable, NextStep.disable_alternate_recirc_port,
      Ports.disable_alternate_recirc_port. keeps_command.
  - apply keeps_guarded. keeps_command.
  - unfold CLI.do_get_switch_address, ARPandICMP.print_switch_mac_and_ip. keeps_command.
  - pose proof (λ u, keeps_parse u _ _ (reads_mac_args arg)).
    unfold CLI.do_mac_address_add, Job.mac_address_add. keeps_command.
  - unfold CLI.do_mac_address_del, Job.mac_address_del. keeps_command.
  - unfold CLI.do_mac_address_list, Job.mac_address_list. keeps_command.
  - apply keeps_guarded. keeps_command.
  - apply keeps_guarded. cbv zeta. keeps_command.
  - apply keeps_guarded. cbv zeta. keeps_command.
  - keeps_command.
  - unfold CLI.do_worker_file. keeps_command.
  - unfold CLI.do_worker_del. keeps_command.
  - unfold CLI.do_clear. keeps_command.
  - unfold CLI.do_clear_all. keeps_command.
  - unfold CLI.do_clear_counters, Job.port_clear_counters. keeps_command.
  - keeps_command.
  - keeps_command.
  - unfold CLI.do_bitmaps. keeps_command.
  - keeps_command.
  - unfold CLI.do_queue_pair_counters. keeps_command.
  - unfold CLI.do_get_drop_probability, DropSimulator.print_drop_probabilities,
      DropSimulator.drop_value. keeps_command.
  - unfold CLI.do_get_counters, PortStats.print_port_stats. keeps_command.
  - unfold CLI.do_timing_loop. keeps_command.
  - unfold CLI.do_log_save. keeps_command.
  - apply keeps_guarded. cbv zeta. keeps_command.
Qed.

Lemma ends_loop lines w :
  Ports.ports_inv w → ends (CLI.run_command_loop lines) w (Ok tt) Ports.ports_inv.
Proof.
  intros Hw. apply ends_for_each_inv; [done|]. intros c w1 _ Hw1.
  pose proof (run_command_keeps c w1 Hw1) as Hk. unfold try_except, ends.
  destruct (CLI.run_command c w1) as [[[]|e] w2]; [by exists w2|].
  eexists. split; [reflexivity|]. exact Hk.
Qed.

(** C29. Nothing that is typed ends the command loop or breaks the ports: any
    sequence of commands, well formed or not, succeeding or failing, is worked
    through to its end, and in the end the list of active ports still has no
    duplicates and every port on it has its entry in the switch's port
    table. *)
Theorem session_safe lines w :
  Ports.ports_inv w → ends (CLI.run_command_loop lines) w (Ok tt) Ports.ports_inv.
Proof. apply ends_loop. Qed.
End safety.

(** ** The text of a command *)

Section text.

Lemma span_app p a b :
  (∀ c, c ∈ a → p c = true) → (∀ c r, b = c :: r → p c = false) → span p (a ++ b) = (a, b).
Proof.
  intros Ha Hb. induction a as [|c a IH]; simpl.
  - destruct b as [|c r]; [done|]. simpl. by rewrite (Hb c r).
  - rewrite (Ha c) by (by left). rewrite IH; [done|]. intros c' Hc. apply Ha. by right.
Qed.

Lemma digit_lane d :
  0 ≤ d < 10 → is_digit (digit_char d) = true ∧ is_lane_digit (digit_char d) = bool_decide (d < 4).
Proof.
  intros Hd.
  assert (Hall : Forall (λ d, is_digit (digit_char d) = true ∧
    is_lane_digit (digit_char d) = bool_decide (d < 4)) (range 0 10)).
  { apply (bool_decide_unpack _). vm_compute. exact I. }
  rewrite Forall_forall in Hall. apply Hall. by apply elem_of_range.
Qed.

Lemma dec_digits z c : c ∈ dec z → is_digit c = true ∧ is_space c = false.
Proof.
  assert (Hall : Forall (λ d, is_digit (digit_char d) = true ∧ is_space (digit_char d) = false)
    (range 0 10)).
  { apply (bool_decide_unpack _). vm_compute. exact I. }
  unfold dec. case_bool_decide; [by intros ->%list_elem_of_singleton|].
  rewrite list_elem_of_fmap. intros (d & -> & Hd). rewrite Forall_forall in Hall. apply Hall.
  apply elem_of_range. by apply to_digits_bounds in Hd.
Qed.

Lemma dec_digit d : 0 ≤ d < 10 → dec d = [digit_char d].
Proof.
  intros Hd. assert (Hall : Forall (λ d, dec d = [digit_char d]) (range 0 10)).
  { apply (bool_decide_unpack _). vm_compute. exact I. }
  rewrite Forall_forall in Hall. apply Hall. by apply elem_of_range.
Qed.

Lemma dec_nonempty z : 0 ≤ z → dec z ≠ [].
Proof. intros Hz E. pose proof (parse_dec z Hz) as H. by rewrite E in H. Qed.

Lemma span_dec z c r : is_digit c = false → span is_digit (dec z ++ c :: r) = (dec z, c :: r).
Proof. intros Hc. apply span_app; [intros c' Hc'; apply (dec_digits z c' Hc')|by intros ? ? [= <- <-]]. Qed.

Lemma skip_dec z r : 0 ≤ z → skip_spaces (dec z ++ r) = dec z ++ r.
Proof.
  intros Hz. pose proof (dec_nonempty z Hz) as Hn. pose proof (dec_digits z) as Hd.
  destruct (dec z) as [|c cs]; [done|]. unfold skip_spaces. simpl.
  destruct (Hd c ltac:(by left)) as [_ Hs]. rewrite bool_decide_eq_false_2; [done|].
  intros ->. discriminate Hs.
Qed.

Lemma skip_space r : skip_spaces (" "%char :: r) = skip_spaces r.
Proof. unfold skip_spaces. simpl. by destruct (span _ r). Qed.

(** A port and the digit after its slash, with the lane class of the command. *)
Lemma match_port_text lane_digit p d r :
  0 ≤ p → match_port lane_digit (dec p ++ "/"%char :: digit_char d :: r) =
    Some (dec p, (if lane_digit (digit_char d) then [digit_char d] else []),
          (if lane_digit (digit_char d) then r else digit_char d :: r)).
Proof.
  intros Hp. unfold match_port. rewrite span_dec by done.
  pose proof (dec_nonempty p Hp). destruct (dec p); [done|]. simpl.
  by destruct (lane_digit (digit_char d)).
Qed.

Lemma span_pairs m : 0 ≤ m < 2 ^ 48 → ∀ r,
  match_pairs 5 (mac_chars m ++ r) = Some (mac_chars m, r).
Proof.
  intros Hm r. unfold mac_chars.
  assert (Hl : length (hex_pad 12 m) = 12%nat) by (apply length_hex_pad; lia).
  assert (Hh : Forall (λ c, is_hex c = true) (hex_pad 12 m)).
  { apply Forall_forall. intros c (d & Hd & ->)%hex_pad_digits. unfold is_hex.
    rewrite char_digit_char by lia. apply bool_decide_eq_true_2; lia. }
  destruct (hex_pad 12 m) as [|c0 [|c1 [|c2 [|c3 [|c4 [|c5 [|c6 [|c7 [|c8 [|c9 [|c10 [|c11 [|]]]]]]]]]]]]];
    try done.
  decompose_Forall_hyps. cbn [pairs join app].
  repeat match goal with H : is_hex _ = true |- _ => cbn -[is_hex]; rewrite H; clear H end. done.
Qed.

Lemma str_chars l : String.list_ascii_of_string (String.string_of_list_ascii l) = l.
Proof. apply String.list_ascii_of_string_of_list_ascii. Qed.
Lemma chars_str t : String.string_of_list_ascii (String.list_ascii_of_string t) = t.
Proof. apply String.string_of_list_ascii_of_string. Qed.
End text.

(** ** What the commands call *)

Section commands.
Context `{BF : Bfrt} `{DO : DictOrder} `{ML : MathLog}.
Abbreviation str := String.string_of_list_ascii.
Abbreviation chars := String.list_ascii_of_string.

Lemma run_port_of p w : valid_port p → CLI.port_of (dec p) w = (Ok p, w).
Proof.
  intros Hp. unfold CLI.port_of. rewrite parse_dec by (unfold valid_port in Hp; lia).
  cbn [Job.opt_value]. rewrite run_bind_ret. by rewrite bool_decide_eq_true_2.
Qed.
Lemma run_lane_of l w : valid_lane l → CLI.lane_of [digit_char l] w = (Ok l, w).
Proof.
  intros Hl. unfold CLI.lane_of, valid_lane in *. rewrite <- dec_digit, parse_dec by lia.
  cbn [Job.opt_value]. rewrite run_bind_ret.
  rewrite bool_decide_eq_true_2; [done|]. by apply elem_of_range.
Qed.

Lemma run_parsed {A} usage (m : M world A) w a w' :
  m w = (Ok a, w') → CLI.parse_guarded usage m w = (Ok (Some a), w').
Proof. intros H. unfold CLI.parse_guarded, try_except. by rewrite (run_bind_ok _ _ _ _ _ H). Qed.

(** ["p/l speed fec"] *)
Definition port_add_text (p l speed : Z) (fec : string) : string :=
  str (dec p ++ "/"%char :: digit_char l :: " "%char :: dec speed ++ " "%char :: chars fec).

Lemma speed_nonneg speed : valid_speed speed → 0 ≤ speed.
Proof.
  unfold valid_speed. revert speed. apply Forall_forall. apply (bool_decide_unpack _). vm_compute. exact I.
Qed.
Lemma fec_text fec : valid_fec fec →
  (span (λ c, bool_decide (c ≠ "010"%char)) (skip_spaces (" "%char :: chars fec))).1 = chars fec ∧
  chars fec ≠ [].
Proof.
  unfold valid_fec. revert fec. apply Forall_forall. apply (bool_decide_unpack _). vm_compute. exact I.
Qed.

Lemma match_port_add_text p l speed fec : valid_port p → valid_lane l → valid_speed speed → valid_fec fec →
  match_port_add (chars (port_add_text p l speed fec)) =
    Some (dec p, [digit_char l], dec speed, chars fec).
Proof.
  intros Hp Hl Hs%speed_nonneg Hf. unfold match_port_add, port_add_text, valid_port, valid_lane in *.
  rewrite str_chars, match_port_text by lia. rewrite (proj1 (digit_lane l ltac:(lia))).
  rewrite skip_space, skip_dec, span_dec by done. by rewrite (proj1 (fec_text fec Hf)).
Qed.

(** What is typed is what is configured: for every valid port, lane, speed
    and error correction, the command written out as the usage says calls
    the job with exactly these values, after one line of output. *)
Theorem port_add_command p l speed fec w :
  valid_port p → valid_lane l → valid_speed speed → valid_fec fec →
  CLI.do_port_add (port_add_text p l speed fec) w =
    Job.port_add p l speed fec
      (printed [Printed "Configuring port {}/{} speed {} fec {}."
                  [VInt p; VInt l; VInt speed; VStr fec]] w).
Proof.
  intros Hp Hl Hs Hf. unfold CLI.do_port_add.
  assert (Ha : CLI.port_add_args (port_add_text p l speed fec) w = (Ok (p, l, speed, fec), w)).
  { unfold CLI.port_add_args. rewrite match_port_add_text by done.
    rewrite (run_bind_ok _ _ _ _ _ (run_port_of p w Hp)).
    rewrite (run_bind_ok _ _ _ _ _ (run_lane_of l w Hl)).
    pose proof (dec_nonempty speed (speed_nonneg _ Hs)) as Hn.
    destruct (dec speed) as [|c cs] eqn:E; [done|]. rewrite <- E, parse_dec by by apply speed_nonneg.
    rewrite run_bind_assoc. cbn [Job.opt_value]. rewrite run_bind_ret.
    rewrite (bool_decide_eq_true_2 (speed ∈ _)) by exact Hs. rewrite run_bind_ret.
    destruct (fec_text fec Hf) as [_ Hc]. destruct (chars fec) as [|c' cs'] eqn:E'; [done|].
    rewrite <- E', chars_str. by rewrite bool_decide_eq_true_2 by exact Hf. }
  by rewrite (run_bind_ok _ _ _ _ _ (run_parsed _ _ _ _ _ Ha)).
Qed.

(** ["mac p/d"] *)
Definition mac_add_text (m p d : Z) : string :=
  str (mac_chars m ++ " "%char :: dec p ++ ["/"%char; digit_char d]).

(** Adding a MAC address at a port: for every 48-bit address, port and lane
    written out as the usage says, the job is called with exactly these
    values. But a lane from 4 to 9, which the other commands refuse, is taken
    for lane 0. *)
Theorem mac_address_add_command m p d w :
  0 ≤ m < 2 ^ 48 → valid_port p → 0 ≤ d < 10 →
  CLI.do_mac_address_add (mac_add_text m p d) w =
    if bool_decide (valid_lane d) then Job.mac_address_add (mac_str m) p d w
    else Job.mac_address_add (mac_str m) p 0 (printed [Printed "Assuming lane 0." []] w).
Proof.
  intros Hm Hp Hd. unfold CLI.do_mac_address_add.
  assert (Ha : CLI.mac_port_args (mac_add_text m p d) w =
    (Ok (mac_str m, p, if bool_decide (valid_lane d) then d else 0),
     if bool_decide (valid_lane d) then w else printed [Printed "Assuming lane 0." []] w)).
  { assert (0 ≤ p) by (unfold valid_port in Hp; lia).
    unfold CLI.mac_port_args, match_mac_port, mac_add_text. rewrite str_chars, span_pairs by done.
    rewrite bool_decide_eq_true_2, skip_dec, match_port_text by done.
    rewrite (run_bind_ok _ _ _ _ _ (run_port_of p w Hp)).
    rewrite (proj2 (digit_lane d Hd)). unfold valid_lane. case_bool_decide.
    - rewrite (bool_decide_eq_true_2 (0 ≤ d < 4)) by lia.
      rewrite (run_bind_ok _ _ _ _ _ (run_lane_of d w ltac:(unfold valid_lane; lia))). done.
    - by rewrite (bool_decide_eq_false_2 (0 ≤ d < 4)) by lia. }
  rewrite (run_bind_ok _ _ _ _ _ (run_parsed _ _ _ _ _ Ha)). by case_bool_decide.
Qed.

(** *** Words *)

Definition is_word (t : list ascii) : Prop := t ≠ [] ∧ Forall (λ c, is_space c = false) t.
#[global] Instance is_word_dec t : Decision (is_word t).
Proof. unfold is_word. apply _. Defined.

Lemma words_from_word cur t r :
  Forall (λ c, is_space c = false) t → words_from cur (t ++ r) = words_from (reverse t ++ cur) r.
Proof.
  intros Ht. revert cur. induction Ht as [|c t Hc Ht IH]; intros cur; simpl; [done|].
  by rewrite Hc, IH, reverse_cons, <- app_assoc.
Qed.

Lemma split_words_join ws : Forall is_word ws → split_words (join " "%char ws) = ws.
Proof.
  unfold split_words. induction 1 as [|t ws [Hn Ht] Hws IH]; [done|].
  assert (Hr : reverse t ≠ []).
  { intros E. apply Hn. by rewrite <- (reverse_involutive t), E. }
  assert (Ht' : ∀ A (x y : A), match reverse t with [] => x | _ => y end = y)
    by (intros; by destruct (reverse t)).
  destruct ws as [|t' ws].
  - cbn [join]. rewrite <- (app_nil_r t) at 1. rewrite words_from_word, app_nil_r by done. simpl.
    by rewrite Ht', reverse_involutive.
  - change (join " "%char (t :: t' :: ws)) with (t ++ " "%char :: join " "%char (t' :: ws)).
    rewrite words_from_word, app_nil_r by done. cbn -[join]. rewrite Ht', reverse_involutive. f_equal. exact IH.
Qed.

(** The first digit of a number that is not zero is not zero. *)
Lemma digits_rev_last fuel z :
  0 < z < 10 ^ Z.of_nat fuel → ∃ l d, digits_rev fuel 10 z = l ++ [d] ∧ 0 < d < 10.
Proof.
  revert z. induction fuel as [|fuel IH]; intros z Hz; simpl.
  { change (10 ^ Z.of_nat 0) with 1 in Hz. lia. }
  rewrite bool_decide_eq_false_2 by lia. pose proof (Z.div_mod z 10 ltac:(lia)).
  pose proof (Z.mod_pos_bound z 10 ltac:(lia)). destruct (decide (z / 10 = 0)) as [E|E].
  - rewrite E. exists [], (z mod 10). split; [|lia]. by destruct fuel.
  - destruct (IH (z / 10)) as (l & d & -> & Hd).
    { rewrite Nat2Z.inj_succ, Z.pow_succ_r in Hz by lia. split; [lia|]. apply Z.div_lt_upper_bound; lia. }
    by exists (z mod 10 :: l), d.
Qed.

Lemma dec_head z : 0 < z → ∃ d cs, dec z = digit_char d :: cs ∧ 0 < d < 10.
Proof.
  intros Hz. unfold dec, to_digits. rewrite bool_decide_eq_false_2 by lia.
  destruct (digits_rev_last (Z.to_nat (Z.log2 z + 1)) z) as (l & d & -> & Hd).
  { pose proof (Z.log2_spec z Hz) as [_ Hlt]. pose proof (Z.log2_nonneg z).
    rewrite Z2Nat.id by lia. split; [done|]. eapply Z.lt_le_trans; [exact Hlt|].
    rewrite <- Z.add_1_r. apply Z.pow_le_mono_l. lia. }
  rewrite reverse_app. exists d, (digit_char <$> reverse l). done.
Qed.

Lemma int0_dec z : 0 ≤ z → int0 (dec z) = Some z.
Proof.
  intros Hz. destruct (decide (z = 0)) as [->|]; [done|].
  destruct (dec_head z ltac:(lia)) as (d & cs & E & Hd). pose proof (parse_dec z Hz) as Hp.
  rewrite E in *.
  assert (Hall : Forall (λ d, digit_char d ∉ ["0"; "+"; "-"]%char) (range 1 10)).
  { apply (bool_decide_unpack _). vm_compute. exact I. }
  rewrite Forall_forall in Hall. specialize (Hall d ltac:(apply elem_of_range; lia)).
  unfold int0. rewrite !bool_decide_eq_false_2 by set_solver.
  unfold based. destruct cs as [|x cs]; [by rewrite Hp|].
  rewrite bool_decide_eq_false_2 by set_solver. by rewrite Hp.
Qed.

Lemma dec_word z : 0 ≤ z → is_word (dec z).
Proof.
  intros Hz. split; [by apply dec_nonempty|]. apply Forall_forall. intros c Hc. by apply dec_digits in Hc as [].
Qed.

Ltac all_words :=
  repeat apply Forall_cons_2; first [apply Forall_nil_2 | assumption | by apply dec_word].

Definition words_str (ws : list (list ascii)) : string := str (join " "%char ws).

Lemma run_int_word ws i z w : 0 ≤ z → ws !! i = Some (dec z) → CLI.int_word ws i w = (Ok z, w).
Proof. intros Hz Hi. unfold CLI.int_word. rewrite Hi. by rewrite int0_dec. Qed.
Lemma run_word ws i t w : ws !! i = Some (chars t) → CLI.word ws i w = (Ok t, w).
Proof. intros Hi. unfold CLI.word. by rewrite Hi, chars_str. Qed.

(** A UDP worker typed in is the worker that is added: for all numbers and
    words, the command written out as the usage says is the call of the job
    with these values, its exception reported with the usage. *)
Theorem worker_add_udp_command rank count mac ip w :
  0 ≤ rank → 0 ≤ count → is_word (chars mac) → is_word (chars ip) →
  CLI.do_worker_add_udp (words_str [dec rank; dec count; chars mac; chars ip]) w =
    CLI.guarded CLI.udp_usage (Job.worker_add_udp rank count mac ip) w.
Proof.
  intros Hr Hc Hm Hi. unfold CLI.do_worker_add_udp, words_str, CLI.guarded, try_except. cbv zeta.
  rewrite str_chars, split_words_join by all_words.
  set (ws := [dec rank; _; _; _]).
  rewrite (run_bind_ok _ _ _ _ _ (run_int_word ws 0 rank _ Hr eq_refl)).
  rewrite (run_bind_ok _ _ _ _ _ (run_int_word ws 1 count _ Hc eq_refl)).
  rewrite (run_bind_ok _ _ _ _ _ (run_word ws 2 mac _ eq_refl)).
  by rewrite (run_bind_ok _ _ _ _ _ (run_word ws 3 ip _ eq_refl)).
Qed.

(** Pairs of words, alternating. *)
Definition qp_words (qps : list (Z * Z)) : list (list ascii) :=
  qps ≫= λ '(qpn, psn), [dec qpn; dec psn].
Definition roce_words (rank count : Z) (mac ip : string) (rkey size message : Z) (qps : list (Z * Z))
    : list (list ascii) :=
  [dec rank; dec count; chars mac; chars ip; dec rkey; dec size; dec message] ++ qp_words qps.

Lemma adjacent_qp_words qps :
  adjacent (qp_words qps) = (λ '(qpn, psn), (dec qpn, dec psn)) <$> qps.
Proof. induction qps as [|[q p] qps IH]; [done|]. cbn. f_equal. exact IH. Qed.

Lemma run_qp_words qps w : Forall (λ '(q, p), 0 ≤ q ∧ 0 ≤ p) qps →
  map_each (λ '(qpn, psn),
    q ← Job.opt_value (int0 qpn); p ← Job.opt_value (int0 psn); mret (q, p))
    (adjacent (qp_words qps)) w = (Ok qps, w).
Proof.
  rewrite adjacent_qp_words. induction 1 as [|[q p] qps [Hq Hp] Hqps IH]; [done|].
  cbn [fmap list_fmap map_each]. rewrite !int0_dec by done. cbn [Job.opt_value].
  rewrite run_bind_assoc, run_bind_ret, run_bind_assoc, run_bind_ret, run_bind_ret.
  by rewrite (run_bind_ok _ _ _ _ _ IH).
Qed.

Lemma packet_code_bytes code : 0 ≤ code < 4 →
  CLI.packet_code (RDMASender.packet_bytes code) = code ∧ 0 ≤ RDMASender.packet_bytes code.
Proof.
  intros Hc. assert (Hall : Forall (λ code, CLI.packet_code (RDMASender.packet_bytes code) = code ∧
    0 ≤ RDMASender.packet_bytes code) (range 0 4)).
  { apply (bool_decide_unpack _). vm_compute. exact I. }
  rewrite Forall_forall in Hall. apply Hall. by apply elem_of_range.
Qed.

(** C36. A RoCE worker typed in is the worker that is added, with any number of
    queue pairs: the packet size is typed in bytes and given to the job as the
    code of the RDMA library, and the alternating numbers at the end of the
    line are the pairs of queue pair and sequence number. *)
Theorem worker_add_roce_command rank count mac ip rkey code message qps w :
  0 ≤ rank → 0 ≤ count → is_word (chars mac) → is_word (chars ip) → 0 ≤ rkey →
  0 ≤ code < 4 → 0 ≤ message → Forall (λ '(q, p), 0 ≤ q ∧ 0 ≤ p) qps →
  CLI.do_worker_add_roce
    (words_str (roce_words rank count mac ip rkey (RDMASender.packet_bytes code) message qps)) w =
  CLI.guarded CLI.roce_usage (Job.worker_add_roce rank count mac ip rkey code message qps) w.
Proof.
  intros Hr Hc Hm Hi Hk [Hcode Hbytes]%packet_code_bytes Hs Hq.
  unfold CLI.do_worker_add_roce, words_str, CLI.guarded, try_except. cbv zeta.
  rewrite str_chars, split_words_join.
  2:{ apply Forall_app. split; [all_words|].
      apply Forall_forall. intros t ([q p] & Ht & Hin)%list_elem_of_bind.
      rewrite Forall_forall in Hq. destruct (Hq _ Hin).
      apply elem_of_cons in Ht as [->|Ht%list_elem_of_singleton]; [|subst t]; by apply dec_word. }
  set (ws := roce_words _ _ _ _ _ _ _ qps).
  rewrite (run_bind_ok _ _ _ _ _ (run_int_word ws 0 rank _ Hr eq_refl)).
  rewrite (run_bind_ok _ _ _ _ _ (run_int_word ws 1 count _ Hc eq_refl)).
  rewrite (run_bind_ok _ _ _ _ _ (run_word ws 2 mac _ eq_refl)).
  rewrite (run_bind_ok _ _ _ _ _ (run_word ws 3 ip _ eq_refl)).
  rewrite (run_bind_ok _ _ _ _ _ (run_int_word ws 4 rkey _ Hk eq_refl)).
  rewrite (run_bind_ok _ _ _ _ _ (run_int_word ws 5 _ _ Hbytes eq_refl)).
  rewrite (run_bind_ok _ _ _ _ _ (run_int_word ws 6 message _ Hs eq_refl)).
  change (drop 7 ws) with (qp_words qps).
  rewrite (run_bind_ok _ _ _ _ _ (run_qp_words qps w Hq)). by rewrite Hcode.
Qed.

(** Setting the switch's address at the command line changes what the job
    uses for the workers that are added afterwards, and ends in an error
    message; the entries of the switch that answer ARP and ping, and the
    addresses the two egress blocks write into packets, stay as they were. *)
Theorem set_switch_address_partial `{!BfrtSafe} mac ip w :
  is_word (chars mac) → is_word (chars ip) →
  ends (CLI.do_set_switch_address (words_str [chars mac; chars ip])) w (Ok tt)
    (looks (CLI.set_switch mac ip w) (wview w) (wgroups w)).
Proof.
  intros Hm Hi. unfold CLI.do_set_switch_address, words_str.
  rewrite str_chars, split_words_join by all_words. rewrite !chars_str.
  eexists. split; [reflexivity|]. by split; [|split].
Qed.
End commands.
