(* ===== verification/JobInit.v ===== *)
(** * Construction of the controller

    [Job.__init__] as a whole: what the objects and the switch look like when the
    constructor returns, whatever an earlier controller left behind. *)
From S2P Require Import Prelude PyText PyMonad PyNum Bfrt Live World Ports Counters Worker PRE.
From S2P Require Import NonSwitchMLForward GetWorkerBitmap SetDstAddr Packets RDMAReceiver.
From S2P Require Import RDMASender Registers NextStep Mirror ARPandICMP DropSimulator DebugLog.
From S2P Require Import Job JobWorkers.

(** One statement whose effect is known. *)
Ltac unseen_table := apply (bool_decide_unpack _); vm_compute; exact I.
Ltac known_call :=
  lazymatch goal with
  | |- ends (log_info _ _) _ _ _ => apply ends_log_info; eassumption
  | |- ends (modify _) _ _ _ => eapply ends_assign; [attr_solver|done|eassumption]
  | |- ends (try_except _ _) _ _ _ => apply ends_mgid_del; eassumption
  | |- ends (gets _) _ _ _ => eapply ends_attr; [attr_solver|eassumption]
  | |- ends (bf (EntryAdd "$pre.port" _ _)) _ _ _ => apply ends_cpu_port; eassumption
  | |- ends (bf (EntryDel _ None)) _ _ _ =>
      first [ apply ends_clear; [in_tables|done|eassumption]
            | apply ends_clear_unseen; [unseen_table|done|eassumption] ]
  | |- ends (bf _) _ _ _ => apply ends_client; [reflexivity|fits_table|eassumption]
  end.
(** A sequence of such statements. *)
Ltac known_calls :=
  repeat (lazymatch goal with |- ends (mbind _ _) _ _ _ => idtac end;
          eapply ends_bind; [solve [known_call]|];
          let w := fresh "w" in let H := fresh "Hl" in intros w H);
  try known_call.

Section init.
Context `{LF : BfrtLive} `{DO : DictOrder} `{ML : MathLog}.

Lemma ends_ports_init w0 V G w :
  looks w0 V G w →
  ends Ports.init w (Ok tt)
    (looks (set_ports {| dev_port_to_fp_port := None; active_ports := [] |} w0) V G).
Proof. intros Hl. unfold Ports.init. known_calls. Qed.

(** The loopback ports are enabled in one call. *)
Definition loopback_keys : list key := Ports.port_key <$> Ports.loopback_ports.
Definition loopback_entries (V : entries) : entries :=
  add_entries "$PORT" (zip loopback_keys (replicate (length loopback_keys) Ports.loopback_data)) V.

Lemma NoDup_loopback_keys : NoDup loopback_keys.
Proof.
  unfold loopback_keys. apply NoDup_fmap_2; [intros x y [= ->]; done|].
  apply (bool_decide_unpack _). vm_compute. exact I.
Qed.

Lemma ends_loopback w0 V G w :
  (∀ k, k ∈ loopback_keys → V !! ("$PORT", k) = None) →
  count_entries "$PORT" V + 49 ≤ bf_size "$PORT" → looks w0 V G w →
  ends Ports.enable_loopback_ports w (Ok tt) (looks w0 (loopback_entries V) G).
Proof.
  intros Hk Hroom Hl. unfold Ports.enable_loopback_ports. known_calls.
  apply ends_add; [in_tables|apply NoDup_loopback_keys|done|fits_table|done|exact Hroom|done].
Qed.

Lemma ends_arp_init w0 V G w :
  looks w0 V G w →
  ends ARPandICMP.init w (Ok tt)
    (looks (set_arp {| arp_switch_mac := None; arp_switch_ip := None |} w0)
       (clear_entries ARPandICMP.table V) G).
Proof. intros Hl. unfold ARPandICMP.init, ARPandICMP.clear. known_calls. Qed.

Lemma ends_bitmap_init w0 V G w :
  looks w0 V G w →
  ends GetWorkerBitmap.init w (Ok tt) (looks w0 (clear_entries GetWorkerBitmap.table V) G).
Proof.
  intros Hl. unfold GetWorkerBitmap.init, GetWorkerBitmap.clear. known_calls. by apply ends_ret.
Qed.

Definition receiver_ready (w : world) : world :=
  set_rx {| worker_ids := []; worker_counter_offset := 512 |} w.

Lemma ends_receiver_init w0 V G w :
  counter_sizes → looks w0 V G w →
  ends RDMAReceiver.init w (Ok tt)
    (looks (receiver_ready w0) (clear_entries RDMAReceiver.table V) G).
Proof.
  intros Hsz Hl. unfold RDMAReceiver.init. known_calls.
  eapply ends_mono; [by apply ends_receiver_clear|]. done.
Qed.

(** The registers of the aggregation pipeline show nowhere. *)
Lemma ends_registers_init w0 V G w (m : M world unit) r Q :
  looks w0 V G w → (∀ w1, looks w0 V G w1 → ends m w1 r Q) →
  ends (UpdateAndCheckWorkerBitmap.init ;; CountWorkers.init ;; ExponentMax.init ;;
        for_each (range 0 32) SignificandSum.init ;; m) w r Q.
Proof.
  intros Hl Hm.
  eapply ends_bind.
  { unfold UpdateAndCheckWorkerBitmap.init, UpdateAndCheckWorkerBitmap.clear,
      UpdateAndCheckWorkerBitmap.clear_registers. known_calls. }
  intros w1 Hl1. eapply ends_bind.
  { unfold CountWorkers.init, CountWorkers.clear, CountWorkers.clear_registers,
      CountWorkers.add_default_entries. known_calls. }
  intros w2 Hl2. eapply ends_bind.
  { unfold ExponentMax.init, ExponentMax.clear, ExponentMax.clear_registers. known_calls. }
  intros w3 Hl3. eapply ends_bind; [|exact Hm].
  apply (ends_for_each_inv _ _ (looks w0 V G)); [done|]. intros n w4 Hn Hl4.
  unfold SignificandSum.init, SignificandSum.clear, SignificandSum.clear_registers. known_calls.
Qed.
Definition groups_ready (ip_mgid all_mgid cpu : Z) (w : world) : world :=
  set_pre {| pre_switchml_mgid := ip_mgid; pre_all_mgid := all_mgid; pre_cpu_port := cpu;
             rid_counter := 0x80000; rids := <[all_mgid := ∅]> (<[ip_mgid := ∅]> ∅) |} w.

(** Both groups are new and empty, whatever they were before. *)
Lemma ends_pre_init g a c w0 V G w :
  g ≠ a → looks w0 V G w →
  ends (PRE.init g a c) w (Ok tt)
    (looks (groups_ready g a c w0) V (<[a := []]> (<[g := []]> (delete a (delete g G))))).
Proof.
  intros Hne Hl. unfold PRE.init, PRE.clear, PRE.add_default_entries, PRE.try_del. known_calls.
  eapply ends_bind; [known_calls|]. intros u Hu. known_calls.
  eapply ends_bind.
  { eapply ends_mgid_add; [done| |eassumption]. simpl.
    rewrite lookup_delete_ne by done. apply lookup_delete_eq. }
  intros v Hv. known_calls. eapply ends_mgid_add; [done| |eassumption]. simpl.
  rewrite lookup_insert_ne by done. apply lookup_delete_eq.
Qed.

Lemma ends_drop_init w0 V G w :
  looks w0 V G w →
  ends DropSimulator.init w (Ok tt)
    (looks (set_drop {| ingress_drop_probability := PInt 0; egress_drop_probability := PInt 0 |} w0)
       (clear_entries DropSimulator.table V) G).
Proof.
  intros Hl. unfold DropSimulator.init. known_calls.
  unfold DropSimulator.clear.
  eapply ends_bind; [eapply (ends_attr w_drop); [attr_solver|eassumption]|]. intros u Hu.
  eapply ends_mono; [eapply DropSimulator.ends_drop_off; [done|done|exact Hu]|]. done.
Qed.

Lemma ends_debug_init w0 V G w :
  looks w0 V G w → ends DebugLog.init w (Ok tt) (looks w0 V G).
Proof.
  intros Hl. unfold DebugLog.init, DebugLog.clear, DebugLog.add_default_entries. known_calls.
  eapply ends_bind; [apply ends_ret; eassumption|]. intros u Hu. by apply ends_ret.
Qed.

Lemma ends_next_step_init w0 V G w :
  looks w0 V G w → ends NextStep.init w (Ok tt) (looks w0 V G).
Proof. intros Hl. unfold NextStep.init. known_calls. Qed.

(** The forwarding table floods broadcasts and knows no address. *)
Lemma ends_forward_init g w0 V G w :
  0 < bf_size Forward.table → looks w0 V G w →
  ends (Forward.init g) w (Ok tt)
    (looks (set_fwd {| fwd_mgid := g; mac_addresses := ∅ |} w0)
       (<[(Forward.table, Forward.mac_key "ff:ff:ff:ff:ff:ff") := Forward.flood_data g]>
          (clear_entries Forward.table V)) G).
Proof.
  intros Hsz Hl. unfold Forward.init, Forward.clear, Forward.add_default_entries. known_calls.
  eapply ends_add1; [in_tables|fits_table| | |eassumption].
  - rewrite lookup_clear_entries. by rewrite decide_True.
  - rewrite count_entries_none; [done|]. intros k. rewrite lookup_clear_entries. by rewrite decide_True.
Qed.

Lemma ends_setdst_init mac ip w0 V G w :
  looks w0 V G w →
  ends (SetDstAddr.init mac ip) w (Ok tt)
    (looks (set_setdst {| addr_mac := mac; addr_ip := ip |} w0)
       (clear_entries SetDstAddr.table V) G).
Proof.
  intros Hl. unfold SetDstAddr.init, SetDstAddr.clear, SetDstAddr.add_default_entries. known_calls.
  eapply ends_bind; [known_calls|]. intros u Hu. known_calls.
Qed.

Lemma ends_sender_init mac ip w0 V G w :
  looks w0 V G w →
  ends (RDMASender.init mac ip) w (Ok tt)
    (looks (set_sender {| addr_mac := mac; addr_ip := ip |} w0)
       (clear_entries RDMASender.fill_in_qpn_and_psn
          (clear_entries RDMASender.create_roce_packet V)) G).
Proof.
  intros Hl. unfold RDMASender.init, RDMASender.clear, RDMASender.add_default_entries. known_calls.
  eapply ends_bind; [known_calls; eapply ends_sender_clear; eassumption|]. intros u Hu. known_calls.
Qed.

(** The switch's own address answers ARP requests and pings. *)
Definition address_entries (mac ip : string) (V : entries) : entries :=
  <[(ARPandICMP.table, ARPandICMP.icmp_key ip) :=
      ARPandICMP.reply_data mac ip ARPandICMP.send_icmp_echo_reply]>
    (<[(ARPandICMP.table, ARPandICMP.arp_key ip) :=
         ARPandICMP.reply_data mac ip ARPandICMP.send_arp_reply]> V).

Lemma ends_arp_add mac ip w0 V G w :
  (∀ k, V !! (ARPandICMP.table, k) = None) → 2 ≤ bf_size ARPandICMP.table → looks w0 V G w →
  ends (ARPandICMP.add_switch_mac_and_ip mac ip) w (Ok tt)
    (looks (set_arp {| arp_switch_mac := Some mac; arp_switch_ip := Some ip |} w0)
       (address_entries mac ip V) G).
Proof.
  intros Hk Hsz Hl. unfold ARPandICMP.add_switch_mac_and_ip. known_calls.
  eapply ends_bind.
  { eapply ends_add1; [in_tables|fits_table|apply Hk| |eassumption]. rewrite count_entries_none by done. lia. }
  intros u Hu. eapply ends_add1; [in_tables|fits_table| | |exact Hu].
  - rewrite lookup_insert_ne; [apply Hk|]. done.
  - rewrite count_entries_insert, count_entries_none by done. lia.
Qed.

(** The objects the constructor leaves. *)
Definition built (ip mac : string) (udp_port udp_port_mask : Z) (w : world) : world :=
  World (w_sw w) (w_calls w) (w_out w)
    {| dev_port_to_fp_port := None; active_ports := [] |}
    {| pre_switchml_mgid := 0x1234; pre_all_mgid := 0x1235; pre_cpu_port := 320;
       rid_counter := 0x80000; rids := <[0x1235 := ∅]> (<[0x1234 := ∅]> ∅) |}
    {| fwd_mgid := 0x1235; mac_addresses := ∅ |}
    {| worker_ids := []; worker_counter_offset := 512 |}
    {| mirror_port := 320; sessions := [] |}
    {| arp_switch_mac := Some mac; arp_switch_ip := Some ip |}
    {| addr_mac := mac; addr_ip := ip |}
    {| addr_mac := mac; addr_ip := ip |}
    {| switch_mac := mac; switch_ip := ip; switch_udp_port := udp_port;
       switch_udp_port_mask := udp_port_mask; switch_partition_key := 0xffff;
       switchml_workers_mgid := 0x1234; all_ports_mgid := 0x1235; cpu_port := 320 |}
    {| ingress_drop_probability := PInt 0; egress_drop_probability := PInt 0 |}.

(** The entries after the blocks have been constructed, in the order of the
    constructor. *)
Definition built_entries (mac ip : string) (V : entries) : entries :=
  address_entries mac ip
    (clear_entries RDMASender.fill_in_qpn_and_psn (clear_entries RDMASender.create_roce_packet
      (clear_entries SetDstAddr.table
        (<[(Forward.table, Forward.mac_key "ff:ff:ff:ff:ff:ff") := Forward.flood_data 0x1235]>
          (clear_entries Forward.table (clear_entries DropSimulator.table
            (<[(Mirror.table, Mirror.sid_key Mirror.normal_base) := Mirror.session_data 320]>
              (clear_entries RDMAReceiver.table (clear_entries GetWorkerBitmap.table
                (clear_entries ARPandICMP.table (loopback_entries V))))))))))).

(** What the constructor needs of the switch: nothing but room, no loopback port
    enabled yet, and no mirror session. *)
Record constructible (V : entries) : Prop := {
  cs_sizes : counter_sizes;
  cs_loopback : ∀ k, k ∈ loopback_keys → V !! ("$PORT", k) = None;
  cs_ports : count_entries "$PORT" V + 49 ≤ bf_size "$PORT";
  cs_mirror : V !! (Mirror.table, Mirror.sid_key Mirror.normal_base) = None;
  cs_mirrors : count_entries Mirror.table V < bf_size Mirror.table;
  cs_forward : 0 < bf_size Forward.table;
  cs_arp : 2 ≤ bf_size ARPandICMP.table
}.

Lemma lookup_loopback_ne t k V : t ≠ "$PORT" → loopback_entries V !! (t, k) = V !! (t, k).
Proof. intros Ht. unfold loopback_entries. by rewrite lookup_add_entries_ne. Qed.

Lemma count_entries_sub t T T' :
  (∀ k, T !! (t, k) = T' !! (t, k)) → count_entries t T = count_entries t T'.
Proof.
  intros H. unfold count_entries. do 2 f_equal. apply map_eq. intros [t' k].
  rewrite !map_lookup_filter. destruct (decide (t' = t)) as [->|Hne].
  - by rewrite H.
  - destruct (T !! (t', k)), (T' !! (t', k)); simpl; rewrite ?option_guard_False; done.
Qed.

Lemma ends_job_init ip mac udp_port udp_port_mask w0 V G w :
  constructible V → mac ≠ "" → ip ≠ "" → looks w0 V G w →
  ends (Job.init ip mac udp_port udp_port_mask [] None) w (Ok tt)
    (looks (built ip mac udp_port udp_port_mask w0) (built_entries mac ip V)
       (<[0x1235 := []]> (<[0x1234 := []]> (delete 0x1235 (delete 0x1234 G))))).
Proof.
  intros [] Hmac Hip Hl. unfold Job.init.
  eapply ends_bind; [apply ends_ports_init, Hl|]. intros w1 Hl1.
  eapply ends_bind; [apply ends_loopback; [done|done|exact Hl1]|]. intros w2 Hl2.
  eapply ends_bind; [known_call|]. intros w3 Hl3.
  eapply ends_bind; [apply ends_arp_init, Hl3|]. intros w4 Hl4.
  eapply ends_bind; [apply ends_bitmap_init, Hl4|]. intros w5 Hl5.
  eapply ends_bind; [apply ends_receiver_init; [done|exact Hl5]|]. intros w6 Hl6.
  eapply ends_registers_init; [exact Hl6|]. intros w7 Hl7.
  eapply ends_bind; [apply ends_pre_init; [done|exact Hl7]|]. intros w8 Hl8.
  eapply ends_bind.
  { apply Mirror.ends_mirror_init; [| |exact Hl8].
    - rewrite !lookup_clear_entries, !decide_False by done. by rewrite lookup_loopback_ne.
    - erewrite (count_entries_sub _ _ V); [done|]. intros k.
      rewrite !lookup_clear_entries, !decide_False by done. by apply lookup_loopback_ne. }
  intros w9 Hl9.
  eapply ends_bind; [apply ends_drop_init, Hl9|]. intros w10 Hl10.
  eapply ends_bind; [apply ends_debug_init, Hl10|]. intros w11 Hl11.
  eapply ends_bind; [apply ends_next_step_init, Hl11|]. intros w12 Hl12.
  eapply ends_bind; [apply ends_forward_init; [done|exact Hl12]|]. intros w13 Hl13.
  eapply ends_bind; [apply ends_setdst_init, Hl13|]. intros w14 Hl14.
  eapply ends_bind; [apply ends_sender_init, Hl14|]. intros w15 Hl15.
  eapply ends_bind; [apply ends_ret, Hl15|]. intros w16 Hl16.
  rewrite bool_decide_eq_true_2 by done.
  eapply ends_mono; [apply ends_arp_add; [|done|exact Hl16]|done].
  intros k. rewrite !lookup_clear_entries, !decide_False by done.
  rewrite lookup_insert_ne by done. rewrite !lookup_clear_entries, !decide_False by done.
  rewrite lookup_insert_ne by done. rewrite !lookup_clear_entries. by repeat case_decide.
Qed.

(** The tables of the workers and of the drop simulator. *)
Definition job_tables : list string := DropSimulator.table :: cleared_tables.

Ltac built_entry :=
  unfold built_entries, address_entries;
  repeat first [ rewrite lookup_insert_eq | rewrite lookup_insert_ne by done
               | rewrite lookup_clear_entries | rewrite decide_False by done
               | rewrite decide_True by done ].

Lemma built_job_tables mac ip V t k : t ∈ job_tables → built_entries mac ip V !! (t, k) = None.
Proof.
  intros Ht. unfold job_tables, cleared_tables in Ht.
  repeat (apply elem_of_cons in Ht as [->|Ht]); [..|by apply not_elem_of_nil in Ht]; by built_entry.
Qed.

Lemma built_forward mac ip V k :
  built_entries mac ip V !! (Forward.table, k) =
    if decide (k = Forward.mac_key "ff:ff:ff:ff:ff:ff") then Some (Forward.flood_data 0x1235) else None.
Proof.
  unfold built_entries, address_entries. rewrite !lookup_insert_ne by done.
  rewrite !lookup_clear_entries, !decide_False by done.
  destruct (decide _) as [->|Hk]; [by rewrite lookup_insert_eq|].
  rewrite lookup_insert_ne by congruence. by built_entry.
Qed.

Lemma built_arp mac ip V k :
  built_entries mac ip V !! (ARPandICMP.table, k) =
    if decide (k = ARPandICMP.arp_key ip) then
      Some (ARPandICMP.reply_data mac ip ARPandICMP.send_arp_reply)
    else if decide (k = ARPandICMP.icmp_key ip) then
      Some (ARPandICMP.reply_data mac ip ARPandICMP.send_icmp_echo_reply)
    else None.
Proof.
  repeat case_decide; subst; unfold built_entries, address_entries;
    rewrite ?lookup_insert_ne by (intros [=]; congruence); rewrite ?lookup_insert_eq; try done; by built_entry.
Qed.

Lemma built_rest mac ip V t k :
  t ∈ ["$PORT"; "$pre.node"] → built_entries mac ip V !! (t, k) = loopback_entries V !! (t, k).
Proof.
  intros Ht. repeat (apply elem_of_cons in Ht as [->|Ht]); [| |by apply not_elem_of_nil in Ht];
    by built_entry.
Qed.

Lemma lookup_loopback V k :
  k ∈ loopback_keys → loopback_entries V !! ("$PORT", k) = Some Ports.loopback_data.
Proof.
  intros Hk. apply lookup_add_entries.
  - rewrite fst_zip by (by rewrite length_replicate). apply NoDup_loopback_keys.
  - by apply elem_of_zip_replicate.
Qed.

(** C31. The constructor always returns on a switch whose loopback ports and
    mirror session are not configured yet. Its objects remember no port, no
    address and no worker; both multicast groups exist and are empty, whatever
    they were before; the tables of the workers and of the drop simulator are
    empty; broadcasts are flooded and nothing else is forwarded; the loopback
    ports are enabled; the switch answers for its own address; the multicast
    nodes are left alone. *)
Theorem job_init_effect ip mac udp_port udp_port_mask w :
  constructible (wview w) → mac ≠ "" → ip ≠ "" →
  ends (Job.init ip mac udp_port udp_port_mask [] None) w (Ok tt) (λ w', ∃ V' G',
    looks (built ip mac udp_port udp_port_mask w) V' G' w' ∧
    G' !! 0x1234 = Some [] ∧ G' !! 0x1235 = Some [] ∧
    (∀ t k, t ∈ job_tables → V' !! (t, k) = None) ∧
    (∀ k, V' !! (Forward.table, k) =
       if decide (k = Forward.mac_key "ff:ff:ff:ff:ff:ff") then Some (Forward.flood_data 0x1235)
       else None) ∧
    (∀ k, k ∈ loopback_keys → V' !! ("$PORT", k) = Some Ports.loopback_data) ∧
    V' !! (ARPandICMP.table, ARPandICMP.arp_key ip) =
      Some (ARPandICMP.reply_data mac ip ARPandICMP.send_arp_reply) ∧
    V' !! (ARPandICMP.table, ARPandICMP.icmp_key ip) =
      Some (ARPandICMP.reply_data mac ip ARPandICMP.send_icmp_echo_reply) ∧
    (∀ k, V' !! ("$pre.node", k) = wview w !! ("$pre.node", k))).
Proof.
  intros Hc Hmac Hip.
  eapply ends_mono; [by apply ends_job_init; [..|apply looks_refl]|].
  intros w' Hl. eexists _, _. split; [exact Hl|]. split_and!.
  - by rewrite lookup_insert_ne, lookup_insert_eq.
  - apply lookup_insert_eq.
  - intros t k. apply built_job_tables.
  - apply built_forward.
  - intros k Hk. rewrite built_rest by set_solver. by apply lookup_loopback.
  - by rewrite built_arp, decide_True.
  - by rewrite built_arp, decide_False, decide_True.
  - intros k. rewrite built_rest by set_solver. by apply lookup_loopback_ne.
Qed.

(** The constructor does not start over on a switch that another controller
    has set up: a loopback port that is enabled already makes it raise before
    any block has been constructed, and no entry is lost. *)
Theorem job_init_restart_fails ip mac udp_port udp_port_mask workers ports_file k w :
  k ∈ loopback_keys → is_Some (wview w !! ("$PORT", k)) →
  ∃ e, ends (Job.init ip mac udp_port udp_port_mask workers ports_file) w (Raise e) (λ w',
    ∃ V', wview w ⊆ V' ∧
    looks (set_ports {| dev_port_to_fp_port := None; active_ports := [] |} w) V' (wgroups w) w').
Proof.
  intros Hk [x Hx].
  destruct (ends_ports_init w _ _ w (looks_refl w)) as (w1 & Hr1 & Hl1).
  destruct (ends_log_info "Enabling loopback on {} front panel ports..."
    [VInt (Z.of_nat (length Ports.loopback_ports))] _ _ _ w1 Hl1) as (w2 & Hr2 & Hl2).
  destruct (safe_add "$PORT" loopback_keys (replicate (length Ports.loopback_ports) Ports.loopback_data)
    _ _ _ w2 ltac:(in_tables) Hl2) as [[_ Hn]|(e & V' & HV & H)].
  { rewrite Hn in Hx; done. }
  exists e. unfold Job.init. eapply ends_bind; [exists w1; split; [exact Hr1|exact eq_refl]|].
  intros ? <-. eapply ends_bind_raise; [|intros w3 HQ; exact HQ].
  unfold Ports.enable_loopback_ports.
  eapply ends_bind; [exists w2; split; [exact Hr2|exact eq_refl]|]. intros ? <-.
  eapply ends_mono; [exact H|]. eauto.
Qed.
End init.
