(* ===== verification/JobLoad.v ===== *)
(** * Loading a job

    What a job's operations leave when the workers are gone, and the two ways
    of adding UDP workers: the command [worker_add_udp] and the job file of
    [worker_load_file]. The key that their ingress entry names is not the
    table's, so that the client refuses it: neither ever adds a worker. *)
From S2P Require Import Prelude PyText PyMonad PyNum Bfrt Live World Ports Counters Worker PRE.
From S2P Require Import NonSwitchMLForward GetWorkerBitmap SetDstAddr RDMAReceiver RDMASender.
From S2P Require Import DropSimulator Job JobWorkers CLI.

Section load.
Context `{LF : BfrtLive} `{DO : DictOrder} `{ML : MathLog}.

Lemma elem_of_nodes (m : gmap Z Z) r : r ∈ (dict_items m).*2 ↔ ∃ d, m !! d = Some r.
Proof.
  rewrite list_elem_of_fmap. split.
  - intros ([d r'] & -> & Hd). exists d. by rewrite dict_items_perm, elem_of_map_to_list in Hd.
  - intros [d Hd]. exists (d, r). split; [done|]. by rewrite dict_items_perm, elem_of_map_to_list.
Qed.

(** The switch once the previous job is gone. *)
Definition emptied (m : gmap Z Z) (V : entries) : entries :=
  clear_entries DropSimulator.table (entries_gone ((dict_items m).*2) V).

Lemma lookup_emptied m V t k :
  emptied m V !! (t, k) =
    if bool_decide (t ∈ DropSimulator.table :: cleared_tables ∨
                    (t = "$pre.node" ∧ k ∈ node_key <$> (dict_items m).*2))
    then None else V !! (t, k).
Proof.
  unfold emptied. rewrite lookup_clear_entries, lookup_entries_gone. case_decide as Ht.
  - rewrite bool_decide_eq_true_2; [done|]. left. rewrite Ht. by left.
  - erewrite (bool_decide_ext (t ∈ DropSimulator.table :: cleared_tables ∨ _)); [done|].
    rewrite elem_of_cons. naive_solver.
Qed.

(** ** Adding a UDP worker *)

Lemma udp_quiet rank count mac ip : stable quiet (Job.worker_add_udp rank count mac ip).
Proof.
  intros w. destruct (decide (count ≤ 32)) as [Hc|Hc].
  - destruct (ends_job_udp_refused rank count mac ip w _ _ w Hc (looks_refl w)) as (e & w' & -> & Hl).
    exact Hl.
  - destruct (ends_job_udp_too_many rank count mac ip w _ _ w ltac:(lia) (looks_refl w)) as (w' & -> & Hl).
    exact Hl.
Qed.

Lemma ends_usage usage (m : M world unit) w :
  stable quiet m → ends (CLI.guarded usage m) w (Ok tt) (quiet w).
Proof.
  intros Hm. specialize (Hm w). unfold ends, CLI.guarded, try_except.
  destruct (m w) as [[[]|e] w'] eqn:E; simpl in *; [by eexists|].
  eexists. split; [done|]. etransitivity; [exact Hm|]. etransitivity; apply quiet_line.
Qed.

(** C26. No UDP worker is ever added. [worker_add_udp] reports a job of more
    than 32 workers and returns; for any other job it ends with an exception,
    before anything has changed. The command that calls it always returns,
    whatever its text, and leaves the switch and the controller as they were. *)
Theorem worker_add_udp_refused w :
  (∀ rank count mac ip,
     (count > 32 → ends (Job.worker_add_udp rank count mac ip) w (Ok tt) (quiet w)) ∧
     (count ≤ 32 → ∃ e, ends (Job.worker_add_udp rank count mac ip) w (Raise e) (quiet w))) ∧
  (∀ arg, ends (CLI.do_worker_add_udp arg) w (Ok tt) (quiet w)).
Proof.
  split.
  - intros rank count mac ip. split; intros Hc.
    + apply ends_job_udp_too_many; [done|apply looks_refl].
    + apply ends_job_udp_refused; [done|apply looks_refl].
  - intros arg. unfold CLI.do_worker_add_udp.
    apply ends_usage. unfold CLI.int_word, CLI.word, Job.opt_value.
    pose proof udp_quiet. stable_walk; done.
Qed.

(** ** Loading a job file *)

(** The switch and the controller are as they were, but for the converted
    device ports that the controller remembers. *)
Definition but_cache (w w' : world) : Prop := quiet (Ports.with_cache w) (Ports.with_cache w').

#[local] Instance but_cache_preorder : PreOrder but_cache.
Proof.
  split; [intros w; unfold but_cache; reflexivity|].
  intros w1 w2 w3. unfold but_cache. apply transitivity.
Qed.

Lemma quiet_but_cache w w' : quiet w w' → but_cache w w'.
Proof.
  intros (Ha & HV & HG). split; [|done]. unfold attrs, Ports.with_cache in *. simpl in *. congruence.
Qed.
Lemma stable_but_cache {A} (m : M world A) : stable quiet m → stable but_cache m.
Proof. intros Hm w. apply quiet_but_cache, Hm. Qed.

Lemma get_fp_port_but_cache d : stable but_cache (Ports.get_fp_port d).
Proof.
  assert (Hset : ∀ f : world → world,
    (∀ w, ∃ c, f w = Ports.set_fp_cache c w) → stable but_cache (modify f)).
  { intros f Hf w. change (but_cache w (f w)). destruct (Hf w) as [c ->]. split; done. }
  unfold Ports.get_fp_port, Ports.fill_fp_port. stable_walk.
  all: try (apply Hset; intros w; by eexists).
  all: apply stable_but_cache, stable_quiet_get; done.
Qed.

Lemma load_worker_but_cache n item : stable but_cache (Job.load_worker n item).
Proof.
  destruct item as [i d]. unfold Job.load_worker.
  apply stable_bind; [apply _|apply get_fp_port_but_cache|intros [p l]].
  apply stable_but_cache, stable_bind; [apply _| |intros [|mac macs]].
  - intros w. destruct (Forward.ends_get_macs p l w) as (macs & (w' & -> & Hq) & _). exact Hq.
  - stable_walk.
  - apply stable_bind; [apply _|apply udp_quiet|intros _; apply stable_ret, _].
Qed.

(** What the first worker of a file comes to: its port is known and has an
    address, or has none. *)
Lemma load_first n d p l macs w0 V G w :
  n ≤ 32 → Ports.cache_ok w0 → hdl !! (p, l) = Some d → looks w0 V G w →
  (∀ mac, mac ∈ macs ↔ mac_addresses (w_fwd w0) !! mac = Some (p, l)) →
  if bool_decide (macs = []) then (Job.load_worker n (0, d) w).1 = Ok (Some tt)
  else ∃ e, (Job.load_worker n (0, d) w).1 = Raise e.
Proof.
  intros Hn Hc Hd Hl Hmacs.
  destruct (Ports.ends_get_fp_port d (p, l) w0 V G w Hc Hd Hl) as (w1 & Hrun1 & Hl1).
  destruct (Forward.ends_get_macs p l w1) as (macs' & (w2 & Hrun2 & Hq2) & _ & Hin).
  assert (Ha : mac_addresses (w_fwd w1) = mac_addresses (w_fwd w0)).
  { destruct Hl1 as [Ha _]. by injection Ha as _ _ ->. }
  rewrite Ha in Hin. unfold Job.load_worker. rewrite (run_bind_ok _ _ _ _ _ Hrun1).
  simpl. rewrite (run_bind_ok _ _ _ _ _ Hrun2).
  assert (Heq : ∀ mac, mac ∈ macs' ↔ mac ∈ macs) by (intros mac; by rewrite Hin, Hmacs).
  destruct macs' as [|mac macs'].
  - rewrite bool_decide_eq_true_2; [done|]. apply elem_of_nil_inv. intros mac Hm.
    by apply Heq, not_elem_of_nil in Hm.
  - rewrite bool_decide_eq_false_2 by (intros ->; apply (not_elem_of_nil mac), Heq; by left).
    destruct (ends_job_udp_refused 0 n mac "0.0.0.0" w2 _ _ w2 Hn (looks_refl w2)) as (e & w3 & Hrun3 & _).
    exists e. by rewrite (run_bind_raise _ _ _ _ _ Hrun3).
Qed.

(** C27. A job file never loads a job. When simulated loss is off,
    [worker_load_file] removes the previous job and leaves the switch without
    one, whatever ports the file lists and however the loading ends: the
    tables of the workers are empty, the nodes on record are gone, and the
    controller has changed in nothing else but the device ports it remembers.
    For the first port, when the controller knows it and the file lists at most
    32: with an address on it the method ends with an exception, with none it
    returns. *)
Theorem worker_load_file_loads_none ports m w :
  counter_sizes →
  DropSimulator.value_of (ingress_drop_probability (w_drop w)) = Some 0 →
  DropSimulator.value_of (egress_drop_probability (w_drop w)) = Some 0 →
  rids (w_pre w) !! switchml_workers_mgid (w_job w) = Some m →
  let r := Job.worker_load_file ports w in
  (∃ G', looks (Ports.with_cache (workers_gone w)) (emptied m (wview w)) G' (Ports.with_cache r.2) ∧
     G' !! switchml_workers_mgid (w_job w) =
       filter (.∉ (dict_items m).*2) <$> wgroups w !! switchml_workers_mgid (w_job w)) ∧
  match ports with
  | None | Some [] => r.1 = Ok tt
  | Some (d :: ds) =>
      ∀ p l, hdl !! (p, l) = Some d → Ports.cache_ok w → Z.of_nat (length (d :: ds)) ≤ 32 →
        ((∃ mac, mac_addresses (w_fwd w) !! mac = Some (p, l)) → ∃ e, r.1 = Raise e) ∧
        ((∀ mac, mac_addresses (w_fwd w) !! mac ≠ Some (p, l)) → r.1 = Ok tt)
  end.
Proof.
  intros Hsz Hp Hq Hm r. subst r. unfold Job.worker_load_file.
  destruct (ends_worker_clear_all m w _ _ w Hsz Hm Hp Hq (looks_refl w)) as (w1 & Hrun & G' & HG' & Hl).
  rewrite (run_bind_ok _ _ _ _ _ Hrun). fold (emptied m (wview w)) in Hl.
  split.
  - exists G'. split; [|done].
    eapply (looks_trans _ _ _ (Ports.with_cache w1)).
    { destruct Hl as (Ha & HV & HG). split; [|done]. unfold attrs, Ports.with_cache in *.
      simpl in *. congruence. }
    change (but_cache w1 ((match ports with
      | Some ps => for_return (enumerate ps) (Job.load_worker (Z.of_nat (length ps))) ;; mret tt
      | None => mret tt end : M world unit) w1).2).
    assert (H : stable but_cache (match ports with
      | Some ps => for_return (enumerate ps) (Job.load_worker (Z.of_nat (length ps))) ;; mret tt
      | None => mret tt end : M world unit)); [|exact (H w1)].
    destruct ports; [|apply stable_ret, _].
    apply stable_bind; [apply _| |intros _; apply stable_ret, _].
    apply stable_for_return; [apply _|]. intros item. apply load_worker_but_cache.
  - destruct ports as [[|d ds]|]; [done| |done]. intros p l Hd Hc Hn.
    destruct (Forward.ends_get_macs p l w) as (macs & _ & _ & Hin).
    pose proof (load_first _ d p l macs (workers_gone w) _ _ w1 Hn Hc Hd Hl Hin) as Hfirst.
    unfold enumerate. rewrite seqZ_cons by (simpl; lia). cbn [zip zip_with for_return].
    split; intros Hmac; case_bool_decide as Hnil.
    + destruct Hmac as [mac Hmac]. exfalso. apply Hin in Hmac. subst macs.
      by apply not_elem_of_nil in Hmac.
    + destruct Hfirst as [e He]. exists e. destruct (Job.load_worker _ _ w1) as [r' w2] eqn:E.
      simpl in He. subst r'. rewrite (run_bind_raise _ _ _ e w2); [done|].
      by rewrite (run_bind_raise _ _ _ _ _ E).
    + destruct (Job.load_worker _ _ w1) as [r' w2] eqn:E. simpl in Hfirst. subst r'.
      rewrite (run_bind_ok _ _ _ (Some tt) w2); [done|]. by rewrite (run_bind_ok _ _ _ _ _ E).
    + exfalso. destruct macs as [|mac macs]; [done|]. apply (Hmac mac), Hin. by left.
Qed.
End load.
