(* ===== verification/JobSpec.v ===== *)
(** * What the job promises: a list of members

    The abstract state of a job is the list of its members, in the order they
    joined. Joining appends a member, clearing forgets all, and a request that
    is too large or that a UDP worker makes changes nothing. The detailed state
    (five match tables, the multicast nodes, the group of the job, the
    controller's records) implements such a list; the file proves that every
    operation of the job that changes its membership simulates its abstract
    step, so that any history of operations is a history of lists. *)
From S2P Require Import Prelude PyText PyMonad PyNum Bfrt Live World Ports Counters Worker PRE.
From S2P Require Import NonSwitchMLForward GetWorkerBitmap SetDstAddr RDMAReceiver RDMASender.
From S2P Require Import DropSimulator Job JobWorkers CLI JobLoad.

(** ** The abstract state *)

(** A member announces its addresses, and as a RoCE worker its memory key, its
    packet and message sizes and its queue pairs. The rows of a UDP member are
    those that [worker_add_udp] asks for; the switch program has no such key, so
    that no step below makes a UDP worker a member. *)
Inductive member_kind :=
| UdpMember
| RoceMember (rkey packet_size message_size : Z) (qps : list (Z * Z)).

Record member := Member {
  mb_rank : Z;
  mb_count : Z;
  mb_mac : string;
  mb_ip : string;
  mb_port : Z * Z;
  mb_dev : Z;
  mb_kind : member_kind
}.

Inductive job_op := Clear | Join (m : member).

(** The logarithm of the packets per message. *)
Definition message_log (packet_size message_size : Z) : Z :=
  Z.log2 (message_size / RDMASender.packet_bytes packet_size).

Definition in_table (t : string) (kds : list (key * datum)) : list ((string * key) * datum) :=
  (λ kd, ((t, kd.1), kd.2)) <$> kds.

(** The entries of a member. *)
Definition member_rows (j : JobState) (m : member) : list ((string * key) * datum) :=
  let node := (("$pre.node", node_key (mb_rank m)), PRE.node_data (mb_rank m) (mb_dev m)) in
  match mb_kind m with
  | UdpMember =>
      [((SetDstAddr.table, SetDstAddr.worker_key (mb_rank m)),
        SetDstAddr.worker_data (mb_mac m) (mb_ip m)); node;
       ((GetWorkerBitmap.table, job_udp_key j (mb_mac m) (mb_ip m)),
        job_udp_data j (mb_rank m) (mb_count m))]
  | RoceMember rkey size message qps =>
      in_table RDMASender.fill_in_qpn_and_psn
        (RDMASender.qp_entries (mb_rank m) (message_log size message) qps) ++
      [((RDMASender.create_roce_packet, RDMASender.rid_key (mb_rank m)),
        RDMASender.write_data (mb_mac m) (mb_ip m) rkey); node] ++
      in_table RDMAReceiver.table
        (RDMAReceiver.worker_entries (switch_ip j) (switch_partition_key j)
           (switchml_workers_mgid j) (mb_ip m) (mb_rank m) (GetWorkerBitmap.worker_bit (mb_rank m))
           size (mb_count m) RDMAReceiver.write_opcodes)
  end.
Definition job_table (j : JobState) (ms : list member) : entries :=
  list_to_map (ms ≫= member_rows j).

(** The records of the controller: the rank at each device port, and the RoCE
    workers, which have counters of their own. *)
Definition on_record (ms : list member) : gmap Z Z :=
  foldl (λ M m, <[mb_dev m := mb_rank m]> M) ∅ ms.
Definition roce_ranks (ms : list member) : list Z :=
  m ← ms; match mb_kind m with UdpMember => [] | RoceMember _ _ _ _ => [mb_rank m] end.

(** The number of entries of the members in a table. *)
Definition load (j : JobState) (t : string) (ms : list member) : Z :=
  Z.of_nat (length (filter (λ r, r.1.1 = t) (ms ≫= member_rows j))).

Section spec.
Context `{LF : BfrtLive}.

(** What a member has to satisfy by itself: its rank fits the queue pair
    numbers, its MAC address has been learnt, its messages are a power of two
    of packets. *)
Record fits (w0 : world) (m : member) : Prop := {
  ft_rank : 0 ≤ mb_rank m < 127;
  ft_learnt : mac_addresses (w_fwd w0) !! mb_mac m = Some (mb_port m);
  ft_port : hdl !! mb_port m = Some (mb_dev m);
  ft_kind : match mb_kind m with
            | UdpMember => 0 ≤ mb_count m
            | RoceMember rkey size message qps =>
                message / RDMASender.packet_bytes size = 2 ^ message_log size message ∧
                0 ≤ message_log size message ≤ 28
            end
}.

(** What it needs of the job it joins. The condition on devices is the controller's
    own: it looks a rank up among the device ports on record. *)
Record joinable (w0 : world) (V0 : entries) (ms : list member) (m : member) : Prop := {
  jn_fits : fits w0 m;
  jn_kind : mb_kind m ≠ UdpMember;
  jn_rank : mb_rank m ∉ mb_rank <$> ms;
  jn_device : mb_rank m ∉ mb_dev <$> ms;
  jn_port : mb_dev m ∉ mb_dev <$> ms;
  jn_room : ∀ t, t ∈ "$pre.node" :: cleared_tables →
    count_entries t V0 + load (w_job w0) t (ms ++ [m]) ≤ bf_size t
}.

(** The job as a state machine on lists of members. *)
Inductive job_step (w0 : world) (V0 : entries) : list member → job_op → list member → Prop :=
| step_clear ms : job_step w0 V0 ms Clear []
| step_join ms m :
    mb_count m ≤ 32 → joinable w0 V0 ms m → job_step w0 V0 ms (Join m) (ms ++ [m])
| step_udp ms m : mb_kind m = UdpMember → job_step w0 V0 ms (Join m) ms
| step_too_many ms m : 32 < mb_count m → job_step w0 V0 ms (Join m) ms.
Inductive job_run (w0 : world) (V0 : entries) : list member → list job_op → list member → Prop :=
| run_nil ms : job_run w0 V0 ms [] ms
| run_cons ms op ms' ops ms'' :
    job_step w0 V0 ms op ms' → job_run w0 V0 ms' ops ms'' → job_run w0 V0 ms (op :: ops) ms''.

(** ** The detailed state *)

(** The switch outside the job: nothing in the tables of the workers, and the
    nodes of the ranks free. *)
Record background (V0 : entries) : Prop := {
  bg_tables : ∀ t k, t ∈ DropSimulator.table :: cleared_tables → V0 !! (t, k) = None;
  bg_nodes : ∀ r, 0 ≤ r < 127 → V0 !! ("$pre.node", node_key r) = None
}.

Definition recorded_world (ms : list member) (w0 : world) : world :=
  PRE.put_rids (switchml_workers_mgid (w_job w0)) (on_record ms)
    (RDMAReceiver.set_worker_ids (roce_ranks ms) w0).

(** The members of a history of steps. *)
Record well_formed (w0 : world) (ms : list member) : Prop := {
  wf_fits : ∀ m, m ∈ ms → fits w0 m;
  wf_ranks : NoDup (mb_rank <$> ms);
  wf_ports : NoDup (mb_dev <$> ms)
}.

(** [implements w0 V0 ms w]: on top of the settings of [w0] and the entries
    [V0], the world [w] is a job with the members [ms]. *)
Definition implements (w0 : world) (V0 : entries) (ms : list member) (w : world) : Prop :=
  well_formed w0 ms ∧ ∃ G,
    G !! switchml_workers_mgid (w_job w0) = Some (mb_rank <$> ms) ∧
    looks (recorded_world ms w0) (job_table (w_job w0) ms ∪ V0) G w.

Context `{DO : DictOrder} `{ML : MathLog}.

(** The operation of the controller that a step stands for. *)
Definition run_op (op : job_op) : M world unit :=
  match op with
  | Clear => Job.worker_clear_all
  | Join m =>
      match mb_kind m with
      | UdpMember => Job.worker_add_udp (mb_rank m) (mb_count m) (mb_mac m) (mb_ip m)
      | RoceMember rkey size message qps =>
          Job.worker_add_roce (mb_rank m) (mb_count m) (mb_mac m) (mb_ip m) rkey size message qps
      end
  end.

(** The command of the operator for it: exceptions are reported with the usage
    of the command. What became of the operation is kept. *)
Definition op_usage (op : job_op) : string :=
  match op with
  | Clear => "Clear all active SwitchML workers."
  | Join m => match mb_kind m with UdpMember => CLI.udp_usage | _ => CLI.roce_usage end
  end.
Definition attempt (op : job_op) : M world (outcome unit) :=
  try_except (run_op op ;; mret (Ok tt))
    (except_any (λ e, CLI.complain (op_usage op) ;; mret (Raise e))).

(** The operations that end with an exception. *)
Definition refused (op : job_op) : bool :=
  match op with
  | Clear => false
  | Join m => match mb_kind m with UdpMember => bool_decide (mb_count m ≤ 32) | _ => false end
  end.
End spec.

(** ** Rows *)

Lemma add_entries_rows t kds V :
  add_entries t kds V = (list_to_map (in_table t kds) : entries) ∪ V.
Proof.
  induction kds as [|[k d] kds IH]; simpl; [by rewrite map_empty_union|].
  by rewrite IH, insert_union_l.
Qed.

Lemma insert_rows (t : string) (k : key) (d : datum) (V : entries) :
  <[(t, k) := d]> V = (list_to_map [((t, k), d)] : entries) ∪ V.
Proof. simpl. by rewrite <- insert_union_l, map_empty_union. Qed.

(** The keys a member may use. *)
Definition owns (j : JobState) (m : member) (tk : string * key) : Prop :=
  tk ∈ [(SetDstAddr.table, SetDstAddr.worker_key (mb_rank m)); ("$pre.node", node_key (mb_rank m));
        (GetWorkerBitmap.table, job_udp_key j (mb_mac m) (mb_ip m));
        (RDMASender.create_roce_packet, RDMASender.rid_key (mb_rank m))] ∨
  (∃ i mask, tk = (RDMASender.fill_in_qpn_and_psn, RDMASender.qp_key (mb_rank m) i mask)) ∨
  (∃ op, tk = (RDMAReceiver.table, RDMAReceiver.entry_key (mb_ip m) (switch_ip j)
     (switch_partition_key j) op (mb_rank m))).

Lemma rows_owned j m r : r ∈ member_rows j m → owns j m r.1.
Proof.
  unfold member_rows, owns. destruct (mb_kind m) as [|rkey size message qps].
  - rewrite !elem_of_cons. intros [->|[->|[->|[]%not_elem_of_nil]]]; left; simpl; set_solver by done.
  - rewrite elem_of_app. cbn [app]. rewrite !elem_of_cons. intros [Hq|[->|[->|Hw]]].
    + right; left. apply list_elem_of_fmap in Hq as (kd & -> & (e & -> & _)%list_elem_of_fmap).
      by eexists _, _.
    + left. simpl. set_solver by done.
    + left. simpl. set_solver by done.
    + right; right. apply list_elem_of_fmap in Hw as (kd & -> & (oa & -> & _)%list_elem_of_fmap).
      by eexists.
Qed.

Lemma qpn_top_bits_inj r r' :
  0 ≤ r < 127 → 0 ≤ r' < 127 → RDMAReceiver.qpn_top_bits r = RDMAReceiver.qpn_top_bits r' → r = r'.
Proof. intros Hr Hr'. rewrite !RDMAReceiver.qpn_top_bits_value by lia. lia. Qed.

(** Members with different ranks and MAC addresses share no key. *)
Lemma owns_apart j m m' tk :
  0 ≤ mb_rank m < 127 → 0 ≤ mb_rank m' < 127 → mb_rank m ≠ mb_rank m' → mb_mac m ≠ mb_mac m' →
  owns j m tk → owns j m' tk → False.
Proof.
  intros Hm Hm' Hr Hmac H H'. unfold owns in H, H'.
  rewrite !elem_of_cons, elem_of_nil in H, H'.
  destruct H as [[->|[->|[->|[->|[]]]]]|[(i & mask & ->)|(op & ->)]];
    destruct H' as [[He|[He|[He|[He|[]]]]]|[(i' & mask' & He)|(op' & He)]];
    try done; injection He; intros; try done.
  apply Hr. by apply qpn_top_bits_inj.
Qed.

(** The tables of the members' keys. *)
Lemma owns_table j m tk :
  owns j m tk → tk.1 ∈ cleared_tables ∨ tk = ("$pre.node", node_key (mb_rank m)).
Proof.
  unfold owns. rewrite !elem_of_cons, elem_of_nil. unfold cleared_tables.
  intros [[->|[->|[->|[->|[]]]]]|[(i & mask & ->)|(op & ->)]]; simpl;
    first [by right | left; set_solver by done].
Qed.

(** ** Counting *)

Lemma count_entries_insert_le t tk d T :
  count_entries t (<[tk := d]> T) ≤ count_entries t T + (if decide (tk.1 = t) then 1 else 0).
Proof.
  destruct tk as [t' k]. simpl. case_decide as Ht.
  - subst t'. destruct (T !! (t, k)) as [x|] eqn:Hx; [|rewrite count_entries_insert; [lia|done]].
    unfold count_entries. rewrite map_filter_insert_True by done. rewrite map_size_insert.
    rewrite map_lookup_filter_Some_2 with (x := x) by done. simpl. lia.
  - rewrite count_entries_insert_ne by done. lia.
Qed.

Lemma count_rows t (rows : list ((string * key) * datum)) V :
  count_entries t ((list_to_map rows : entries) ∪ V) ≤
    Z.of_nat (length (filter (λ r, r.1.1 = t) rows)) + count_entries t V.
Proof.
  induction rows as [|[tk d] rows IH]; simpl; [rewrite map_empty_union; lia|].
  rewrite <- insert_union_l.
  pose proof (count_entries_insert_le t tk d ((list_to_map rows : entries) ∪ V)).
  rewrite filter_cons. cbn [fst] in *. repeat case_decide; simpl length; lia.
Qed.

Lemma load_snoc j t ms m : load j t (ms ++ [m]) = load j t ms + load j t [m].
Proof. unfold load. rewrite bind_app, filter_app, length_app. lia. Qed.

(** ** Records *)

Lemma on_record_snoc ms m : on_record (ms ++ [m]) = <[mb_dev m := mb_rank m]> (on_record ms).
Proof. unfold on_record. by rewrite foldl_app. Qed.

Lemma lookup_on_record ms d r :
  NoDup (mb_dev <$> ms) →
  on_record ms !! d = Some r ↔ ∃ m, m ∈ ms ∧ mb_dev m = d ∧ mb_rank m = r.
Proof.
  induction ms as [|m ms IH] using rev_ind; intros Hnd.
  - unfold on_record. simpl. rewrite lookup_empty. split; [done|].
    by intros (m & []%not_elem_of_nil & _).
  - rewrite fmap_app in Hnd. apply NoDup_app in Hnd as (Hnd & Hx & _). rewrite on_record_snoc.
    destruct (decide (d = mb_dev m)) as [->|Hd].
    + rewrite lookup_insert_eq. split.
      * intros [= <-]. exists m. set_solver.
      * intros (m' & Hm' & He & <-). apply elem_of_app in Hm' as [Hm'|Hm'%list_elem_of_singleton];
          [|by subst m']. exfalso. apply (Hx (mb_dev m)); [|simpl; set_solver].
        rewrite <- He. by apply list_elem_of_fmap_2.
    + rewrite lookup_insert_ne, IH by done. set_solver.
Qed.

Lemma on_record_none ms d : d ∉ mb_dev <$> ms → on_record ms !! d = None.
Proof.
  induction ms as [|m ms IH] using rev_ind; [intros _; apply lookup_empty|].
  rewrite fmap_app, on_record_snoc. intros Hd. rewrite lookup_insert_ne by set_solver.
  apply IH. set_solver.
Qed.

Lemma recorded_nodes `{DO : DictOrder} ms r :
  NoDup (mb_dev <$> ms) → r ∈ (dict_items (on_record ms)).*2 ↔ r ∈ mb_rank <$> ms.
Proof.
  intros Hnd. rewrite elem_of_nodes, list_elem_of_fmap. split.
  - intros (d & (m & Hm & _ & <-)%lookup_on_record); [by exists m|done].
  - intros (m & -> & Hm). exists (mb_dev m). apply lookup_on_record; [done|]. by exists m.
Qed.

(** ** Simulation *)

Section simulation.
Context `{LF : BfrtLive} `{DO : DictOrder} `{ML : MathLog}.
Context (w0 : world) (V0 : entries).
Hypothesis Hbackground : background V0.

Lemma lookup_job_table_none j ms tk :
  (∀ m, m ∈ ms → ¬ owns j m tk) → job_table j ms !! tk = None.
Proof.
  intros Hno. apply not_elem_of_list_to_map. intros (r & -> & Hr)%list_elem_of_fmap.
  apply list_elem_of_bind in Hr as (m & Hr & Hm). apply (Hno m Hm). by apply rows_owned.
Qed.

Lemma background_owns j m tk : 0 ≤ mb_rank m < 127 → owns j m tk → V0 !! tk = None.
Proof.
  intros Hr [Ht| ->]%owns_table.
  - destruct tk as [t k]. apply (bg_tables _ Hbackground). by right.
  - by apply (bg_nodes _ Hbackground).
Qed.

Lemma fits_same_mac m m' : fits w0 m → fits w0 m' → mb_mac m = mb_mac m' → mb_dev m = mb_dev m'.
Proof. intros [] [] He. congruence. Qed.

Lemma joinable_apart ms m m' tk :
  well_formed w0 ms → joinable w0 V0 ms m → m' ∈ ms → owns (w_job w0) m tk → ¬ owns (w_job w0) m' tk.
Proof.
  intros [] [Hf _ Hr _ Hp _] Hm' Ho Ho'.
  eapply (owns_apart (w_job w0) m m'); [apply Hf|by apply wf_fits0| | |done|done].
  - intros He. apply Hr. rewrite He. by apply list_elem_of_fmap_2.
  - intros He. apply Hp. rewrite (fits_same_mac m m' Hf (wf_fits0 _ Hm') He).
    by apply list_elem_of_fmap_2.
Qed.

(** The keys of a joining member are free. *)
Lemma joinable_fresh ms m tk :
  well_formed w0 ms → joinable w0 V0 ms m → owns (w_job w0) m tk →
  (job_table (w_job w0) ms ∪ V0) !! tk = None.
Proof.
  intros Hwf Hj Ho. apply lookup_union_None. split.
  - apply lookup_job_table_none. intros m' Hm'. by eapply joinable_apart.
  - eapply background_owns; [apply (jn_fits _ _ _ _ Hj)|exact Ho].
Qed.

Lemma joinable_room t ms m :
  joinable w0 V0 ms m → t ∈ "$pre.node" :: cleared_tables →
  count_entries t (job_table (w_job w0) ms ∪ V0) + load (w_job w0) t [m] ≤ bf_size t.
Proof.
  intros Hj Ht. pose proof (jn_room _ _ _ _ Hj t Ht) as H. rewrite load_snoc in H.
  pose proof (count_rows t (ms ≫= member_rows (w_job w0)) V0) as Hc.
  unfold job_table, load in *. lia.
Qed.

Lemma job_table_snoc ms m :
  well_formed w0 ms → joinable w0 V0 ms m →
  (list_to_map (member_rows (w_job w0) m) : entries) ∪ (job_table (w_job w0) ms ∪ V0) =
  job_table (w_job w0) (ms ++ [m]) ∪ V0.
Proof.
  intros Hwf Hj. unfold job_table. rewrite bind_app, list_to_map_app, map_union_assoc. f_equal.
  cbn [mbind list_bind]. rewrite app_nil_r. apply map_union_comm.
  apply map_disjoint_spec. intros tk d d' Hd Hd'.
  apply elem_of_list_to_map_2 in Hd, Hd'. apply list_elem_of_bind in Hd' as (m' & Hr' & Hm').
  apply rows_owned in Hd, Hr'. by eapply (joinable_apart ms m m').
Qed.

Lemma well_formed_snoc ms m :
  well_formed w0 ms → joinable w0 V0 ms m → well_formed w0 (ms ++ [m]).
Proof.
  intros [] []. split.
  - intros m' [Hm'|Hm'%list_elem_of_singleton]%elem_of_app; [by apply wf_fits0|by subst].
  - rewrite fmap_app. by apply NoDup_snoc.
  - rewrite fmap_app. by apply NoDup_snoc.
Qed.

Ltac member_table := unfold cleared_tables; set_solver.

Lemma looks_record w1 w2 V G w : attrs w1 = attrs w2 → looks w1 V G w → looks w2 V G w.
Proof. intros Ha (H & HV & HG). split; [congruence|done]. Qed.

(** What a worker needs of the controller's records and of the node table. *)
Lemma joinable_new ms m G :
  well_formed w0 ms → joinable w0 V0 ms m →
  G !! switchml_workers_mgid (w_job w0) = Some (mb_rank <$> ms) →
  (∀ V, 0 < load (w_job w0) "$pre.node" [m] → V = job_table (w_job w0) ms ∪ V0 →
    worker_new (mb_rank m) (mb_dev m) (on_record ms) (mb_rank <$> ms) (recorded_world ms w0) V G).
Proof.
  intros Hwf Hj HG V Hload ->. split; simpl.
  - apply lookup_insert_eq.
  - by apply on_record_none, (jn_device _ _ _ _ Hj).
  - done.
  - apply (jn_rank _ _ _ _ Hj).
  - apply (joinable_fresh ms m); [done..|]. left. set_solver by done.
  - pose proof (joinable_room "$pre.node" ms m Hj ltac:(by left)). lia.
Qed.

Lemma recorded_joined ms m :
  attrs (worker_joined (mb_rank m) (mb_dev m) (on_record ms)
    (RDMAReceiver.set_worker_ids (roce_ranks (ms ++ [m])) (recorded_world ms w0))) =
  attrs (recorded_world (ms ++ [m]) w0).
Proof.
  unfold attrs, recorded_world, worker_joined. simpl. by rewrite insert_insert_eq, on_record_snoc.
Qed.

Lemma roce_ranks_snoc ms m :
  roce_ranks (ms ++ [m]) =
    roce_ranks ms ++ match mb_kind m with UdpMember => [] | RoceMember _ _ _ _ => [mb_rank m] end.
Proof. unfold roce_ranks. rewrite bind_app. simpl. by rewrite app_nil_r. Qed.

Lemma join_udp ms m w :
  mb_kind m = UdpMember → implements w0 V0 ms w →
  ∃ r, is_ok r = negb (refused (Join m)) ∧ ends (run_op (Join m)) w r (implements w0 V0 ms).
Proof.
  intros Hk (Hwf & G & HG & Hl). cbn [run_op refused]. rewrite Hk.
  assert (Hi : ∀ w1, looks (recorded_world ms w0) (job_table (w_job w0) ms ∪ V0) G w1 →
    implements w0 V0 ms w1) by (intros w1 Hl1; split; [done|by exists G]).
  case_bool_decide as Hc.
  - destruct (ends_job_udp_refused (mb_rank m) (mb_count m) (mb_mac m) (mb_ip m) _ _ _ _ Hc Hl) as [e He].
    exists (Raise e). split; [done|]. eapply ends_mono; [exact He|exact Hi].
  - exists (Ok tt). split; [done|]. eapply ends_mono; [|exact Hi].
    apply ends_job_udp_too_many; [lia|done].
Qed.

Lemma roce_load m rkey size message qps t :
  mb_kind m = RoceMember rkey size message qps →
  load (w_job w0) t [m] =
    (if decide (t = RDMASender.fill_in_qpn_and_psn) then Z.of_nat (length qps) else
     if decide (t = RDMASender.create_roce_packet ∨ t = "$pre.node") then 1 else
     if decide (t = RDMAReceiver.table) then 6 else 0).
Proof.
  intros Hk. unfold load. simpl. rewrite app_nil_r. unfold member_rows. rewrite Hk.
  rewrite !filter_app, !length_app.
  assert (Hin : ∀ t' kds, length (filter (λ r : (string * key) * datum, r.1.1 = t) (in_table t' kds)) =
    if decide (t' = t) then length kds else 0%nat).
  { intros t' kds. induction kds as [|kd kds IH]; [by case_decide|].
    cbn [in_table fmap list_fmap]. rewrite filter_cons. simpl. fold (in_table t' kds).
    repeat case_decide; simpl; congruence. }
  rewrite !Hin. unfold RDMASender.qp_entries. rewrite length_fmap, length_enumerate.
  rewrite !filter_cons, filter_nil. simpl.
  repeat case_decide; simpl; try lia; try tauto; subst; try done; naive_solver.
Qed.

Lemma join_roce ms m rkey size message qps w :
  mb_kind m = RoceMember rkey size message qps → mb_count m ≤ 32 →
  joinable w0 V0 ms m → implements w0 V0 ms w →
  ends (run_op (Join m)) w (Ok tt) (implements w0 V0 (ms ++ [m])).
Proof.
  intros Hk Hc Hj (Hwf & G & HG & Hl). cbn [run_op]. rewrite Hk.
  destruct (jn_fits _ _ _ _ Hj) as [Hr Hmac Hport Hkind]. rewrite Hk in Hkind. destruct Hkind as [Hm Hlog].
  assert (Hfree : ∀ t, t ∈ "$pre.node" :: cleared_tables → count_entries t (job_table (w_job w0) ms ∪ V0) +
    load (w_job w0) t [m] ≤ bf_size t) by (intros t Ht; by apply joinable_room).
  setoid_rewrite (roce_load m _ _ _ _ _ Hk) in Hfree.
  destruct (mb_port m) as [p l] eqn:Hpl.
  eapply ends_mono.
  { eapply (ends_job_roce (mb_rank m) (mb_count m) (mb_mac m) (mb_ip m) rkey size message qps p l
      (mb_dev m) (on_record ms) (mb_rank <$> ms) (message_log size message) (recorded_world ms w0));
      [lia|done|done|done|done|done| | |exact Hl].
    - apply joinable_new; [done..|rewrite (roce_load m _ _ _ _ _ Hk)|done]. done.
    - split.
      + intros op. apply (joinable_fresh ms m); [done..|]. right; right. by eexists.
      + exact (Hfree RDMAReceiver.table ltac:(member_table)).
      + apply (joinable_fresh ms m); [done..|]. left. set_solver by done.
      + pose proof (Hfree RDMASender.create_roce_packet ltac:(member_table)) as H. simpl in H. lia.
      + intros i. apply (joinable_fresh ms m); [done..|]. right; left. by eexists _, _.
      + exact (Hfree RDMASender.fill_in_qpn_and_psn ltac:(member_table)). }
  intros w1 Hl1. split; [by apply well_formed_snoc|].
  eexists. split; [rewrite lookup_insert_eq; by rewrite fmap_app|].
  rewrite <- job_table_snoc by done. eapply looks_record; [apply recorded_joined|].
  rewrite roce_ranks_snoc, Hk.
  unfold member_rows. rewrite Hk, !list_to_map_app, <- !map_union_assoc.
  rewrite <- !add_entries_rows. cbn [list_to_map foldr]. simpl. rewrite <- !insert_union_l.
  rewrite map_empty_union. exact Hl1.
Qed.

(** Without its members the job is the background. *)
Lemma emptied_job ms :
  well_formed w0 ms → emptied (on_record ms) (job_table (w_job w0) ms ∪ V0) = V0.
Proof.
  intros []. apply map_eq. intros [t k]. rewrite lookup_emptied. case_bool_decide as Hc.
  - symmetry. destruct Hc as [Ht|[-> (r & -> & Hr)%list_elem_of_fmap]].
    + by apply (bg_tables _ Hbackground).
    + apply recorded_nodes in Hr; [|done]. apply list_elem_of_fmap in Hr as (m & -> & Hm).
      apply (bg_nodes _ Hbackground), (wf_fits0 m Hm).
  - apply lookup_union_r, lookup_job_table_none. intros m Hm [Ht|[= -> ->]]%owns_table.
    + apply Hc. left. by right.
    + apply Hc. right. split; [done|]. apply list_elem_of_fmap_2.
      apply recorded_nodes; [done|]. by apply list_elem_of_fmap_2.
Qed.

Hypothesis Hsizes : counter_sizes.
Hypothesis Hingress : DropSimulator.value_of (ingress_drop_probability (w_drop w0)) = Some 0.
Hypothesis Hegress : DropSimulator.value_of (egress_drop_probability (w_drop w0)) = Some 0.

Lemma clear_all ms w :
  implements w0 V0 ms w → ends (run_op Clear) w (Ok tt) (implements w0 V0 []).
Proof.
  intros (Hwf & G & HG & Hl). cbn [run_op].
  eapply ends_mono.
  { eapply (ends_worker_clear_all (on_record ms) (recorded_world ms w0)); try done.
    simpl. apply lookup_insert_eq. }
  intros w1 (G' & HG' & Hl1). split; [split; [set_solver|apply NoDup_nil_2|apply NoDup_nil_2]|].
  exists G'. split.
  - simpl in HG'. rewrite HG', HG. simpl. f_equal. apply elem_of_nil_inv.
    intros r [Hn Hr]%list_elem_of_filter. apply Hn. apply recorded_nodes; [apply Hwf|done].
  - fold (emptied (on_record ms) (job_table (w_job w0) ms ∪ V0)) in Hl1.
    rewrite emptied_job in Hl1 by done.
    unfold job_table. simpl. rewrite map_empty_union. eapply looks_record; [|exact Hl1].
    unfold attrs, recorded_world, workers_gone. simpl. by rewrite insert_insert_eq.
Qed.

(** One operation: it returns unless a UDP worker is to join. *)
Lemma step_outcome ms op ms' w :
  job_step w0 V0 ms op ms' → implements w0 V0 ms w →
  ∃ r, is_ok r = negb (refused op) ∧ ends (run_op op) w r (implements w0 V0 ms').
Proof.
  intros [ms1|ms1 m Hc Hj|ms1 m Hk|ms1 m Hc] Hi.
  - exists (Ok tt). split; [done|]. by eapply clear_all.
  - exists (Ok tt). pose proof (jn_kind _ _ _ _ Hj) as Hn.
    destruct (mb_kind m) as [|rkey size message qps] eqn:Hk; [done|]. cbn [refused]. rewrite Hk.
    split; [done|by eapply join_roce].
  - by apply join_udp.
  - destruct (mb_kind m) as [|rkey size message qps] eqn:Hk; [by apply join_udp|].
    exists (Ok tt). cbn [refused run_op]. rewrite Hk. split; [done|].
    destruct Hi as (Hwf & G & HG & Hl).
    eapply ends_mono; [apply ends_job_roce_too_many; [lia|exact Hl]|].
    intros w1 Hl1. split; [done|by exists G].
Qed.

Lemma step_simulates ms op ms' w :
  job_step w0 V0 ms op ms' → refused op = false → implements w0 V0 ms w →
  ends (run_op op) w (Ok tt) (implements w0 V0 ms').
Proof.
  intros Hs Hop Hi. destruct (step_outcome _ _ _ _ Hs Hi) as ([[]|e] & Hr & H); [done|].
  by rewrite Hop in Hr.
Qed.

Lemma step_attempt ms op ms' w :
  job_step w0 V0 ms op ms' → implements w0 V0 ms w →
  ∃ r, is_ok r = negb (refused op) ∧ ends (attempt op) w (Ok r) (implements w0 V0 ms').
Proof.
  intros Hs Hi. destruct (step_outcome _ _ _ _ Hs Hi) as (r & Hr & w1 & Hrun & Hi1).
  exists r. split; [done|]. unfold attempt, ends, try_except. destruct r as [[]|e].
  - rewrite (run_bind_ok _ _ _ _ _ Hrun). by exists w1.
  - rewrite (run_bind_raise _ _ _ _ _ Hrun). eexists. split; [reflexivity|].
    destruct Hi1 as (Hwf & G & HG & Hl). split; [done|]. exists G. split; [done|].
    eapply looks_trans; [exact Hl|]. etransitivity; apply quiet_line.
Qed.

(** C11. Every history of the job is simulated. From a world that implements a
    list of members, whatever operations are then tried one after the other
    (workers joining, jobs too large, everything cleared), the controller ends
    in a world that implements the list the abstract machine ends with: every
    table of the workers holds exactly the rows of the members, the multicast
    group is their ranks in order, and the controller's records are theirs. An
    operation ends with an exception exactly when it is to add a UDP worker to a
    job that is not too large; then it changes nothing. *)
Theorem job_refines ms ops ms' w :
  job_run w0 V0 ms ops ms' → implements w0 V0 ms w →
  ∃ rs, ends (map_each attempt ops) w (Ok rs) (implements w0 V0 ms') ∧
    is_ok <$> rs = negb ∘ refused <$> ops.
Proof.
  intros Hrun. revert w. induction Hrun as [ms|ms op ms1 ops ms2 Hstep _ IH]; intros w Hi.
  - exists []. split; [by apply ends_ret|done].
  - destruct (step_attempt _ _ _ _ Hstep Hi) as (r & Hr & w1 & Hw1 & Hi1).
    destruct (IH w1 Hi1) as (rs & Hrs & Hok). exists (r :: rs). split.
    + cbn [map_each]. eapply (ends_bind _ _ _ _ _ (eq w1)); [by exists w1|]. intros w2 <-.
      eapply ends_bind; [exact Hrs|]. intros w2 Hi2. by apply ends_ret.
    + rewrite !fmap_cons, Hok. by rewrite Hr.
Qed.
End simulation.
