(* ===== verification/GRPCServer.v ===== *)
(** * Connecting a RoCE worker over RPC (py/GRPCServer.py)

    The handler of [RDMAConnect]: a client announces its address and its queue
    pairs; the controller adds it to the job and answers with the switch's
    address and the queue pairs the client must send to. *)
From S2P Require Import Prelude PyText PyMonad PyNum Bfrt Live World Worker PRE NonSwitchMLForward.
From S2P Require Import GetWorkerBitmap Packets RDMAReceiver RDMASender DropSimulator Job.
From S2P Require Import JobWorkers.

(** What the generated message classes do with a repeated unsigned field of
    [bits] bits: values in range are kept; what happens to others is theirs. *)
Class Protobuf := {
  pb_uints : Z → list Z → outcome (list Z);
  pb_uints_ok bits l : Forall (λ z, 0 ≤ z < 2 ^ bits) l → pb_uints bits l = Ok l
}.

Module GRPCServer.
(** protos: the two messages. *)
Record RDMAConnectRequest := {
  job_id : Z;
  my_rank : Z;
  job_size : Z;
  mac : Z;
  ipv4 : Z;
  rkey : Z;
  packet_size : Z;
  message_size : Z;
  qpns : list Z;
  psns : list Z
}.
Record RDMAConnectResponse := {
  resp_job_id : Z;
  macs : list Z;
  ipv4s : list Z;
  rkeys : list Z;
  resp_qpns : list Z;
  resp_psns : list Z
}.

(** [self.job]: [serve] starts the server before it assigns the attribute, so a
    request can find it not assigned; then it is [None] when the server runs
    alone, or the controller's job. *)
Inductive job_ref := NotAssigned | NoJob | TheJob.

(** The queue pair numbers the switch answers with. *)
Definition switch_qpn (rank i : Z) : Z := 0x800000 .| (rank .<< 16) .| i.
Definition switch_qpns (rank : Z) (client_qpns : list Z) : list Z :=
  (λ '(i, _), switch_qpn rank i) <$> enumerate client_qpns.
Definition switch_psns (client_qpns : list Z) : list Z := (enumerate client_qpns).*1.

Section server.
Context `{BF : Bfrt} `{DO : DictOrder} `{ML : MathLog} `{IP : IpAddress} `{PB : Protobuf}.

(** A field of the response. *)
Definition uints (bits : Z) (l : list Z) : M world (list Z) := λ w, (pb_uints bits l, w).
Definition parsed (o : option Z) : M world Z :=
  match o with Some z => mret z | None => raise ValueError end.

Definition job_response (request : RDMAConnectRequest) : M world RDMAConnectResponse :=
  j ← gets w_job;
  switch_mac_int ← parsed (mac_int (switch_mac j));
  switch_ip_int ← parsed (ip_int (switch_ip j));
  macs ← uints 64 [switch_mac_int];
  ipv4s ← uints 32 [switch_ip_int];
  rkeys ← uints 32 [rkey request];
  qpns' ← uints 32 (switch_qpns (my_rank request) (qpns request));
  psns' ← uints 32 (switch_psns (qpns request));
  mret {| resp_job_id := 0; macs := macs; ipv4s := ipv4s; rkeys := rkeys;
          resp_qpns := qpns'; resp_psns := psns' |}.

Definition echo_response (request : RDMAConnectRequest) : RDMAConnectResponse :=
  {| resp_job_id := job_id request; macs := [mac request]; ipv4s := [ipv4 request];
     rkeys := [rkey request]; resp_qpns := []; resp_psns := [] |}.

Definition RDMAConnect (job : job_ref) (request : RDMAConnectRequest) : M world RDMAConnectResponse :=
  print "Got request: {} from rank {} mac {} with context: {}"
    [VInt (my_rank request); VInt (mac request)] ;;
  let worker_mac := mac_str (mac request) in
  let ipv4_str := ip_str (ipv4 request) in
  print "" [VStr ipv4_str] ;;
  match job with
  | NotAssigned => raise AttributeError
  | NoJob => mret (echo_response request)
  | TheJob =>
      (if bool_decide (my_rank request = 0) then Job.worker_clear_all else mret tt) ;;
      Job.worker_add_roce (my_rank request) (job_size request) worker_mac ipv4_str (rkey request)
        (packet_size request) (message_size request) (zip (qpns request) (psns request)) ;;
      job_response request
  end.
End server.

(** ** The queue pairs of the answer *)

Lemma switch_qpn_value rank i :
  0 ≤ rank < 128 → 0 ≤ i < 2 ^ 16 → switch_qpn rank i = (128 + rank) * 2 ^ 16 + i.
Proof.
  intros Hr Hi. unfold switch_qpn. change 0x800000 with (Z.shiftl 128 16).
  rewrite <- Z.shiftl_lor. change 128 with (Z.shiftl 1 7) at 1.
  rewrite lor_add_disjoint by lia. rewrite lor_add_disjoint by lia.
  lia.
Qed.

Lemma lookup_switch_qpns rank l (n : nat) :
  switch_qpns rank l !! n = (λ _, switch_qpn rank (Z.of_nat n)) <$> l !! n.
Proof.
  unfold switch_qpns. rewrite list_lookup_fmap, enumerate_lookup. by destruct (l !! n).
Qed.

(** C28. The queue pairs of the answer are as many as the client's, pairwise
    distinct, never the reserved numbers 0 and 0xffffff; number [i] carries the
    queue index [i] in its low 16 bits, and the receiver's entries match it for
    this worker and for no other. *)
Theorem switch_qpns_correct rank l :
  0 ≤ rank < 127 → Z.of_nat (length l) ≤ 2 ^ 16 →
  length (switch_qpns rank l) = length l ∧ NoDup (switch_qpns rank l) ∧
  ∀ (n : nat) q, switch_qpns rank l !! n = Some q →
    0 < q < 0xffffff ∧ q .& 0xffff = Z.of_nat n ∧
    ∀ rank', 0 ≤ rank' < 128 →
      ternary_match (RDMAReceiver.qpn_top_bits rank') RDMAReceiver.qpn_mask q = true ↔ rank' = rank.
Proof.
  intros Hr Hl.
  assert (Hq : ∀ (n : nat) q, switch_qpns rank l !! n = Some q →
    q = (128 + rank) * 2 ^ 16 + Z.of_nat n ∧ 0 ≤ Z.of_nat n < 2 ^ 16).
  { intros n q Hn. rewrite lookup_switch_qpns in Hn. destruct (l !! n) eqn:E; [|done].
    apply lookup_lt_Some in E. simpl in Hn. injection Hn as <-.
    rewrite switch_qpn_value by lia. lia. }
  split; [unfold switch_qpns; by rewrite length_fmap, length_enumerate|]. split.
  - apply NoDup_alt. intros i j q Hi%Hq Hj%Hq. lia.
  - intros n q [-> Hn]%Hq. split; [lia|]. split.
    + change 0xffff with (Z.ones 16). rewrite Z.land_ones by lia.
      rewrite Z.add_comm, Z.mod_add, Z.mod_small by lia. done.
    + intros r Hr'. rewrite RDMAReceiver.qpn_matches_top by lia.
      rewrite Z.shiftr_div_pow2 by lia. rewrite Z.add_comm, Z.div_add, Z.div_small by lia. lia.
Qed.

Lemma switch_qpns_correct_witness :
  NoDup (switch_qpns 3 [17; 18; 19; 20]) ∧ switch_qpns 3 [17; 18; 19; 20] !! 2%nat = Some 0x830002.
Proof.
  split; [|reflexivity].
  apply (switch_qpns_correct 3 [17; 18; 19; 20]); [lia|vm_compute; discriminate].
Defined.

(** The address text the handler derives from the numbers of a request
    stands for the same address: read back as the response reads the switch's
    own, the MAC text gives the number of the request and so does the IPv4
    text. A MAC address of 48 bits is six groups of two digits. *)
Theorem request_address_round_trip `{IP : IpAddress} request :
  0 ≤ mac request → 0 ≤ ipv4 request < 2 ^ 32 →
  mac_int (mac_str (mac request)) = Some (mac request) ∧
  ip_int (ip_str (ipv4 request)) = Some (ipv4 request) ∧
  (mac request < 2 ^ 48 →
   group_lengths (mac_chars (mac request)) = replicate 6 2%nat).
Proof.
  intros Hm Hi. split; [by apply mac_round_trip|]. split; [by apply ip_int_str|].
  intros Hw. by apply split_mac_chars.
Qed.

(** ** The handler *)

Section connect.
Context `{LF : BfrtLive} `{DO : DictOrder} `{ML : MathLog} `{IP : IpAddress} `{PB : Protobuf}.

(** The switch's address as the response carries it, and a request whose
    fields fit the response. *)
Record answerable (j : JobState) (request : RDMAConnectRequest) (a b : Z) : Prop := {
  an_mac : mac_int (switch_mac j) = Some a;
  an_mac_width : 0 ≤ a < 2 ^ 64;
  an_ip : ip_int (switch_ip j) = Some b;
  an_ip_width : 0 ≤ b < 2 ^ 32;
  an_rank : 0 ≤ my_rank request < 127;
  an_rkey : 0 ≤ rkey request < 2 ^ 32;
  an_qpns : Z.of_nat (length (qpns request)) ≤ 2 ^ 16
}.

Definition answer (request : RDMAConnectRequest) (a b : Z) : RDMAConnectResponse :=
  {| resp_job_id := 0; macs := [a]; ipv4s := [b]; rkeys := [rkey request];
     resp_qpns := switch_qpns (my_rank request) (qpns request);
     resp_psns := switch_psns (qpns request) |}.

Lemma ends_uints bits l w0 V G w :
  Forall (λ z, 0 ≤ z < 2 ^ bits) l → looks w0 V G w →
  ends (uints bits l) w (Ok l) (looks w0 V G).
Proof. intros Hl Hw. exists w. unfold uints. by rewrite pb_uints_ok. Qed.

Lemma switch_qpns_width rank l :
  0 ≤ rank < 127 → Z.of_nat (length l) ≤ 2 ^ 16 →
  Forall (λ z, 0 ≤ z < 2 ^ 32) (switch_qpns rank l).
Proof.
  intros Hr Hl. apply Forall_lookup. intros n q Hn. rewrite lookup_switch_qpns in Hn.
  destruct (l !! n) eqn:E; [|done]. apply lookup_lt_Some in E. simpl in Hn. injection Hn as <-.
  rewrite switch_qpn_value by lia. lia.
Qed.

Lemma switch_psns_width l :
  Z.of_nat (length l) ≤ 2 ^ 16 → Forall (λ z, 0 ≤ z < 2 ^ 32) (switch_psns l).
Proof.
  intros Hl. apply Forall_lookup. intros n q Hn. unfold switch_psns in Hn.
  rewrite list_lookup_fmap, enumerate_lookup in Hn.
  destruct (l !! n) eqn:E; [|done]. apply lookup_lt_Some in E. simpl in Hn. injection Hn as <-. lia.
Qed.

Lemma ends_job_response request a b w0 V G w :
  answerable (w_job w0) request a b → looks w0 V G w →
  ends (job_response request) w (Ok (answer request a b)) (looks w0 V G).
Proof.
  intros [] Hl. unfold job_response.
  eapply ends_bind; [apply ends_job, Hl|]. intros w1 Hl1. rewrite an_mac0, an_ip0.
  eapply ends_bind; [apply ends_ret, Hl1|]. intros w2 Hl2.
  eapply ends_bind; [apply ends_ret, Hl2|]. intros w3 Hl3.
  eapply ends_bind; [apply ends_uints; [by apply Forall_singleton|exact Hl3]|]. intros w4 Hl4.
  eapply ends_bind; [apply ends_uints; [by apply Forall_singleton|exact Hl4]|]. intros w5 Hl5.
  eapply ends_bind; [apply ends_uints; [by apply Forall_singleton|exact Hl5]|]. intros w6 Hl6.
  eapply ends_bind; [apply ends_uints; [by apply switch_qpns_width|exact Hl6]|]. intros w7 Hl7.
  eapply ends_bind; [apply ends_uints; [by apply switch_psns_width|exact Hl7]|]. intros w8 Hl8.
  by apply ends_ret.
Qed.

(** The handler up to the point where it looks at its job. *)
Lemma ends_connect_start job request r Q w0 V G w :
  looks w0 V G w →
  (∀ w1, looks w0 V G w1 → ends (match job with
     | NotAssigned => raise AttributeError
     | NoJob => mret (echo_response request)
     | TheJob =>
         (if bool_decide (my_rank request = 0) then Job.worker_clear_all else mret tt) ;;
         Job.worker_add_roce (my_rank request) (job_size request) (mac_str (mac request))
           (ip_str (ipv4 request)) (rkey request) (packet_size request) (message_size request)
           (zip (qpns request) (psns request)) ;;
         job_response request
     end) w1 r Q) →
  ends (RDMAConnect job request) w r Q.
Proof.
  intros Hl Hm. unfold RDMAConnect.
  eapply ends_bind; [apply ends_print, Hl|]. intros w1 Hl1.
  eapply ends_bind; [apply ends_print, Hl1|]. exact Hm.
Qed.

(** What the added worker leaves: the record, the entries and the group. *)
Definition connected (request : RDMAConnectRequest) (d : Z) (m : gmap Z Z) (w : world) : world :=
  worker_joined (my_rank request) d m (roce_known (my_rank request) w).
Definition connected_entries (request : RDMAConnectRequest) (d k : Z) (j : JobState) (V : entries) : entries :=
  RDMASender.sender_entries (my_rank request) k (mac_str (mac request)) (ip_str (ipv4 request))
    (rkey request) (zip (qpns request) (psns request))
    (<[("$pre.node", node_key (my_rank request)) := PRE.node_data (my_rank request) d]>
       (roce_ingress j (my_rank request) (job_size request) (ip_str (ipv4 request))
          (packet_size request) V)).

(** What a request needs of the controller, besides room in the tables. *)
Record connectable (request : RDMAConnectRequest) (p l d k : Z) (w : world) : Prop := {
  cn_count : job_size request ≤ 32;
  cn_message : message_size request / RDMASender.packet_bytes (packet_size request) = 2 ^ k;
  cn_pool : 0 ≤ k ≤ 28;
  cn_learnt : mac_addresses (w_fwd w) !! mac_str (mac request) = Some (p, l);
  cn_port : hdl !! (p, l) = Some d
}.

Lemma ends_connect_add request a b p l d m old k w0 V G w :
  answerable (w_job w0) request a b → connectable request p l d k w0 →
  worker_new (my_rank request) d m old w0 V G →
  roce_new (my_rank request) k (ip_str (ipv4 request)) (w_job w0) (zip (qpns request) (psns request)) V →
  looks w0 V G w →
  ends (Job.worker_add_roce (my_rank request) (job_size request) (mac_str (mac request))
          (ip_str (ipv4 request)) (rkey request) (packet_size request) (message_size request)
          (zip (qpns request) (psns request)) ;;
        job_response request) w (Ok (answer request a b))
    (looks (connected request d m w0) (connected_entries request d k (w_job w0) V)
       (<[switchml_workers_mgid (w_job w0) := old ++ [my_rank request]]> G)).
Proof.
  intros Ha [] Hn Hr Hl. pose proof (an_rank _ _ _ _ Ha).
  eapply ends_bind.
  { eapply (ends_job_roce _ _ _ _ _ _ _ _ p l d m old k w0 V G); try done; lia. }
  intros w1 Hl1. eapply ends_job_response; [|exact Hl1]. exact Ha.
Qed.

(** A request of a worker other than the first one of its job: the worker
    is added to the switch under its rank, with the MAC and IP address read
    back from the numbers of the request, and is answered with the address of
    the switch, its own memory key, and one queue pair per queue pair of its
    own. *)
Theorem rdma_connect_adds request a b p l d m old k w :
  answerable (w_job w) request a b → connectable request p l d k w → my_rank request ≠ 0 →
  worker_new (my_rank request) d m old w (wview w) (wgroups w) →
  roce_new (my_rank request) k (ip_str (ipv4 request)) (w_job w) (zip (qpns request) (psns request))
    (wview w) →
  ends (RDMAConnect TheJob request) w (Ok (answer request a b))
    (looks (connected request d m w) (connected_entries request d k (w_job w) (wview w))
       (<[switchml_workers_mgid (w_job w) := old ++ [my_rank request]]> (wgroups w))).
Proof.
  intros Ha Hc Hr Hn Hroom. eapply ends_connect_start; [apply looks_refl|]. intros w1 Hl1.
  rewrite bool_decide_eq_false_2 by done.
  eapply ends_bind; [apply ends_ret, Hl1|]. intros w2 Hl2. by eapply ends_connect_add.
Qed.

Lemma entries_gone_subseteq nodes V : entries_gone nodes V ⊆ V.
Proof.
  unfold entries_gone. repeat (etrans; [apply clear_entries_subseteq|]).
  etrans; [apply del_entries_subseteq|]. repeat (etrans; [apply clear_entries_subseteq|]). done.
Qed.

(** After the workers are gone there is room for the first one. *)
Lemma gone_worker_new m old w V (G G' : gmap Z (list Z)) :
  rids (w_pre w) !! switchml_workers_mgid (w_job w) = Some m →
  G !! switchml_workers_mgid (w_job w) = Some old →
  G' !! switchml_workers_mgid (w_job w) =
    filter (.∉ (dict_items m).*2) <$> G !! switchml_workers_mgid (w_job w) →
  0 ∈ (dict_items m).*2 ∨ 0 ∉ old ∧ V !! ("$pre.node", node_key 0) = None →
  count_entries "$pre.node" V < bf_size "$pre.node" →
  ∀ d, worker_new 0 d ∅ (filter (.∉ (dict_items m).*2) old) (workers_gone w)
    (clear_entries DropSimulator.table (entries_gone ((dict_items m).*2) V)) G'.
Proof.
  intros Hm HG HG' H0 Hroom d. split; simpl.
  - apply lookup_insert_eq.
  - apply lookup_empty.
  - by rewrite HG', HG.
  - rewrite list_elem_of_filter. naive_solver.
  - rewrite lookup_clear_entries, lookup_entries_gone. simpl.
    case_bool_decide as Hc; [done|]. destruct H0 as [H0|[_ H0]]; [|done].
    destruct Hc. right. split; [done|]. by apply list_elem_of_fmap_2.
  - eapply Z.le_lt_trans; [|exact Hroom]. apply count_entries_mono.
    etrans; [apply clear_entries_subseteq|apply entries_gone_subseteq].
Qed.

Lemma gone_table t nodes V : t ∈ cleared_tables →
  ∀ k, clear_entries DropSimulator.table (entries_gone nodes V) !! (t, k) = None.
Proof.
  intros Ht k. rewrite lookup_clear_entries, lookup_entries_gone, bool_decide_eq_true_2 by by left.
  by case_decide.
Qed.

(** The sizes of the tables a RoCE worker is entered in. *)
Record tables_fit (n : Z) : Prop := {
  fit_ingress : 6 ≤ bf_size RDMAReceiver.table;
  fit_create : 0 < bf_size RDMASender.create_roce_packet;
  fit_fill : n ≤ bf_size RDMASender.fill_in_qpn_and_psn
}.

Lemma gone_roce_new rank k ip j qps nodes V :
  tables_fit (Z.of_nat (length qps)) →
  roce_new rank k ip j qps (clear_entries DropSimulator.table (entries_gone nodes V)).
Proof.
  intros [].
  assert (H : ∀ t, t ∈ cleared_tables →
    count_entries t (clear_entries DropSimulator.table (entries_gone nodes V)) = 0).
  { intros t Ht. apply count_entries_none. by apply gone_table. }
  split; intros; rewrite ?H; try apply gone_table; try lia;
    apply (bool_decide_unpack _); vm_compute; exact I.
Qed.

(** C16. The request of the worker of rank 0 starts its job from what the
    controller can clear. With simulated loss off, the tables of the workers are
    emptied, the nodes on record are removed from the multicast group and from
    the switch, and this worker is then added as in an empty job. A node that is
    not on record (that of a rank whose device port a later rank was recorded
    at) stays in the group; it must not be a node of rank 0, which could not be
    added again. *)
Theorem rdma_connect_first request a b p l d m old k w :
  counter_sizes → tables_fit (Z.of_nat (length (zip (qpns request) (psns request)))) →
  answerable (w_job w) request a b → connectable request p l d k w → my_rank request = 0 →
  DropSimulator.value_of (ingress_drop_probability (w_drop w)) = Some 0 →
  DropSimulator.value_of (egress_drop_probability (w_drop w)) = Some 0 →
  rids (w_pre w) !! switchml_workers_mgid (w_job w) = Some m →
  wgroups w !! switchml_workers_mgid (w_job w) = Some old →
  0 ∈ (dict_items m).*2 ∨ 0 ∉ old ∧ wview w !! ("$pre.node", node_key 0) = None →
  count_entries "$pre.node" (wview w) < bf_size "$pre.node" →
  ends (RDMAConnect TheJob request) w (Ok (answer request a b)) (λ w', ∃ G',
    G' !! switchml_workers_mgid (w_job w) = Some (filter (.∉ (dict_items m).*2) old ++ [0]) ∧
    looks (connected request d ∅ (workers_gone w))
      (connected_entries request d k (w_job w)
         (clear_entries DropSimulator.table (entries_gone ((dict_items m).*2) (wview w)))) G' w').
Proof.
  intros Hsz Hfit Ha Hc Hr Hp Hq Hm HG H0 Hroom.
  eapply ends_connect_start; [apply looks_refl|]. intros w1 Hl1.
  rewrite bool_decide_eq_true_2 by done.
  eapply ends_bind; [eapply ends_worker_clear_all; [done|exact Hm|done|done|exact Hl1]|].
  intros w2 (G' & HG' & Hl2).
  eapply ends_mono.
  { eapply (ends_connect_add request a b p l d ∅ _ k (workers_gone w)); [exact Ha| | |by apply gone_roce_new|exact Hl2].
    - destruct Hc. by split.
    - rewrite Hr. by eapply gone_worker_new. }
  intros w3 Hl3. eexists. split; [|exact Hl3].
  change (w_job (workers_gone w)) with (w_job w). by rewrite lookup_insert_eq, Hr.
Qed.

(** C39. What the handler does with requests it cannot serve. Before [serve]
    has assigned the job it raises; without a job it echoes the worker's own
    address; a job of more than 32 workers is answered like any other, with
    queue pairs no entry of the switch will match, although nothing has been
    added; and a worker whose MAC address, in the lower-case form the handler
    prints it, is not forwarded gets no answer, but its ingress entries stay. *)
Theorem rdma_connect_refusals request a b w :
  ends (RDMAConnect NotAssigned request) w (Raise AttributeError) (quiet w) ∧
  ends (RDMAConnect NoJob request) w (Ok (echo_response request)) (quiet w) ∧
  (answerable (w_job w) request a b → my_rank request ≠ 0 → 32 < job_size request →
   ends (RDMAConnect TheJob request) w (Ok (answer request a b)) (quiet w)) ∧
  (0 < my_rank request → job_size request ≤ 32 →
   mac_addresses (w_fwd w) !! mac_str (mac request) = None →
   (∀ op, wview w !! (RDMAReceiver.table, RDMAReceiver.entry_key (ip_str (ipv4 request))
      (switch_ip (w_job w)) (switch_partition_key (w_job w)) op (my_rank request)) = None) →
   count_entries RDMAReceiver.table (wview w) + 6 ≤ bf_size RDMAReceiver.table →
   ends (RDMAConnect TheJob request) w (Raise Forward.not_configured)
     (looks (roce_known (my_rank request) w)
        (roce_ingress (w_job w) (my_rank request) (job_size request) (ip_str (ipv4 request))
           (packet_size request) (wview w)) (wgroups w))).
Proof.
  split; [|split; [|split]].
  - eapply ends_connect_start; [apply looks_refl|]. intros w1 Hl1. by apply ends_raise.
  - eapply ends_connect_start; [apply looks_refl|]. intros w1 Hl1. by apply ends_ret.
  - intros Ha Hr Hc. eapply ends_connect_start; [apply looks_refl|]. intros w1 Hl1.
    rewrite bool_decide_eq_false_2 by done.
    eapply ends_bind; [apply ends_ret, Hl1|]. intros w2 Hl2.
    eapply ends_bind; [apply ends_job_roce_too_many; [lia|exact Hl2]|]. intros w3 Hl3.
    by eapply ends_job_response.
  - intros Hr Hc Hmac Hn Hroom. eapply ends_connect_start; [apply looks_refl|]. intros w1 Hl1.
    rewrite bool_decide_eq_false_2 by lia.
    eapply ends_bind; [apply ends_ret, Hl1|]. intros w2 Hl2.
    eapply ends_bind_raise; [|intros w3 H; exact H].
    by apply ends_job_roce_unknown; [lia|..].
Qed.
End connect.
End GRPCServer.
