(* ===== verification/Lookup.v ===== *)
(** * What the switch looks up

    The match tables of the switch program that the workers' entries are for:
    which entry a packet hits, as the table's keys and match kinds say. Against
    the abstract job of [JobSpec]: a RoCE packet is taken for a member's exactly
    when it is one, and an answer leaves on the member's own queue pair. *)
From S2P Require Import Prelude PyText PyMonad PyNum Bfrt Live World Ports Counters Worker PRE.
From S2P Require Import NonSwitchMLForward GetWorkerBitmap SetDstAddr Packets RDMAReceiver.
From S2P Require Import RDMASender DropSimulator Job JobWorkers JobLoad JobSpec GRPCServer.
Import GRPCServer.

(** ** Matching *)

(** The value a packet has for a field of a table's key, by the field's name;
    addresses as the texts the control plane writes them with. *)
Abbreviation packet_fields := (list (string * pyval)).

Fixpoint field_value (n : string) (fs : packet_fields) : option pyval :=
  match fs with
  | [] => None
  | (n', v) :: fs' => if decide (n = n') then Some v else field_value n fs'
  end.

(** One field of an entry's key: exact, or ternary when the entry has a mask;
    IPv4 addresses, which are texts, with the masks of all bits and of none.
    The priority of an entry is no field of the packet. *)
Definition tuple_matches (fs : packet_fields) (kt : keytuple) : bool :=
  if decide (kt_name kt = "$MATCH_PRIORITY") then true else
  match kt_mask kt, kt_value kt, field_value (kt_name kt) fs with
  | None, v, Some v' => bool_decide (v = v')
  | Some (VInt m), VInt v, Some (VInt v') => ternary_match v m v'
  | Some (VInt m), VStr v, Some (VStr v') =>
      bool_decide (m = 0) || (bool_decide (m = 0xffffffff) && bool_decide (v = v'))
  | _, _, _ => false
  end.
Definition key_matches (fs : packet_fields) (k : key) : bool := forallb (tuple_matches fs) k.

(** Entry [k] of table [t], with data [d], matches the packet. *)
Definition hits (V : entries) (t : string) (fs : packet_fields) (k : key) (d : datum) : Prop :=
  V !! (t, k) = Some d ∧ key_matches fs k = true.

(** The headers [receive_roce] looks at. *)
Record roce_header := {
  ipv4_src_addr : string;
  ipv4_dst_addr : string;
  bth_partition_key : Z;
  bth_opcode : Z;
  bth_dst_qp : Z
}.
Definition receive_roce_fields (h : roce_header) : packet_fields :=
  [("hdr.ipv4.src_addr", VStr (ipv4_src_addr h)); ("hdr.ipv4.dst_addr", VStr (ipv4_dst_addr h));
   ("hdr.ib_bth.partition_key", VInt (bth_partition_key h));
   ("hdr.ib_bth.opcode", VInt (bth_opcode h)); ("hdr.ib_bth.dst_qp", VInt (bth_dst_qp h))].

(** The metadata the egress tables look at. *)
Definition create_roce_fields (worker_id : Z) : packet_fields :=
  [("eg_md.switchml_md.worker_id", VInt worker_id)].
Definition fill_in_qpn_fields (worker_id pool_index : Z) : packet_fields :=
  [("eg_md.switchml_md.worker_id", VInt worker_id);
   ("eg_md.switchml_md.pool_index", VInt pool_index)].

(** The register index of a queue pair: five bits of worker, nine of queue. *)
Definition QP_INDEX (dst_qp : Z) : Z := (((dst_qp .>> 16) .& 0x1f) .<< 9) .| (dst_qp .& 0x1ff).

(** ** The members' rows, by table *)

Lemma lookup_implemented `{SF : BfrtSafe} w0 V0 ms t k d :
  background V0 → well_formed w0 ms → t ∈ cleared_tables →
  (job_table (w_job w0) ms ∪ V0) !! (t, k) = Some d →
  ∃ m, m ∈ ms ∧ ((t, k), d) ∈ member_rows (w_job w0) m.
Proof.
  intros Hb Hwf Ht H. rewrite lookup_union_l in H.
  - apply elem_of_list_to_map_2, list_elem_of_bind in H as (m & Hr & Hm). by exists m.
  - apply (bg_tables _ Hb). by right.
Qed.

(** Rows have different keys, so that each is found under its own. *)
Lemma member_rows_NoDup j m :
  match mb_kind m with UdpMember => True | RoceMember _ s g _ => 0 ≤ message_log s g end →
  NoDup (member_rows j m).*1.
Proof.
  intros Hk. unfold member_rows. destruct (mb_kind m) as [|rkey size message qps].
  { repeat (apply NoDup_cons; split; [by (rewrite ?not_elem_of_cons; repeat split; try done; apply not_elem_of_nil)|]).
    apply NoDup_nil_2. }
  assert (Hfst : ∀ t kds, (in_table t kds).*1 = (λ k, (t, k)) <$> kds.*1).
  { intros t kds. unfold in_table. by rewrite <- !list_fmap_compose. }
  rewrite !fmap_app, !Hfst. apply NoDup_app. split; [|split].
  - apply NoDup_fmap_2; [by intros ? ? [= ->]|]. by apply RDMASender.qp_entries_NoDup.
  - intros tk (k & -> & _)%list_elem_of_fmap. rewrite elem_of_app. cbn [fmap list_fmap].
    rewrite !elem_of_cons, elem_of_nil. intros [[|[|[]]]|(k' & Hk' & _)%list_elem_of_fmap]; done.
  - cbn [fmap list_fmap app]. apply NoDup_cons. split; [|apply NoDup_cons; split].
    + rewrite elem_of_cons. intros [?|(k' & Hk' & _)%list_elem_of_fmap]; done.
    + intros (k' & Hk' & _)%list_elem_of_fmap; done.
    + apply NoDup_fmap_2; [by intros ? ? [= ->]|].
      apply (NoDup_fmap_1 (λ k : key, match k !! 4%nat with
        | Some (KeyTupleM _ (VInt op) _) => op | _ => 0 end)).
      unfold RDMAReceiver.worker_entries. rewrite <- !list_fmap_compose.
      apply (bool_decide_unpack _). vm_compute. exact I.
Qed.

Lemma fits_rows_NoDup `{SF : BfrtSafe} w0 m : fits w0 m → NoDup (member_rows (w_job w0) m).*1.
Proof.
  intros [_ _ _ Hk]. apply member_rows_NoDup. destruct (mb_kind m); [done|]. apply Hk.
Qed.

Lemma job_rows_NoDup `{SF : BfrtSafe} w0 ms :
  well_formed w0 ms → NoDup (ms ≫= member_rows (w_job w0)).*1.
Proof.
  induction ms as [|m ms IH]; intros [Hf Hr Hp]; [apply NoDup_nil_2|].
  rewrite fmap_cons in Hr, Hp. apply NoDup_cons in Hr as [Hr Hrs]. apply NoDup_cons in Hp as [Hp Hps].
  cbn [mbind list_bind]. rewrite fmap_app. apply NoDup_app. split; [|split].
  - apply fits_rows_NoDup, Hf. by left.
  - intros tk (r & -> & Hin)%list_elem_of_fmap (r' & He & Hin')%list_elem_of_fmap.
    apply list_elem_of_bind in Hin' as (m' & Hin' & Hm'). apply rows_owned in Hin, Hin'.
    rewrite He in Hin.
    pose proof (Hf m ltac:(by left)) as Hm. pose proof (Hf m' ltac:(by right)) as Hfm'.
    eapply (owns_apart (w_job w0) m m'); [apply Hm|apply Hfm'| | |exact Hin|exact Hin'].
    + intros Heq. apply Hr. rewrite Heq. by apply list_elem_of_fmap_2.
    + intros Heq. apply Hp. rewrite (fits_same_mac w0 m m' Hm Hfm' Heq). by apply list_elem_of_fmap_2.
  - apply IH. split; [|done|done]. intros m' Hm'. apply Hf. by right.
Qed.

(** A member's row is what its table has under its key. *)
Lemma lookup_member_row `{SF : BfrtSafe} w0 V0 ms m tk d :
  well_formed w0 ms → m ∈ ms → (tk, d) ∈ member_rows (w_job w0) m →
  (job_table (w_job w0) ms ∪ V0) !! tk = Some d.
Proof.
  intros Hwf Hm Hr. apply lookup_union_Some_l, elem_of_list_to_map; [by apply job_rows_NoDup|].
  apply list_elem_of_bind. by exists m.
Qed.

(** The rows of one table. *)
Lemma elem_of_in_table t t' kds (k : key) (d : datum) :
  ((t, k), d) ∈ in_table t' kds ↔ t = t' ∧ (k, d) ∈ kds.
Proof.
  unfold in_table. rewrite list_elem_of_fmap. split.
  - by intros ([k' d'] & [= -> -> ->] & Hin).
  - intros [-> Hin]. by exists (k, d).
Qed.

Lemma receive_row j m k d :
  ((RDMAReceiver.table, k), d) ∈ member_rows j m ↔
    ∃ rkey size message qps op action, mb_kind m = RoceMember rkey size message qps ∧
      (op, action) ∈ RDMAReceiver.write_opcodes ∧
      k = RDMAReceiver.entry_key (mb_ip m) (switch_ip j) (switch_partition_key j) op (mb_rank m) ∧
      d = RDMAReceiver.entry_data (switchml_workers_mgid j) (mb_rank m) (mb_count m) size
            (GetWorkerBitmap.worker_bit (mb_rank m)) action.
Proof.
  unfold member_rows. destruct (mb_kind m) as [|rkey size message qps].
  { rewrite !elem_of_cons, elem_of_nil. split; [naive_solver|]. by intros (? & ? & ? & ? & ? & ? & ? & _). }
  rewrite !elem_of_app, !elem_of_cons, !elem_of_in_table, elem_of_nil. split.
  - intros [[? _]|[[?|[?|[]]]|[_ Hin]]]; [done..|].
    apply list_elem_of_fmap in Hin as ([op action] & [= -> ->] & Hin).
    exists rkey, size, message, qps, op, action. done.
  - intros (? & ? & ? & ? & op & action & [= <- <- <- <-] & Hin & -> & ->). right; right. split; [done|].
    apply list_elem_of_fmap. by exists (op, action).
Qed.

Lemma fill_in_row j m k d :
  ((RDMASender.fill_in_qpn_and_psn, k), d) ∈ member_rows j m ↔
    ∃ rkey size message qps (i : nat) qpn psn, mb_kind m = RoceMember rkey size message qps ∧
      qps !! i = Some (qpn, psn) ∧
      k = RDMASender.qp_key (mb_rank m) (Z.of_nat i .<< (message_log size message + 1))
            (RDMASender.qp_mask (2 ^ message_log size message)) ∧
      d = RDMASender.qp_data qpn.
Proof.
  unfold member_rows. destruct (mb_kind m) as [|rkey size message qps].
  { rewrite !elem_of_cons, elem_of_nil. split; [naive_solver|].
    by intros (? & ? & ? & ? & ? & ? & ? & ? & _). }
  rewrite !elem_of_app, !elem_of_cons, !elem_of_in_table, elem_of_nil. split.
  - intros [[_ Hin]|[[?|[?|[]]]|[? _]]]; [|done..].
    apply list_elem_of_fmap in Hin as ([i [qpn psn]] & [= -> ->] & (n & Hn)%list_elem_of_lookup).
    rewrite enumerate_lookup in Hn. destruct (qps !! n) as [x|] eqn:Hx; simplify_eq/=.
    exists rkey, size, message, qps, n, qpn, psn. done.
  - intros (? & ? & ? & ? & n & qpn & psn & [= <- <- <- <-] & Hn & -> & ->). left. split; [done|].
    apply list_elem_of_fmap. exists (Z.of_nat n, (qpn, psn)). split; [done|].
    apply list_elem_of_lookup. exists n. by rewrite enumerate_lookup, Hn.
Qed.

Lemma member_by_rank `{SF : BfrtSafe} w0 ms m m' :
  well_formed w0 ms → m ∈ ms → m' ∈ ms → mb_rank m = mb_rank m' → m = m'.
Proof.
  intros Hwf (i & Hi)%list_elem_of_lookup (i' & Hi')%list_elem_of_lookup He.
  pose proof (proj1 (NoDup_alt _) (wf_ranks _ _ Hwf) i i' (mb_rank m)) as Hii.
  rewrite !list_lookup_fmap, Hi, Hi' in Hii. simpl in Hii. rewrite He in Hii.
  specialize (Hii eq_refl eq_refl). subst. congruence.
Qed.

(** ** What hits *)

Section hits.
Context `{LF : BfrtLive}.
Context (w0 : world) (V0 : entries) (ms : list member) (w : world).
Hypothesis Hbackground : background V0.
Hypothesis Himplements : implements w0 V0 ms w.

Lemma hits_row t fs k d :
  t ∈ cleared_tables →
  hits (wview w) t fs k d ↔
    ∃ m, m ∈ ms ∧ ((t, k), d) ∈ member_rows (w_job w0) m ∧ key_matches fs k = true.
Proof.
  intros Ht. destruct Himplements as (Hwf & G & _ & (_ & HV & _)). unfold hits. rewrite HV. split.
  - intros [Hl Hk]. destruct (lookup_implemented w0 V0 ms t k d) as (m & Hm & Hr); [done..|]. by exists m.
  - intros (m & Hm & Hr & Hk). split; [by eapply lookup_member_row|done].
Qed.

(** Which RoCE packets are aggregated, and as whose. *)
Definition from_member (h : roce_header) (m : member) : Prop :=
  ipv4_src_addr h = mb_ip m ∧ ipv4_dst_addr h = switch_ip (w_job w0) ∧
  bth_partition_key h = switch_partition_key (w_job w0) ∧ bth_dst_qp h .>> 16 = 0x80 + mb_rank m.

Lemma receive_roce_matches h m op :
  fits w0 m → 0 ≤ bth_dst_qp h < 2 ^ 24 →
  key_matches (receive_roce_fields h)
    (RDMAReceiver.entry_key (mb_ip m) (switch_ip (w_job w0)) (switch_partition_key (w_job w0)) op (mb_rank m))
    = true ↔ from_member h m ∧ bth_opcode h = op.
Proof.
  intros [Hr _ _ _] Hq.
  pose proof (RDMAReceiver.qpn_matches_top (mb_rank m) (bth_dst_qp h) ltac:(lia) Hq) as Htop.
  unfold from_member. rewrite <- Htop. unfold key_matches, RDMAReceiver.entry_key, receive_roce_fields.
  cbn [forallb]. unfold tuple_matches. simpl. rewrite !andb_true_iff, !bool_decide_eq_true. split.
  - intros ([= ->] & [= ->] & [= ->] & [= ->] & Hm & _). done.
  - intros ((-> & -> & -> & Hm) & ->). done.
Qed.

Lemma roce_hits h k d :
  0 ≤ bth_dst_qp h < 2 ^ 24 →
  hits (wview w) RDMAReceiver.table (receive_roce_fields h) k d ↔
    ∃ m rkey size message qps action, m ∈ ms ∧ mb_kind m = RoceMember rkey size message qps ∧
      from_member h m ∧ (bth_opcode h, action) ∈ RDMAReceiver.write_opcodes ∧
      k = RDMAReceiver.entry_key (mb_ip m) (switch_ip (w_job w0)) (switch_partition_key (w_job w0))
            (bth_opcode h) (mb_rank m) ∧
      d = RDMAReceiver.entry_data (switchml_workers_mgid (w_job w0)) (mb_rank m) (mb_count m) size
            (GetWorkerBitmap.worker_bit (mb_rank m)) action.
Proof.
  intros Hq. destruct Himplements as (Hwf & _).
  rewrite hits_row by in_tables. setoid_rewrite receive_row. split.
  - intros (m & Hm & (rkey & size & message & qps & op & action & Hk & Hop & -> & ->) & Hmatch).
    apply receive_roce_matches in Hmatch as [Hfrom <-]; [|by apply (wf_fits _ _ Hwf)|done].
    by exists m, rkey, size, message, qps, action.
  - intros (m & rkey & size & message & qps & action & Hm & Hk & Hfrom & Hop & -> & ->).
    exists m. split; [done|]. split; [by exists rkey, size, message, qps, (bth_opcode h), action|].
    apply receive_roce_matches; [by apply (wf_fits _ _ Hwf)|done|done].
Qed.

(** C12. A RoCE packet hits an entry of the running job exactly when it is a
    write packet of a member: it comes from the member's address to the
    switch's, in the switch's partition, with one of the six write opcodes, on
    a queue pair of the member's rank; and then the entry carries the member's
    rank and bit, the size of its job and the action of the opcode. *)
Theorem receive_roce_exact h k d :
  0 ≤ bth_dst_qp h < 2 ^ 24 →
  hits (wview w) RDMAReceiver.table (receive_roce_fields h) k d ↔
    ∃ m rkey size message qps action, m ∈ ms ∧ mb_kind m = RoceMember rkey size message qps ∧
      from_member h m ∧ (bth_opcode h, action) ∈ RDMAReceiver.write_opcodes ∧
      k = RDMAReceiver.entry_key (mb_ip m) (switch_ip (w_job w0)) (switch_partition_key (w_job w0))
            (bth_opcode h) (mb_rank m) ∧
      d = RDMAReceiver.entry_data (switchml_workers_mgid (w_job w0)) (mb_rank m) (mb_count m) size
            (GetWorkerBitmap.worker_bit (mb_rank m)) action.
Proof. apply roce_hits. Qed.

(** At most one entry is hit, so the priorities do not matter. *)
Theorem receive_roce_unique h k d k' d' :
  0 ≤ bth_dst_qp h < 2 ^ 24 →
  hits (wview w) RDMAReceiver.table (receive_roce_fields h) k d →
  hits (wview w) RDMAReceiver.table (receive_roce_fields h) k' d' → k = k' ∧ d = d'.
Proof.
  intros Hq H H'. destruct Himplements as (Hwf & _).
  assert (Hk : k = k').
  { rewrite hits_row in H, H' by in_tables. setoid_rewrite receive_row in H.
    setoid_rewrite receive_row in H'.
    destruct H as (m & Hm & (? & ? & ? & ? & op & action & _ & _ & -> & ->) & Hmatch).
    destruct H' as (m' & Hm' & (? & ? & ? & ? & op' & action' & _ & _ & -> & ->) & Hmatch').
    apply receive_roce_matches in Hmatch as [(Hs & Hd & Hp & Hr) <-]; [|by apply (wf_fits _ _ Hwf)|done].
    apply receive_roce_matches in Hmatch' as [(Hs' & _ & _ & Hr') <-]; [|by apply (wf_fits _ _ Hwf)|done].
    assert (mb_rank m = mb_rank m') by lia. congruence. }
  split; [done|]. subst k'. destruct H as [H _], H' as [H' _]. congruence.
Qed.

Lemma qpn_hits m rkey size message qps p k d :
  m ∈ ms → mb_kind m = RoceMember rkey size message qps →
  message_log size message ≤ 14 →
  Z.of_nat (length qps) ≤ 2 ^ (14 - message_log size message) → 0 ≤ p < 2 ^ 15 →
  hits (wview w) RDMASender.fill_in_qpn_and_psn (fill_in_qpn_fields (mb_rank m) p) k d ↔
    ∃ (i : nat) qpn psn, qps !! i = Some (qpn, psn) ∧ p .>> (message_log size message + 1) = Z.of_nat i ∧
      k = RDMASender.qp_key (mb_rank m) (Z.of_nat i .<< (message_log size message + 1))
            (RDMASender.qp_mask (2 ^ message_log size message)) ∧
      d = RDMASender.qp_data qpn.
Proof.
  intros Hm Hk Hlog Hlen Hp. destruct Himplements as (Hwf & _).
  pose proof (ft_kind _ _ (wf_fits _ _ Hwf m Hm)) as Hkind. rewrite Hk in Hkind.
  assert (Hmatch : ∀ rank (i : nat) x, qps !! i = Some x →
    key_matches (fill_in_qpn_fields (mb_rank m) p)
      (RDMASender.qp_key rank (Z.of_nat i .<< (message_log size message + 1))
         (RDMASender.qp_mask (2 ^ message_log size message))) = true ↔
    rank = mb_rank m ∧ p .>> (message_log size message + 1) = Z.of_nat i).
  { intros rank i x Hi. apply lookup_lt_Some in Hi.
    unfold key_matches, RDMASender.qp_key, fill_in_qpn_fields. cbn [forallb]. unfold tuple_matches. simpl.
    rewrite RDMASender.pool_index_match by lia.
    rewrite !andb_true_iff, !bool_decide_eq_true. split.
    - intros ([= ->] & Hpi & _). done.
    - intros [-> Hpi]. done. }
  rewrite hits_row by in_tables. setoid_rewrite fill_in_row. split.
  - intros (m' & Hm' & (? & ? & ? & ? & i & qpn & psn & Hk' & Hi & -> & ->) & Hmt).
    assert (Hrank : mb_rank m' = mb_rank m).
    { unfold key_matches, RDMASender.qp_key, fill_in_qpn_fields in Hmt. cbn [forallb] in Hmt.
      unfold tuple_matches in Hmt. simpl in Hmt.
      apply andb_true_iff in Hmt as [Hmt _]. apply bool_decide_eq_true in Hmt. by injection Hmt. }
    assert (m' = m) as -> by (eapply member_by_rank; eauto).
    rewrite Hk in Hk'. injection Hk' as <- <- <- <-.
    apply (Hmatch _ i _ Hi) in Hmt as [_ Hmt]. by exists i, qpn, psn.
  - intros (i & qpn & psn & Hi & Hpi & -> & ->). exists m. split; [done|].
    split; [by exists rkey, size, message, qps, i, qpn, psn|]. by apply (Hmatch _ i _ Hi).
Qed.

(** C17. An answer leaves on the right queue pair. For a member whose messages
    have [2^k] packets and whose queue pairs fit the 15-bit pool index, the
    copy of an answer made for the member, with pool index [p], hits exactly
    one entry, the one of the member's queue pair number [p / 2^(k+1)]; it
    hits none when the member has no such queue pair. *)
Theorem fill_in_qpn_exact m rkey size message qps p k d :
  m ∈ ms → mb_kind m = RoceMember rkey size message qps →
  message_log size message ≤ 14 →
  Z.of_nat (length qps) ≤ 2 ^ (14 - message_log size message) → 0 ≤ p < 2 ^ 15 →
  hits (wview w) RDMASender.fill_in_qpn_and_psn (fill_in_qpn_fields (mb_rank m) p) k d ↔
    ∃ (i : nat) qpn psn, qps !! i = Some (qpn, psn) ∧ p .>> (message_log size message + 1) = Z.of_nat i ∧
      k = RDMASender.qp_key (mb_rank m) (Z.of_nat i .<< (message_log size message + 1))
            (RDMASender.qp_mask (2 ^ message_log size message)) ∧
      d = RDMASender.qp_data qpn.
Proof. apply qpn_hits. Qed.

(** The entry of a RoCE member for its addresses and its memory key. *)
Lemma create_roce_hits m rkey size message qps k d :
  m ∈ ms → mb_kind m = RoceMember rkey size message qps →
  hits (wview w) RDMASender.create_roce_packet (create_roce_fields (mb_rank m)) k d ↔
    k = RDMASender.rid_key (mb_rank m) ∧ d = RDMASender.write_data (mb_mac m) (mb_ip m) rkey.
Proof.
  intros Hm Hk. destruct Himplements as (Hwf & _). rewrite hits_row by in_tables. split.
  - intros (m' & Hm' & Hr & Hmatch). unfold member_rows in Hr.
    assert (Hrow : ∀ rkey' size' message' qps', mb_kind m' = RoceMember rkey' size' message' qps' →
      k = RDMASender.rid_key (mb_rank m') → d = RDMASender.write_data (mb_mac m') (mb_ip m') rkey' →
      k = RDMASender.rid_key (mb_rank m) ∧ d = RDMASender.write_data (mb_mac m) (mb_ip m) rkey).
    { intros ? ? ? ? Hk' -> ->. unfold key_matches in Hmatch. simpl in Hmatch.
      unfold tuple_matches in Hmatch. simpl in Hmatch.
      apply andb_true_iff in Hmatch as [[= Hrank]%bool_decide_eq_true _].
      assert (m' = m) as -> by (eapply member_by_rank; eauto). rewrite Hk in Hk'. by simplify_eq. }
    destruct (mb_kind m') as [|rkey' size' message' qps'] eqn:Hk'.
    { rewrite !elem_of_cons, elem_of_nil in Hr. naive_solver. }
    rewrite !elem_of_app, !elem_of_cons, !elem_of_in_table, elem_of_nil in Hr.
    destruct Hr as [[? _]|[[[= -> ->]|[?|[]]]|[? _]]]; [done| |done..]. by eapply Hrow.
  - intros [-> ->]. exists m. split; [done|]. split.
    + unfold member_rows. rewrite Hk, !elem_of_app. right; left. left.
    + unfold key_matches. simpl. unfold tuple_matches. simpl. by rewrite bool_decide_eq_true_2.
Qed.

(** The entry of a UDP member for its addresses. *)
Lemma set_dst_hits m k d :
  m ∈ ms → mb_kind m = UdpMember →
  hits (wview w) SetDstAddr.table (create_roce_fields (mb_rank m)) k d ↔
    k = SetDstAddr.worker_key (mb_rank m) ∧ d = SetDstAddr.worker_data (mb_mac m) (mb_ip m).
Proof.
  intros Hm Hk. destruct Himplements as (Hwf & _). rewrite hits_row by in_tables. split.
  - intros (m' & Hm' & Hr & Hmatch). unfold member_rows in Hr.
    destruct (mb_kind m') as [|rkey' size' message' qps'] eqn:Hk'.
    + rewrite !elem_of_cons, elem_of_nil in Hr. destruct Hr as [[= -> ->]|[?|[?|[]]]]; [|done..].
      unfold key_matches in Hmatch. simpl in Hmatch. unfold tuple_matches in Hmatch. simpl in Hmatch.
      apply andb_true_iff in Hmatch as [[= Hrank]%bool_decide_eq_true _].
      by assert (m' = m) as -> by (eapply member_by_rank; eauto).
    + rewrite !elem_of_app, !elem_of_cons, !elem_of_in_table, elem_of_nil in Hr. naive_solver.
  - intros [-> ->]. exists m. split; [done|]. split.
    + unfold member_rows. rewrite Hk. left.
    + unfold key_matches. simpl. unfold tuple_matches. simpl. by rewrite bool_decide_eq_true_2.
Qed.

(** The nodes of the members, in the order of the group. *)
Lemma member_nodes :
  wgroups w !! switchml_workers_mgid (w_job w0) = Some (mb_rank <$> ms) ∧
  Forall2 (λ n rp, wview w !! ("$pre.node", node_key n) = Some (PRE.node_data rp.1 rp.2))
    (mb_rank <$> ms) ((λ m, (mb_rank m, mb_dev m)) <$> ms).
Proof.
  destruct Himplements as (Hwf & G & HG & (_ & HV & HG')). split; [by rewrite HG'|].
  rewrite Forall2_fmap. apply Forall_Forall2_diag, Forall_forall. intros m Hm. rewrite HV. simpl.
  eapply lookup_member_row; [done|exact Hm|]. unfold member_rows.
  destruct (mb_kind m); [right; left|].
  rewrite !elem_of_app. right; left. right; left.
Qed.
End hits.

(** ** Registers and counters of a queue pair *)

Lemma qp_index_of_answer rank i :
  0 ≤ rank < 32 → 0 ≤ i < 512 → QP_INDEX (switch_qpn rank i) = rank * 512 + i.
Proof.
  intros Hr Hi. unfold QP_INDEX. rewrite switch_qpn_value by lia.
  change 0x1f with (Z.ones 5). change 0x1ff with (Z.ones 9). rewrite !Z.land_ones by lia.
  rewrite Z.shiftr_div_pow2 by lia.
  rewrite Z.div_add_l, Z.div_small, Z.add_0_r by lia.
  replace (128 + rank) with (rank + 4 * 2 ^ 5) at 1 by lia. rewrite Z.mod_add, Z.mod_small by lia.
  replace ((128 + rank) * 2 ^ 16 + i) with (i + ((128 + rank) * 2 ^ 7) * 2 ^ 9) by lia.
  rewrite Z.mod_add, Z.mod_small by lia. rewrite lor_add_disjoint by lia. lia.
Qed.

(** The queue pairs the controller answers with, the registers and counters
    of the switch and the counters the controller prints agree. For a worker
    of rank below 32 with up to 512 queue pairs, the queue pair answered for
    its [n]-th one is counted in cell [512 * rank + n], no other worker's queue
    pair is, and once the receiver knows the worker that cell is among those
    its counters are printed from. *)
Theorem queue_pair_cells `{BF : Bfrt} rank l (n : nat) q w :
  0 ≤ rank < 32 → (length l ≤ 512)%nat → switch_qpns rank l !! n = Some q →
  QP_INDEX q = rank * 512 + Z.of_nat n ∧
  (∀ rank' l' (n' : nat) q', 0 ≤ rank' < 32 → (length l' ≤ 512)%nat →
     switch_qpns rank' l' !! n' = Some q' → QP_INDEX q' = QP_INDEX q → rank' = rank ∧ n' = n) ∧
  (worker_counter_offset (w_rx w) = RDMAReceiver.max_num_queue_pairs_per_worker →
   rank ∈ worker_ids (w_rx w) → QP_INDEX q ∈ RDMAReceiver.queue_pair_ids 0 512 w).
Proof.
  intros Hr Hl Hq.
  assert (Hcell : ∀ rank l (n : nat) q, 0 ≤ rank < 32 → (length l ≤ 512)%nat →
    switch_qpns rank l !! n = Some q → Z.of_nat n < 512 ∧ QP_INDEX q = rank * 512 + Z.of_nat n).
  { clear. intros rank l n q Hr Hl Hq. rewrite lookup_switch_qpns in Hq.
    destruct (l !! n) eqn:E; [|done]. apply lookup_lt_Some in E. simpl in Hq. injection Hq as <-.
    split; [lia|]. apply qp_index_of_answer; lia. }
  destruct (Hcell rank l n q) as [Hn Hi]; [done..|]. split; [done|]. split.
  - intros rank' l' n' q' Hr' Hl' Hq' He. destruct (Hcell rank' l' n' q') as [Hn' Hi']; [done..|]. lia.
  - intros Ho Hw. apply RDMAReceiver.elem_of_queue_pair_ids; [done|lia..|].
    rewrite Hi, Z.div_add_l, Z.div_small, Z.add_0_r by lia.
    rewrite Z.add_comm, Z.mod_add, Z.mod_small by lia. split; [done|lia].
Qed.
