(* ===== verification/Assembly.v ===== *)
(** * Assembling a job over RPC

    The requests of a job's workers, one after the other, against the abstract
    job of [JobSpec]: the first rank clears and joins, the others join. From the
    construction of the controller, through the learning of the workers' MAC
    addresses, to the last answer. *)
From S2P Require Import Prelude PyText PyMonad PyNum Bfrt Live World Ports Counters Worker PRE.
From S2P Require Import NonSwitchMLForward GetWorkerBitmap SetDstAddr Packets RDMAReceiver.
From S2P Require Import RDMASender Mirror ARPandICMP DropSimulator Job JobWorkers JobInit.
From S2P Require Import JobLoad JobSpec GRPCServer.
Import GRPCServer.

(** The member a request announces, once the port of its MAC address is known. *)
Definition request_member (request : RDMAConnectRequest) (port : Z * Z) (dev : Z) : member :=
  Member (my_rank request) (job_size request) (mac_str (mac request)) (ip_str (ipv4 request)) port dev
    (RoceMember (rkey request) (packet_size request) (message_size request)
       (zip (qpns request) (psns request))).

(** A connection: a request, and where its worker is. *)
Record connection := Connection {
  cx_request : RDMAConnectRequest;
  cx_port : Z * Z;
  cx_dev : Z
}.
Definition cx_member (c : connection) : member := request_member (cx_request c) (cx_port c) (cx_dev c).
Definition connect_ops (c : connection) : list job_op :=
  (if bool_decide (my_rank (cx_request c) = 0) then [Clear] else []) ++ [Join (cx_member c)].

Lemma job_run_app `{SF : BfrtSafe} w0 V0 ms ops ops' ms'' :
  job_run w0 V0 ms (ops ++ ops') ms'' →
  ∃ ms', job_run w0 V0 ms ops ms' ∧ job_run w0 V0 ms' ops' ms''.
Proof.
  revert ms. induction ops as [|op ops IH]; intros ms; simpl; [exists ms; by split; [constructor|]|].
  inversion 1 as [|? ? ms1 ? ? Hstep Hrun]; subst.
  destruct (IH ms1 Hrun) as (ms' & H1 & H2). exists ms'. split; [by econstructor|done].
Qed.

Lemma job_run_trans `{SF : BfrtSafe} w0 V0 ms ops ms' ops' ms'' :
  job_run w0 V0 ms ops ms' → job_run w0 V0 ms' ops' ms'' → job_run w0 V0 ms (ops ++ ops') ms''.
Proof. induction 1; simpl; [done|]. intros H'. econstructor; eauto. Qed.

Lemma job_run_joins `{SF : BfrtSafe} w0 V0 ms ms' :
  (∀ k m, ms' !! k = Some m → mb_count m ≤ 32 ∧ joinable w0 V0 (ms ++ take k ms') m) →
  job_run w0 V0 ms (Join <$> ms') (ms ++ ms').
Proof.
  revert ms. induction ms' as [|m ms' IH]; intros ms Hj; simpl; [rewrite app_nil_r; constructor|].
  destruct (Hj 0%nat m eq_refl) as [Hc Hj0]. simpl in Hj0. rewrite app_nil_r in Hj0.
  econstructor; [by apply step_join|].
  replace (ms ++ m :: ms') with ((ms ++ [m]) ++ ms') by by rewrite <- app_assoc. apply IH.
  intros k m' Hk. rewrite <- app_assoc. apply (Hj (S k) m' Hk).
Qed.

Section assembly.
Context `{LF : BfrtLive} `{DO : DictOrder} `{ML : MathLog} `{IP : IpAddress} `{PB : Protobuf}.

(** ** Requests against the abstract job *)

Section requests.
Context (w0 : world) (V0 : entries) (a b : Z).
Hypothesis Hbackground : background V0.
Hypothesis Hsizes : counter_sizes.
Hypothesis Hingress : DropSimulator.value_of (ingress_drop_probability (w_drop w0)) = Some 0.
Hypothesis Hegress : DropSimulator.value_of (egress_drop_probability (w_drop w0)) = Some 0.

Lemma ends_connect ms ms' c w :
  answerable (w_job w0) (cx_request c) a b → job_run w0 V0 ms (connect_ops c) ms' →
  implements w0 V0 ms w →
  ends (RDMAConnect TheJob (cx_request c)) w (Ok (answer (cx_request c) a b)) (implements w0 V0 ms').
Proof.
  intros Ha Hrun Hi. unfold connect_ops in Hrun.
  assert (Hquiet : ∀ ms1 V G w1, looks w V G w1 → V = wview w → G = wgroups w →
    implements w0 V0 ms1 w → implements w0 V0 ms1 w1).
  { intros ms1 V G w1 Hl -> -> (Hwf & G1 & HG1 & Hl1). split; [done|]. exists G1. split; [done|].
    by eapply looks_trans. }
  eapply ends_connect_start; [apply looks_refl|]. intros w1 Hl1.
  assert (Hi1 : implements w0 V0 ms w1) by by eapply Hquiet.
  apply job_run_app in Hrun as (ms1 & Hclear & Hjoin).
  inversion Hjoin as [|? ? ms2 ? ? Hstep Hnil]; subst. inversion Hnil; subst.
  eapply ends_bind with (a := tt) (Q := implements w0 V0 ms1).
  { case_bool_decide.
    - inversion Hclear as [|? ? ms3 ? ? Hs Hn]; subst. inversion Hn; subst.
      by eapply (step_simulates w0 V0 Hbackground Hsizes Hingress Hegress ms Clear).
    - inversion Hclear; subst. by apply ends_ret. }
  intros w2 Hi2. eapply ends_bind.
  { by apply (step_simulates w0 V0 Hbackground Hsizes Hingress Hegress ms1 (Join (cx_member c)) ms'). }
  intros w3 (Hwf & G & HG & Hl3).
  eapply ends_mono; [eapply (ends_job_response _ a b (recorded_world ms' w0)); [exact Ha|exact Hl3]|].
  intros w4 Hl4. split; [done|]. by exists G.
Qed.

Lemma ends_connects cs ms ms' w :
  (∀ c, c ∈ cs → answerable (w_job w0) (cx_request c) a b) →
  job_run w0 V0 ms (cs ≫= connect_ops) ms' → implements w0 V0 ms w →
  ends (map_each (RDMAConnect TheJob) (cx_request <$> cs)) w
    (Ok ((λ c, answer (cx_request c) a b) <$> cs)) (implements w0 V0 ms').
Proof.
  revert ms w. induction cs as [|c cs IH]; intros ms w Ha Hrun Hi.
  - inversion Hrun; subst. by apply ends_ret.
  - cbn [mbind list_bind fmap list_fmap map_each] in *.
    apply job_run_app in Hrun as (ms1 & H1 & H2).
    eapply ends_bind; [eapply ends_connect; [apply Ha; by left|exact H1|exact Hi]|]. intros w1 Hi1.
    eapply ends_bind; [eapply IH; [|exact H2|exact Hi1]|].
    + intros c' Hc'. apply Ha. by right.
    + intros w2 Hi2. by apply ends_ret.
Qed.

(** ** A whole job *)

(** The workers of a job, with what each needs by itself and of the others. *)
Record assembly (cs : list connection) : Prop := {
  as_fits : ∀ c, c ∈ cs → fits w0 (cx_member c);
  as_counts : ∀ c, c ∈ cs → job_size (cx_request c) ≤ 32;
  as_answers : ∀ c, c ∈ cs → answerable (w_job w0) (cx_request c) a b;
  as_ranks : NoDup ((λ c, my_rank (cx_request c)) <$> cs);
  as_ports : NoDup (cx_dev <$> cs);
  as_devices : ∀ c c', c ∈ cs → c' ∈ cs → my_rank (cx_request c) ≠ cx_dev c';
  as_room : ∀ t, t ∈ "$pre.node" :: cleared_tables →
    count_entries t V0 + load (w_job w0) t (cx_member <$> cs) ≤ bf_size t
}.

Lemma load_app j t ms ms' : load j t (ms ++ ms') = load j t ms + load j t ms'.
Proof. unfold load. rewrite bind_app, filter_app, length_app. lia. Qed.

Lemma assembly_joinable cs k c :
  assembly cs → cs !! k = Some c → joinable w0 V0 (take k (cx_member <$> cs)) (cx_member c).
Proof.
  intros [] Hk. pose proof (list_elem_of_lookup_2 _ _ _ Hk) as Hc.
  assert (Hbefore : ∀ m, m ∈ take k (cx_member <$> cs) →
    ∃ (k' : nat) c', (k' < k)%nat ∧ cs !! k' = Some c' ∧ m = cx_member c').
  { intros m (k' & Hm)%list_elem_of_lookup.
    destruct (decide (k' < k)%nat); [|by rewrite lookup_take_ge in Hm by lia].
    rewrite lookup_take_lt, list_lookup_fmap in Hm by done.
    destruct (cs !! k') as [c'|] eqn:Hc'; simplify_eq/=. by exists k', c'. }
  split.
  - by apply as_fits0.
  - done.
  - intros (m & Hr & (k' & c' & Hlt & Hc' & ->)%Hbefore)%list_elem_of_fmap.
    pose proof (proj1 (NoDup_alt _) as_ranks0 k k' (my_rank (cx_request c))) as He.
    rewrite !list_lookup_fmap, Hk, Hc' in He. cbn in Hr, He. specialize (He eq_refl). rewrite Hr in He.
    specialize (He eq_refl). lia.
  - intros (m & Hr & (k' & c' & Hlt & Hc' & ->)%Hbefore)%list_elem_of_fmap.
    by apply (as_devices0 c c'); [|eapply list_elem_of_lookup_2|].
  - intros (m & Hr & (k' & c' & Hlt & Hc' & ->)%Hbefore)%list_elem_of_fmap.
    pose proof (proj1 (NoDup_alt _) as_ports0 k k' (cx_dev c)) as He.
    rewrite !list_lookup_fmap, Hk, Hc' in He. cbn in Hr, He. specialize (He eq_refl). rewrite Hr in He.
    specialize (He eq_refl). lia.
  - intros t Ht. specialize (as_room0 t Ht).
    rewrite <- (take_drop_middle cs k c Hk), fmap_app, fmap_cons, cons_middle, app_assoc in as_room0.
    rewrite load_app in as_room0. rewrite <- fmap_take.
    assert (0 ≤ load (w_job w0) t (cx_member <$> drop (S k) cs)) by (unfold load; lia). lia.
Qed.

Lemma assembly_joins cs k ms :
  assembly cs → cx_member <$> take k cs = ms →
  job_run w0 V0 ms (Join <$> (cx_member <$> drop k cs)) (cx_member <$> cs).
Proof.
  intros Has <-. rewrite <- (take_drop k cs) at 3. rewrite fmap_app. apply job_run_joins.
  intros i m Hi. rewrite list_lookup_fmap in Hi.
  destruct (drop k cs !! i) as [c|] eqn:Hc; [|done]. injection Hi as <-.
  rewrite lookup_drop in Hc. split; [apply (as_counts _ Has); by eapply list_elem_of_lookup_2|].
  pose proof (assembly_joinable cs (k + i) c Has Hc) as Hj.
  rewrite fmap_take, fmap_drop, take_take_drop. done.
Qed.

(** Workers other than the first one only join. *)
Lemma ops_of_others cs :
  0 ∉ (λ c, my_rank (cx_request c)) <$> cs → cs ≫= connect_ops = Join <$> (cx_member <$> cs).
Proof.
  induction cs as [|c cs IH]; [done|].
  cbn [mbind list_bind fmap list_fmap]. rewrite not_elem_of_cons. intros [Hc H0].
  unfold connect_ops at 1. rewrite bool_decide_eq_false_2 by done. simpl. f_equal. by apply IH.
Qed.

Lemma joinable_empty ms m : joinable w0 V0 ms m → joinable w0 V0 [] m.
Proof.
  intros [Hf Hk _ _ _ Hroom]. split; try apply not_elem_of_nil; [done..|].
  intros t Ht. specialize (Hroom t Ht). rewrite load_app in Hroom. simpl.
  assert (0 ≤ load (w_job w0) t ms) by (unfold load; lia). lia.
Qed.

(** C24. A job assembles. Whatever members the running job has, with simulated
    loss off: when the worker of rank 0 connects first and the others follow in
    any order, every request is answered, with queue pairs of the worker's own,
    and afterwards the job's members are exactly these workers. What [assembly]
    asks of them: distinct ranks below 127 on distinct device ports, no rank
    equal to a device port of the job (the controller would leave that worker
    out of the multicast group), at most 32 workers announced, messages of a power of
    two of packets, MAC addresses learnt, and room in the tables. *)
Theorem job_assembles c cs ms w :
  assembly (c :: cs) → my_rank (cx_request c) = 0 → implements w0 V0 ms w →
  ends (map_each (RDMAConnect TheJob) (cx_request <$> c :: cs)) w
    (Ok ((λ c, answer (cx_request c) a b) <$> c :: cs)) (implements w0 V0 (cx_member <$> c :: cs)).
Proof.
  intros Has Hc Hi. apply (ends_connects (c :: cs) ms); [by apply as_answers| |done].
  pose proof (as_ranks _ Has) as Hnd. rewrite fmap_cons in Hnd. apply NoDup_cons in Hnd as [H0 _].
  rewrite Hc in H0. apply ops_of_others in H0 as Hrest. cbn [mbind list_bind]. unfold connect_ops at 1. rewrite bool_decide_eq_true_2 by done. simpl.
  change (list_bind _ _ connect_ops cs) with (cs ≫= connect_ops). rewrite Hrest.
  econstructor; [apply step_clear|].
  apply (assembly_joins (c :: cs) 0 []); [done|done].
Qed.

(** The order matters, as the handler's comment demands of the workers: when
    the worker of rank 0 connects last, every request is still answered, but
    the workers that connected before it are members no more. *)
Theorem late_first_worker c cs w :
  assembly (cs ++ [c]) → my_rank (cx_request c) = 0 → implements w0 V0 [] w →
  ends (map_each (RDMAConnect TheJob) (cx_request <$> cs ++ [c])) w
    (Ok ((λ c, answer (cx_request c) a b) <$> cs ++ [c])) (implements w0 V0 [cx_member c]).
Proof.
  intros Has Hc Hi. apply (ends_connects (cs ++ [c]) []); [by apply as_answers| |done].
  pose proof (as_ranks _ Has) as Hnd. rewrite fmap_app in Hnd. apply NoDup_app in Hnd as (_ & H0 & _).
  assert (Hothers : 0 ∉ (λ c, my_rank (cx_request c)) <$> cs).
  { intros Hin. apply (H0 0 Hin). simpl. rewrite Hc. by left. }
  rewrite bind_app, ops_of_others by done. cbn [mbind list_bind]. unfold connect_ops.
  rewrite bool_decide_eq_true_2 by done. simpl.
  eapply job_run_trans; [apply job_run_joins|].
  - intros k m Hk. rewrite list_lookup_fmap in Hk. destruct (cs !! k) as [c'|] eqn:Hc'; [|done].
    injection Hk as <-. assert (Hk' : (cs ++ [c]) !! k = Some c') by by apply lookup_app_l_Some.
    split; [apply (as_counts _ Has); by eapply list_elem_of_lookup_2|].
    pose proof (assembly_joinable _ k c' Has Hk') as Hj. apply lookup_lt_Some in Hc'.
    rewrite fmap_app, take_app_le in Hj by (rewrite length_fmap; lia). done.
  - econstructor; [apply step_clear|]. econstructor; [|constructor].
    apply (step_join _ _ [] (cx_member c)).
    + apply (as_counts _ Has). set_solver.
    + eapply joinable_empty, (assembly_joinable _ (length cs) c Has). by apply list_lookup_middle.
Qed.
End requests.

(** ** From the construction *)

(** The addresses of the workers are learnt before they connect. *)
Definition learn (c : connection) : M world unit :=
  Job.mac_address_add (mb_mac (cx_member c)) (cx_port c).1 (cx_port c).2.
Definition learnt (cs : list connection) (w : world) : world :=
  foldl (λ w c, Forward.set_mac_addresses
    (<[mb_mac (cx_member c) := cx_port c]> (mac_addresses (w_fwd w))) w) w cs.
Definition learnt_entries (cs : list connection) (V : entries) : entries :=
  foldl (λ V c, <[(Forward.table, Forward.mac_key (mb_mac (cx_member c))) :=
    Forward.port_data (cx_dev c)]> V) V cs.

Lemma ends_learn cs w0 V G w :
  NoDup ((λ c, mb_mac (cx_member c)) <$> cs) →
  (∀ c, c ∈ cs → hdl !! cx_port c = Some (cx_dev c) ∧
    V !! (Forward.table, Forward.mac_key (mb_mac (cx_member c))) = None) →
  count_entries Forward.table V + Z.of_nat (length cs) ≤ bf_size Forward.table →
  looks w0 V G w →
  ends (for_each cs learn) w (Ok tt) (looks (learnt cs w0) (learnt_entries cs V) G).
Proof.
  revert w0 V w. induction cs as [|c cs IH]; intros w0 V w Hnd Hcs Hroom Hl; [by apply ends_ret|].
  rewrite fmap_cons in Hnd. apply NoDup_cons in Hnd as [Hc Hnd]. cbn [for_each length] in *.
  destruct (Hcs c) as [Hd Hn]; [by left|].
  change (learn c) with (Forward.worker_add (mb_mac (cx_member c)) (cx_port c).1 (cx_port c).2).
  unfold learnt, learnt_entries. cbn [foldl].
  destruct (cx_port c) as [p l] eqn:Hp. cbn [fst snd]. eapply ends_bind.
  { eapply (Forward.ends_worker_add _ p l); [exact Hd|exact Hn|lia|exact Hl]. }
  intros w1 Hl1.
  apply IH; [done| | |].
  - intros c' Hc'. destruct (Hcs c') as [Hd' Hn']; [by right|]. split; [done|].
    rewrite lookup_insert_ne; [done|]. intros [= He]. apply Hc.
    apply list_elem_of_fmap. by exists c'.
  - rewrite count_entries_insert by done. lia.
  - exact Hl1.
Qed.

Lemma learnt_job cs w : w_job (learnt cs w) = w_job w ∧ w_drop (learnt cs w) = w_drop w ∧
  w_pre (learnt cs w) = w_pre w ∧ w_rx (learnt cs w) = w_rx w.
Proof.
  revert w. induction cs as [|c cs IH]; intros w; [done|]. unfold learnt. cbn [foldl].
  destruct (IH (Forward.set_mac_addresses
    (<[mb_mac (cx_member c) := cx_port c]> (mac_addresses (w_fwd w))) w)) as (H1 & H2 & H3 & H4).
  by unfold learnt in *.
Qed.

Lemma learnt_mac cs w c :
  NoDup ((λ c, mb_mac (cx_member c)) <$> cs) → c ∈ cs →
  mac_addresses (w_fwd (learnt cs w)) !! mb_mac (cx_member c) = Some (cx_port c).
Proof.
  induction cs as [|c' cs IH] using rev_ind; [set_solver|]. intros Hnd Hc.
  rewrite fmap_app in Hnd. apply NoDup_app in Hnd as (Hnd & Hx & _).
  unfold learnt. rewrite foldl_app. simpl.
  apply elem_of_app in Hc as [Hc|Hc%list_elem_of_singleton].
  - rewrite lookup_insert_ne; [by apply IH|]. intros He.
    apply (Hx (mb_mac (cx_member c))); [apply list_elem_of_fmap; by exists c|].
    apply list_elem_of_singleton. exact (eq_sym He).
  - subst. apply lookup_insert_eq.
Qed.

Lemma learnt_entries_ne cs V t k : t ≠ Forward.table → learnt_entries cs V !! (t, k) = V !! (t, k).
Proof.
  intros Ht. revert V. induction cs as [|c cs IH]; intros V; [done|].
  unfold learnt_entries. cbn [foldl]. unfold learnt_entries in IH. rewrite IH.
  by rewrite lookup_insert_ne by congruence.
Qed.

(** What the workers of a job need, when the controller has just been built. *)
Record deployment (j : JobState) (a b : Z) (cs : list connection) (V : entries) : Prop := {
  dp_switch_mac : mac_int (switch_mac j) = Some a;
  dp_switch_mac_width : 0 ≤ a < 2 ^ 64;
  dp_switch_ip : ip_int (switch_ip j) = Some b;
  dp_switch_ip_width : 0 ≤ b < 2 ^ 32;
  dp_rank : ∀ c, c ∈ cs → 0 ≤ my_rank (cx_request c) < 127;
  dp_count : ∀ c, c ∈ cs → job_size (cx_request c) ≤ 32;
  dp_rkey : ∀ c, c ∈ cs → 0 ≤ rkey (cx_request c) < 2 ^ 32;
  dp_qpns : ∀ c, c ∈ cs → Z.of_nat (length (qpns (cx_request c))) ≤ 2 ^ 16;
  dp_message : ∀ c, c ∈ cs → ∃ k, 0 ≤ k ≤ 28 ∧
    message_size (cx_request c) / RDMASender.packet_bytes (packet_size (cx_request c)) = 2 ^ k;
  dp_port : ∀ c, c ∈ cs → hdl !! cx_port c = Some (cx_dev c);
  dp_not_broadcast : ∀ c, c ∈ cs → mb_mac (cx_member c) ≠ "ff:ff:ff:ff:ff:ff";
  dp_macs : NoDup ((λ c, mb_mac (cx_member c)) <$> cs);
  dp_ranks : NoDup ((λ c, my_rank (cx_request c)) <$> cs);
  dp_ports : NoDup (cx_dev <$> cs);
  dp_devices : ∀ c c', c ∈ cs → c' ∈ cs → my_rank (cx_request c) ≠ cx_dev c';
  dp_nodes : ∀ r, 0 ≤ r < 127 → V !! ("$pre.node", node_key r) = None;
  dp_room_forward : 1 + Z.of_nat (length cs) ≤ bf_size Forward.table;
  dp_room_nodes : count_entries "$pre.node" V + load j "$pre.node" (cx_member <$> cs)
    ≤ bf_size "$pre.node";
  dp_room : ∀ t, t ∈ cleared_tables → load j t (cx_member <$> cs) ≤ bf_size t
}.

Lemma learnt_background ip mac cs V :
  (∀ r, 0 ≤ r < 127 → V !! ("$pre.node", node_key r) = None) →
  background (learnt_entries cs (built_entries mac ip V)).
Proof.
  intros Hn. split.
  - intros t k Ht. rewrite learnt_entries_ne; [by apply built_job_tables|].
    intros ->. unfold cleared_tables in Ht.
    repeat (apply elem_of_cons in Ht as [Ht|Ht]; [done|]). by apply not_elem_of_nil in Ht.
  - intros r Hr. rewrite learnt_entries_ne by done. rewrite built_rest by set_solver.
    rewrite lookup_loopback_ne by done. by apply Hn.
Qed.

Lemma learnt_count ip mac cs V t :
  t ∈ "$pre.node" :: cleared_tables →
  count_entries t (learnt_entries cs (built_entries mac ip V)) =
    if decide (t = "$pre.node") then count_entries t V else 0.
Proof.
  intros [->|Ht]%elem_of_cons.
  - rewrite decide_True by done. apply count_entries_sub. intros k.
    rewrite learnt_entries_ne by done. rewrite built_rest by set_solver. by apply lookup_loopback_ne.
  - assert (Hne : t ≠ "$pre.node" ∧ t ≠ Forward.table).
    { unfold cleared_tables in Ht. repeat (apply elem_of_cons in Ht as [->|Ht]; [done|]).
      by apply not_elem_of_nil in Ht. }
    rewrite decide_False by apply Hne. apply count_entries_none. intros k.
    rewrite learnt_entries_ne by apply Hne. apply built_job_tables. by right.
Qed.

Lemma count_built_forward mac ip V : count_entries Forward.table (built_entries mac ip V) = 1.
Proof.
  erewrite (count_entries_sub _ _
    (<[(Forward.table, Forward.mac_key "ff:ff:ff:ff:ff:ff") := Forward.flood_data 0x1235]> ∅)).
  - rewrite count_entries_insert by apply lookup_empty.
    rewrite count_entries_none; [done|]. intros k. apply lookup_empty.
  - intros k. rewrite built_forward. case_decide as Hk.
    + subst. by rewrite lookup_insert_eq.
    + rewrite lookup_insert_ne by congruence. by rewrite lookup_empty.
Qed.

(** A job without members keeps the records empty. *)
Lemma recorded_empty w0 :
  rids (w_pre w0) !! switchml_workers_mgid (w_job w0) = Some ∅ → worker_ids (w_rx w0) = [] →
  attrs (recorded_world [] w0) = attrs w0.
Proof.
  intros Hr Hw. unfold attrs, recorded_world, PRE.put_rids. simpl. unfold on_record. simpl.
  rewrite insert_id by done. destruct w0 as [? ? ? ? [] ? []]. simpl in *. by subst.
Qed.

Lemma implements_empty w0 V0 G w :
  rids (w_pre w0) !! switchml_workers_mgid (w_job w0) = Some ∅ → worker_ids (w_rx w0) = [] →
  G !! switchml_workers_mgid (w_job w0) = Some [] → looks w0 V0 G w → implements w0 V0 [] w.
Proof.
  intros Hr Hw HG Hl. split.
  - split; [by intros m ?%not_elem_of_nil|apply NoDup_nil_2|apply NoDup_nil_2].
  - exists G. split; [done|]. unfold job_table. simpl. rewrite map_empty_union.
    eapply looks_record; [|exact Hl]. symmetry. by apply recorded_empty.
Qed.

Lemma deployed_assembly ip mac udp_port udp_mask a b cs w :
  let w0 := learnt cs (built ip mac udp_port udp_mask w) in
  deployment (w_job w0) a b cs (wview w) →
  assembly w0 (learnt_entries cs (built_entries mac ip (wview w))) a b cs.
Proof.
  intros w0 []. split; try done.
  - intros c Hc. split; simpl.
    + by apply dp_rank0.
    + by apply (learnt_mac cs _ c).
    + by apply dp_port0.
    + destruct (dp_message0 c Hc) as (k & Hk & He). unfold message_log. rewrite He.
      rewrite Z.log2_pow2 by lia. done.
  - intros c Hc. split; auto.
  - intros t Ht. rewrite learnt_count by done. case_decide as Hn; [by subst|].
    apply dp_room0. by apply elem_of_cons in Ht as [?|?].
Qed.

(** C8. From construction to the whole job. A controller is built on a switch
    that no controller has set up, learns the MAC addresses of the workers,
    and then gets their requests, that of rank 0 first: every call returns,
    every request is answered with queue pairs of the worker's own, and at the
    end the job's members are exactly these workers. What [deployment] asks of
    the workers: distinct ranks below 127, MAC addresses and device ports, no
    rank equal to a device port of the job, at most 32 workers announced, memory keys of
    32 bits, at most 2^16 queue pairs each, messages of a power of two of
    packets (at most 2^28), and room in the tables. *)
Theorem job_lifetime ip mac udp_port udp_mask a b c cs w :
  let w0 := learnt (c :: cs) (built ip mac udp_port udp_mask w) in
  constructible (wview w) → mac ≠ "" → ip ≠ "" →
  deployment (w_job w0) a b (c :: cs) (wview w) → my_rank (cx_request c) = 0 →
  ends (Job.init ip mac udp_port udp_mask [] None ;;
        for_each (c :: cs) learn ;;
        map_each (RDMAConnect TheJob) (cx_request <$> c :: cs)) w
    (Ok ((λ c, answer (cx_request c) a b) <$> c :: cs))
    (implements w0 (learnt_entries (c :: cs) (built_entries mac ip (wview w)))
       (cx_member <$> c :: cs)).
Proof.
  intros w0 Hc Hmac Hip Hd H0. destruct (learnt_job (c :: cs) (built ip mac udp_port udp_mask w))
    as (Hj & Hdr & Hp & Hrx). eapply ends_bind; [by apply ends_job_init; [..|apply looks_refl]|].
  intros w1 Hl1. eapply ends_bind.
  { apply ends_learn; [apply (dp_macs _ _ _ _ _ Hd)| | |exact Hl1].
    - intros c' Hc'. split; [by apply (dp_port _ _ _ _ _ Hd)|]. rewrite built_forward.
      rewrite decide_False; [done|]. intros [= He]. by apply (dp_not_broadcast _ _ _ _ _ Hd c').
    - pose proof (dp_room_forward _ _ _ _ _ Hd). rewrite count_built_forward. lia. }
  intros w2 Hl2.
  apply (job_assembles w0 _ a b) with (ms := []); [|apply Hc|by unfold w0; rewrite Hdr..| |done|].
  - apply learnt_background, (dp_nodes _ _ _ _ _ Hd).
  - by apply deployed_assembly.
  - eapply implements_empty; [| | |exact Hl2]; unfold w0; rewrite ?Hj, ?Hp, ?Hrx; [|done|];
      change (switchml_workers_mgid _) with 0x1234.
    + change (rids _) with (<[0x1235 := ∅]> (<[0x1234 := ∅]> (∅ : gmap Z (gmap Z Z)))).
      rewrite lookup_insert_ne by done. apply lookup_insert_eq.
    + rewrite lookup_insert_ne by done. apply lookup_insert_eq.
Qed.
End assembly.
