(* ===== verification/Receive.v ===== *)
(** * From RoCE packets to contributions (p4/RDMAReceiver.p4)

    A write packet that hits an entry of a worker gets the worker's bit and the
    size of its job from the entry, and its pool index from a register of its
    queue pair, which follows the sequence numbers of a message. The file
    models the register and the actions, and joins the two halves of the
    system: the packets of a job that the controller has assembled enter the
    aggregator as the contributions of that job. *)
From S2P Require Import Prelude PyText PyMonad PyNum Bfrt Live World Ports Counters Worker PRE.
From S2P Require Import NonSwitchMLForward GetWorkerBitmap SetDstAddr Packets RDMAReceiver.
From S2P Require Import RDMASender DropSimulator DebugLog Pipeline Aggregation.
From S2P Require Import Job JobWorkers JobLoad JobSpec GRPCServer Lookup Assembly.

Module Receive.

(** ** The sequence register *)

Record receiver_data := ReceiverData { next_sequence_number : Z; rx_pool_index : Z }.

(** First and only packets: the register after, and what is returned. *)
Definition receiver_reset_action (psn r_key : Z) : receiver_data * Z :=
  (ReceiverData (if bool_decide (psn = 0x00ffffff) then 0 else psn + 1) r_key, r_key).

Definition saturating_add32 (a b : Z) : Z := (a + b) `min` (2 ^ 32 - 1).
(** The others. *)
Definition receiver_increment_action (psn : Z) (value : receiver_data) : receiver_data * Z :=
  let value' :=
    if bool_decide (psn = next_sequence_number value) then
      ReceiverData
        (if bool_decide (next_sequence_number value = 0x00ffffff) then 0
         else next_sequence_number value + 1)
        (saturating_add32 (rx_pool_index value) 2)
    else ReceiverData (next_sequence_number value) 0x80000000 in
  (value', rx_pool_index value').

(** ** The actions *)

(** Whether an action is for the first and for the last packet of a message. *)
Definition part_of_message (action : string) : option (bool * bool) :=
  if bool_decide (action = "Ingress.rdma_receiver.only_packet"
                  ∨ action = "Ingress.rdma_receiver.only_packet_immediate") then Some (true, true)
  else if bool_decide (action = "Ingress.rdma_receiver.first_packet") then Some (true, false)
  else if bool_decide (action = "Ingress.rdma_receiver.middle_packet") then Some (false, false)
  else if bool_decide (action = "Ingress.rdma_receiver.last_packet"
                       ∨ action = "Ingress.rdma_receiver.last_packet_immediate") then Some (false, true)
  else None.

Definition data_field (d : datum) (n : string) : option Z :=
  match field_value n (dt_fields d) with Some (VInt z) => Some z | _ => None end.
Definition worker_type_of (z : Z) : option WorkerType :=
  snd <$> list_find (λ t, worker_type_value t = z) [FORWARD_ONLY; SWITCHML_UDP; ROCEv2].
Definition packet_size_of (z : Z) : option PacketSize :=
  snd <$> list_find (λ t, packet_size_value t = z)
    [IBV_MTU_128; IBV_MTU_256; IBV_MTU_512; IBV_MTU_1024].

(** What the actions do with the entry's data, the packet's sequence number
    and memory key, and the register: the header for the pipeline, the bitmap,
    and whether the packet is dropped. *)
Record received := Received { rv_md : Pipe.switchml_md; rv_bitmap : Z; rv_dropped : bool }.
Definition run_action (d : datum) (psn r_key : Z) (value : receiver_data) : option (receiver_data * received) :=
  match dt_action d ≫= part_of_message, data_field d "mgid", data_field d "worker_type" ≫= worker_type_of,
    data_field d "worker_id", data_field d "num_workers", data_field d "worker_bitmap",
    data_field d "packet_size" ≫= packet_size_of with
  | Some (first, last), Some mgid, Some worker_type, Some worker_id, Some num_workers, Some bitmap, Some size =>
      let '(value', result) :=
        if first : bool then receiver_reset_action psn r_key else receiver_increment_action psn value in
      Some (value', Received
        (Pipe.Md mgid worker_id (result .& 0x7fff) num_workers size worker_type CONSUME0 0 last
           false false false false)
        bitmap (negb first && Z.testbit result 31))
  | _, _, _, _, _, _, _ => None
  end.

(** ** The packets of a message *)

(** Increments of one register, by the sequence numbers of the packets. *)
Fixpoint increments (psns : list Z) (value : receiver_data) : receiver_data * list Z :=
  match psns with
  | [] => (value, [])
  | psn :: psns' =>
      let '(value', result) := receiver_increment_action psn value in
      let '(value'', results) := increments psns' value' in (value'', result :: results)
  end.

(** The sequence numbers that follow one, 24 bits wide. *)
Definition following (psn : Z) (n : nat) : list Z :=
  (λ i, (psn + Z.of_nat i) `mod` 2 ^ 24) <$> seq 1 n.

Lemma next_psn psn :
  0 ≤ psn < 2 ^ 24 → (if bool_decide (psn = 0x00ffffff) then 0 else psn + 1) = (psn + 1) `mod` 2 ^ 24.
Proof.
  intros H. case_bool_decide as Hp; [by subst|]. rewrite Z.mod_small; [done|].
  change 0x00ffffff with (2 ^ 24 - 1) in Hp. lia.
Qed.

Lemma following_S psn n :
  0 ≤ psn < 2 ^ 24 → following psn (S n) = (psn + 1) `mod` 2 ^ 24 :: following ((psn + 1) `mod` 2 ^ 24) n.
Proof.
  intros H. unfold following. cbn [seq fmap list_fmap]. f_equal.
  rewrite <- seq_shift, <- list_fmap_compose. apply list_fmap_ext. intros _ i _. simpl.
  rewrite Z.add_mod_idemp_l by lia. f_equal. lia.
Qed.

Lemma increments_following psn b n :
  0 ≤ psn < 2 ^ 24 → 0 ≤ b → b + 2 * Z.of_nat n < 2 ^ 31 →
  increments (following psn n) (ReceiverData ((psn + 1) `mod` 2 ^ 24) b) =
    (ReceiverData ((psn + 1 + Z.of_nat n) `mod` 2 ^ 24) (b + 2 * Z.of_nat n),
     (λ i, b + 2 * Z.of_nat i) <$> seq 1 n).
Proof.
  revert psn b. induction n as [|n IH]; intros psn b Hpsn Hb Hlt.
  - simpl. do 2 f_equal; [f_equal|]; lia.
  - rewrite following_S by done. cbn [increments receiver_increment_action].
    unfold receiver_increment_action. cbn [next_sequence_number rx_pool_index].
    rewrite bool_decide_eq_true_2 by done.
    pose proof (Z.mod_pos_bound (psn + 1) (2 ^ 24)) as Hm. rewrite next_psn by lia.
    assert (Hsat : saturating_add32 b 2 = b + 2) by (unfold saturating_add32; lia).
    rewrite Hsat, IH by lia. f_equal.
    + f_equal; [|lia]. rewrite <- !Z.add_assoc, Z.add_mod_idemp_l by lia. f_equal. lia.
    + cbn [seq fmap list_fmap]. f_equal. rewrite <- (seq_shift n 1), <- list_fmap_compose.
      apply list_fmap_ext. intros _ i _. simpl. lia.
Qed.

(** C22. The packets of a message get the pool indices of the slots from the
    memory key on, every other one, because the set is the lowest bit: from
    whatever state the register is in and across the wrap-around of the 24-bit
    sequence numbers, and none of them is taken for a violation. *)
Theorem message_in_order psn r_key n :
  0 ≤ psn < 2 ^ 24 → 0 ≤ r_key → r_key + 2 * Z.of_nat n < 2 ^ 31 →
  let '(value, result) := receiver_reset_action psn r_key in
  result = r_key ∧
  (increments (following psn n) value).2 = (λ i, r_key + 2 * Z.of_nat i) <$> seq 1 n ∧
  Forall (λ z, Z.testbit z 31 = false) (increments (following psn n) value).2.
Proof.
  intros Hpsn Hk Hlt. unfold receiver_reset_action. rewrite next_psn by done.
  split; [done|]. rewrite increments_following by done. split; [done|]. simpl.
  apply Forall_fmap, Forall_forall. intros i [Hi1 Hi]%elem_of_seq. change (Z.testbit (r_key + 2 * Z.of_nat i) 31 = false).
  apply Z.bits_above_log2; [lia|]. apply Z.log2_lt_pow2; lia.
Qed.

(** C23. After a packet that is out of sequence, every later packet of the
    message is dropped, even one that is in sequence again, until a first or
    only packet resets the register. *)
Theorem message_violation psns psn value :
  psn ≠ next_sequence_number value →
  Forall (λ z, Z.testbit z 31 = true) (increments (psn :: psns) value).2.
Proof.
  intros Hne.
  assert (Hbit : ∀ z, 2 ^ 31 ≤ z < 2 ^ 32 → Z.testbit z 31 = true).
  { intros z Hz. rewrite Z.testbit_true by lia. replace (z / 2 ^ 31) with 1; [done|].
    apply Z.div_unique with (z - 2 ^ 31); lia. }
  assert (Hstuck : ∀ l v, 2 ^ 31 ≤ rx_pool_index v < 2 ^ 32 →
    Forall (λ z, Z.testbit z 31 = true) (increments l v).2).
  { induction l as [|x l IH]; intros v Hv; [by apply Forall_nil_2|]. cbn [increments].
    destruct (receiver_increment_action x v) as [v' res] eqn:E.
    assert (Hv' : 2 ^ 31 ≤ rx_pool_index v' < 2 ^ 32 ∧ res = rx_pool_index v').
    { unfold receiver_increment_action, saturating_add32 in E. case_bool_decide; simplify_eq; simpl; lia. }
    specialize (IH v' (proj1 Hv')). destruct (increments l v'). simpl in *.
    apply Forall_cons. split; [|done]. rewrite (proj2 Hv'). apply Hbit, Hv'. }
  cbn [increments]. unfold receiver_increment_action at 1. rewrite bool_decide_eq_false_2 by done.
  cbn [rx_pool_index]. pose proof (Hstuck psns (ReceiverData (next_sequence_number value) 0x80000000)) as H.
  destruct (increments psns _). simpl in *. apply Forall_cons. split; [done|]. apply H. lia.
Qed.

(** ** The job in the tables is the job of the aggregator *)

(** A job of RoCE members, as the pipeline sees it; packets of 256 bytes. *)
Definition pipeline_job (group : Z) (ms : list member) (slot : Z) (last : bool) (port : Z → Z)
    (e0 e1 : Z → Z → Z) (d0 d1 : Z → Z → Z → Z) : Aggregation.job :=
  Aggregation.Job (mb_rank <$> ms) group ROCEv2 slot last port e0 e1 d0 d1.

(** A RoCE member of the job [ms] with packets of size [s]. *)
Record uniform_of (s : PacketSize) (ms : list member) (m : member) : Prop := {
  un_rank : mb_rank m < 32;
  un_count : mb_count m = Z.of_nat (length ms);
  un_kind : ∃ rkey message qps,
    mb_kind m = RoceMember rkey (packet_size_value s) message qps
}.
Abbreviation uniform := (uniform_of IBV_MTU_256).

Lemma run_action_entry group m opcode action psn r_key value :
  (opcode, action) ∈ RDMAReceiver.write_opcodes →
  ∃ first last v' result,
    run_action (RDMAReceiver.entry_data group (mb_rank m) (mb_count m) (packet_size_value IBV_MTU_256)
      (GetWorkerBitmap.worker_bit (mb_rank m)) action) psn r_key value =
    Some (v', Received (Pipe.Md group (mb_rank m) (result .& 0x7fff) (mb_count m) IBV_MTU_256 ROCEv2
      CONSUME0 0 last false false false false) (GetWorkerBitmap.worker_bit (mb_rank m))
      (negb first && Z.testbit result 31)).
Proof.
  intros Hop. destruct (receiver_increment_action psn value) as [v result] eqn:E.
  unfold RDMAReceiver.write_opcodes in Hop.
  repeat (apply elem_of_cons in Hop as [[= -> ->]|Hop];
    [unfold run_action; cbn -[Z.testbit receiver_increment_action]; rewrite ?E; repeat eexists|]).
  by apply not_elem_of_nil in Hop.
Qed.

Section deployed.
Context `{LF : BfrtLive}.
Context (w0 : world) (V0 : entries) (ms : list member) (w : world).
Context (Hbackground : background V0) (Himplements : implements w0 V0 ms w).
Context (slot : Z) (last : bool) (port : Z → Z) (e0 e1 : Z → Z → Z) (d0 d1 : Z → Z → Z → Z).
Let J := pipeline_job (switchml_workers_mgid (w_job w0)) ms slot last port e0 e1 d0 d1.

Lemma deployed_ok :
  ms ≠ [] → (∀ m, m ∈ ms → uniform ms m) →
  (∀ r p, 0 ≤ e0 r p < 2 ^ 8 ∧ 0 ≤ e1 r p < 2 ^ 8) →
  (∀ r p n, 0 ≤ d0 r p n < 2 ^ 32 ∧ 0 ≤ d1 r p n < 2 ^ 32) → job_ok J.
Proof.
  intros Hne Huni He Hd. destruct Himplements as (Hwf & _). split; simpl; auto.
  - apply Hwf.
  - by destruct ms.
  - intros r (m & -> & Hm)%list_elem_of_fmap.
    pose proof (ft_rank _ _ (wf_fits _ _ Hwf m Hm)). pose proof (un_rank _ _ _ (Huni m Hm)). lia.
Qed.
Lemma deployed_group : wgroups w !! jb_group J = Some (jb_ranks J).
Proof. apply (member_nodes w0 V0 ms w Himplements). Qed.

(** C10. A job that the controller has assembled is one the aggregator is right
    about, when the ranks are below 32 and every member has announced the
    number of the members: a packet that hits an entry of the ingress table
    goes into the pipeline as a contribution of this job, under the rank and
    with the bit of the member it comes from, and results are broadcast to
    exactly the members. *)
Theorem deployed_job h k d psn r_key value :
  ms ≠ [] → (∀ m, m ∈ ms → uniform ms m) →
  (∀ r p, 0 ≤ e0 r p < 2 ^ 8 ∧ 0 ≤ e1 r p < 2 ^ 8) →
  (∀ r p n, 0 ≤ d0 r p n < 2 ^ 32 ∧ 0 ≤ d1 r p n < 2 ^ 32) →
  0 ≤ bth_dst_qp h < 2 ^ 24 → hits (wview w) RDMAReceiver.table (receive_roce_fields h) k d →
  job_ok J ∧ wgroups w !! jb_group J = Some (jb_ranks J) ∧
  ∃ m v' rv, m ∈ ms ∧ from_member w0 h m ∧ run_action d psn r_key value = Some (v', rv) ∧
    mb_rank m ∈ jb_ranks J ∧ rv_bitmap rv = GetWorkerBitmap.worker_bit (mb_rank m) ∧
    ∀ p, Pipe.pool_index (rv_md rv) = index J p → Pipe.last_packet_of_message (rv_md rv) = last →
      rv_md rv = job_md J (mb_rank m) p.
Proof.
  intros Hne Huni He Hd Hq Hhit. split; [by apply deployed_ok|]. split; [exact deployed_group|].
  apply (roce_hits w0 V0 ms w Hbackground Himplements) in Hhit; [|done].
  destruct Hhit as (m & rkey & size & message & qps & action & Hm & Hk & Hfrom & Hop & _ & ->).
  destruct (Huni m Hm) as [_ Hcount (rkey' & message' & qps' & Hk')].
  rewrite Hk in Hk'. injection Hk' as <- -> <- <-.
  destruct (run_action_entry (switchml_workers_mgid (w_job w0)) m _ action psn r_key value Hop) as (first & last' & v' & result & E).
  eexists m, v', _. split; [done|]. split; [done|]. split; [exact E|].
  split; [by apply list_elem_of_fmap_2|]. split; [done|]. simpl. intros p -> ->.
  unfold job_md, jb_size. simpl. by rewrite length_fmap, Hcount.
Qed.
End deployed.
End Receive.
