(* ===== verification/Egress.v ===== *)
(** * The answers of the switch (p4/RDMASender.p4, p4/SetDstAddr.p4, p4/switchml.p4)

    The way out: the copies of an answer, the tables of the egress pipeline and
    the headers they give each copy. Against the job that the controller has
    assembled: a broadcast answer reaches every member once, at its port, with
    its addresses, on its queue pair and with its memory key, and carries the
    sum of what the members have contributed. *)
From stdpp Require Import functions relations.
From S2P Require Import Prelude PyText PyMonad PyNum Bfrt Live World Ports Counters Worker PRE.
From S2P Require Import NonSwitchMLForward GetWorkerBitmap SetDstAddr Packets RDMAReceiver.
From S2P Require Import RDMASender DropSimulator DebugLog Pipeline Aggregation Aggregated.
From S2P Require Import Job JobWorkers JobLoad JobSpec GRPCServer Lookup Assembly Receive.

(** Two externs of the switch. [replicas]: the copies the replication engine
    makes for a group, each with its identifier and its port, in some order.
    [identity_hash]: the fields it is given, with their widths, one after the
    other, as GetWorkerBitmap.p4 says of the pool index it makes so. *)
Class PacketReplication := {
  replicas : entries → gmap Z (list Z) → Z → list (Z * Z);
  replicas_nodes V G group nodes rps :
    G !! group = Some nodes →
    Forall2 (λ n rp, V !! ("$pre.node", node_key n) = Some (PRE.node_data rp.1 rp.2)) nodes rps →
    replicas V G group ≡ₚ rps
}.
Definition concatenate (fs : list (Z * Z)) : Z := foldl (λ a wv, a * 2 ^ wv.1 + wv.2) 0 fs.
Class IdentityHash := {
  identity_hash : list (Z * Z) → Z;
  identity_hash_fields fs : Forall (λ wv, 0 ≤ wv.2 < 2 ^ wv.1) fs → identity_hash fs = concatenate fs
}.

Module Egress.

(** ** Headers (headers.p4) *)

(** Addresses are texts, as the control plane writes them. A field that a miss
    in a table leaves unassigned has no value then. *)
Record ethernet_h := Ethernet { eth_dst_addr : option string; eth_src_addr : string; ether_type : Z }.
Record ipv4_h := Ipv4 {
  version : Z; ihl : Z; diffserv : Z; total_len : Z; identification : Z; flags : Z;
  frag_offset : Z; ttl : Z; protocol : Z; hdr_checksum : Z; src_addr : string; dst_addr : option string
}.
Record udp_h := Udp { src_port : Z; dst_port : option Z; udp_length : Z; checksum : option Z }.
Record switchml_h := Switchml { msgType : Z; opcode : Z; tsi : Z; udp_pool_index : Z }.
Record ib_bth_h := IbBth {
  bth_opcode : Z; se : Z; migration_req : Z; pad_count : Z; transport_version : Z;
  partition_key : Z; f_res1 : Z; b_res1 : Z; reserved : Z; dst_qp : Z; ack_req : Z;
  reserved2 : Z; bth_psn : option Z
}.
Record ib_reth_h := IbReth { reth_addr : Z; r_key : option Z; len : Z }.
Record header_t := Headers {
  ethernet : option ethernet_h;
  ipv4 : option ipv4_h;
  udp : option udp_h;
  switchml : option switchml_h;
  ib_bth : option ib_bth_h;
  ib_reth : option ib_reth_h;
  ib_immediate : option Z;
  exponents : option Z
}.
(** The egress parser takes none of these from the packet. *)
Definition no_headers : header_t := Headers None None None None None None None None.

Definition set_total_len (f : Z → Z) (h : ipv4_h) : ipv4_h :=
  Ipv4 (version h) (ihl h) (diffserv h) (f (total_len h)) (identification h) (flags h)
    (frag_offset h) (ttl h) (protocol h) (hdr_checksum h) (src_addr h) (dst_addr h).
Definition set_udp_length (f : Z → Z) (h : udp_h) : udp_h :=
  Udp (src_port h) (dst_port h) (f (udp_length h)) (checksum h).
(** Both lengths grow by so many bytes; 16 bits. *)
Definition add_length (n : Z) (h : header_t) : header_t :=
  let add l := (l + n) `mod` 2 ^ 16 in
  Headers (ethernet h) (set_total_len add <$> ipv4 h) (set_udp_length add <$> udp h) (switchml h)
    (ib_bth h) (ib_reth h) (ib_immediate h) (exponents h).
Definition set_bth (f : ib_bth_h → ib_bth_h) (h : header_t) : header_t :=
  Headers (ethernet h) (ipv4 h) (udp h) (switchml h) (f <$> ib_bth h) (ib_reth h) (ib_immediate h)
    (exponents h).

(** The sizes of the headers in bytes. *)
Definition ipv4_size : Z := 20.
Definition udp_size : Z := 8.
Definition switchml_size : Z := 10.
Definition exponents_size : Z := 2.
Definition data_size : Z := 128.
Definition ib_bth_size : Z := 12.
Definition ib_reth_size : Z := 16.
Definition ib_immediate_size : Z := 4.
Definition ib_icrc_size : Z := 4.

(** ** What an answer brings from the ingress (types.p4) *)

Record switchml_rdma_md := RdmaMd { psn : Z; rdma_len : Z; rdma_addr : Z }.
Record switchml_udp_md := UdpMd {
  md_src_port : Z; md_dst_port : Z; md_tsi : Z; md_msg_type : Z; md_opcode : Z
}.
(** The header of [Pipeline] and the fields of it that only the egress looks
    at; the headers of the two kinds of worker; the exponents. *)
Record egress_md := EgressMd {
  eg_md : Pipe.switchml_md;
  first_packet_of_message : bool;
  simulate_egress_drop : bool;
  eg_rdma : switchml_rdma_md;
  eg_udp : switchml_udp_md;
  eg_e0 : Z;
  eg_e1 : Z
}.
Definition set_md (m : Pipe.switchml_md) (eg : egress_md) : egress_md :=
  EgressMd m (first_packet_of_message eg) (simulate_egress_drop eg) (eg_rdma eg) (eg_udp eg)
    (eg_e0 eg) (eg_e1 eg).
Definition set_worker_id (i : Z) (m : Pipe.switchml_md) : Pipe.switchml_md :=
  Pipe.Md (Pipe.mgid m) i (Pipe.pool_index m) (Pipe.num_workers m) (Pipe.packet_size m)
    (Pipe.worker_type m) (Pipe.packet_type m) (Pipe.ingress_port m) (Pipe.last_packet_of_message m)
    (Pipe.first_flag m) (Pipe.last_flag m) (Pipe.map_result_nonzero m) (Pipe.bitmap_before_nonzero m).

(** ** Tables *)

(** What the match tables give: the data of an entry that matches, and
    nothing on a miss; no table of the egress has another default action. *)
Abbreviation lookup_table := (string → packet_fields → option datum).
Definition resolves (V : entries) (look : lookup_table) : Prop :=
  ∀ t fs, match look t fs with
          | Some d => ∃ k, hits V t fs k d
          | None => ∀ k d, ¬ hits V t fs k d
          end.
(** One way to choose: the first entry in the order of enumeration. *)
Definition first_match (V : entries) : lookup_table := λ t fs,
  snd <$> head (filter (λ e, e.1.1 = t ∧ key_matches fs e.1.2 = true) (map_to_list V)).
Lemma first_match_resolves V : resolves V (first_match V).
Proof.
  intros t fs. unfold first_match.
  set (P := λ e : (string * key) * datum, e.1.1 = t ∧ key_matches fs e.1.2 = true).
  assert (Hin : ∀ e, e ∈ filter P (map_to_list V) ↔ P e ∧ V !! e.1 = Some e.2).
  { intros [k d]. by rewrite list_elem_of_filter, elem_of_map_to_list. }
  destruct (filter P (map_to_list V)) as [|[[t' k] d] l] eqn:E; simpl.
  - intros k d [Hl Hk]. apply (not_elem_of_nil ((t, k), d)). by apply Hin.
  - destruct (proj1 (Hin ((t', k), d))) as [[Ht Hk] Hl]; [left|]. simpl in *. subst t'. by exists k.
Qed.

Definition data_text (d : datum) (n : string) : option string :=
  match field_value n (dt_fields d) with Some (VStr s) => Some s | _ => None end.

(** The switch's own addresses, the parameters of the default action
    [set_switch_mac_and_ip] of the block. *)
Record switch_address := SwitchAddress { switch_mac : string; switch_ip : string }.

(** ** RDMASender.p4 *)

(** The temporary variables of the control that its actions use. *)
Record sender_locals := SenderLocals { rdma_base_addr : option Z; rdma_rkey : option Z }.

Definition UDP_PORT_ROCEV2 : Z := 4791.
Definition base_length : Z := ib_icrc_size + ib_bth_size + udp_size.

Definition fill_in_roce_fields (switch : switch_address) (worker_id : Z) (dest_mac dest_ip : string)
    (h : header_t) : header_t :=
  Headers
    (Some (Ethernet (Some dest_mac) (switch_mac switch) 0x0800))
    (Some (Ipv4 4 5 0x02 (base_length + ipv4_size) 0x0001 2 0 64 17 0 (switch_ip switch) (Some dest_ip)))
    (Some (Udp ((1 .<< 15) .| (worker_id .& 0x7fff)) (Some UDP_PORT_ROCEV2) base_length (Some 0)))
    None
    (Some (IbBth 0x2a 0 1 0 0 0xffff 0 0 0 0 0 0 None))
    (ib_reth h) (ib_immediate h) None.

(** The table [create_roce_packet]; the second action also keeps the key. *)
Definition create_roce_packet (switch : switch_address) (worker_id : Z) (r : option datum)
    (h : header_t) (l : sender_locals) : header_t * sender_locals :=
  match r with
  | None => (h, l)
  | Some d =>
      match data_text d "dest_mac", data_text d "dest_ip" with
      | Some mac, Some ip =>
          let h' := fill_in_roce_fields switch worker_id mac ip h in
          if bool_decide (dt_action d = Some "Egress.rdma_sender.fill_in_roce_write_fields")
          then (h', SenderLocals (Receive.data_field d "base_addr") (Receive.data_field d "rkey"))
          else (h', l)
      | _, _ => (h, l)
      end
  end.

(** The table [fill_in_qpn_and_psn]. *)
Definition add_qpn_and_psn (qpn psn : Z) : header_t → header_t :=
  set_bth (λ b, IbBth (bth_opcode b) (se b) (migration_req b) (pad_count b) (transport_version b)
    (partition_key b) (f_res1 b) (b_res1 b) (reserved b) qpn (ack_req b) (reserved2 b) (Some psn)).
Definition fill_in_qpn_and_psn (psn : Z) (r : option datum) (h : header_t) : header_t :=
  match r with
  | None => h
  | Some d => match Receive.data_field d "qpn" with Some q => add_qpn_and_psn q psn h | None => h end
  end.

Definition set_opcode_common (op : Z) : header_t → header_t :=
  set_bth (λ b, IbBth op (se b) (migration_req b) (pad_count b) (transport_version b)
    (partition_key b) (f_res1 b) (b_res1 b) (reserved b) (dst_qp b) (ack_req b) (reserved2 b) (bth_psn b)).
Definition set_rdma (l : sender_locals) (md : switchml_rdma_md) (h : header_t) : header_t :=
  Headers (ethernet h) (ipv4 h) (udp h) (switchml h) (ib_bth h)
    (Some (IbReth (rdma_addr md) (rdma_rkey l) (rdma_len md))) (ib_immediate h) (exponents h).

Section controls.
Context `{IH : IdentityHash}.

Definition immediate (eg : egress_md) : Z :=
  identity_hash [(1, 0); (15, Pipe.pool_index (eg_md eg)); (8, eg_e1 eg); (8, eg_e0 eg)].
Definition set_immediate (eg : egress_md) (h : header_t) : header_t :=
  Headers (ethernet h) (ipv4 h) (udp h) (switchml h) (ib_bth h) (ib_reth h) (Some (immediate eg))
    (exponents h).

(** The four actions of the table [set_opcodes]. *)
Definition set_opcode : header_t → header_t := set_opcode_common 0x27.
Definition set_immediate_opcode (eg : egress_md) (h : header_t) : header_t :=
  add_length ib_immediate_size (set_immediate eg (set_opcode_common 0x29 h)).
Definition set_rdma_opcode (l : sender_locals) (eg : egress_md) (h : header_t) : header_t :=
  add_length ib_reth_size (set_rdma l (eg_rdma eg) (set_opcode_common 0x26 h)).
Definition set_rdma_immediate_opcode (l : sender_locals) (eg : egress_md) (h : header_t) : header_t :=
  add_length (ib_immediate_size + ib_reth_size)
    (set_immediate eg (set_rdma l (eg_rdma eg) (set_opcode_common 0x2b h))).
Definition set_opcodes (l : sender_locals) (eg : egress_md) (h : header_t) : header_t :=
  match first_packet_of_message eg, Pipe.last_packet_of_message (eg_md eg) with
  | true, false => set_rdma_opcode l eg h
  | false, false => set_opcode h
  | false, true => set_immediate_opcode eg h
  | true, true => set_rdma_immediate_opcode l eg h
  end.

Definition payload_length (s : PacketSize) : Z :=
  match s with IBV_MTU_256 => 256 | IBV_MTU_1024 => 1024 | _ => 0 end.

(** The control, with what the temporary variables hold before it. *)
Definition RDMASender (switch : switch_address) (look : lookup_table) (l : sender_locals)
    (eg : egress_md) (h : header_t) : header_t :=
  let m := eg_md eg in
  let '(h, l) := create_roce_packet switch (Pipe.worker_id m)
    (look RDMASender.create_roce_packet (create_roce_fields (Pipe.worker_id m))) h l in
  let h := add_length (payload_length (Pipe.packet_size m)) h in
  let h := fill_in_qpn_and_psn (psn (eg_rdma eg))
    (look RDMASender.fill_in_qpn_and_psn (fill_in_qpn_fields (Pipe.worker_id m) (Pipe.pool_index m))) h in
  set_opcodes l eg h.

(** ** SetDstAddr.p4 *)

Definition UDP_LENGTH : Z := udp_size + switchml_size + exponents_size + data_size + data_size.
Definition IPV4_LENGTH : Z := ipv4_size + UDP_LENGTH.

Definition set_switch_mac_and_ip (switch : switch_address) (eg : egress_md) (h : header_t) : header_t :=
  let u := eg_udp eg in
  Headers
    (Some (Ethernet None (switch_mac switch) 0x0800))
    (Some (Ipv4 4 5 0 IPV4_LENGTH 0 0 0 64 17 0 (switch_ip switch) None))
    (Some (Udp (md_dst_port u) None UDP_LENGTH None))
    (Some (Switchml (md_msg_type u) (md_opcode u) (md_tsi u) ((Pipe.pool_index (eg_md eg) .>> 1) .& 0x3fff)))
    (ib_bth h) (ib_reth h) (ib_immediate h) (exponents h).

Definition set_dst_addr_for_SwitchML_UDP (eth_dst ip_dst : string) (eg : egress_md) (h : header_t) : header_t :=
  Headers
    ((λ e, Ethernet (Some eth_dst) (eth_src_addr e) (ether_type e)) <$> ethernet h)
    ((λ i, Ipv4 (version i) (ihl i) (diffserv i) (total_len i) (identification i) (flags i)
        (frag_offset i) (ttl i) (protocol i) (hdr_checksum i) (src_addr i) (Some ip_dst)) <$> ipv4 h)
    ((λ u, Udp (src_port u) (Some (md_src_port (eg_udp eg))) (udp_length u) (Some 0)) <$> udp h)
    ((λ x, Switchml (msgType x) (opcode x) (tsi x)
        (((Pipe.pool_index (eg_md eg) .& 1) .<< 15) .| udp_pool_index x)) <$> switchml h)
    (ib_bth h) (ib_reth h) (ib_immediate h)
    (Some (identity_hash [(8, eg_e1 eg); (8, eg_e0 eg)])).

Definition SetDestinationAddress (switch : switch_address) (look : lookup_table) (eg : egress_md)
    (h : header_t) : header_t :=
  let h := set_switch_mac_and_ip switch eg h in
  match look SetDstAddr.table (create_roce_fields (Pipe.worker_id (eg_md eg))) with
  | None => h
  | Some d =>
      match data_text d "eth_dst_addr", data_text d "ip_dst_addr" with
      | Some mac, Some ip => set_dst_addr_for_SwitchML_UDP mac ip eg h
      | _, _ => h
      end
  end.

(** What the ingress makes of the pool index and the exponents of a packet
    (GetWorkerBitmap.p4, [set_bitmap]). *)
Definition read_pool_index (wire : Z) : Z :=
  identity_hash [(14, wire .& 0x3fff); (1, (wire .>> 15) .& 1)].
Definition read_exponents (e : Z) : Z * Z := ((e .>> 8) .& 0xff, e .& 0xff).

(** ** The control [Egress] (switchml.p4) *)

(** What becomes of a copy: it is dropped, leaves with its headers in front of
    the payload, or goes on with the debug header and the metadata. *)
Inductive outcome := Dropped | Leaves (h : header_t) (payload : list Pipe.block) | Debugged.

Definition Egress (roce udp : switch_address) (look : lookup_table) (l : sender_locals) (rid : Z)
    (eg : egress_md) (payload : list Pipe.block) : outcome :=
  match Pipe.packet_type (eg_md eg) with
  | (BROADCAST | RETRANSMIT) as t =>
      if simulate_egress_drop eg then Dropped
      else
        let eg := if bool_decide (t = BROADCAST) then set_md (set_worker_id rid (eg_md eg)) eg else eg in
        Leaves (match Pipe.worker_type (eg_md eg) with
                | ROCEv2 => RDMASender roce look l eg no_headers
                | _ => SetDestinationAddress udp look eg no_headers
                end) payload
  | _ => Debugged
  end.

Context `{PR : PacketReplication}.

(** The way out of a packet: a copy for each replica of its group, or one copy
    for its port, which has no identifier. *)
Definition send (roce udp : switch_address) (V : entries) (G : gmap Z (list Z)) (look : lookup_table)
    (l : sender_locals) (x : Pipe.exit) (eg : egress_md) (payload : list Pipe.block) : list (Z * outcome) :=
  match x with
  | Pipe.Multicast group =>
      (λ rp, (rp.2, Egress roce udp look l rp.1 eg payload)) <$> replicas V G group
  | Pipe.Unicast port => [(port, Egress roce udp look l 0 eg payload)]
  | _ => []
  end.
End controls.

(** ** Sequence numbers (RDMASequenceNumberAssignment) *)

(** A cell of the register: what it gives, and what it holds then. *)
Definition psn_action (value : Z) : Z * Z := (value .& 0x00ffffff, (value + 1) `mod` 2 ^ 32).

(** The condition on the header after [NextStep] under which [Ingress] assigns a
    number: a RoCE packet of 1024 bytes that starts its harvest, or any packet of
    256 bytes that does ([&&] binds tighter than [||]). *)
Definition numbered (m : Pipe.switchml_md) : bool :=
  bool_decide (Pipe.worker_type m = ROCEv2) &&
    (bool_decide (Pipe.packet_size m = IBV_MTU_1024) && bool_decide (Pipe.packet_type m = HARVEST1))
  || (bool_decide (Pipe.packet_size m = IBV_MTU_256) && bool_decide (Pipe.packet_type m = HARVEST7)).

(** A pass through a pipe: its port, what the parser and the receivers have set, the
    queue pair in the packet's header, and the packet. *)
Record pass := Pass { ps_port : Z; ps_locals : Pipe.locals; ps_queue_pair : Z; ps_packet : Pipe.packet }.
Definition run_pass (alternate : option Z) (x : pass) (r : Pipe.registers) :
    Pipe.registers * Pipe.packet * Pipe.exit :=
  Pipe.Ingress alternate (ps_port x) (ps_locals x) r (ps_packet x).
(** The control, on the cell of the packet's queue pair. *)
Definition assign_psn (q : Z) (m : Pipe.switchml_md) (cells : Z → Z) : (Z → Z) * option Z :=
  if numbered m then let '(psn, value) := psn_action (cells q) in (<[q := value]> cells, Some psn)
  else (cells, None).
(** Passes through a pipe, one after the other: the packets that come out and
    the numbers they are given. *)
Fixpoint run_passes (alternate : option Z) (ps : list pass) (cells : Z → Z) (r : Pipe.registers) :
    list (Pipe.packet * Pipe.exit * option Z) :=
  match ps with
  | [] => []
  | x :: ps' =>
      let '(r', p', e) := run_pass alternate x r in
      let '(cells', number) := assign_psn (ps_queue_pair x) (Pipe.md p') cells in
      (p', e, number) :: run_passes alternate ps' cells' r'
  end.

(** ** What a pass does not change *)

(** The fields of the metadata by which an answer is addressed. *)
Definition service (m : Pipe.switchml_md) : Z * Z * Z * PacketSize * WorkerType * bool :=
  (Pipe.mgid m, Pipe.worker_id m, Pipe.pool_index m, Pipe.packet_size m, Pipe.worker_type m,
   Pipe.last_packet_of_message m).

(** The type says by which way a packet leaves. *)
Definition exit_type (x : Pipe.exit) (m : Pipe.switchml_md) : Prop :=
  match x with
  | Pipe.Multicast g => Pipe.packet_type m = BROADCAST ∧ g = Pipe.mgid m
  | Pipe.Unicast _ => Pipe.packet_type m = RETRANSMIT
  | _ => True
  end.

Lemma next_step_exit alt port m l :
  let s := Pipe.next_step alt port m l in
  match Pipe.st_exit s with
  | Pipe.Multicast g => Pipe.st_type s = BROADCAST ∧ g = Pipe.mgid m
  | Pipe.Unicast _ => Pipe.st_type s = RETRANSMIT
  | _ => True
  end.
Proof.
  unfold Pipe.next_step. cbv zeta.
  destruct (Pipe.packet_size m), (Pipe.packet_type m); try done;
    repeat case_bool_decide; try done; try (by destruct alt); by destruct (Pipe.worker_type m).
Qed.

Lemma aggregate_service alt port r m l p d0 d1 rest r' pk x :
  Pipe.aggregate alt port r m l p d0 d1 rest = (r', pk, x) →
  service (Pipe.md pk) = service m ∧ exit_type x (Pipe.md pk).
Proof.
  unfold Pipe.aggregate. case_bool_decide; [|intros; by simplify_eq].
  destruct (if Pipe.last_packet_of_message m then _ else _) as [exps [x0 x1]].
  pose proof (next_step_exit alt port m l) as Hs. simpl in *. intros E. simplify_eq. done.
Qed.

Lemma ingress_service alt port l r p r' pk x :
  Pipe.Ingress alt port l r p = (r', pk, x) →
  service (Pipe.md pk) = service (Pipe.md p) ∧ exit_type x (Pipe.md pk).
Proof.
  unfold Pipe.Ingress. set (y := if bool_decide (Pipe.packet_type (Pipe.md p) = CONSUME0) then _ else _).
  assert (Hy : service y.1 = service (Pipe.md p)) by (unfold y; by repeat case_match).
  destruct y as [m1 l1]. simpl in Hy. destruct (Pipe.parse _ _) as [[d0 d1] rest].
  set (z := if Pipe.drop_ctl l1 then _ else _).
  assert (Hz : service z.1.2 = service (Pipe.md p)).
  { rewrite <- Hy. unfold z. destruct (Pipe.drop_ctl l1); [done|]. destruct (Pipe.is_consume _); [|done].
    unfold Pipe.UpdateAndCheckWorkerBitmap, Pipe.CountWorkers. by repeat (case_match; simplify_eq; simpl). }
  destruct z as [[r1 m2] l2]. simpl in Hz. destruct (Pipe.drop_ctl l2); [by intros [= <- <- <-]|].
  intros [H1 H2]%aggregate_service. split; [congruence|done].
Qed.

Section network.
Context (J : job) (alternate : option Z).

(** Every packet of the slot has the job's group, size, kind of worker, and
    flag; what has left has the type of its way. *)
Definition of_job (p : Pipe.packet) : Prop :=
  slot_of p = jb_slot J → ∃ w i,
    service (Pipe.md p) = (jb_group J, w, i, IBV_MTU_256, jb_type J, jb_last J).
Definition out_of_job (x : Pipe.exit * Pipe.packet) : Prop :=
  of_job x.2 ∧ exit_type x.1 (Pipe.md x.2).

Lemma of_job_pass port l r p r' pk x :
  Pipe.Ingress alternate port l r p = (r', pk, x) → of_job p → of_job pk ∧ exit_type x (Pipe.md pk).
Proof.
  intros E Hp. pose proof (ingress_slot J alternate port l r p r' pk x E) as [_ Hs].
  apply ingress_service in E as [E Hx]. split; [|done]. intros H. rewrite E. apply Hp. congruence.
Qed.

Lemma route_of_job x pk s :
  of_job pk → exit_type x (Pipe.md pk) →
  Forall of_job (nt_queue s) ∧ Forall out_of_job (nt_out s) →
  Forall of_job (nt_queue (route x pk s)) ∧ Forall out_of_job (nt_out (route x pk s)).
Proof.
  intros Hp Hx [Hq Ho]. destruct x; simpl; [done| | | |done].
  - destruct (decide (port = 68)); [|done]. simpl. rewrite Forall_app, Forall_singleton. done.
  - rewrite Forall_app, Forall_singleton. done.
  - rewrite Forall_app, Forall_singleton. done.
Qed.

Lemma net_of_job s :
  net_reachable J alternate s → Forall of_job (nt_queue s) ∧ Forall out_of_job (nt_out s).
Proof.
  unfold net_reachable. revert s. apply rtc_ind_r; [by split; apply Forall_nil_2|].
  intros s s' _ Hstep [Hq Ho].
  destruct Hstep as [s w p prob r pk e Hw Hs Hprob E|s p0 q r pk e Hqq E|s port l p0 r pk e Hslot E].
  - apply of_job_pass in E as [Hp Hx]; [by apply route_of_job|].
    intros _. by exists w, (index J p).
  - rewrite Hqq in Hq. apply Forall_cons in Hq as [Hp0 Hq].
    apply of_job_pass in E as [Hp Hx]; [|done]. by apply route_of_job.
  - apply of_job_pass in E as [Hp Hx]; [by apply route_of_job|]. by intros ?.
Qed.
End network.

(** ** What an answer is to be *)

Section answers.
Context `{IH : IdentityHash}.

(** The RoCE answer for a member: to its addresses; on the queue pair that
    the message of the pool index belongs to, with the sequence number; a
    write of the part of a message that the flags say, the extended header
    with the member's memory key on a first packet and an immediate on a last
    one; and with lengths that count what is in the packet. *)
Record roce_answer (switch : switch_address) (m : member) (rkey k : Z) (qps : list (Z * Z))
    (eg : egress_md) (h : header_t) : Prop := {
  ra_ethernet : ethernet h = Some (Ethernet (Some (mb_mac m)) (switch_mac switch) 0x0800);
  ra_ipv4 : ∃ i u, ipv4 h = Some i ∧ udp h = Some u ∧
    src_addr i = switch_ip switch ∧ dst_addr i = Some (mb_ip m) ∧ protocol i = 17 ∧
    dst_port u = Some UDP_PORT_ROCEV2 ∧
    udp_length u = udp_size + ib_bth_size + (if ib_reth h then ib_reth_size else 0) +
      (if ib_immediate h then ib_immediate_size else 0) +
      payload_length (Pipe.packet_size (eg_md eg)) + ib_icrc_size ∧
    total_len i = ipv4_size + udp_length u;
  ra_bth : ∃ b op action, ib_bth h = Some b ∧ bth_opcode b = op ∧
    (op, action) ∈ RDMAReceiver.write_opcodes ∧
    Receive.part_of_message action =
      Some (first_packet_of_message eg, Pipe.last_packet_of_message (eg_md eg)) ∧
    match qps !! Z.to_nat (Pipe.pool_index (eg_md eg) .>> (k + 1)) with
    | Some (qpn, _) => dst_qp b = qpn ∧ bth_psn b = Some (psn (eg_rdma eg))
    | None => dst_qp b = 0 ∧ bth_psn b = None
    end;
  ra_reth : ib_reth h = if first_packet_of_message eg
    then Some (IbReth (rdma_addr (eg_rdma eg)) (Some rkey) (rdma_len (eg_rdma eg))) else None;
  ra_immediate : ib_immediate h =
    if Pipe.last_packet_of_message (eg_md eg) then Some (immediate eg) else None;
  ra_plain : switchml h = None ∧ exponents h = None
}.

(** The UDP answer for a member: to its addresses, from the port the request
    came to and to the port it came from, with the request's transaction and a
    pool index that reads as the one of the slot, and with lengths that count
    what is in the packet. *)
Record udp_answer (switch : switch_address) (m : member) (eg : egress_md) (h : header_t) : Prop := {
  ua_ethernet : ethernet h = Some (Ethernet (Some (mb_mac m)) (switch_mac switch) 0x0800);
  ua_ipv4 : ∃ i u, ipv4 h = Some i ∧ udp h = Some u ∧
    src_addr i = switch_ip switch ∧ dst_addr i = Some (mb_ip m) ∧ protocol i = 17 ∧
    src_port u = md_dst_port (eg_udp eg) ∧ dst_port u = Some (md_src_port (eg_udp eg)) ∧
    udp_length u = udp_size + switchml_size + exponents_size + 256 ∧
    total_len i = ipv4_size + udp_length u;
  ua_switchml : ∃ x, switchml h = Some x ∧ msgType x = md_msg_type (eg_udp eg) ∧
    opcode x = md_opcode (eg_udp eg) ∧ tsi x = md_tsi (eg_udp eg) ∧
    read_pool_index (udp_pool_index x) = Pipe.pool_index (eg_md eg);
  ua_exponents : exponents h = Some (identity_hash [(8, eg_e1 eg); (8, eg_e0 eg)]);
  ua_plain : ib_bth h = None ∧ ib_reth h = None ∧ ib_immediate h = None
}.

Lemma pool_index_read p :
  0 ≤ p < 2 ^ 15 → read_pool_index (((p .& 1) .<< 15) .| ((p .>> 1) .& 0x3fff)) = p.
Proof.
  intros Hp. unfold read_pool_index.
  assert (Hbit : ∀ x, x .& 1 = x mod 2) by (intros x; by apply (Z.land_ones x 1)).
  assert (Hslot : ∀ x, x .& 0x3fff = x mod 2 ^ 14) by (intros x; by apply (Z.land_ones x 14)).
  assert (Hq : 0 ≤ p / 2 < 2 ^ 14) by (Z.to_euclidean_division_equations; lia).
  pose proof (Z.mod_pos_bound p 2) as Hb. pose proof (Z.div_mod p 2) as Hd.
  rewrite !Hbit, !Hslot, !Z.shiftr_div_pow2 by lia. change (2 ^ 1) with 2.
  rewrite (Z.mod_small (p / 2)), lor_add_disjoint by lia.
  replace ((p mod 2 * 2 ^ 15 + p / 2) / 2 ^ 15) with (p mod 2)
    by (rewrite Z.div_add_l, (Z.div_small (p / 2)) by lia; lia).
  replace ((p mod 2 * 2 ^ 15 + p / 2) mod 2 ^ 14) with (p / 2).
  2:{ replace (p mod 2 * 2 ^ 15) with ((p mod 2 * 2) * 2 ^ 14) by lia.
      by rewrite Z.add_comm, Z.mod_add, Z.mod_small by lia. }
  rewrite (Z.mod_small (p mod 2)) by lia.
  rewrite identity_hash_fields; [unfold concatenate; simpl foldl; lia|].
  repeat constructor; simpl; lia.
Qed.

(** Read back, the exponents of a UDP answer have changed places. *)
Lemma udp_exponents_exchanged x0 x1 :
  0 ≤ x0 < 2 ^ 8 → 0 ≤ x1 < 2 ^ 8 →
  read_exponents (identity_hash [(8, x1); (8, x0)]) = (x1, x0).
Proof.
  intros H0 H1. rewrite identity_hash_fields by (repeat constructor; simpl; lia).
  unfold concatenate, read_exponents. simpl foldl.
  assert (Hbyte : ∀ x, x .& 0xff = x mod 2 ^ 8) by (intros x; by apply (Z.land_ones x 8)).
  rewrite !Hbyte, Z.shiftr_div_pow2 by lia. change (2 ^ 8) with 256 in *.
  f_equal; Z.to_euclidean_division_equations; lia.
Qed.
End answers.

Section delivery.
Context `{LF : BfrtLive} `{IH : IdentityHash}.
Context (w0 : world) (V0 : entries) (ms : list member) (w : world).
Context (Hbackground : background V0) (Himplements : implements w0 V0 ms w).
Context (look : lookup_table) (Hlook : resolves (wview w) look).

(** A table whose only entry for the packet is known. *)
Lemma look_hit t fs k d :
  (∀ k' d', hits (wview w) t fs k' d' ↔ k' = k ∧ d' = d) → look t fs = Some d.
Proof.
  intros H. pose proof (Hlook t fs) as Hl. destruct (look t fs) as [d'|].
  - destruct Hl as [k' [_ ->]%H]. done.
  - exfalso. apply (Hl k d). by apply H.
Qed.

Lemma look_create m rkey size message qps :
  m ∈ ms → mb_kind m = RoceMember rkey size message qps →
  look RDMASender.create_roce_packet (create_roce_fields (mb_rank m)) =
    Some (RDMASender.write_data (mb_mac m) (mb_ip m) rkey).
Proof.
  intros Hm Hk. eapply look_hit. intros k' d'.
  exact (create_roce_hits w0 V0 ms w Hbackground Himplements m rkey size message qps k' d' Hm Hk).
Qed.

Lemma look_qpn m rkey size message qps p :
  m ∈ ms → mb_kind m = RoceMember rkey size message qps → message_log size message ≤ 14 →
  Z.of_nat (length qps) ≤ 2 ^ (14 - message_log size message) → 0 ≤ p < 2 ^ 15 →
  look RDMASender.fill_in_qpn_and_psn (fill_in_qpn_fields (mb_rank m) p) =
    (λ q, RDMASender.qp_data q.1) <$> qps !! Z.to_nat (p .>> (message_log size message + 1)).
Proof.
  intros Hm Hk Hlog Hlen Hp.
  pose proof (λ k d, qpn_hits w0 V0 ms w Hbackground Himplements m rkey size message qps p k d
    Hm Hk Hlog Hlen Hp) as H.
  assert (Hi : 0 ≤ p .>> (message_log size message + 1)) by (apply Z.shiftr_nonneg; lia).
  destruct (qps !! Z.to_nat _) as [[qpn psn]|] eqn:E; simpl.
  - apply (look_hit _ _ (RDMASender.qp_key (mb_rank m)
      (Z.of_nat (Z.to_nat (p .>> (message_log size message + 1))) .<< (message_log size message + 1))
      (RDMASender.qp_mask (2 ^ message_log size message)))). intros k' d'. rewrite H. split.
    + intros (i & qpn' & psn' & Hq & He & -> & ->). rewrite He, Nat2Z.id in E. rewrite E in Hq.
      simplify_eq. by rewrite He, Nat2Z.id.
    + intros [-> ->]. exists (Z.to_nat (p .>> (message_log size message + 1))), qpn, psn.
      rewrite Z2Nat.id by done. done.
  - pose proof (Hlook RDMASender.fill_in_qpn_and_psn (fill_in_qpn_fields (mb_rank m) p)) as Hl.
    destruct (look _ _) as [d'|]; [|done].
    destruct Hl as [k' (i & qpn' & psn' & Hq & He & _)%H]. rewrite He, Nat2Z.id in E. congruence.
Qed.

Lemma create_roce_row switch r mac ip rkey h l :
  create_roce_packet switch r (Some (RDMASender.write_data mac ip rkey)) h l =
    (fill_in_roce_fields switch r mac ip h, SenderLocals (Some 0) (Some rkey)).
Proof. reflexivity. Qed.

Lemma fill_in_qp_row psn (q : option (Z * Z)) h :
  fill_in_qpn_and_psn psn ((λ q, RDMASender.qp_data q.1) <$> q) h =
    match q with Some x => add_qpn_and_psn x.1 psn h | None => h end.
Proof. by destruct q. Qed.

(** The copy that is for a member. *)
Lemma roce_copy switch l m rkey size message qps eg :
  m ∈ ms → mb_kind m = RoceMember rkey size message qps → message_log size message ≤ 14 →
  Z.of_nat (length qps) ≤ 2 ^ (14 - message_log size message) →
  0 ≤ Pipe.pool_index (eg_md eg) < 2 ^ 15 → Pipe.worker_id (eg_md eg) = mb_rank m →
  roce_answer switch m rkey (message_log size message) qps eg
    (RDMASender switch look l eg no_headers).
Proof.
  intros Hm Hk Hlog Hlen Hp Hw. unfold RDMASender. rewrite Hw.
  rewrite (look_create m rkey size message qps), create_roce_row by done.
  rewrite (look_qpn m rkey size message qps) by done.
  set (q := qps !! _). rewrite fill_in_qp_row. assert (Hl : 0 ≤ payload_length (Pipe.packet_size (eg_md eg)) ≤ 1024)
    by (unfold payload_length; case_match; lia).
  unfold set_opcodes, set_rdma_immediate_opcode, set_rdma_opcode, set_immediate_opcode, set_opcode.
  destruct (first_packet_of_message eg) eqn:Hf, (Pipe.last_packet_of_message (eg_md eg)) eqn:Ht;
    (split; [by destruct q| | |by destruct q; rewrite ?Hf|by destruct q; rewrite ?Ht|by destruct q]).
  1,3,5,7: destruct q; do 2 eexists; (split; [reflexivity|]); (split; [reflexivity|]);
    cbn -[Z.modulo payload_length]; repeat (split; [done|]); cbv [base_length ib_icrc_size ib_bth_size udp_size ipv4_size ib_reth_size ib_immediate_size];
    rewrite !(Z.mod_small (_ + payload_length _)) by lia; rewrite ?Z.mod_small by lia; lia.
  all: destruct q as [[qpn psn']|] eqn:Hq; unfold q in Hq; eexists _, _, _; (split; [reflexivity|]); (split; [reflexivity|]);
    
    (split; [first [by apply (list_elem_of_lookup_2 _ 0) | by apply (list_elem_of_lookup_2 _ 1)
      | by apply (list_elem_of_lookup_2 _ 4) | by apply (list_elem_of_lookup_2 _ 5)]|]);
    (split; [by rewrite Hf, Ht|by rewrite Hq]).
Qed.

Lemma udp_copy switch m eg :
  m ∈ ms → mb_kind m = UdpMember → 0 ≤ Pipe.pool_index (eg_md eg) < 2 ^ 15 →
  Pipe.worker_id (eg_md eg) = mb_rank m →
  udp_answer switch m eg (SetDestinationAddress switch look eg no_headers).
Proof.
  intros Hm Hk Hp Hw. unfold SetDestinationAddress. rewrite Hw.
  erewrite look_hit; [|intros k' d'; exact (set_dst_hits w0 V0 ms w Hbackground Himplements m k' d' Hm Hk)].
  split; [done| | |done|done].
  - do 2 eexists. repeat (split; [reflexivity|]). reflexivity.
  - eexists. repeat (split; [reflexivity|]). by apply pool_index_read.
Qed.

(** A copy of a broadcast for every member. *)
Context `{PR : PacketReplication}.

Lemma send_multicast roce udp l eg payload :
  send roce udp (wview w) (wgroups w) look l (Pipe.Multicast (switchml_workers_mgid (w_job w0))) eg payload ≡ₚ
    (λ m, (mb_dev m, Egress roce udp look l (mb_rank m) eg payload)) <$> ms.
Proof.
  destruct (member_nodes w0 V0 ms w Himplements) as [Hg Hn]. simpl.
  rewrite (replicas_nodes _ _ _ _ _ Hg Hn). by rewrite <- list_fmap_compose.
Qed.
End delivery.

(** ** From the aggregator to the members *)

(** An answer takes its metadata and its exponents along. *)
Definition carries (p : Pipe.packet) (eg : egress_md) : Prop :=
  eg_md eg = Pipe.md p ∧ eg_e0 eg = Pipe.e0 p ∧ eg_e1 eg = Pipe.e1 p.

(** A member whose queue pairs fit the pool index. *)
Definition queue_pairs_fit (m : member) : Prop :=
  match mb_kind m with
  | UdpMember => True
  | RoceMember _ size message qps =>
      message_log size message ≤ 14 ∧ Z.of_nat (length qps) ≤ 2 ^ (14 - message_log size message)
  end.

Definition answer_for `{IH : IdentityHash} (switch : switch_address) (m : member) (eg : egress_md)
    (h : header_t) : Prop :=
  match mb_kind m with
  | UdpMember => udp_answer switch m eg h
  | RoceMember rkey size message qps => roce_answer switch m rkey (message_log size message) qps eg h
  end.

(** The aggregator's job is the controller's. *)
Definition kind_type (k : member_kind) : WorkerType :=
  match k with UdpMember => SWITCHML_UDP | RoceMember _ _ _ _ => ROCEv2 end.
Record same_job (j : JobState) (ms : list member) (J : job) : Prop := {
  sj_ranks : jb_ranks J = mb_rank <$> ms;
  sj_group : jb_group J = switchml_workers_mgid j;
  sj_type m : m ∈ ms → kind_type (mb_kind m) = jb_type J
}.

Lemma pipeline_same_job j ms slot last port e0 e1 d0 d1 :
  (∀ m, m ∈ ms → Receive.uniform ms m) →
  same_job j ms (Receive.pipeline_job (switchml_workers_mgid j) ms slot last port e0 e1 d0 d1).
Proof.
  intros Huni. split; [done..|]. intros m Hm.
  destruct (Receive.un_kind _ _ _ (Huni m Hm)) as (? & ? & ? & ->). done.
Qed.

Section delivered.
Context `{LF : BfrtLive} `{IH : IdentityHash} `{PR : PacketReplication}.
Context (w0 : world) (V0 : entries) (ms : list member) (w : world).
Context (Hbackground : background V0) (Himplements : implements w0 V0 ms w).
Context (look : lookup_table) (Hlook : resolves (wview w) look).
Context (roce udp : switch_address) (l : sender_locals).

Definition address_for (m : member) : switch_address :=
  match mb_kind m with UdpMember => udp | RoceMember _ _ _ _ => roce end.

Lemma copy_for m eg rid payload :
  m ∈ ms → queue_pairs_fit m → kind_type (mb_kind m) = Pipe.worker_type (eg_md eg) →
  0 ≤ Pipe.pool_index (eg_md eg) < 2 ^ 15 → simulate_egress_drop eg = false →
  (Pipe.packet_type (eg_md eg) = BROADCAST ∧ rid = mb_rank m ∨
   Pipe.packet_type (eg_md eg) = RETRANSMIT ∧ Pipe.worker_id (eg_md eg) = mb_rank m) →
  ∃ h, Egress roce udp look l rid eg payload = Leaves h payload ∧ answer_for (address_for m) m eg h.
Proof.
  intros Hm Hfit Ht Hp Hd Hway. unfold answer_for, address_for, queue_pairs_fit in *.
  assert (Hrun : ∃ eg', (eg' = eg ∨ eg' = set_md (set_worker_id (mb_rank m) (eg_md eg)) eg) ∧
    Pipe.worker_id (eg_md eg') = mb_rank m ∧
    Egress roce udp look l rid eg payload =
      Leaves (match Pipe.worker_type (eg_md eg) with
              | ROCEv2 => RDMASender roce look l eg' no_headers
              | _ => SetDestinationAddress udp look eg' no_headers end) payload).
  { unfold Egress. rewrite Hd. destruct Hway as [[-> ->]|[-> Hr]].
    - eexists. split; [by right|]. done.
    - exists eg. split; [by left|]. done. }
  destruct Hrun as (eg' & He & Hw & ->). eexists. split; [reflexivity|]. rewrite <- Ht.
  destruct (mb_kind m) as [|rkey size message qps] eqn:Hk; simpl.
  - assert (Ha : udp_answer udp m eg' (SetDestinationAddress udp look eg' no_headers)).
    { eapply udp_copy; eauto. by destruct He as [->| ->]. }
    destruct He as [->| ->]; [done|]. destruct Ha. by split.
  - destruct Hfit as [Hlog Hlen].
    assert (Ha : roce_answer roce m rkey (message_log size message) qps eg' (RDMASender roce look l eg' no_headers)).
    { eapply roce_copy; eauto. by destruct He as [->| ->]. }
    destruct He as [->| ->]; [done|]. destruct Ha. by split.
Qed.

(** The copies of a broadcast. *)
Lemma broadcast_copies eg payload :
  (∀ m, m ∈ ms → queue_pairs_fit m ∧ kind_type (mb_kind m) = Pipe.worker_type (eg_md eg)) →
  0 ≤ Pipe.pool_index (eg_md eg) < 2 ^ 15 → simulate_egress_drop eg = false →
  Pipe.packet_type (eg_md eg) = BROADCAST →
  ∃ f, send roce udp (wview w) (wgroups w) look l (Pipe.Multicast (switchml_workers_mgid (w_job w0))) eg payload ≡ₚ
      (λ m, (mb_dev m, Leaves (f m) payload)) <$> ms ∧
    ∀ m, m ∈ ms → answer_for (address_for m) m eg (f m).
Proof.
  intros Hall Hp Hd Hb. set (out m := Egress roce udp look l (mb_rank m) eg payload).
  assert (Hout : ∀ m, m ∈ ms → ∃ h, out m = Leaves h payload ∧ answer_for (address_for m) m eg h).
  { intros m Hm. destruct (Hall m Hm). apply copy_for; auto. }
  exists (λ m, match out m with Leaves h _ => h | _ => no_headers end). split.
  - rewrite (send_multicast w0 V0 ms w Himplements look). apply Permutation_refl', list_fmap_ext.
    intros i m Hi. destruct (Hout m) as (h & Hh & _); [by eapply list_elem_of_lookup_2|].
    unfold out in *. by rewrite Hh.
  - intros m Hm. by destruct (Hout m Hm) as (h & -> & Ha).
Qed.

(** What the workers are to get of a packet [x] that leaves the aggregator. It
    is one of two. A broadcast is the sum of the contributions of all members,
    and one copy goes to every member and to no one else: out of the member's
    own port, to its addresses, as the answer for its kind (for RoCE on its
    queue pair for the slot, with its memory key; for UDP with the pool index
    and the ports of the request). Anything else is a retransmission, and
    leaves once, as the answer for the member that asked. *)
Definition delivered (J : job) (x : Pipe.exit * Pipe.packet) (eg : egress_md) : Prop :=
  ∃ p, 0 ≤ p ∧
    ((result J p (total1 J p) x.2 ∧ ∃ f,
        send roce udp (wview w) (wgroups w) look l x.1 eg (Pipe.blocks x.2) ≡ₚ
          (λ m, (mb_dev m, Leaves (f m) (Pipe.blocks x.2))) <$> ms ∧
        ∀ m, m ∈ ms → answer_for (address_for m) m eg (f m)) ∨
     (∃ m h, m ∈ ms ∧ result J p (jb_d1 J (mb_rank m) p) x.2 ∧
        send roce udp (wview w) (wgroups w) look l x.1 eg (Pipe.blocks x.2) =
          [(jb_port J (mb_rank m), Leaves h (Pipe.blocks x.2))] ∧
        answer_for (address_for m) m eg h)).

Lemma all_delivered J alternate s x eg :
  same_job (w_job w0) ms J → job_ok J → (∀ m, m ∈ ms → queue_pairs_fit m) → 0 ≤ jb_slot J < 2 ^ 14 →
  net_reachable J alternate s → x ∈ nt_out s → slot_of x.2 = jb_slot J →
  carries x.2 eg → simulate_egress_drop eg = false → delivered J x eg.
Proof.
  intros [Hranks Hgroup Htype] Hok Hfit Hslot Hs Hx Hxs (Hmd & _ & _) Hdrop.
  pose proof (net_of_job J alternate s Hs) as [_ Hout]. rewrite Forall_forall in Hout.
  destruct (Hout x Hx) as [Hsvc Hway]. destruct (Hsvc Hxs) as (wid & i & Hsv).
  unfold service in Hsv. simplify_eq.
  destruct (out_sound J alternate Hok s x Hs Hx Hxs) as (p & Hp & Hres).
  assert (Hidx : ∀ second, result J p second x.2 → 0 ≤ Pipe.pool_index (eg_md eg) < 2 ^ 15).
  { intros second (_ & Hi & _). rewrite Hmd, Hi. unfold index.
    pose proof (Z.mod_pos_bound p 2). lia. }
  exists p. split; [done|]. destruct Hres as [[Hm Hr]|(r & Hrank & Hu & Hwid & Hr)].
  - left. split; [done|]. rewrite Hm in *. simpl in Hway. destruct Hway as [Hb _]. rewrite Hgroup.
    apply broadcast_copies; rewrite ?Hmd; [|by rewrite <- Hmd; eapply Hidx|done..].
    intros m Hmm. split; [by apply Hfit|]. rewrite Htype by done. congruence.
  - right. rewrite Hranks in Hrank. apply list_elem_of_fmap in Hrank as (m & -> & Hmm).
    rewrite Hu in *. simpl in Hway. destruct (copy_for m eg 0 (Pipe.blocks x.2)) as (h & Hh & Ha); auto.
    + rewrite Htype, Hmd by done. congruence.
    + by eapply Hidx.
    + right. rewrite Hmd. done.
    + exists m, h. simpl. by rewrite Hh.
Qed.

End delivered.

(** ** The sequence numbers of the answers *)

(** How many of the first passes, by what comes out of them, are numbered for a queue pair. *)
Definition numbers_used (q : Z) (ps : list pass) (out : list (Pipe.packet * Pipe.exit * option Z)) : Z :=
  Z.of_nat (length (filter (λ xy : pass * (Pipe.packet * Pipe.exit * option Z),
    ps_queue_pair xy.1 = q ∧ numbered (Pipe.md xy.2.1.1) = true) (zip ps out))).

Lemma psn_action_value v :
  0 ≤ v < 2 ^ 32 → (psn_action v).1 = v mod 2 ^ 24 ∧ 0 ≤ (psn_action v).2 < 2 ^ 32 ∧
    (psn_action v).2 mod 2 ^ 24 = (v + 1) mod 2 ^ 24.
Proof.
  intros Hv. unfold psn_action. simpl. split; [by apply (Z.land_ones v 24)|].
  split; [by apply Z.mod_pos_bound|]. symmetry. apply (Znumtheory.Zmod_div_mod (2 ^ 24) (2 ^ 32)); [done..|].
  by exists (2 ^ 8).
Qed.

Lemma run_passes_lookup alternate ps cells r (i : nat) x :
  (∀ q, 0 ≤ cells q < 2 ^ 32) → ps !! i = Some x →
  let out := run_passes alternate ps cells r in
  ∃ r1 p e, (∃ r2, run_pass alternate x r1 = (r2, p, e)) ∧ out !! i = Some (p, e, if numbered (Pipe.md p)
    then Some ((cells (ps_queue_pair x) + numbers_used (ps_queue_pair x) (take i ps) out) mod 2 ^ 24) else None).
Proof.
  revert cells r i. induction ps as [|y ps IH]; intros cells r i Hc Hi; [done|].
  cbn [run_passes]. destruct (run_pass alternate y r) as [[r' p'] e'] eqn:Hrun.
  destruct (assign_psn (ps_queue_pair y) (Pipe.md p') cells) as [cells' number] eqn:Ha. unfold assign_psn in Ha.
  pose proof (psn_action_value (cells (ps_queue_pair y)) (Hc _)) as (H1 & H2 & H3).
  destruct (psn_action _) as [psn value]. simpl in H1, H2, H3.
  destruct i as [|i]; simpl in Hi |- *.
  - injection Hi as ->. exists r, p', e'. split; [by eexists|]. unfold numbers_used. simpl. rewrite Z.add_0_r, <- H1.
    destruct (numbered _); by simplify_eq.
  - assert (Hc' : ∀ q, 0 ≤ cells' q < 2 ^ 32).
    { intros q. destruct (numbered _); simplify_eq; [|done]. destruct (decide (ps_queue_pair y = q)) as [<-|Hn];
        by rewrite ?fn_lookup_insert, ?fn_lookup_insert_ne. }
    destruct (IH cells' r' i Hc' Hi) as (r1 & p & e & Hr1 & ->). exists r1, p, e. split; [done|]. do 2 f_equal.
    destruct (numbered (Pipe.md p)); [|done]. f_equal. unfold numbers_used. simpl. rewrite filter_cons. simpl.
    destruct (numbered (Pipe.md p')); injection Ha as ? ?; subst.
    + case_decide as Hq.
      * destruct Hq as [<- _]. rewrite fn_lookup_insert. simpl. rewrite Z.add_mod, H3, <- Z.add_mod by done. f_equal. lia.
      * rewrite fn_lookup_insert_ne by naive_solver. done.
    + by rewrite decide_False by naive_solver.
Qed.

(** A pass that sends a packet on to its harvest. *)
Definition starts_harvest (p : Pipe.packet) (e : Pipe.exit) : Prop :=
  (∃ port, e = Pipe.Recirculate port) ∧
  match Pipe.packet_size (Pipe.md p), Pipe.packet_type (Pipe.md p) with
  | IBV_MTU_256, CONSUME0 => True
  | IBV_MTU_1024, (CONSUME3 | HARVEST0) => Pipe.worker_type (Pipe.md p) = ROCEv2
  | _, _ => False
  end.

Lemma numbered_step alternate port (m : Pipe.switchml_md) (l : Pipe.locals) :
  let '(s, m') := Pipe.NextStep alternate port m l in
  numbered m' = true ↔ starts_harvest (Pipe.Packet m 0 0 0 []) (Pipe.st_exit s).
Proof.
  unfold Pipe.NextStep, numbered, starts_harvest. simpl. unfold Pipe.next_step.
  destruct (Pipe.packet_size m), (Pipe.packet_type m); simpl;
    repeat case_match; simpl; rewrite ?andb_false_r, ?andb_true_r, ?orb_false_r, ?bool_decide_eq_true;
    try (split; [done|]; by intros [[? [=]] ?]); try (split; [by eauto|done]); naive_solver.
Qed.

Lemma numbered_aggregate alternate port r (m : Pipe.switchml_md) l p d0 d1 rest r' p' e :
  Pipe.aggregate alternate port r m l p d0 d1 rest = (r', p', e) →
  numbered (Pipe.md p') = true ↔ starts_harvest (Pipe.Packet m 0 0 0 []) e.
Proof.
  unfold Pipe.aggregate. case_bool_decide as Ht.
  - destruct (if Pipe.last_packet_of_message m then _ else _) as [exps [x0 x1]].
    destruct (Pipe.sum_lanes _ _ _ _ _) as [sums [d0' d1']].
    pose proof (numbered_step alternate port m l) as H. destruct (Pipe.NextStep _ _ _ _) as [s m'].
    intros [= _ <- <-]. exact H.
  - intros [= _ <- <-]. unfold numbered, starts_harvest. simpl. split; [|by intros [[? [=]] _]].
    destruct (Pipe.packet_type m); simpl in Ht; try lia; by rewrite !andb_false_r.
Qed.

Lemma numbered_pass alternate x r r' p e :
  Pipe.drop_ctl (ps_locals x) = false → run_pass alternate x r = (r', p, e) →
  numbered (Pipe.md p) = true ↔ starts_harvest (ps_packet x) e.
Proof.
  destruct x as [port l q p0]. unfold run_pass. simpl. intros Hl. unfold Pipe.Ingress.
  set (y := if bool_decide (Pipe.packet_type (Pipe.md p0) = CONSUME0) then _ else _).
  assert (Hy : service y.1 = service (Pipe.md p0) ∧ Pipe.packet_type y.1 = Pipe.packet_type (Pipe.md p0) ∧
    Pipe.drop_ctl y.2 = false) by (unfold y; by repeat case_match).
  destruct y as [m1 l1]. simpl in Hy. destruct Hy as (Hs & Ht & Hd).
  destruct (Pipe.parse _ _) as [[d0 d1] rest]. rewrite Hd.
  set (z := if Pipe.is_consume _ then _ else _).
  assert (Hz : service z.1.2 = service (Pipe.md p0) ∧
    (Pipe.packet_type z.1.2 = Pipe.packet_type (Pipe.md p0) ∧ Pipe.drop_ctl z.2 = false ∨
     Pipe.packet_type z.1.2 = IGNORE ∧ Pipe.drop_ctl z.2 = true)).
  { rewrite <- Hs, <- Ht. unfold z. destruct (Pipe.is_consume _); [|by split; [|left]].
    unfold Pipe.UpdateAndCheckWorkerBitmap, Pipe.CountWorkers. repeat (case_match; simplify_eq; simpl); auto. }
  destruct z as [[r1 m2] l2]. simpl in Hz. destruct Hz as [Hs2 [[Ht2 Hd2]|[Ht2 Hd2]]]; rewrite Hd2.
  - intros Ha. apply numbered_aggregate in Ha as ->. unfold starts_harvest. simpl. unfold service in Hs2. injection Hs2 as ? ? ? -> -> ?.
    by rewrite Ht2.
  - intros [= _ <- <-]. simpl. unfold numbered. rewrite Ht2. simpl. rewrite !andb_false_r.
    split; [done|]. by intros [[? [=]] _].
Qed.

(** C21. The sequence number of an answer. Of any passes through a pipe, one after
    the other, exactly those that send a packet on to its harvest are given a number:
    of 256 bytes from its first pass (of either kind of worker), of 1024 bytes, RoCE,
    from the last consuming pass. The number counts, modulo 2^24 and whatever the
    register holds, the earlier such passes of packets of the same queue pair,
    among them those of packets that came again too early and whose harvest comes to nothing;
    other queue pairs have no part in it. *)
Theorem answer_psns alternate ps cells r (i : nat) x :
  (∀ q, 0 ≤ cells q < 2 ^ 32) → ps !! i = Some x → Pipe.drop_ctl (ps_locals x) = false →
  let out := run_passes alternate ps cells r in
  ∃ p e number, out !! i = Some (p, e, number) ∧
    (starts_harvest (ps_packet x) e →
     number = Some ((cells (ps_queue_pair x) + numbers_used (ps_queue_pair x) (take i ps) out) mod 2 ^ 24)) ∧
    (¬ starts_harvest (ps_packet x) e → number = None).
Proof.
  intros Hc Hi Hd out. destruct (run_passes_lookup alternate ps cells r i x Hc Hi) as (r1 & p & e & (r2 & Hrun) & Ho).
  eexists p, e, _. split; [exact Ho|].
  pose proof (numbered_pass _ _ _ _ _ _ Hd Hrun) as Hn. split; intros Hh.
  - apply Hn in Hh. by rewrite Hh.
  - destruct (numbered (Pipe.md p)); [|done]. by destruct Hh; apply Hn.
Qed.
End Egress.
