(* ===== verification/PacketLog.v ===== *)
(** * The packet log, from the pipeline to the spreadsheet (p4/DebugLog.p4)

    The switch logs the passes of the aggregation in a register of each pipe,
    once in the ingress and once in the egress; the controller reads the
    registers (py/DebugLog.py) and the converter (tools/convert_log.py) makes
    rows of them. Here the three are put together: which word a pass leaves,
    what is read back from it, which rows there are and in which order; and
    what the entry of a pass fixes of the pass. *)
From stdpp Require Import functions sorting.
From S2P Require Import Prelude PyMonad Bfrt Live World Worker DebugLog ConvertLog Pipeline Egress.

Module PacketLog.
Import Pipe.
#[local] Abbreviation drop := skipn.

(** ** DebugPacketId *)

(** The value before, and the value after. *)
Definition count_action (data : Z) : Z * Z := (data, (data + 1) `mod` 2 ^ 32).
(** The number of the packet, of 19 bits, and the counter after. *)
Definition do_count (counter : Z) : Z * Z :=
  let '(result, data) := count_action counter in (result `mod` 2 ^ 19, data).

(** ** DebugLog and EgressDebugLog *)

(** [x[hi:lo]] *)
Definition slice (hi lo x : Z) : Z := (2 ^ (hi - lo + 1) - 1) .& (x .>> lo).

(** What the log takes from the headers besides [switchml_md]; there is no
    address in a packet of a UDP worker. *)
Record trace := Trace { debug_packet_id : Z; first_packet_of_message : bool; rdma_addr : option Z }.

(** [unset] is what is in the variable when nothing is assigned to it. *)
Definition address_bits (unset : Z) (t : trace) (m : switchml_md) : Z :=
  match rdma_addr t, packet_size m with
  | Some a, IBV_MTU_1024 => slice 17 10 a
  | Some a, IBV_MTU_256 => slice 15 8 a
  | _, _ => slice 7 0 unset
  end.
Definition log_addr (unset : Z) (t : trace) (m : switchml_md) : Z :=
  pack [(address_bits unset t m, 8); (slice 10 0 (debug_packet_id t), 11)].

(** The pairs [(addr, data)] that the register actions store. *)
Definition log_action (unset : Z) (t : trace) (m : switchml_md) (l : locals) : Z * Z :=
  let map_result_nonzero := bool_decide (map_result l ≠ 0) in
  let bitmap_before_nonzero := bool_decide (worker_bitmap_before l ≠ 0) in
  let first_flag := bool_decide (first_last_flag l = 0) in
  let last_flag := bool_decide (first_last_flag l = 1) in
  (log_addr unset t m,
   pack [(slice 8 7 (ingress_port m), 2); (slice 4 0 (worker_id m), 5);
         (bit (first_packet_of_message t), 1); (bit (last_packet_of_message m), 1);
         (bit bitmap_before_nonzero, 1); (bit map_result_nonzero, 1); (bit first_flag, 1); (bit last_flag, 1);
         (packet_type_value (packet_type m), 4); (slice 14 0 (pool_index m), 15)]).
Definition egress_log_action (unset : Z) (t : trace) (m : switchml_md) (egress_port : Z) : Z * Z :=
  (log_addr unset t m,
   pack [(slice 8 7 (ingress_port m), 2); (slice 4 0 (worker_id m), 5);
         (bit (first_packet_of_message t), 1); (bit (last_packet_of_message m), 1);
         (slice 5 2 egress_port, 4);
         (packet_type_value (packet_type m), 4); (slice 14 0 (pool_index m), 15)]).

(** A register of a pipe and the place for the next pair: [execute_log] takes
    one index after the other, and begins again at the end. *)
Definition log_size : Z := 22528.
Record log := Log { position : Z; cells : Z → Z * Z }.
Definition emptied (start : Z) : log := Log start (λ _, (0, 0)).
Definition execute_log (v : Z * Z) (g : log) : log :=
  Log ((position g + 1) `mod` log_size) (<[position g := v]> (cells g)).

(** ** What a pass logs *)

Inductive logged :=
| LoggedIngress (unset : Z) (t : trace) (m : switchml_md) (l : locals)
| LoggedEgress (unset : Z) (t : trace) (m : switchml_md) (egress_port : Z).

Definition pair_of (x : logged) : Z * Z :=
  match x with
  | LoggedIngress unset t m l => log_action unset t m l
  | LoggedEgress unset t m egress_port => egress_log_action unset t m egress_port
  end.
Definition logged_md (x : logged) : switchml_md :=
  match x with LoggedIngress _ _ m _ | LoggedEgress _ _ m _ => m end.
Definition write_all (xs : list logged) (g : log) : log := foldl (λ g x, execute_log (pair_of x) g) g xs.

(** The entry read back: every field cut to its width; in the egress, four bits
    of the port take the places of the flags. *)
Definition entry_of (index pipe : Z) (x : logged) : log_entry :=
  let entry unset t m before result first last := {|
    le_index := index;
    le_capture_pipe := pipe;
    le_address_bits := address_bits unset t m;
    le_packet_id := debug_packet_id t `mod` 2 ^ 11;
    le_ingress_pipe := (ingress_port m / 2 ^ 7) `mod` 2 ^ 2;
    le_worker_id := worker_id m `mod` 2 ^ 5;
    le_first_packet_of_message := first_packet_of_message t;
    le_last_packet_of_message := last_packet_of_message m;
    le_nonzero_bitmap_before := before;
    le_nonzero_map_result := result;
    le_first_worker_for_slot := first;
    le_last_worker_for_slot := last;
    le_packet_type := packet_type m;
    le_pool_index := (pool_index m / 2) `mod` 2 ^ 14;
    le_set := pool_index m `mod` 2 |} in
  match x with
  | LoggedIngress unset t m l =>
      entry unset t m (bool_decide (worker_bitmap_before l ≠ 0)) (bool_decide (map_result l ≠ 0))
        (bool_decide (first_last_flag l = 0)) (bool_decide (first_last_flag l = 1))
  | LoggedEgress unset t m egress_port =>
      entry unset t m (Z.testbit egress_port 5) (Z.testbit egress_port 4)
        (Z.testbit egress_port 3) (Z.testbit egress_port 2)
  end.
(** The word that the controller makes of a pair. *)
Definition word (v : Z * Z) : Z := (v.1 .<< 32) .| v.2.

(** ** Where the pipelines log (switchml.p4) *)

(** [Ingress] up to the log: the registers, the header and the metadata. *)
Definition before_log (in_port : Z) (l0 : locals) (r0 : registers) (p : packet) :
    registers * switchml_md * locals :=
  let m0 := md p in
  let '(m1, l1) :=
    if bool_decide (packet_type m0 = CONSUME0) then (set_ingress_port in_port m0, l0)
    else if bool_decide (packet_type_value CONSUME1 ≤ packet_type_value (packet_type m0)) then
      (m0, ReconstructWorkerBitmap m0 l0)
    else (m0, l0) in
  if drop_ctl l1 then (r0, m1, l1)
  else if is_consume (packet_type m1) then
    let '(r1, m2, l2) := UpdateAndCheckWorkerBitmap r0 m1 l1 in
    let '(r2, l3) := CountWorkers r1 m2 l2 in (r2, m2, l3)
  else (r0, m1, l1).
Definition ingress_log (unset : Z) (t : trace) (in_port : Z) (l0 : locals) (r0 : registers) (p : packet) :
    option logged :=
  let '(_, m, l) := before_log in_port l0 r0 p in
  if drop_ctl l then None
  else if bool_decide (packet_type_value CONSUME0 ≤ packet_type_value (packet_type m))
  then Some (LoggedIngress unset t m l) else None.

(** [Egress] up to the log; a packet that the simulator drops is logged first. *)
Definition egress_log (unset : Z) (t : trace) (simulate_egress_drop : bool) (rid egress_port : Z)
    (m : switchml_md) : option logged :=
  match packet_type m with
  | BROADCAST | RETRANSMIT =>
      let m := if simulate_egress_drop then set_packet_type IGNORE m else m in
      let m := if bool_decide (packet_type m = BROADCAST) then Egress.set_worker_id rid m else m in
      Some (LoggedEgress unset t m egress_port)
  | _ => None
  end.

(** ** One word *)

Lemma slice_range hi lo x : lo ≤ hi → 0 ≤ lo → 0 ≤ slice hi lo x < 2 ^ (hi - lo + 1).
Proof.
  intros H Hl. unfold slice. rewrite field_div_mod by lia. apply Z.mod_pos_bound, Z.pow_pos_nonneg; lia.
Qed.
Lemma slice_eq hi lo x : lo ≤ hi → 0 ≤ lo → slice hi lo x = (x / 2 ^ lo) `mod` 2 ^ (hi - lo + 1).
Proof. intros H Hl. unfold slice. by rewrite field_div_mod by lia. Qed.

Lemma address_bits_range unset t m : 0 ≤ address_bits unset t m < 2 ^ 8.
Proof.
  unfold address_bits. pose proof (slice_range 7 0 unset). pose proof (λ a, slice_range 17 10 a).
  pose proof (λ a, slice_range 15 8 a). destruct (rdma_addr t), (packet_size m); auto with lia.
Qed.

Lemma bit_range b : 0 ≤ bit b < 2 ^ 1.
Proof. by destruct b. Qed.
Lemma packet_type_range t : 0 ≤ packet_type_value t < 2 ^ 4.
Proof. by destruct t. Qed.
#[local] Hint Resolve address_bits_range bit_range packet_type_range Z.mod_pos_bound : core.

Lemma entry_ok index pipe x : log_entry_ok (entry_of index pipe x).
Proof.
  unfold log_entry_ok, fields_ok. destruct x; simpl; repeat constructor; simpl; try lia;
    first [apply bit_range|apply address_bits_range|apply packet_type_range|by apply Z.mod_pos_bound].
Qed.

(** Two neighbouring fields are one. *)
Lemma pack_split pre v w1 w2 a b post :
  0 ≤ w1 → 0 ≤ w2 → 0 ≤ a < 2 ^ w1 → 0 ≤ b < 2 ^ w2 → v = a * 2 ^ w2 + b →
  pack (pre ++ (v, w1 + w2) :: post) = pack (pre ++ (a, w1) :: (b, w2) :: post).
Proof.
  intros H1 H2 Ha Hb ->. unfold pack. rewrite !foldl_app. cbn [foldl fst snd]. f_equal.
  rewrite !lor_add_disjoint; rewrite ?Z.pow_add_r by lia; try lia; nia.
Qed.

Lemma word_pack xs ys :
  fields_ok ys → fields_bits ys = 32 → word (pack xs, pack ys) = pack (xs ++ ys).
Proof.
  intros Hok Hb. rewrite pack_app by done. unfold word. cbn [fst snd].
  destruct (pack_from 0 ys Hok) as [_ Hp]. rewrite Hb in *. by rewrite lor_add_disjoint by lia.
Qed.

Lemma pool_index_split p : slice 14 0 p = (p / 2) `mod` 2 ^ 14 * 2 ^ 1 + p `mod` 2.
Proof.
  rewrite slice_eq, Z.div_1_r by done. change (2 ^ (14 - 0 + 1)) with (2 * 2 ^ 14).
  rewrite Z.rem_mul_r by done. lia.
Qed.
Lemma testbit_bit x n : 0 ≤ n → bit (Z.testbit x n) = (x / 2 ^ n) `mod` 2.
Proof. intros Hn. rewrite <- Z.testbit_spec' by done. by destruct (Z.testbit x n). Qed.
Lemma port_split p :
  slice 5 2 p = bit (Z.testbit p 5) * 2 ^ 3 +
    (bit (Z.testbit p 4) * 2 ^ 2 + (bit (Z.testbit p 3) * 2 ^ 1 + bit (Z.testbit p 2))).
Proof.
  rewrite slice_eq, !testbit_bit by done. change (2 ^ (5 - 2 + 1)) with 16.
  change (2 ^ 5) with 32. change (2 ^ 4) with 16. change (2 ^ 3) with 8. change (2 ^ 2) with 4.
  change (2 ^ 1) with 2. Z.to_euclidean_division_equations. lia.
Qed.

Lemma ingress_split pre t p :
  pack (pre ++ [(t, 4); (slice 14 0 p, 15)]) = pack (pre ++ [(t, 4); ((p / 2) `mod` 2 ^ 14, 14); (p `mod` 2, 1)]).
Proof.
  pose proof (pool_index_split p) as Hs. revert Hs. generalize (slice 14 0 p). intros v Hs.
  change 15 with (14 + 1). rewrite !(cons_middle (t, 4)), !(app_assoc pre).
  apply pack_split; [lia..| | |exact Hs]; by apply Z.mod_pos_bound.
Qed.
Lemma egress_split pre port t p :
  pack (pre ++ [(slice 5 2 port, 4); (t, 4); (slice 14 0 p, 15)]) =
  pack (pre ++ [(bit (Z.testbit port 5), 1); (bit (Z.testbit port 4), 1); (bit (Z.testbit port 3), 1);
                (bit (Z.testbit port 2), 1); (t, 4); ((p / 2) `mod` 2 ^ 14, 14); (p `mod` 2, 1)]).
Proof.
  pose proof (port_split port) as Hs. revert Hs. generalize (slice 5 2 port). intros v Hs.
  rewrite (cons_middle (v, 4)), (app_assoc pre), (ingress_split (pre ++ [(v, 4)])), <- (app_assoc pre).
  pose proof (bit_range (Z.testbit port 5)). pose proof (bit_range (Z.testbit port 4)).
  pose proof (bit_range (Z.testbit port 3)). pose proof (bit_range (Z.testbit port 2)).
  revert Hs. generalize dependent (bit (Z.testbit port 5)). generalize dependent (bit (Z.testbit port 4)).
  generalize dependent (bit (Z.testbit port 3)). generalize dependent (bit (Z.testbit port 2)).
  intros b2 H2 b3 H3 b4 H4 b5 H5 Hs. cbn [app]. change (v, 4) with (v, 1 + 3).
  rewrite (pack_split pre v 1 3 b5 (b4 * 2 ^ 2 + (b3 * 2 ^ 1 + b2))) by lia.
  rewrite (cons_middle (b5, 1)), (app_assoc pre). change 3 with (1 + 2).
  rewrite (pack_split _ _ 1 2 b4 (b3 * 2 ^ 1 + b2)) by lia. rewrite (cons_middle (b4, 1)), (app_assoc _ [(b4, 1)]).
  change 2 with (1 + 1) at 1. rewrite (pack_split _ _ 1 1 b3 b2) by lia. by rewrite <- !app_assoc.
Qed.

Lemma pair_fields x :
  fields_ok match x with
            | LoggedIngress _ t m l =>
                [(slice 8 7 (ingress_port m), 2); (slice 4 0 (worker_id m), 5);
                 (bit (first_packet_of_message t), 1); (bit (last_packet_of_message m), 1);
                 (bit (bool_decide (worker_bitmap_before l ≠ 0)), 1); (bit (bool_decide (map_result l ≠ 0)), 1);
                 (bit (bool_decide (first_last_flag l = 0)), 1); (bit (bool_decide (first_last_flag l = 1)), 1);
                 (packet_type_value (packet_type m), 4); (slice 14 0 (pool_index m), 15)]
            | LoggedEgress _ t m egress_port =>
                [(slice 8 7 (ingress_port m), 2); (slice 4 0 (worker_id m), 5);
                 (bit (first_packet_of_message t), 1); (bit (last_packet_of_message m), 1);
                 (slice 5 2 egress_port, 4); (packet_type_value (packet_type m), 4); (slice 14 0 (pool_index m), 15)]
            end.
Proof.
  unfold fields_ok. destruct x; repeat constructor; cbn [fst snd]; try lia;
    first [apply bit_range|apply packet_type_range|by apply (slice_range 8 7)|by apply (slice_range 4 0)
          |by apply (slice_range 5 2)|by apply (slice_range 14 0)].
Qed.

(** The word of a pass is that of its entry. *)
Lemma word_entry index pipe x : word (pair_of x) = pack (log_fields (entry_of index pipe x)).
Proof.
  pose proof (pair_fields x) as Hok.
  destruct x as [unset t m l|unset t m port]; unfold pair_of, log_action, egress_log_action, log_addr.
  all: rewrite word_pack by done; unfold log_fields, entry_of; cbn -[pack slice bit packet_type_value].
  all: rewrite (slice_eq 10 0), (slice_eq 8 7), (slice_eq 4 0), !Z.div_1_r by done.
  - apply (ingress_split [_; _; _; _; _; _; _; _; _; _]).
  - apply (egress_split [_; _; _; _; _; _]).
Qed.

Lemma word_parsed {S} index pipe x (s : S) :
  parse_log_entry index pipe (word (pair_of x)) s = (Ok (entry_of index pipe x), s).
Proof.
  rewrite (word_entry index pipe). pose proof (log_round_trip (entry_of index pipe x) s (entry_ok _ _ _)) as H.
  by destruct x.
Qed.

Lemma word_range x : 0 ≤ word (pair_of x) < 2 ^ 51.
Proof.
  rewrite (word_entry 0 0). pose proof (proj2 (pack_from 0 _ (entry_ok 0 0 x))) as H. by destruct x.
Qed.

(** The converter's packet of a pass. *)
Definition packet_of (index pipe : Z) (x : logged) : ConvertLog.packet :=
  ConvertLog.of_log_entry (entry_of index pipe x).
Lemma word_converted {S} index pipe x (s : S) :
  ConvertLog.parse index pipe (word (pair_of x)) s = (Ok (packet_of index pipe x), s).
Proof.
  rewrite ConvertLog.convert_agrees by apply word_range. by rewrite run_bind, word_parsed.
Qed.

(** A word of zeros is none of the aggregation's. *)
Lemma word_nonzero x : packet_type (logged_md x) ≠ MIRROR → word (pair_of x) ≠ 0.
Proof.
  intros Ht H. rewrite (word_entry 0 0) in H.
  pose proof (log_field (entry_of 0 0 x) 10 (packet_type_value (packet_type (logged_md x))) 4 15 0xf
    (entry_ok _ _ _)) as Hf. rewrite H in Hf.
  specialize (Hf ltac:(by destruct x) ltac:(by destruct x) eq_refl).
  apply Ht. destruct (packet_type (logged_md x)); first [done|discriminate Hf].
Qed.

(** What the pipelines log is not a word of zeros. *)
Lemma ingress_logged unset t in_port l0 r0 p x :
  ingress_log unset t in_port l0 r0 p = Some x → packet_type (logged_md x) ≠ MIRROR.
Proof.
  unfold ingress_log. destruct (before_log _ _ _ _) as [[r m] l]. destruct (drop_ctl l); [done|].
  case_bool_decide as H; [|done]. intros [= <-] Hm. simpl in Hm. rewrite Hm in H. by apply H.
Qed.
Lemma egress_logged unset t simulate rid port m x :
  egress_log unset t simulate rid port m = Some x → packet_type (logged_md x) ≠ MIRROR.
Proof.
  unfold egress_log. destruct (packet_type m) eqn:Ht; try done; intros [= <-]; simpl;
    destruct simulate; simpl; rewrite ?Ht; simpl; by rewrite ?Ht.
Qed.

(** ** A pass from its entry *)

(** What the entry of a pass does not tell of its header: the parameters of the
    job, the place of the port within its pipe, and the flags that earlier passes
    have left. *)
Record unlogged := Unlogged {
  un_mgid : Z;
  un_num_workers : Z;
  un_packet_size : PacketSize;
  un_worker_type : WorkerType;
  un_port_in_pipe : Z;
  un_first_flag : bool;
  un_last_flag : bool;
  un_map_result_nonzero : bool;
  un_bitmap_before_nonzero : bool
}.
Definition unlogged_of (m : switchml_md) : unlogged :=
  Unlogged (mgid m) (num_workers m) (packet_size m) (worker_type m) (ingress_port m `mod` 2 ^ 7)
    (first_flag m) (last_flag m) (map_result_nonzero m) (bitmap_before_nonzero m).

(** The header and the metadata as the entry tells them. *)
Definition replay_md (u : unlogged) (e : log_entry) : switchml_md :=
  Md (un_mgid u) (le_worker_id e) (2 * le_pool_index e + le_set e) (un_num_workers u) (un_packet_size u)
    (un_worker_type u) (le_packet_type e) (2 ^ 7 * le_ingress_pipe e + un_port_in_pipe u)
    (le_last_packet_of_message e) (un_first_flag u) (un_last_flag u) (un_map_result_nonzero u)
    (un_bitmap_before_nonzero u).
Definition replay (e : log_entry) : locals :=
  Locals 0 (bit (le_nonzero_bitmap_before e))
    (if le_first_worker_for_slot e then 0 else if le_last_worker_for_slot e then 1 else 0xff)
    (bit (le_nonzero_map_result e)) 0 false.

Lemma replay_flag e (v : Z) unset t m l index pipe :
  e = entry_of index pipe (LoggedIngress unset t m l) → v = 0 ∨ v = 1 →
  bool_decide (first_last_flag (replay e) = v) = bool_decide (first_last_flag l = v).
Proof.
  intros -> Hv. apply bool_decide_ext. simpl.
  destruct (decide (first_last_flag l = 0)) as [H0|H0]; [rewrite bool_decide_eq_true_2 by done; lia|].
  rewrite bool_decide_eq_false_2 by done. case_bool_decide; lia.
Qed.
Lemma bit_zero b : bool_decide (bit b = 0) = negb b.
Proof. by destruct b. Qed.

Lemma aggregate_replay alternate in_port r m l p d0 d1 rest e unset t index pipe :
  e = entry_of index pipe (LoggedIngress unset t m l) →
  aggregate alternate in_port r m l p d0 d1 rest = aggregate alternate in_port r m (replay e) p d0 d1 rest.
Proof.
  intros He.
  pose proof (replay_flag e 0 _ _ _ _ _ _ He ltac:(by left)) as H0.
  pose proof (replay_flag e 1 _ _ _ _ _ _ He ltac:(by right)) as H1.
  assert (Hb : bool_decide (worker_bitmap_before (replay e) = 0) = bool_decide (worker_bitmap_before l = 0)).
  { subst e. simpl. by rewrite bit_zero, <- bool_decide_not, (bool_decide_ext _ (worker_bitmap_before l = 0)) by lia. }
  assert (Hm : bool_decide (map_result (replay e) = 0) = bool_decide (map_result l = 0)).
  { subst e. simpl. by rewrite bit_zero, <- bool_decide_not, (bool_decide_ext _ (map_result l = 0)) by lia. }
  unfold aggregate, sum_lanes, ExponentMax, SignificandSum, NextStep, next_step.
  rewrite !bool_decide_not. by rewrite Hb, Hm, H0, H1.
Qed.

(** Numbers within what the log keeps of them. *)
Record within_log (m : switchml_md) : Prop := {
  wl_worker : 0 ≤ worker_id m < 2 ^ 5;
  wl_pool : 0 ≤ pool_index m < 2 ^ 15;
  wl_port : 0 ≤ ingress_port m < 2 ^ 9
}.
Lemma replay_header m e unset t l index pipe :
  within_log m → e = entry_of index pipe (LoggedIngress unset t m l) → replay_md (unlogged_of m) e = m.
Proof.
  intros [Hw Hp Hport] ->. destruct m as [g w i n sz wt ty port last f1 f2 f3 f4]. unfold replay_md, unlogged_of. simpl in *.
  rewrite (Z.mod_small w) by lia. f_equal.
  - rewrite (Z.mod_small (i / 2)) by (split; [apply Z.div_pos; lia|apply Z.div_lt_upper_bound; lia]).
    by rewrite <- Z.div_mod.
  - rewrite (Z.mod_small (port / _)) by (split; [apply Z.div_pos; lia|apply Z.div_lt_upper_bound; lia]).
    by rewrite <- Z.div_mod.
Qed.
Lemma before_log_within in_port l0 r0 p :
  within_log (md p) → 0 ≤ in_port < 2 ^ 9 → within_log (before_log in_port l0 r0 p).1.2.
Proof.
  intros [Hw Hp Hport] Hin. unfold before_log.
  set (y := if bool_decide (packet_type (md p) = CONSUME0) then _ else _).
  assert (Hy : within_log y.1) by (unfold y; by repeat case_match).
  destruct y as [m1 l1]. destruct (drop_ctl l1); [done|]. destruct (is_consume _); [|done].
  simpl in Hy. destruct Hy.
  unfold UpdateAndCheckWorkerBitmap, CountWorkers. by repeat (case_match; simplify_eq; simpl).
Qed.

(** C34. What the entry of a pass fixes. A pass through the ingress pipeline is
    logged, or it leaves no packet for the aggregation. When it is logged (with at
    most 32 workers, as the controller has it: the log has five bits for them), the last
    part of it is done again from the entry that the controller parses: the
    packet type, the worker, the pool index, the pipe, the flag of the last
    packet and the four flags of the slot are taken from the entry, and only what
    the log does not hold ([unlogged]), the packet's exponents and data and the
    registers are given. The registers, the packet and the way out are those of
    the pass. *)
Theorem pass_replayed alternate in_port l0 r0 p unset t index pipe :
  within_log (md p) → 0 ≤ in_port < 2 ^ 9 →
  let '(d0, d1, rest) := parse (packet_type (md p)) (blocks p) in
  let '(r1, m, _) := before_log in_port l0 r0 p in
  match ingress_log unset t in_port l0 r0 p with
  | Some x =>
      ∃ e, (∀ S (s : S), parse_log_entry index pipe (word (pair_of x)) s = (Ok e, s)) ∧
        ∀ u, u = unlogged_of m →
          Ingress alternate in_port l0 r0 p =
            aggregate alternate in_port r1 (replay_md u e) (replay e)
              (Packet (replay_md u e) (e0 p) (e1 p) (tag p) (blocks p)) d0 d1 rest
  | None => ∃ p' e, Ingress alternate in_port l0 r0 p = (r1, p', e) ∧ (e = Drop ∨ e = OtherTraffic)
  end.
Proof.
  intros Hm Hin. pose proof (before_log_within in_port l0 r0 p Hm Hin) as Hw.
  destruct (parse _ _) as [[d0 d1] rest] eqn:Hp. unfold ingress_log.
  assert (Hi : Ingress alternate in_port l0 r0 p =
    let '(r1, m, l) := before_log in_port l0 r0 p in
    if drop_ctl l then (r1, Packet m (e0 p) (e1 p) (tag p) (blocks p), Drop)
    else aggregate alternate in_port r1 m l p d0 d1 rest).
  { unfold Ingress, before_log. rewrite Hp. by repeat case_match; simplify_eq. }
  destruct (before_log in_port l0 r0 p) as [[r1 m] l]. rewrite Hi. simpl in Hw. destruct (drop_ctl l).
  { eexists _, _. split; [done|by left]. }
  case_bool_decide as Ht.
  - eexists. split; [intros S s; apply word_parsed|]. intros u ->.
    rewrite (replay_header m _ unset t l index pipe Hw eq_refl).
    by rewrite (aggregate_replay alternate in_port r1 m l p d0 d1 rest _ unset t index pipe eq_refl).
  - unfold aggregate. rewrite bool_decide_eq_false_2 by done. eexists _, _. split; [done|by right].
Qed.

(** ** The register of a pipe *)

(** What is in the cell at the distance [d] from where the log began: of the
    passes that were put there, the last. *)
Definition latest (d : Z) (xs : list logged) : option logged :=
  let n := Z.of_nat (length xs) in
  if bool_decide (d < n) then xs !! Z.to_nat (n - 1 - (n - 1 - d) `mod` log_size) else None.

Ltac by_division := unfold log_size in *; Z.to_euclidean_division_equations; lia.

Lemma written start xs i :
  0 ≤ start < log_size → 0 ≤ i < log_size →
  position (write_all xs (emptied start)) = (start + Z.of_nat (length xs)) `mod` log_size ∧
  cells (write_all xs (emptied start)) i =
    from_option pair_of (0, 0) (latest ((i - start) `mod` log_size) xs).
Proof.
  intros Hs Hi. induction xs as [|x xs [IHp IHc]] using rev_ind.
  { unfold latest. simpl. rewrite bool_decide_eq_false_2 by by_division. split; [by_division|done]. }
  unfold write_all in *. rewrite foldl_app. cbn [foldl execute_log position cells].
  revert IHp IHc. generalize (foldl (λ g x, execute_log (pair_of x) g) (emptied start) xs). intros g IHp IHc.
  rewrite length_app, Nat2Z.inj_add, IHp. simpl Z.of_nat. split; [by_division|]. unfold latest in *.
  rewrite length_app, Nat2Z.inj_add. simpl Z.of_nat.
  destruct (decide (i = (start + Z.of_nat (length xs)) `mod` log_size)) as [Hd|Hd].
  - rewrite Hd at 1. rewrite fn_lookup_insert, bool_decide_eq_true_2 by by_division.
    replace (Z.to_nat _) with (length xs) by by_division. by rewrite list_lookup_middle.
  - rewrite fn_lookup_insert_ne, IHc by done.
    destruct (decide ((i - start) `mod` log_size < Z.of_nat (length xs))) as [Hl|Hl].
    + rewrite !bool_decide_eq_true_2 by by_division. rewrite lookup_app_l by by_division.
      do 2 f_equal. by_division.
    + by rewrite !bool_decide_eq_false_2 by by_division.
Qed.

(** The passes in the order of their cells. *)
Definition by_index (start : Z) (xs : list logged) : list (Z * logged) :=
  omap (λ i, pair i <$> latest ((i - start) `mod` log_size) xs) (range 0 log_size).

(** Passes in cells that follow each other. *)
Definition segment (a : Z) (xs : list logged) : list (Z * logged) :=
  imap (λ j x, (a + Z.of_nat j, x)) xs.

Lemma segment_cons a x xs : segment a (x :: xs) = (a, x) :: segment (a + 1) xs.
Proof.
  unfold segment. simpl. rewrite Z.add_0_r. f_equal. apply imap_ext. intros j y _. simpl. f_equal. lia.
Qed.
Lemma segment_app a xs ys : segment a (xs ++ ys) = segment a xs ++ segment (a + Z.of_nat (length xs)) ys.
Proof.
  unfold segment. rewrite imap_app. f_equal. apply imap_ext. intros j y _. simpl. f_equal. lia.
Qed.

Lemma omap_segment (f : Z → option (Z * logged)) a b ys :
  b = a + Z.of_nat (length ys) → (∀ j y, ys !! j = Some y → f (a + Z.of_nat j) = Some (a + Z.of_nat j, y)) →
  omap f (range a b) = segment a ys.
Proof.
  intros -> H. unfold range. rewrite Z.add_simpl_l. revert a H.
  induction ys as [|y ys IH]; intros a H; [done|]. rewrite segment_cons.
  cbn [length]. rewrite Nat2Z.inj_succ, seqZ_cons by lia. cbn [omap list_omap].
  pose proof (H 0%nat y eq_refl) as H0. rewrite Z.add_0_r in H0. rewrite H0.
  f_equal. rewrite Z.pred_succ. apply IH. intros j y' Hj. specialize (H (S j) y' Hj).
  by replace (a + Z.of_nat (S j)) with (a + 1 + Z.of_nat j) in H by lia.
Qed.
Lemma omap_none (f : Z → option (Z * logged)) a b : (∀ i, a ≤ i < b → f i = None) → omap f (range a b) = [].
Proof.
  intros H. assert (Hr : Forall (λ i, f i = None) (range a b)).
  { apply Forall_forall. intros i Hi%elem_of_range. by apply H. }
  induction Hr as [|i l Hi _ IH]; [done|]. cbn [omap list_omap]. by rewrite Hi.
Qed.
Lemma range_app a b c : a ≤ b → b ≤ c → range a c = range a b ++ range b c.
Proof.
  intros. unfold range. replace (c - a) with (b - a + (c - b)) by lia. rewrite seqZ_app by lia.
  by replace (a + (b - a)) with b by lia.
Qed.

(** Fewer passes than cells, up to the end of the register or beyond. *)
Lemma by_index_straight start xs :
  0 ≤ start → start + Z.of_nat (length xs) ≤ log_size → by_index start xs = segment start xs.
Proof.
  intros Hs Hn. unfold by_index, latest.
  rewrite (range_app 0 start), (range_app start (start + Z.of_nat (length xs))), !omap_app by lia.
  rewrite (omap_none _ 0 start), (omap_none _ (start + Z.of_nat (length xs))), app_nil_r.
  - apply omap_segment; [lia|]. intros j y Hj. pose proof (lookup_lt_Some _ _ _ Hj).
    rewrite bool_decide_eq_true_2 by by_division. replace (Z.to_nat _) with j by by_division. by rewrite Hj.
  - intros i Hi. by rewrite bool_decide_eq_false_2 by by_division.
  - intros i Hi. rewrite bool_decide_eq_false_2; [done|]. by_division.
Qed.
Lemma by_index_around start xs :
  let c := Z.to_nat (log_size - start) in
  0 ≤ start < log_size → Z.of_nat (length xs) < log_size → log_size < start + Z.of_nat (length xs) →
  by_index start xs = segment 0 (drop c xs) ++ segment start (take c xs).
Proof.
  intros c Hs Hn Hw. assert (Hc : Z.of_nat c = log_size - start) by (unfold c; lia).
  set (e := start + Z.of_nat (length xs) - log_size). unfold by_index, latest.
  rewrite (range_app 0 e), (range_app e start log_size), !omap_app by (unfold e, log_size in *; lia).
  rewrite (omap_none _ e start). 2: { intros i Hi. rewrite bool_decide_eq_false_2; [done|unfold e in *; by_division]. }
  simpl app. f_equal; apply omap_segment; rewrite ?length_drop, ?length_take; [unfold e; lia| |lia|].
  - intros j y. rewrite lookup_drop. intros Hj. pose proof (lookup_lt_Some _ _ _ Hj).
    rewrite bool_decide_eq_true_2 by by_division. replace (Z.to_nat _) with (c + j)%nat by by_division. by rewrite Hj.
  - intros j y [Hj Hjc]%lookup_take_Some. pose proof (lookup_lt_Some _ _ _ Hj).
    rewrite bool_decide_eq_true_2 by by_division. replace (Z.to_nat _) with j by by_division. by rewrite Hj.
Qed.
(** A register that is full begins with the newest passes. *)
Definition newest_first (start : Z) (xs : list logged) : list logged :=
  let n := Z.of_nat (length xs) in
  let k := (start + n) `mod` log_size in
  drop (Z.to_nat (n - k)) xs ++ take (Z.to_nat (log_size - k)) (drop (Z.to_nat (n - log_size)) xs).
Lemma by_index_full start xs :
  0 ≤ start < log_size → log_size ≤ Z.of_nat (length xs) →
  by_index start xs = segment 0 (newest_first start xs).
Proof.
  intros Hs Hn. unfold newest_first, by_index, latest.
  assert (0 ≤ (start + Z.of_nat (length xs)) `mod` log_size < log_size) by by_division.
  set (k := (start + Z.of_nat (length xs)) `mod` log_size) in *.
  rewrite (range_app 0 k), omap_app, segment_app by lia. f_equal.
  - apply omap_segment; rewrite ?length_drop; [lia|]. intros j y. rewrite lookup_drop. intros Hj.
    pose proof (lookup_lt_Some _ _ _ Hj). rewrite bool_decide_eq_true_2 by by_division.
    replace (Z.to_nat (_ - 1 - _)) with (Z.to_nat (Z.of_nat (length xs) - k) + j)%nat; [by rewrite Hj|].
    unfold k in *. by_division.
  - rewrite length_drop. replace (0 + _) with k by lia.
    apply omap_segment; rewrite ?length_take, ?length_drop; [lia|].
    intros j y [Hj Hjc]%lookup_take_Some. rewrite lookup_drop in Hj. pose proof (lookup_lt_Some _ _ _ Hj).
    rewrite bool_decide_eq_true_2 by by_division.
    replace (Z.to_nat (_ - 1 - _)) with (Z.to_nat (Z.of_nat (length xs) - log_size) + j)%nat; [by rewrite Hj|].
    unfold k in *. by_division.
Qed.

(** ** The rows of a pipe *)

Definition rows (pipe : Z) (l : list (Z * logged)) : list ConvertLog.packet :=
  (λ x, packet_of x.1 pipe x.2) <$> l.

(** The passes with their cells, in the order in which they were logged. *)
Definition in_time (start : Z) (xs : list logged) : list (Z * logged) :=
  imap (λ j x, ((start + Z.of_nat j) `mod` log_size, x)) xs.
(** What the converter shows of a pipe: the passes in time, as long as there
    are fewer than cells. *)
Definition shown (start : Z) (xs : list logged) : list (Z * logged) :=
  if bool_decide (Z.of_nat (length xs) < log_size) then in_time start xs
  else segment 0 (newest_first start xs).

Lemma in_time_straight start xs :
  0 ≤ start → start + Z.of_nat (length xs) ≤ log_size → in_time start xs = segment start xs.
Proof.
  intros Hs Hn. apply imap_ext. intros j x Hj. apply lookup_lt_Some in Hj. simpl. f_equal. by_division.
Qed.
Lemma in_time_around start xs :
  let c := Z.to_nat (log_size - start) in
  0 ≤ start < log_size → Z.of_nat (length xs) < log_size → log_size < start + Z.of_nat (length xs) →
  in_time start xs = segment start (take c xs) ++ segment 0 (drop c xs).
Proof.
  intros c Hs Hn Hw. assert (Hc : Z.of_nat c = log_size - start) by (unfold c; lia).
  unfold in_time, segment. rewrite <- (take_drop c xs) at 1. rewrite imap_app.
  f_equal; apply imap_ext; intros j x Hj; apply lookup_lt_Some in Hj; simpl; f_equal;
    rewrite ?length_take, ?length_drop in *; by_division.
Qed.

Lemma rows_run pipe a xs : ConvertLog.run a (rows pipe (segment a xs)).
Proof.
  revert a. induction xs as [|x xs IH]; intros a; [done|]. rewrite segment_cons. split; [|apply IH].
  by destruct x.
Qed.

(** The converter takes the cells in their order and turns the list round
    where they do not follow each other. *)
Lemma rotated pipe start xs :
  0 ≤ start < log_size →
  ConvertLog.rotate_packet_list (rows pipe (by_index start xs)) = rows pipe (shown start xs).
Proof.
  intros Hs. unfold shown. case_bool_decide as Hn.
  - destruct (decide (start + Z.of_nat (length xs) ≤ log_size)) as [Hw|Hw].
    + rewrite by_index_straight, in_time_straight by lia.
      by eapply (ConvertLog.rotate_restores_order _ []), rows_run.
    + rewrite by_index_around, in_time_around by lia. set (c := Z.to_nat (log_size - start)).
      assert (Hc : Z.of_nat c = log_size - start) by (unfold c; lia).
      unfold rows. rewrite !fmap_app. apply (ConvertLog.rotate_restores_order _ _ 0 start); try apply rows_run.
      * intros H%(f_equal length). rewrite length_fmap in H. unfold segment in H.
        rewrite length_imap, length_drop in H. simpl in H. lia.
      * intros H%(f_equal length). rewrite length_fmap in H. unfold segment in H.
        rewrite length_imap, length_take in H. simpl in H. lia.
      * rewrite length_fmap. unfold segment. rewrite length_imap, length_drop. lia.
  - rewrite by_index_full by lia. by eapply (ConvertLog.rotate_restores_order _ []), rows_run.
Qed.

(** ** What the controller reads *)

Abbreviation words := (Z * Z * Z * Z)%type.

(** A register as the driver shows it: the cells of the four pipes. *)
Definition register_row (gress : string) (g : Z → log) (i : Z) : row :=
  let cell k := cells (g k) i in
  Row [KeyTuple "$REGISTER_INDEX" (VInt i)] {["$REGISTER_INDEX" := VInt i]}
    {[(gress +:+ ".debug_log.log.addr")%string := VInts [(cell 0).1; (cell 1).1; (cell 2).1; (cell 3).1];
      (gress +:+ ".debug_log.log.data")%string := VInts [(cell 0).2; (cell 1).2; (cell 2).2; (cell 3).2]]}.

Definition words_of (g : Z → log) (i : Z) : words :=
  (word (cells (g 0) i), word (cells (g 1) i), word (cells (g 2) i), word (cells (g 3) i)).
Definition item (g : Z → log) (i : Z) : option words :=
  if DebugLog.empty_words (words_of g i) then None else Some (words_of g i).

Section reading.
Context `{BF : Bfrt}.

Lemma log_row_read gress g i w :
  gress ∈ ["Ingress"; "Egress"] → DebugLog.log_row gress (register_row gress g i) w = (Ok (i, words_of g i), w).
Proof. intros [->|[->|[]%not_elem_of_nil]%elem_of_cons]%elem_of_cons; reflexivity. Qed.

Lemma log_values_read gress g acc ixs w :
  gress ∈ ["Ingress"; "Egress"] → NoDup ixs → (∀ i, i ∈ ixs → acc !! i = None) →
  ∃ m, DebugLog.log_values gress acc (register_row gress g <$> ixs) w = (Ok m, w) ∧
    ∀ i, m !! i = if decide (i ∈ ixs) then item g i else acc !! i.
Proof.
  intros Hg. revert acc. induction ixs as [|i ixs IH]; intros acc Hnd Hacc.
  { exists acc. split; [done|]. intros i. rewrite decide_False; [done|apply not_elem_of_nil]. }
  apply NoDup_cons in Hnd as [Hi Hnd]. cbn [fmap list_fmap DebugLog.log_values].
  rewrite run_bind, log_row_read by done.
  set (acc' := if DebugLog.empty_words (words_of g i) then acc else <[i:=words_of g i]> acc).
  assert (Hacc' : ∀ k, acc' !! k = if decide (k = i) then item g i else acc !! k).
  { intros k. unfold acc', item. destruct (decide (k = i)) as [->|Hk]; destruct (DebugLog.empty_words _).
    - apply Hacc. left.
    - apply lookup_insert_eq.
    - done.
    - by apply lookup_insert_ne. }
  destruct (IH acc' Hnd) as (m & Hm & Hl).
  { intros k Hk. rewrite Hacc', decide_False by (by intros ->). apply Hacc. by right. }
  exists m. split; [exact Hm|]. intros k. rewrite Hl, Hacc'.
  destruct (decide (k = i)) as [->|Hk].
  - rewrite decide_False, decide_True by (done || left). done.
  - destruct (decide (k ∈ ixs)) as [Hin|Hin]; [rewrite decide_True by by right|rewrite decide_False by (by intros [|]%elem_of_cons)];
      done.
Qed.

(** A dict as it is in the file: its items by key. *)
Definition in_file (m : gmap Z words) (items : list (Z * words)) : Prop :=
  items ≡ₚ map_to_list m ∧ StronglySorted (λ x y, x.1 < y.1) items.

Lemma omap_sorted {A} (f : Z → option (Z * A)) a n :
  (∀ i y, f i = Some y → y.1 = i) → StronglySorted (λ x y, x.1 < y.1) (omap f (seqZ a n)).
Proof.
  intros Hf. destruct (decide (n ≤ 0)) as [Hn|Hn]; [rewrite seqZ_nil by done; constructor|].
  rewrite <- (Z2Nat.id n) by lia. revert a. induction (Z.to_nat n) as [|k IH]; intros a; [constructor|].
  rewrite Nat2Z.inj_succ, seqZ_cons, Z.pred_succ by lia. cbn [omap list_omap].
  destruct (f a) as [y|] eqn:Hy; [|apply IH]. constructor; [apply IH|].
  apply Forall_forall. intros x (i & Hi%elem_of_seqZ & Hx)%list_elem_of_omap. apply Hf in Hx, Hy. lia.
Qed.
Lemma sorted_NoDup {A} (l : list (Z * A)) : StronglySorted (λ x y, x.1 < y.1) l → NoDup l.
Proof.
  induction 1 as [|x l _ IH Hx]; constructor; [|done]. intros Hin.
  rewrite Forall_forall in Hx. specialize (Hx x Hin). lia.
Qed.

Lemma in_file_items g m items :
  (∀ i, m !! i = if decide (i ∈ range 0 log_size) then item g i else None) → in_file m items →
  items = omap (λ i, pair i <$> item g i) (range 0 log_size).
Proof.
  intros Hm [Hp Hs].
  assert (Ho : StronglySorted (λ x y, x.1 < y.1) (omap (λ i, pair i <$> item g i) (range 0 log_size))).
  { apply omap_sorted. intros i y (v & _ & ->)%fmap_Some. done. }
  apply (StronglySorted_unique_strong (λ x y, x.1 < y.1)); [lia|done..|].
  rewrite Hp. apply NoDup_Permutation; [apply NoDup_map_to_list|by apply sorted_NoDup|].
  intros [i v]. rewrite elem_of_map_to_list, Hm, list_elem_of_omap. split.
  - case_decide as Hi; [|done]. intros Hv. exists i. by rewrite Hv.
  - intros (k & Hk & (v' & Hv & [= -> ->])%fmap_Some). by rewrite decide_True.
Qed.

End reading.

(** The logs of the four pipes: where each began after it was emptied, and
    what has been logged in it since. *)
Section logs.
Context (starts : Z → Z) (logs : Z → list logged).

Record log_ok : Prop := {
  lo_start pipe : 0 ≤ starts pipe < log_size;
  lo_type pipe x : x ∈ logs pipe → packet_type (logged_md x) ≠ MIRROR
}.
Definition log_registers (pipe : Z) : log := write_all (logs pipe) (emptied (starts pipe)).

Definition cell_of (pipe i : Z) : option logged := latest ((i - starts pipe) `mod` log_size) (logs pipe).
Context (Hok : log_ok).

Lemma omap_cons {A} (f : Z → option A) i ixs : omap f (i :: ixs) = option_list (f i) ++ omap f ixs.
Proof. cbn [omap list_omap]. by destruct (f i). Qed.
Lemma cell_in pipe i x : cell_of pipe i = Some x → x ∈ logs pipe.
Proof.
  unfold cell_of, latest. case_bool_decide; [|done]. by intros ?%list_elem_of_lookup_2.
Qed.
Lemma cell_word pipe i :
  0 ≤ i < log_size →
  word (cells (log_registers pipe) i) = from_option (λ x, word (pair_of x)) 0 (cell_of pipe i).
Proof.
  intros Hi. unfold log_registers.
  rewrite (proj2 (written (starts pipe) (logs pipe) i (lo_start Hok pipe) Hi)). fold (cell_of pipe i).
  by destruct (cell_of pipe i).
Qed.
Lemma cell_empty pipe i :
  0 ≤ i < log_size → word (cells (log_registers pipe) i) = 0 → cell_of pipe i = None.
Proof.
  intros Hi. rewrite cell_word by done. destruct (cell_of pipe i) as [x|] eqn:Hx; [|done].
  intros H. by destruct (word_nonzero x (lo_type Hok _ _ (cell_in _ _ _ Hx)) H).
Qed.

(** The rows of the cells in [ixs]. *)
Definition rows_at (ixs : list Z) (pipe : Z) : list ConvertLog.packet :=
  rows pipe (omap (λ i, pair i <$> cell_of pipe i) ixs).
Lemma rows_at_cons i ixs pipe :
  rows_at (i :: ixs) pipe = rows pipe (option_list (pair i <$> cell_of pipe i)) ++ rows_at ixs pipe.
Proof. unfold rows_at. cbn [omap list_omap]. by destruct (cell_of pipe i). Qed.

Lemma one_word {S} pipe i (s : S) :
  0 ≤ i < log_size →
  (if bool_decide (word (cells (log_registers pipe) i) ≠ 0)
   then p ← ConvertLog.parse i pipe (word (cells (log_registers pipe) i)); mret [p] else mret []) s =
  (Ok (rows pipe (option_list (pair i <$> cell_of pipe i))), s).
Proof.
  intros Hi. rewrite cell_word by done. destruct (cell_of pipe i) as [x|] eqn:Hx; [|done]. cbn [from_option].
  rewrite bool_decide_eq_true_2 by by apply word_nonzero, (lo_type Hok pipe), (cell_in _ i).
  by rewrite run_bind, word_converted.
Qed.

Lemma parse_side_read {S} ixs (s : S) :
  (∀ i, i ∈ ixs → 0 ≤ i < log_size) →
  ConvertLog.parse_side (omap (λ i, pair i <$> item log_registers i) ixs) s =
    (Ok (rows_at ixs 0, rows_at ixs 1, rows_at ixs 2, rows_at ixs 3), s).
Proof.
  induction ixs as [|i ixs IH]; intros Hi; [done|]. rewrite !rows_at_cons, omap_cons.
  assert (Hi0 : 0 ≤ i < log_size) by (apply Hi; left).
  specialize (IH (λ k Hk, Hi k (list_elem_of_further _ _ _ Hk))).
  destruct (item log_registers i) as [v|] eqn:Hv; unfold item in Hv;
    destruct (DebugLog.empty_words (words_of log_registers i)) eqn:He; simplify_eq.
  2: { unfold DebugLog.empty_words, words_of in He. apply bool_decide_eq_true in He. injection He as H0 H1 H2 H3.
    rewrite !(cell_empty _ i) by done. exact IH. }
  cbn [fmap option_fmap option_map].
  change (option_list (Some ?x) ++ ?l) with (x :: l). cbn [ConvertLog.parse_side].
  change (ConvertLog.pipe_word 0 (words_of log_registers i)) with (word (cells (log_registers 0) i)).
  change (ConvertLog.pipe_word 1 (words_of log_registers i)) with (word (cells (log_registers 1) i)).
  change (ConvertLog.pipe_word 2 (words_of log_registers i)) with (word (cells (log_registers 2) i)).
  change (ConvertLog.pipe_word 3 (words_of log_registers i)) with (word (cells (log_registers 3) i)).
  do 4 (rewrite run_bind, one_word by done). by rewrite run_bind, IH.
Qed.

(** What the converter shows of one side. *)
Definition table : list ConvertLog.packet :=
  rows 0 (shown (starts 0) (logs 0)) ++ rows 1 (shown (starts 1) (logs 1)) ++
  rows 2 (shown (starts 2) (logs 2)) ++ rows 3 (shown (starts 3) (logs 3)).

Lemma rows_by_index pipe : rows_at (range 0 log_size) pipe = rows pipe (by_index (starts pipe) (logs pipe)).
Proof. unfold rows_at, by_index, cell_of. done. Qed.
Lemma side_table :
  ConvertLog.rotate_side (rows_at (range 0 log_size) 0, rows_at (range 0 log_size) 1,
    rows_at (range 0 log_size) 2, rows_at (range 0 log_size) 3) = table.
Proof.
  unfold ConvertLog.rotate_side, table. pose proof (lo_start Hok) as Hs.
  by rewrite !rows_by_index, (rotated 0 _ _ (Hs 0)), (rotated 1 _ _ (Hs 1)), (rotated 2 _ _ (Hs 2)), (rotated 3 _ _ (Hs 3)).
Qed.
End logs.

(** ** From the log to the rows *)

Section read_back.
Context `{BF : Bfrt}.

(** The driver's answer to reading a register: a row per index, in some order. *)
Definition answers (s : sw) (t gress : string) (g : Z → log) : Prop :=
  ∃ rs, (bf_call (EntryGet t None true) s).1 = RRows rs ∧ rs ≡ₚ register_row gress g <$> range 0 log_size.

Lemma values_read s t gress g w :
  gress ∈ ["Ingress"; "Egress"] → answers s t gress g → w_sw w = s →
  ∃ m, (∀ B (f : gmap Z words → M world B),
          (rs ← entry_get t None true; v ← DebugLog.log_values gress ∅ rs; f v) w =
            f m (after (EntryGet t None true) w)) ∧
    ∀ items, in_file m items → items = omap (λ i, pair i <$> item g i) (range 0 log_size).
Proof.
  intros Hg (rs & Hrs & Hp) <-.
  apply Permutation_map_inv in Hp as (ixs & -> & Hixs).
  destruct (log_values_read gress g ∅ ixs (after (EntryGet t None true) w) Hg) as (m & Hm & Hl).
  { rewrite <- Hixs. apply NoDup_range. }
  { intros i _. apply lookup_empty. }
  exists m. split; [|intros items; apply in_file_items]. 1: intros B f.
  { by rewrite run_bind, (run_entry_get _ _ _ _ (register_row gress g <$> ixs)), run_bind, Hm. }
  intros i. rewrite Hl, lookup_empty.
  by rewrite (decide_ext (i ∈ ixs) (i ∈ range 0 log_size)) by by rewrite Hixs.
Qed.

(** C33. The log read back. The switch has logged passes in the registers of its
    pipes, each from wherever the log was when it was emptied; the controller
    reads the registers and saves them, and the converter makes rows of the
    file. The rows are then those of the passes that were logged, pipe by pipe,
    first of the ingress and then of the egress, every field as the pipeline had
    it, none left out and none made up: in the order in which they were logged,
    as long as there are fewer than the register has cells; when it is full, the
    passes that are still in it, from the first cell on, where the newest may
    come before the oldest. In the egress, bits of the port stand where the
    ingress has flags, and are read as such. *)
Theorem log_read_back w starts logs egress_starts egress_logs :
  log_ok starts logs → log_ok egress_starts egress_logs →
  answers (w_sw w) DebugLog.log "Ingress" (log_registers starts logs) →
  answers (bf_call (EntryGet DebugLog.log None true) (w_sw w)).2 DebugLog.egress_log "Egress"
    (log_registers egress_starts egress_logs) →
  ∃ ingress egress w', DebugLog.get_log w = (Ok (ingress, egress), w') ∧
    ∀ ingress_items egress_items (S : Type) (s : S), in_file ingress ingress_items → in_file egress egress_items →
      ConvertLog.convert ingress_items egress_items s =
        (Ok (table starts logs ++ table egress_starts egress_logs), s).
Proof.
  intros Hi He Hai Hae. unfold DebugLog.get_log. rewrite run_bind, run_print.
  set (w1 := add_line _ w). destruct (values_read _ _ "Ingress" _ w1 ltac:(left) Hai eq_refl) as (vi & Hvi & Hfi).
  destruct (values_read _ _ "Egress" _ (after (EntryGet DebugLog.log None true) w1) ltac:(right; left) Hae eq_refl)
    as (ve & Hve & Hfe).
  exists vi, ve, (after (EntryGet DebugLog.egress_log None true) (after (EntryGet DebugLog.log None true) w1)).
  split; [by rewrite Hvi, Hve|]. intros items_i items_e S s ->%Hfi ->%Hfe. unfold ConvertLog.convert.
  assert (Hr : ∀ i, i ∈ range 0 log_size → 0 ≤ i < log_size) by by intros i ?%elem_of_range.
  rewrite run_bind, (parse_side_read _ _ Hi) by done. rewrite run_bind, (parse_side_read _ _ He) by done.
  by rewrite !side_table.
Qed.
End read_back.
End PacketLog.
