(* ===== verification/Traffic.v ===== *)
(** * Ordinary traffic (p4/ARPandICMP.p4, p4/NonSwitchMLForward.p4)

    What the switch does with packets that are not the aggregator's: it answers
    ARP requests and pings for its own address, forwards by destination
    address and floods broadcasts; and what the simulators of packet loss add
    to the metadata (p4/DropSimulator.p4). Against the tables as the controller
    writes them. *)
From S2P Require Import Prelude PyMonad PyNum Bfrt Live World Ports Worker PRE NonSwitchMLForward.
From S2P Require Import ARPandICMP DebugLog Pipeline Job JobPorts JobInit JobSpec Lookup Assembly Receive Egress.

Module Traffic.

(** ** Packets *)

(** The headers of ARP for IPv4; and what follows the Ethernet header, as far
    as [parse_ethernet] and the states after it go: addresses are texts, spelled
    as in the tables; of ICMP the type and the checksum are kept. *)
Record arp_ipv4_h := ArpIpv4 {
  src_hw_addr : string; src_proto_addr : string; dst_hw_addr : string; dst_proto_addr : string
}.
Inductive body :=
| Arp (opcode : Z) (arp_ipv4 : option arp_ipv4_h)
| Ipv4 (src_addr dst_addr : string) (icmp : option (Z * Z))
| Other.
Record frame := Frame { eth_dst_addr : string; eth_src_addr : string; fr_body : body }.

Definition REQUEST : Z := 1.
Definition REPLY : Z := 2.
Definition ECHO_REPLY : Z := 0.
Definition ECHO_REQUEST : Z := 8.

(** The way out as the controls leave it: a port, a group with the exclusion
    id, whether the egress pipeline is passed by, and whether the header of
    the aggregation is still in front of the packet. *)
Record way := Way {
  ucast_egress_port : option Z;
  mcast_grp : option (Z * Z);
  bypass_egress : bool;
  switchml_md_valid : bool
}.
Definition no_way : way := Way None None false true.

Section controls.
(** What the match units see of the fields of a header that is not there. *)
Context (absent_int : Z) (absent_text : string) (look : Egress.lookup_table).

(** ** ARPandICMP.p4 *)

Definition arp_and_icmp_fields (f : frame) : packet_fields :=
  let valid (b : bool) := VInt (if b then 1 else 0) in
  let arp_ipv4 := match fr_body f with Arp _ a => a | _ => None end in
  let icmp := match fr_body f with Ipv4 _ _ i => i | _ => None end in
  [("hdr.arp_ipv4.$valid", valid (bool_decide (is_Some arp_ipv4)));
   ("hdr.icmp.$valid", valid (bool_decide (is_Some icmp)));
   ("hdr.arp.opcode", VInt match fr_body f with Arp op _ => op | _ => absent_int end);
   ("hdr.arp_ipv4.dst_proto_addr", VStr (from_option dst_proto_addr absent_text arp_ipv4));
   ("hdr.icmp.msg_type", VInt (from_option fst absent_int icmp));
   ("hdr.ipv4.dst_addr", VStr match fr_body f with Ipv4 _ d _ => d | _ => absent_text end)].

Definition send_back (in_port : Z) (wy : way) : way :=
  Way (Some in_port) (mcast_grp wy) (bypass_egress wy) (switchml_md_valid wy).
Definition send_arp_reply (mac ip : string) (f : frame) : frame :=
  match fr_body f with
  | Arp _ (Some a) =>
      Frame (src_hw_addr a) mac
        (Arp REPLY (Some (ArpIpv4 mac ip (src_hw_addr a) (src_proto_addr a))))
  | _ => f
  end.
Definition send_icmp_echo_reply (mac ip : string) (f : frame) : frame :=
  match fr_body f with
  | Ipv4 src _ (Some _) => Frame (eth_src_addr f) mac (Ipv4 ip src (Some (ECHO_REPLY, 0)))
  | _ => f
  end.

Definition ARPandICMP (in_port : Z) (f : frame) (wy : way) : frame * way :=
  match look ARPandICMP.table (arp_and_icmp_fields f) with
  | None => (f, wy)
  | Some d =>
      match dt_action d, Egress.data_text d "switch_mac", Egress.data_text d "switch_ip" with
      | Some action, Some mac, Some ip =>
          if bool_decide (action = ARPandICMP.send_arp_reply) then (send_arp_reply mac ip f, send_back in_port wy)
          else if bool_decide (action = ARPandICMP.send_icmp_echo_reply) then
            (send_icmp_echo_reply mac ip f, send_back in_port wy)
          else (f, wy)
      | _, _, _ => (f, wy)
      end
  end.

(** ** NonSwitchMLForward.p4 *)

Definition set_egress_port (egress_port : Z) (wy : way) : way :=
  Way (Some egress_port) (mcast_grp wy) true false.
(** [7w0b1000000 ++ ingress_port] *)
Definition exclusion_id (in_port : Z) : Z := (0x40 .<< 9) .| in_port.
Definition flood (flood_mgid in_port : Z) (wy : way) : way :=
  Way (ucast_egress_port wy) (Some (flood_mgid, exclusion_id in_port)) true false.

Definition NonSwitchMLForward (in_port : Z) (f : frame) (wy : way) : way :=
  match look Forward.table [("hdr.ethernet.dst_addr", VStr (eth_dst_addr f))] with
  | None => wy
  | Some d =>
      match Receive.data_field d "egress_port", Receive.data_field d "flood_mgid" with
      | Some port, _ => set_egress_port port wy
      | None, Some mgid => flood mgid in_port wy
      | None, None => wy
      end
  end.

(** ** The end of [Ingress] (switchml.p4), for a packet to be ignored *)

Definition ordinary (in_port : Z) (f : frame) : frame * way :=
  let '(f, wy) := ARPandICMP in_port f no_way in (f, NonSwitchMLForward in_port f wy).
End controls.

(** Where the copies of a packet go: to a port as they are, to a group but for
    the port that is excluded, or through the egress pipeline, which has
    nothing but the debug header for a packet like this. *)
Inductive departure := SentTo (port : Z) | Flooded (group exclusion : Z) | Wrapped (port : Z).
Definition departures (wy : way) : list departure :=
  match ucast_egress_port wy with
  | Some port => [if bypass_egress wy then SentTo port else Wrapped port]
  | None => []
  end ++
  match mcast_grp wy with Some (group, xid) => [Flooded group xid] | None => [] end.

(** ** DropSimulator.p4 *)

(** 16-bit saturating addition. *)
Definition saturating_add16 (a b : Z) : Z := (a + b) `min` (2 ^ 16 - 1).
(** The probability after the simulator has added a random number to it. *)
Definition IngressDropSimulator (rng ingress_drop_probability : Z) : Z :=
  if bool_decide (ingress_drop_probability ≠ 0) then saturating_add16 rng ingress_drop_probability
  else ingress_drop_probability.
Definition EgressDropSimulator (rng egress_drop_probability : Z) : bool :=
  let p := if bool_decide (egress_drop_probability ≠ 0) then saturating_add16 rng egress_drop_probability
           else egress_drop_probability in
  bool_decide (p = 0xffff).

Lemma drops_iff rng p :
  0 ≤ rng → 0 ≤ p < 2 ^ 16 → IngressDropSimulator rng p = 0xffff ↔ p ≠ 0 ∧ 0xffff - p ≤ rng.
Proof.
  intros Hr Hp. unfold IngressDropSimulator, saturating_add16. change (2 ^ 16 - 1) with 0xffff.
  change (2 ^ 16) with 0x10000 in Hp. case_bool_decide as H0; [|lia]. lia.
Qed.

Lemma count_all {A} (P : A → Prop) `{!∀ x, Decision (P x)} l :
  (∀ x, x ∈ l → P x) → length (filter P l) = length l.
Proof.
  induction l as [|x l IH]; intros Hl; [done|].
  rewrite filter_cons_True by (apply Hl; by left). simpl. f_equal. apply IH. intros y Hy. apply Hl. by right.
Qed.
Lemma count_none {A} (P : A → Prop) `{!∀ x, Decision (P x)} l :
  (∀ x, x ∈ l → ¬ P x) → length (filter P l) = 0%nat.
Proof.
  induction l as [|x l IH]; intros Hl; [done|].
  rewrite filter_cons_False by (apply Hl; by left). apply IH. intros y Hy. apply Hl. by right.
Qed.

(** A probability that is not zero has a packet dropped by one more of the 2^16
    random numbers than it says, and zero by none. *)
Theorem drops_in_proportion p :
  0 ≤ p < 2 ^ 16 →
  length (filter (λ rng, IngressDropSimulator rng p = 0xffff) (seqZ 0 (2 ^ 16))) =
    if bool_decide (p = 0) then 0%nat else Z.to_nat (p + 1).
Proof.
  intros Hp. pose proof Hp as Hp'. change (2 ^ 16) with 0x10000 in Hp'. case_bool_decide as H0.
  - apply count_none. intros rng [Hr _]%elem_of_seqZ. rewrite drops_iff by done. tauto.
  - replace (2 ^ 16) with ((0xffff - p) + (p + 1)) by (change (2 ^ 16) with 0x10000; lia).
    rewrite seqZ_app, filter_app, length_app by lia. rewrite count_none, count_all; [apply length_seqZ|..].
    + intros rng Hr%elem_of_seqZ. rewrite drops_iff by lia || done. lia.
    + intros rng Hr%elem_of_seqZ. rewrite drops_iff by lia || done. lia.
Qed.

(** ** The switch answers *)

(** The answer to a packet, if it is a request for the switch's address. *)
Definition answer (mac ip : string) (f : frame) : option frame :=
  match fr_body f with
  | Arp op (Some a) =>
      if bool_decide (op = REQUEST ∧ dst_proto_addr a = ip) then Some (send_arp_reply mac ip f) else None
  | Ipv4 _ dst (Some (t, _)) =>
      if bool_decide (t = ECHO_REQUEST ∧ dst = ip) then Some (send_icmp_echo_reply mac ip f) else None
  | _ => None
  end.

(** The table as the constructor leaves it. *)
Definition answering (mac ip : string) (V : entries) : Prop :=
  ∀ k, V !! (ARPandICMP.table, k) =
    if decide (k = ARPandICMP.arp_key ip) then
      Some (ARPandICMP.reply_data mac ip ARPandICMP.send_arp_reply)
    else if decide (k = ARPandICMP.icmp_key ip) then
      Some (ARPandICMP.reply_data mac ip ARPandICMP.send_icmp_echo_reply)
    else None.

(** Fields at their width. *)
Definition sized (f : frame) : Prop :=
  match fr_body f with
  | Arp op _ => 0 ≤ op < 2 ^ 16
  | Ipv4 _ _ (Some (t, _)) => 0 ≤ t < 2 ^ 8
  | _ => True
  end.

Lemma ternary_any x : ternary_match 0 0 x = true.
Proof. unfold ternary_match. rewrite Z.land_0_r. done. Qed.
Lemma ternary_exact v n x :
  0 ≤ n → 0 ≤ v < 2 ^ n → 0 ≤ x < 2 ^ n → ternary_match v (Z.ones n) x = bool_decide (x = v).
Proof. intros Hn Hv Hx. unfold ternary_match. by rewrite !Z.land_ones, !Z.mod_small. Qed.

Section answers.
Context (absent_int : Z) (absent_text : string).
Abbreviation fields := (arp_and_icmp_fields absent_int absent_text).

Lemma arp_matches ip f :
  sized f → key_matches (fields f) (ARPandICMP.arp_key ip) =
  match fr_body f with
  | Arp op (Some a) => bool_decide (op = REQUEST ∧ dst_proto_addr a = ip)
  | _ => false
  end.
Proof.
  intros Hs. unfold sized in Hs. unfold key_matches, ARPandICMP.arp_key, arp_and_icmp_fields.
  cbn [forallb]. unfold tuple_matches. destruct (fr_body f) as [op [a|]|src dst [[t c]|]|]; simpl; try done.
  change 65535 with (Z.ones 16). rewrite ternary_any, (ternary_exact 1 16 op) by lia.
  unfold REQUEST, ECHO_REQUEST. repeat case_bool_decide; naive_solver.
Qed.

Lemma icmp_matches ip f :
  sized f → key_matches (fields f) (ARPandICMP.icmp_key ip) =
  match fr_body f with
  | Ipv4 _ dst (Some (t, _)) => bool_decide (t = ECHO_REQUEST ∧ dst = ip)
  | _ => false
  end.
Proof.
  intros Hs. unfold sized in Hs. unfold key_matches, ARPandICMP.icmp_key, arp_and_icmp_fields.
  cbn [forallb]. unfold tuple_matches. destruct (fr_body f) as [op [a|]|src dst [[t c]|]|]; simpl; try done.
  change 255 with (Z.ones 8). rewrite ternary_any, (ternary_exact 8 8 t) by lia.
  unfold REQUEST, ECHO_REQUEST. repeat case_bool_decide; naive_solver.
Qed.

Lemma two_rows (ka ki k : key) (da di d : datum) :
  ka ≠ ki →
  (if decide (k = ka) then Some da else if decide (k = ki) then Some di else None) = Some d ↔
  k = ka ∧ d = da ∨ k = ki ∧ d = di.
Proof. intros Hne. repeat case_decide; naive_solver. Qed.

(** The first control answers what is to be answered, and sends it back. *)
Lemma arp_and_icmp_answers V look mac ip in_port f wy :
  Egress.resolves V look → answering mac ip V → sized f →
  ARPandICMP absent_int absent_text look in_port f wy =
  match answer mac ip f with Some reply => (reply, send_back in_port wy) | None => (f, wy) end.
Proof.
  intros Hlook HV Hs. unfold ARPandICMP. pose proof (Hlook ARPandICMP.table (fields f)) as Hl.
  pose proof (arp_matches ip f Hs) as Ha. pose proof (icmp_matches ip f Hs) as Hi.
  assert (Hhit : ∀ k d, hits V ARPandICMP.table (fields f) k d ↔
    (k = ARPandICMP.arp_key ip ∧ d = ARPandICMP.reply_data mac ip ARPandICMP.send_arp_reply ∨
     k = ARPandICMP.icmp_key ip ∧ d = ARPandICMP.reply_data mac ip ARPandICMP.send_icmp_echo_reply) ∧
    key_matches (fields f) k = true).
  { intros k d. unfold hits. by rewrite HV, two_rows. }
  unfold answer. destruct (look _ _) as [d|].
  - destruct Hl as (k & [[[-> ->]|[-> ->]] Hm]%Hhit).
    + rewrite Ha in Hm. destruct (fr_body f) as [op [a|]|src dst [[t c]|]|]; try done.
      simpl. rewrite Hm. done.
    + rewrite Hi in Hm. destruct (fr_body f) as [op [a|]|src dst [[t c]|]|]; try done.
      simpl. rewrite Hm. done.
  - assert (Hno : key_matches (fields f) (ARPandICMP.arp_key ip) = false ∧
      key_matches (fields f) (ARPandICMP.icmp_key ip) = false).
    { split; apply not_true_is_false; intros Hm; eapply Hl, Hhit; (split; [|exact Hm]); [by left|by right]. }
    rewrite Ha, Hi in Hno. destruct Hno as [H1 H2].
    destruct (fr_body f) as [op [a|]|src dst [[t c]|]|]; try done; by rewrite ?H1, ?H2.
Qed.

(** The second forwards by the destination address. *)
Lemma forward_look V look mac :
  Egress.resolves V look → (∀ k d, V !! (Forward.table, k) = Some d → ∃ mac, k = Forward.mac_key mac) →
  look Forward.table [("hdr.ethernet.dst_addr", VStr mac)] = V !! (Forward.table, Forward.mac_key mac).
Proof.
  intros Hlook Hk. pose proof (Hlook Forward.table [("hdr.ethernet.dst_addr", VStr mac)]) as Hl.
  assert (Hm : ∀ mac', key_matches [("hdr.ethernet.dst_addr", VStr mac)] (Forward.mac_key mac') =
    bool_decide (mac' = mac)).
  { intros mac'. unfold key_matches, Forward.mac_key. cbn [forallb]. unfold tuple_matches. simpl.
    rewrite andb_true_r. apply bool_decide_ext. naive_solver. }
  destruct (look _ _) as [d|].
  - destruct Hl as (k & HV & Hmatch). destruct (Hk _ _ HV) as [mac' ->]. rewrite Hm, bool_decide_eq_true in Hmatch.
    by subst.
  - destruct (V !! _) as [d|] eqn:HV; [|done]. exfalso. apply (Hl (Forward.mac_key mac) d). split; [done|].
    by rewrite Hm, bool_decide_eq_true.
Qed.
End answers.

(** What the switch forwards: addresses to ports, the broadcast address to the
    group of all ports. *)
Definition forwarding (V : entries) : Prop :=
  ∀ k d, V !! (Forward.table, k) = Some d → ∃ mac, k = Forward.mac_key mac ∧
    (d = Forward.flood_data 0x1235 ∨ ∃ port, d = Forward.port_data port).

(** Where a packet goes that is the answer to another one, or none. *)
Definition destination (V : entries) (answered : bool) (in_port : Z) (mac : string) : list departure :=
  match V !! (Forward.table, Forward.mac_key mac) with
  | None => if answered then [Wrapped in_port] else []
  | Some d =>
      match Receive.data_field d "egress_port" with
      | Some port => [SentTo port]
      | None => (if answered then [SentTo in_port] else []) ++ [Flooded 0x1235 (0x8000 + in_port)]
      end
  end.

Lemma exclusion_rid in_port : 0 ≤ in_port < 2 ^ 9 → exclusion_id in_port = 0x8000 + in_port.
Proof.
  intros H. assert (Hall : Forall (λ p, exclusion_id p = 0x8000 + p) (seqZ 0 (2 ^ 9))).
  { apply (bool_decide_unpack _). by vm_compute. }
  rewrite Forall_forall in Hall. apply Hall, elem_of_seqZ. lia.
Qed.

Lemma ordinary_departs absent_int absent_text V look mac ip in_port f :
  Egress.resolves V look → answering mac ip V → forwarding V → sized f → 0 ≤ in_port < 2 ^ 9 →
  let '(f', wy) := ordinary absent_int absent_text look in_port f in
  f' = default f (answer mac ip f) ∧
  departures wy = destination V (bool_decide (is_Some (answer mac ip f))) in_port (eth_dst_addr f').
Proof.
  intros Hlook HA HF Hs Hp. unfold ordinary.
  rewrite (arp_and_icmp_answers absent_int absent_text V look mac ip) by done.
  set (reply := answer mac ip f). clearbody reply.
  assert (Hk : ∀ k d, V !! (Forward.table, k) = Some d → ∃ mac, k = Forward.mac_key mac).
  { intros k d (m & -> & _)%HF. by exists m. }
  destruct reply as [reply|]; simpl; (split; [done|]); unfold NonSwitchMLForward, destination;
    rewrite (forward_look V look _ Hlook Hk); destruct (V !! _) as [d|] eqn:Hd; try done;
    destruct (HF _ _ Hd) as (m & _ & [->|[port ->]]); by rewrite <- ?exclusion_rid.
Qed.

(** ** From the controller's start *)

(** The worker that a MAC address was learnt from. *)
Definition home (cs : list connection) (mac : string) : option connection :=
  List.find (λ c, bool_decide (mb_mac (cx_member c) = mac)) cs.

(** Where a packet goes when the controller has been built and has learnt the
    workers' addresses: to the worker that it is for, or to everyone but the
    sender. A packet for an unknown address is dropped, but the answer to one
    goes back, behind the debug header of the egress pipeline. *)
Definition reaches (cs : list connection) (answered : bool) (in_port : Z) (mac : string) : list departure :=
  if bool_decide (mac = "ff:ff:ff:ff:ff:ff") then
    (if answered then [SentTo in_port] else []) ++ [Flooded 0x1235 (0x8000 + in_port)]
  else match home cs mac with
       | Some c => [SentTo (cx_dev c)]
       | None => if answered then [Wrapped in_port] else []
       end.

Lemma home_cons c cs mac :
  home (c :: cs) mac = if bool_decide (mb_mac (cx_member c) = mac) then Some c else home cs mac.
Proof. done. Qed.
Lemma home_none cs mac : mac ∉ ((λ c, mb_mac (cx_member c)) <$> cs) → home cs mac = None.
Proof.
  induction cs as [|c cs IH]; intros Hn; [done|]. rewrite home_cons. rewrite fmap_cons, not_elem_of_cons in Hn.
  rewrite bool_decide_eq_false_2 by naive_solver. naive_solver.
Qed.

Lemma learnt_forward cs V mac :
  NoDup ((λ c, mb_mac (cx_member c)) <$> cs) →
  learnt_entries cs V !! (Forward.table, Forward.mac_key mac) =
    match home cs mac with
    | Some c => Some (Forward.port_data (cx_dev c))
    | None => V !! (Forward.table, Forward.mac_key mac)
    end.
Proof.
  revert V. induction cs as [|c cs IH]; intros V Hnd; [done|]. apply NoDup_cons in Hnd as [Hc Hnd].
  change (learnt_entries (c :: cs) V) with (learnt_entries cs
    (<[(Forward.table, Forward.mac_key (mb_mac (cx_member c))) := Forward.port_data (cx_dev c)]> V)).
  rewrite IH, home_cons by done. case_bool_decide as E.
  - subst. rewrite home_none by done. apply lookup_insert_eq.
  - destruct (home cs mac); [done|]. apply lookup_insert_ne. naive_solver.
Qed.

Lemma learnt_rows cs V k d :
  learnt_entries cs V !! (Forward.table, k) = Some d →
  V !! (Forward.table, k) = Some d ∨
  ∃ c, k = Forward.mac_key (mb_mac (cx_member c)) ∧ d = Forward.port_data (cx_dev c).
Proof.
  revert V. induction cs as [|c cs IH]; intros V H; [by left|]. apply IH in H as [H|H]; [|by right].
  apply lookup_insert_Some in H as [[[= <-] <-]|[_ H]]; [right; by exists c|by left].
Qed.

Lemma built_answering mac ip cs V : answering mac ip (learnt_entries cs (built_entries mac ip V)).
Proof.
  intros k. rewrite learnt_entries_ne by done. apply built_arp.
Qed.

Lemma built_forwarding mac ip cs V : forwarding (learnt_entries cs (built_entries mac ip V)).
Proof.
  intros k d [H|(c & -> & ->)]%learnt_rows; [|eexists; split; [done|right; by eexists]].
  rewrite built_forward in H. case_decide as Hk; [|done]. injection H as <-. eexists. split; [done|by left].
Qed.

Lemma built_destination mac ip cs V answered in_port dst :
  NoDup ((λ c, mb_mac (cx_member c)) <$> cs) →
  (∀ c, c ∈ cs → mb_mac (cx_member c) ≠ "ff:ff:ff:ff:ff:ff") →
  destination (learnt_entries cs (built_entries mac ip V)) answered in_port dst =
    reaches cs answered in_port dst.
Proof.
  intros Hnd Hb. unfold destination, reaches. rewrite learnt_forward by done. case_bool_decide as E.
  - rewrite home_none, built_forward, decide_True; [done|by subst|].
    subst dst. intros (c & He & Hc)%list_elem_of_fmap. by apply (Hb c).
  - destruct (home cs dst); [done|]. rewrite built_forward, decide_False; [done|]. by intros [= ?].
Qed.

(** ** The front panel *)

(** A port of the front panel, by its connector and lane, with the settings the
    configuration gives it. *)
Record front_port := FrontPort { fp_at : Z * Z; fp_dev : Z; fp_speed : Z; fp_fec : string }.
Abbreviation front_rids ps := ((λ p, Job.port_rid (fp_dev p)) <$> ps).

(** The ports exist, their settings are ones the controller knows, and nothing
    of them is configured yet. *)
Definition unplugged `{BfrtSafe} (V : entries) (p : front_port) : Prop :=
  hdl !! fp_at p = Some (fp_dev p) ∧ 0 ≤ fp_dev p < 2 ^ 9 ∧
  is_Some (Ports.speed_conversion_table (fp_speed p)) ∧ is_Some (Ports.fec_conversion_table (fp_fec p)) ∧
  V !! ("$PORT", Ports.port_key (fp_dev p)) = None ∧
  V !! ("$pre.node", node_key (Job.port_rid (fp_dev p))) = None.

(** The replication engine's copies of a departure: those of a group without the
    node whose exclusion id is the packet's. [PRE.worker_add] gives each node its
    own replication identifier as its exclusion id. *)
Definition copies `{PacketReplication} (V : entries) (G : gmap Z (list Z)) (d : departure) : list Z :=
  match d with
  | SentTo port | Wrapped port => [port]
  | Flooded group exclusion => (filter (λ rp, rp.1 ≠ exclusion) (replicas V G group)).*2
  end.

(** Where a packet arrives, in the end. *)
Definition arrivals (ps : list front_port) (cs : list connection) (answered : bool) (in_port : Z)
    (mac : string) : list Z :=
  if bool_decide (mac = "ff:ff:ff:ff:ff:ff") then
    (if answered then [in_port] else []) ++ filter (λ d, d ≠ in_port) (fp_dev <$> ps)
  else match home cs mac with
       | Some c => [cx_dev c]
       | None => if answered then [in_port] else []
       end.

(** The nodes of the ports are configured. *)
Definition plugged (V : entries) (ps : list front_port) : Prop :=
  ∀ p, p ∈ ps → V !! ("$pre.node", node_key (Job.port_rid (fp_dev p))) =
    Some (PRE.node_data (Job.port_rid (fp_dev p)) (fp_dev p)).

Section plugging.
Context `{LF : BfrtLive} `{DO : DictOrder} `{ML : MathLog}.

Definition plug (p : front_port) : M world unit :=
  Job.port_add (fp_at p).1 (fp_at p).2 (fp_speed p) (fp_fec p).

(** What the ports need of the controller and the switch. *)
Record pluggable (ps : list front_port) (m : gmap Z Z) (old : list Z) (w : world) (V : entries)
    (G : gmap Z (list Z)) : Prop := {
  pl_ports : Forall (unplugged V) ps;
  pl_once : NoDup (fp_dev <$> ps);
  pl_inactive : ∀ p, p ∈ ps → fp_dev p ∉ active_ports (w_ports w);
  pl_rids : rids (w_pre w) !! all_ports_mgid (w_job w) = Some m;
  pl_rid : ∀ p, p ∈ ps → m !! Job.port_rid (fp_dev p) = None;
  pl_group : G !! all_ports_mgid (w_job w) = Some old;
  pl_member : ∀ p, p ∈ ps → Job.port_rid (fp_dev p) ∉ old;
  pl_room : count_entries "$PORT" V + Z.of_nat (length ps) ≤ bf_size "$PORT";
  pl_nodes : count_entries "$pre.node" V + Z.of_nat (length ps) ≤ bf_size "$pre.node"
}.

Lemma port_rid_inj d d' : Job.port_rid d = Job.port_rid d' → d = d'.
Proof. unfold Job.port_rid. lia. Qed.

Lemma pluggable_new p ps m old w V G :
  pluggable (p :: ps) m old w V G → port_new (fp_dev p) m old w V G.
Proof.
  intros []. inversion pl_ports0 as [|?? (Hd & Hr & Hs & Hf & HP & HN) _]; subst. cbn [length] in *.
  assert (p ∈ p :: ps) by by left. constructor; auto; lia.
Qed.

(** Adding the first port leaves the others to be added. *)
Lemma pluggable_next p ps m old w V G s f :
  pluggable (p :: ps) m old w V G →
  pluggable ps (<[fp_dev p := Job.port_rid (fp_dev p)]> m) (old ++ [Job.port_rid (fp_dev p)])
    (port_added (fp_dev p) m w) (port_entries (fp_dev p) s f V)
    (<[all_ports_mgid (w_job w) := old ++ [Job.port_rid (fp_dev p)]]> G).
Proof.
  intros Hpl. pose proof (pluggable_new _ _ _ _ _ _ _ Hpl) as []. destruct Hpl.
  rewrite fmap_cons in pl_once0. apply NoDup_cons in pl_once0 as [Hp Hnd].
  inversion pl_ports0 as [|?? (_ & Hr & _) Hps]; subst. rewrite Forall_forall in Hps.
  assert (Hne : ∀ q, q ∈ ps → fp_dev q ≠ fp_dev p).
  { intros q Hq E. apply Hp. rewrite <- E. apply list_elem_of_fmap. by exists q. }
  cbn [length] in *. constructor; try done.
  - apply Forall_forall. intros q Hq. destruct (Hps q Hq) as (? & ? & ? & ? & ? & ?). specialize (Hne q Hq).
    unfold unplugged, port_entries. repeat (split; [assumption|]). split.
    + rewrite lookup_insert_ne by done. rewrite lookup_insert_ne; [done|]. by intros [= ?].
    + rewrite lookup_insert_ne; [by rewrite lookup_insert_ne|]. intros [= ?]. apply Hne. by apply port_rid_inj.
  - intros q Hq. simpl. rewrite not_elem_of_app, list_elem_of_singleton. split; [|by apply Hne].
    apply pl_inactive0. by right.
  - apply lookup_insert_eq.
  - intros q Hq. rewrite lookup_insert_ne; [apply pl_rid0; by right|].
    destruct (Hps q Hq) as (_ & Hq' & _). unfold Job.port_rid. change (2 ^ 9) with 512 in *. lia.
  - apply lookup_insert_eq.
  - intros q Hq. rewrite not_elem_of_app, list_elem_of_singleton. split; [apply pl_member0; by right|].
    intros E%port_rid_inj. by apply (Hne q).
  - unfold port_entries. rewrite count_entries_insert_ne, count_entries_insert by done. lia.
  - unfold port_entries. rewrite count_entries_insert, count_entries_insert_ne by (try done; by rewrite lookup_insert_ne).
    lia.
Qed.

(** All ports are added: their nodes make up the group, and no other table has
    changed. *)
Lemma ends_plug ps m old w0 V G w :
  pluggable ps m old w0 V G → looks w0 V G w →
  ends (for_each ps plug) w (Ok tt) (λ w', ∃ w1 V',
    looks w1 V' (<[all_ports_mgid (w_job w0) := old ++ front_rids ps]> G) w' ∧
    (∀ t k, t ≠ "$PORT" → t ≠ "$pre.node" → V' !! (t, k) = V !! (t, k)) ∧
    (∀ r, (∀ p, p ∈ ps → r ≠ Job.port_rid (fp_dev p)) →
       V' !! ("$pre.node", node_key r) = V !! ("$pre.node", node_key r)) ∧
    plugged V' ps).
Proof.
  revert m old w0 V G w. induction ps as [|p ps IH]; intros m old w0 V G w Hpl Hl.
  { apply ends_ret. exists w0, V. rewrite app_nil_r, insert_id by apply Hpl.
    split_and!; try done. by intros p ?%not_elem_of_nil. }
  pose proof (pluggable_new _ _ _ _ _ _ _ Hpl) as Hnew.
  pose proof (pl_once _ _ _ _ _ _ Hpl) as Hnd. rewrite fmap_cons in Hnd. apply NoDup_cons in Hnd as [Hp _].
  pose proof (pl_ports _ _ _ _ _ _ Hpl) as Hps.
  inversion Hps as [|?? (Hd & _ & [s Hs] & [f Hf] & _) _]; subst.
  cbn [for_each]. destruct (fp_at p) as [c l] eqn:Hat. eapply ends_bind.
  { unfold plug. rewrite Hat. eapply ends_job_port_add; [exact Hd|exact Hs|exact Hf|exact Hnew|exact Hl]. }
  intros w1 Hl1. eapply ends_mono; [eapply IH; [by apply pluggable_next|exact Hl1]|].
  intros w' (w2 & V' & Hl' & Hrest & Hnodes & Hin). exists w2, V'. split_and!.
  - rewrite insert_insert_eq in Hl'. rewrite <- app_assoc in Hl'. exact Hl'.
  - intros t k Ht Ht'. rewrite Hrest by done. unfold port_entries. by rewrite !lookup_insert_ne by congruence.
  - intros r Hr. rewrite Hnodes by (intros q Hq; apply Hr; by right). unfold port_entries.
    rewrite lookup_insert_ne; [by rewrite lookup_insert_ne|]. intros [= E]. apply (Hr p); [by left|done].
  - intros q [->|Hq]%elem_of_cons; [|by apply Hin]. rewrite Hnodes.
    + unfold port_entries. by rewrite lookup_insert_eq.
    + intros q' Hq' E%port_rid_inj. apply Hp. rewrite E. apply list_elem_of_fmap. by exists q'.
Qed.
End plugging.

(** The flood group leads to the ports that have been added. *)
Lemma copies_flooded `{PacketReplication} V G ps in_port :
  G !! 0x1235 = Some (front_rids ps) → plugged V ps →
  copies V G (Flooded 0x1235 (0x8000 + in_port)) ≡ₚ filter (λ d, d ≠ in_port) (fp_dev <$> ps).
Proof.
  intros HG Hin. simpl. rewrite (replicas_nodes V G 0x1235 _ ((λ p, (Job.port_rid (fp_dev p), fp_dev p)) <$> ps) HG).
  - clear. induction ps as [|p ps IH]; [done|]. rewrite !fmap_cons, !filter_cons. simpl.
    unfold Job.port_rid at 1. repeat case_decide; try lia; [|done]. rewrite fmap_cons. by constructor.
  - apply Forall2_fmap, Forall_Forall2_diag, Forall_forall. intros p Hp. by apply Hin.
Qed.

Lemma copies_reach `{PacketReplication} V G ps cs answered in_port mac :
  G !! 0x1235 = Some (front_rids ps) → plugged V ps →
  (reaches cs answered in_port mac ≫= copies V G) ≡ₚ arrivals ps cs answered in_port mac.
Proof.
  intros HG Hin. unfold reaches, arrivals. case_bool_decide.
  - rewrite bind_app, bind_singleton. apply Permutation_app; [by destruct answered|by apply copies_flooded].
  - destruct (home cs mac); [done|]. by destruct answered.
Qed.

Section start.
Context `{LF : BfrtLive} `{DO : DictOrder} `{ML : MathLog} `{PR : PacketReplication}.

(** There is room for the ports next to those that loop back. *)
Record front_panel (V : entries) (ps : list front_port) : Prop := {
  fr_unplugged : Forall (unplugged V) ps;
  fr_once : NoDup (fp_dev <$> ps);
  fr_front : ∀ p, p ∈ ps → fp_dev p ∉ Ports.loopback_ports;
  fr_room : count_entries "$PORT" V + 49 + Z.of_nat (length ps) ≤ bf_size "$PORT";
  fr_nodes : count_entries "$pre.node" V + Z.of_nat (length ps) ≤ bf_size "$pre.node"
}.

Lemma count_add_entries_le t kds V :
  count_entries t (add_entries t kds V) ≤ count_entries t V + Z.of_nat (length kds).
Proof.
  induction kds as [|[k d] kds IH]; simpl; [lia|]. fold (add_entries t kds V).
  destruct (add_entries t kds V !! (t, k)) eqn:Hk.
  - enough (count_entries t (<[(t, k) := d]> (add_entries t kds V)) = count_entries t (add_entries t kds V)) by lia.
    unfold count_entries. rewrite map_filter_insert_True by done. rewrite map_size_insert_Some; [done|].
    exists d0. apply map_lookup_filter_Some. by split.
  - rewrite count_entries_insert by done. lia.
Qed.

(** The constructor leaves the front panel as it was. *)
Lemma built_pluggable ip mac udp_port udp_mask w ps G :
  front_panel (wview w) ps → G !! 0x1235 = Some [] →
  pluggable ps ∅ [] (built ip mac udp_port udp_mask w) (built_entries mac ip (wview w)) G.
Proof.
  intros [] HG. constructor; try done.
  - rewrite Forall_forall in *. intros p Hp. destruct (fr_unplugged0 p Hp) as (? & ? & ? & ? & HP & HN).
    repeat (split; [assumption|]). split; rewrite built_rest by set_solver.
    + unfold loopback_entries. rewrite lookup_add_entries_other; [done|].
      intros Hin. apply (fr_front0 p Hp). rewrite fst_zip in Hin by (by rewrite length_replicate).
      apply list_elem_of_fmap in Hin as (d & [= ->] & Hd). exact Hd.
    + by rewrite lookup_loopback_ne.
  - intros p Hp. apply not_elem_of_nil.
  - intros p Hp. apply not_elem_of_nil.
  - rewrite (count_entries_sub _ _ (loopback_entries (wview w))) by (intros k; apply built_rest; set_solver).
    unfold loopback_entries. pose proof (count_add_entries_le "$PORT"
      (zip loopback_keys (replicate (length loopback_keys) Ports.loopback_data)) (wview w)) as Hle.
    rewrite length_zip_with, length_replicate, Nat.min_id in Hle.
    change (length loopback_keys) with 49%nat in *. lia.
  - rewrite (count_entries_sub _ _ (wview w)); [done|]. intros k. rewrite built_rest by set_solver.
    by apply lookup_loopback_ne.
Qed.

End start.
End Traffic.
