(* ===== verification/Front.v ===== *)
(** * From the wire into the pipeline (p4/parsers.p4, p4/RDMAReceiver.p4, p4/GetWorkerBitmap.p4)

    A frame as it comes in at a port, bit by bit: the parser, which takes it by its
    port for a frame from outside or for a recirculated packet, the two receivers
    with their registers and counters, and the way [Ingress] of p4/switchml.p4
    chooses between the aggregation and ordinary traffic. Against the job that
    the controller has assembled: frames from outside that no member has sent
    never touch the aggregation, whatever is in them. *)
From stdpp Require Import functions relations.
From S2P Require Import Prelude PyText PyMonad PyNum Bfrt Live World Ports Counters Worker PRE.
From S2P Require Import NonSwitchMLForward GetWorkerBitmap SetDstAddr Packets Wire RDMAReceiver.
From S2P Require Import RDMASender ARPandICMP DropSimulator DebugLog Pipeline Aggregation Aggregated.
From S2P Require Import Job JobWorkers JobLoad JobSpec GRPCServer Lookup Assembly Receive Egress Traffic.

Module Front.

(** ** The parser below UDP (parsers.p4, headers.p4) *)

Definition ethernet_h : list Z := [48; 48; 16].
Definition arp_h : list Z := [16; 16; 8; 8; 16].
Definition arp_ipv4_h : list Z := [48; 32; 48; 32].
Definition ipv4_h : list Z := [4; 4; 8; 16; 16; 3; 13; 8; 8; 16; 32; 32].
Definition icmp_h : list Z := [8; 8; 16].
Definition udp_h : list Z := [16; 16; 16; 16].

(** A field of a header, by its place in the layout. *)
Definition fd (n : nat) (h : list Z) : Z := nth n h 0.

(** The headers a frame has, and what is left behind them. *)
Record headers := Headers {
  ethernet : list Z;
  arp : option (list Z);
  arp_ipv4 : option (list Z);
  ipv4 : option (list Z);
  icmp : option (list Z);
  udp : option (list Z);
  above_udp : parsed;
  payload : list bool
}.

(** [parse_port_metadata]: the ports whose packets the parser takes for recirculated
    ones, whoever has sent them; nothing is ever resubmitted. The other ports are
    those of the first pipe but 64 and 68, and port 320. *)
Definition recirculates (port : Z) : bool :=
  bool_decide (port = 64 ∨ port = 68 ∨ port ≠ 320 ∧ port .& 0x180 ≠ 0).

Definition parse_arp (eth : list Z) (bs : list bool) : option headers :=
  '(a, bs) ← extract arp_h bs;
  if bool_decide (fd 0 a = 0x0001 ∧ fd 1 a = 0x0800) then
    '(a4, bs) ← extract arp_ipv4_h bs;
    Some (Headers eth (Some a) (Some a4) None None None NotSwitchML bs)
  else Some (Headers eth (Some a) None None None None NotSwitchML bs).

Definition parse_ipv4 (eth : list Z) (bs : list bool) : option headers :=
  '(ip, bs) ← extract ipv4_h bs;
  if bool_decide (fd 1 ip = 5 ∧ fd 6 ip = 0 ∧ fd 8 ip = 1) then
    '(i, bs) ← extract icmp_h bs;
    Some (Headers eth None None (Some ip) (Some i) None NotSwitchML bs)
  else if bool_decide (fd 1 ip = 5 ∧ fd 6 ip = 0 ∧ fd 8 ip = 17) then
    '(u, bs) ← extract udp_h bs;
    '(above, bs) ← parse_udp (fd 1 u) bs;
    Some (Headers eth None None (Some ip) None (Some u) above bs)
  else Some (Headers eth None None (Some ip) None None NotSwitchML bs).

Definition parse_ethernet (bs : list bool) : option headers :=
  '(eth, bs) ← extract ethernet_h bs;
  if bool_decide (fd 2 eth = 0x0806) then parse_arp eth bs
  else if bool_decide (fd 2 eth = 0x0800) then parse_ipv4 eth bs
  else Some (Headers eth None None None None None NotSwitchML bs).

(** ** The parser for recirculated packets (parsers.p4, types.p4) *)

Definition switchml_md_h : list Z :=
  [16; 16; 1; 15; 2; 14; 8; 2; 2; 4; 1; 6; 9; 2; 3; 19; 1; 1; 1; 1; 1; 1; 1; 1].
Definition switchml_udp_md_h : list Z := [16; 16; 32; 4; 4; 4; 12].
Definition switchml_rdma_md_h : list Z := [24; 24; 64].
Definition switchml_exponents_md_h : list Z := [8; 8].

(** The bridged headers, the tensor index or the address, the two blocks
    [parse_consume] has taken, and the rest. *)
Record recirculated := Recirculated {
  rc_md : list Z;
  rc_tag : Z;
  rc_exponents : list Z;
  rc_data : option (list Z * list Z);
  rc_rest : list bool
}.

Definition parse_consume (m x : list Z) (tag : Z) (bs : list bool) : option recirculated :=
  '(d0, bs) ← extract data_h bs;
  '(d1, bs) ← extract data_h bs;
  Some (Recirculated m tag x (Some (d0, d1)) bs).
(** The states of both worker types, by the packet type: a consume packet has its
    first two blocks taken. *)
Definition parse_recirculate (bs : list bool) : option recirculated :=
  '(m, bs) ← extract switchml_md_h bs;
  '(tag, bs) ←
    (if bool_decide (fd 8 m = worker_type_value ROCEv2) then
       '(x, bs) ← extract switchml_rdma_md_h bs; Some (fd 2 x, bs)
     else if bool_decide (fd 8 m = worker_type_value SWITCHML_UDP) then
       '(x, bs) ← extract switchml_udp_md_h bs; Some (fd 2 x, bs)
     else None);
  '(x, bs) ← extract switchml_exponents_md_h bs;
  if existsb (λ t, bool_decide (fd 9 m = packet_type_value t)) [CONSUME0; CONSUME1; CONSUME2; CONSUME3]
  then parse_consume m x tag bs
  else Some (Recirculated m tag x None bs).

(** The deparser for the headers: those that are there in the order of
    [header_t], in front of the rest of the packet. *)
Definition emit (ws vs : list Z) : list bool := concat (zip_with msb ws vs).
Definition emit_if (ws : list Z) (h : option (list Z)) : list bool := from_option (emit ws) [] h.
Definition emit_above (p : parsed) : list bool :=
  match p with
  | SwitchMLPacket sw d0 d1 ex => emit switchml_h sw ++ emit data_h d0 ++ emit data_h d1 ++ emit exponents_h ex
  | RocePacket bth reth immediate d0 d1 =>
      emit ib_bth_h bth ++ emit_if ib_reth_h reth ++ emit_if ib_immediate_h immediate ++
      emit_if data_h d0 ++ emit_if data_h d1
  | NotSwitchML => []
  end.
Definition deparse (h : headers) : list bool :=
  emit ethernet_h (ethernet h) ++ emit_if arp_h (arp h) ++ emit_if arp_ipv4_h (arp_ipv4 h) ++
  emit_if ipv4_h (ipv4 h) ++ emit_if icmp_h (icmp h) ++ emit_if udp_h (udp h) ++
  emit_above (above_udp h) ++ payload h.

(** The blocks of data in the rest of a packet: those a packet of 1024 bytes
    still has when the parser has taken two. *)
Definition block_of (d : list Z) : Pipe.block := λ n, nth (Z.to_nat n) d 0.
Fixpoint blocks_in (n : nat) (bs : list bool) : list Pipe.block :=
  match n with
  | O => []
  | S n' => match extract data_h bs with
            | Some (d, rest) => block_of d :: blocks_in n' rest
            | None => []
            end
  end.
Definition blocks_of (d0 d1 : option (list Z)) (rest : list bool) : list Pipe.block :=
  block_of (default [] d0) :: block_of (default [] d1) :: blocks_in (length rest / 1024) rest.

(** A recirculated packet as [Pipeline] has it, with its blocks in front again;
    every number of a type within its width has a name. *)
Definition bridged (rc : recirculated) : option Pipe.packet :=
  let m := rc_md rc in
  let b n := bool_decide (fd n m = 1) in
  size ← Receive.packet_size_of (fd 7 m);
  worker_type ← Receive.worker_type_of (fd 8 m);
  t ← packet_type_of (fd 9 m);
  Some (Pipe.Packet
    (Pipe.Md (fd 0 m) (fd 1 m) (fd 3 m) (fd 6 m) size worker_type t (fd 12 m)
       (b 19%nat) (b 20%nat) (b 21%nat) (b 22%nat) (b 23%nat))
    (fd 0 (rc_exponents rc)) (fd 1 (rc_exponents rc)) (rc_tag rc)
    match rc_data rc with
    | Some (d0, d1) => blocks_of (Some d0) (Some d1) (rc_rest rc)
    | None => blocks_in (length (rc_rest rc) / 1024) (rc_rest rc)
    end).
(** The packets that go on in the aggregation without passing a receiver again. *)
Definition reenters (bs : list bool) : option Pipe.packet :=
  pk ← parse_recirculate bs ≫= bridged;
  if bool_decide (packet_type_value CONSUME1 ≤ packet_type_value (Pipe.packet_type (Pipe.md pk)))
  then Some pk else None.

(** Headers as [Traffic] and [Lookup] have them, with the addresses as texts. *)
Definition frame_of (h : headers) : Traffic.frame :=
  Traffic.Frame (mac_str (fd 0 (ethernet h))) (mac_str (fd 1 (ethernet h)))
    match arp h, ipv4 h with
    | Some a, _ => Traffic.Arp (fd 4 a) ((λ x, Traffic.ArpIpv4 (mac_str (fd 0 x)) (ip_str (fd 1 x))
        (mac_str (fd 2 x)) (ip_str (fd 3 x))) <$> arp_ipv4 h)
    | None, Some ip => Traffic.Ipv4 (ip_str (fd 10 ip)) (ip_str (fd 11 ip)) ((λ x, (fd 0 x, fd 2 x)) <$> icmp h)
    | None, None => Traffic.Other
    end.
Definition roce_of (h : headers) (bth : list Z) : roce_header :=
  let ip := default [] (ipv4 h) in
  {| ipv4_src_addr := ip_str (fd 10 ip); ipv4_dst_addr := ip_str (fd 11 ip);
     bth_partition_key := fd 5 bth; bth_opcode := fd 0 bth; bth_dst_qp := fd 9 bth |}.

(** ** The receivers *)

(** The registers and counters of a RoCE receiver, by queue pair. *)
Record rdma := Rdma {
  receiver_data_register : Z → Receive.receiver_data;
  rdma_packet_counter : Z → Z;
  rdma_message_counter : Z → Z;
  rdma_sequence_violation_counter : Z → Z
}.
Definition count (i : Z) (c : Z → Z) : Z → Z := <[i := (c i + 1) `mod` 2 ^ 32]> c.

(** A packet for the aggregation, with the bit of its worker, whether it is
    dropped already, and whether a copy goes to the processor; or a packet to
    be ignored, which may be dropped. *)
Inductive verdict :=
| Consume (p : Pipe.packet) (bitmap : Z) (dropped copy_to_cpu : bool)
| Ignore (dropped : bool).

Section receivers.
Context `{IH : IdentityHash}.
(** What the match units see of a header that is not there, and the choices
    they make. *)
Context (absent_int : Z) (absent_text : string) (look : Egress.lookup_table).

Definition is_immediate (action : string) : bool :=
  bool_decide (action = "Ingress.rdma_receiver.only_packet_immediate"
               ∨ action = "Ingress.rdma_receiver.last_packet_immediate").
(** [copy_immediate_to_exponent]; without it the parser's zeros. *)
Definition exponents_of (immediate : option Z) : Z * Z :=
  match immediate with
  | Some i => ((i .>> 24) .& 0xff, (i .>> 16) .& 0xff)
  | None => (0, 0)
  end.

(** The counts of a packet on queue pair [i]. *)
Definition count_packet (i : Z) (last violation : bool) (st : rdma) : rdma :=
  Rdma (receiver_data_register st) (count i (rdma_packet_counter st))
    (if negb violation && last then count i (rdma_message_counter st) else rdma_message_counter st)
    (if violation then count i (rdma_sequence_violation_counter st)
     else rdma_sequence_violation_counter st).
Definition set_cell (i : Z) (v : Receive.receiver_data) (st : rdma) : rdma :=
  Rdma (<[i := v]> (receiver_data_register st)) (rdma_packet_counter st) (rdma_message_counter st)
    (rdma_sequence_violation_counter st).

(** [tag] is the address as [Pipeline] has it. An entry whose data are not
    those of an action, which the switch would not have taken, does nothing. *)
Definition RDMAReceiver (h : headers) (bth : list Z) (reth immediate : option (list Z))
    (d0 d1 : option (list Z)) (tag : Z) (st : rdma) : rdma * verdict :=
  let r := roce_of h bth in
  match look RDMAReceiver.table (receive_roce_fields r) with
  | None => (st, Ignore false)
  | Some d =>
      let i := QP_INDEX (bth_dst_qp r) in
      match Receive.run_action d (fd 12 bth) (from_option (fd 1) absent_int reth)
              (receiver_data_register st i) with
      | None => (st, Ignore false)
      | Some (cell, rv) =>
          let violation := Z.testbit (Receive.rx_pool_index cell) 31 in
          let m := Receive.rv_md rv in
          let '(x0, x1) := exponents_of
            (if is_immediate (default "" (dt_action d)) then Some (from_option (fd 0) absent_int immediate)
             else None) in
          (count_packet i (Pipe.last_packet_of_message m) violation (set_cell i cell st),
           Consume (Pipe.Packet m x0 x1 tag (blocks_of d0 d1 (payload h)))
             (Receive.rv_bitmap rv) (Receive.rv_dropped rv) violation)
      end
  end.

Definition get_worker_bitmap_fields (in_port : Z) (h : headers) : packet_fields :=
  let ip n := VStr (from_option (λ x, ip_str (fd n x)) absent_text (ipv4 h)) in
  [("ig_intr_md.ingress_port", VInt in_port);
   ("hdr.ethernet.src_addr", VStr (mac_str (fd 1 (ethernet h))));
   ("hdr.ethernet.dst_addr", VStr (mac_str (fd 0 (ethernet h))));
   ("hdr.ipv4.src_addr", ip 10%nat); ("hdr.ipv4.dst_addr", ip 11%nat);
   ("hdr.udp.dst_port", VInt (from_option (fd 1) absent_int (udp h)))].

(** [set_bitmap] with the data of an entry that has all its parameters. *)
Definition set_bitmap (d : datum) (sw d0 d1 ex : list Z) (tag : Z) (rest : list bool) : option verdict :=
  match Receive.data_field d "mgid", Receive.data_field d "worker_type" ≫= Receive.worker_type_of,
    Receive.data_field d "worker_id", Receive.data_field d "packet_size" ≫= Receive.packet_size_of,
    Receive.data_field d "num_workers", Receive.data_field d "worker_bitmap" with
  | Some mgid, Some worker_type, Some worker_id, Some size, Some num_workers, Some bitmap =>
      let '(x0, x1) := Egress.read_exponents (fd 0 ex) in
      Some (Consume
        (Pipe.Packet (Pipe.Md mgid worker_id (Egress.read_pool_index (fd 3 sw)) num_workers size worker_type
           CONSUME0 0 true false false false false) x0 x1 tag (blocks_of (Some d0) (Some d1) rest))
        bitmap false false)
  | _, _, _, _, _, _ => None
  end.
Definition GetWorkerBitmap (in_port : Z) (h : headers) (sw d0 d1 ex : list Z) (tag : Z) : verdict :=
  match look GetWorkerBitmap.table (get_worker_bitmap_fields in_port h) with
  | None => Ignore false
  | Some d =>
      if bool_decide (dt_action d = Some "Ingress.get_worker_bitmap.drop") then Ignore true
      else if bool_decide (dt_action d = Some "Ingress.get_worker_bitmap.set_bitmap") then
        default (Ignore false) (set_bitmap d sw d0 d1 ex tag (payload h))
      else Ignore false
  end.

(** The first part of [Ingress] for a packet from outside. *)
Definition receive (in_port : Z) (h : headers) (tag : Z) (st : rdma) : rdma * verdict :=
  match above_udp h with
  | RocePacket bth reth immediate d0 d1 => RDMAReceiver h bth reth immediate d0 d1 tag st
  | SwitchMLPacket sw d0 d1 ex => (st, GetWorkerBitmap in_port h sw d0 d1 ex tag)
  | NotSwitchML => (st, Ignore false)
  end.

(** ** One pass of a frame (switchml.p4) *)

Inductive outcome :=
| InAggregation (p : Pipe.packet) (e : Pipe.exit)
| AsTraffic (f : Traffic.frame) (wy : Traffic.way)
| Dropped.

(** What follows the receivers. [probability] is that of the port and [rng] the
    simulator's number. *)
Definition go_on (alternate : option Z) (in_port rng probability : Z) (h : headers) (v : rdma * verdict)
    (r : Pipe.registers) : rdma * Pipe.registers * outcome :=
  match v with
  | (st', Consume p bitmap dropped _) =>
      let '(r', p', e) := Pipe.Ingress alternate in_port
        (Pipe.initial bitmap (Traffic.IngressDropSimulator rng probability) dropped) r p in
      (st', r', InAggregation p' e)
  | (st', Ignore true) => (st', r, Dropped)
  | (st', Ignore false) =>
      let '(f, wy) := Traffic.ordinary absent_int absent_text look in_port (frame_of h) in
      (st', r, AsTraffic f wy)
  end.

(** A frame from outside; one that is too short for its headers is dropped. *)
Definition outside_pass (alternate : option Z) (in_port rng probability tag : Z) (bs : list bool)
    (st : rdma) (r : Pipe.registers) : rdma * Pipe.registers * outcome :=
  match parse_ethernet bs with
  | None => (st, r, Dropped)
  | Some h => go_on alternate in_port rng probability h (receive in_port h tag st) r
  end.

(** What a recirculated packet has of the headers of a frame: nothing. *)
Definition no_header : list Z := [absent_int; absent_int; absent_int; absent_int].
Definition no_headers (rest : list bool) : headers := Headers no_header None None None None None NotSwitchML rest.

(** A packet at a recirculation port: by the type in its bridged header it goes on in
    the aggregation, or is received again (without a header for it), or is left to
    the blocks for other traffic. One that no state of the parser takes is
    dropped. *)
Definition inside_pass (alternate : option Z) (in_port rng probability : Z) (bs : list bool)
    (st : rdma) (r : Pipe.registers) : rdma * Pipe.registers * outcome :=
  match parse_recirculate bs with
  | None => (st, r, Dropped)
  | Some rc =>
      let h := no_headers (rc_rest rc) in
      match bridged rc with
      | None => (st, r, Dropped)
      | Some p =>
          if bool_decide (packet_type_value CONSUME1 ≤ packet_type_value (Pipe.packet_type (Pipe.md p))) then
            let '(r', p', e) := Pipe.Ingress alternate in_port (Pipe.initial 0 0 false) r p in
            (st, r', InAggregation p' e)
          else if bool_decide (Pipe.packet_type (Pipe.md p) = CONSUME0) then
            go_on alternate in_port rng probability h
              (st, GetWorkerBitmap in_port h no_header (from_option fst [] (rc_data rc))
                     (from_option snd [] (rc_data rc)) no_header (Pipe.tag p)) r
          else go_on alternate in_port rng probability h (st, Ignore false) r
      end
  end.

(** The pass, by the port. *)
Definition ingress_pass (alternate : option Z) (in_port rng probability tag : Z) (bs : list bool)
    (st : rdma) (r : Pipe.registers) : rdma * Pipe.registers * outcome :=
  if recirculates in_port then inside_pass alternate in_port rng probability bs st r
  else outside_pass alternate in_port rng probability tag bs st r.
End receivers.

(** ** Fields are within their width *)

Lemma from_bits_range bs : 0 ≤ from_bits bs < 2 ^ Z.of_nat (length bs).
Proof.
  assert (H : ∀ a, 0 ≤ a → a * 2 ^ Z.of_nat (length bs) ≤ foldl (λ a b, 2 * a + Z.b2z b) a bs
    < (a + 1) * 2 ^ Z.of_nat (length bs)).
  { induction bs as [|b bs IH]; intros a Ha; cbn [foldl length]; [simpl; lia|].
    rewrite Nat2Z.inj_succ, Z.pow_succ_r by lia.
    pose proof (IH (2 * a + Z.b2z b)) as Hb. destruct b; simpl Z.b2z in *; lia. }
  specialize (H 0). unfold from_bits. lia.
Qed.

Lemma extract_range ws bs vs rest (n : nat) w :
  extract ws bs = Some (vs, rest) → ws !! n = Some w → 0 ≤ w → 0 ≤ fd n vs < 2 ^ w.
Proof.
  revert bs vs n. induction ws as [|w' ws IH]; intros bs vs n; [done|]. simpl. case_bool_decide as Hl; [done|].
  destruct (extract ws _) as [[vs' rest']|] eqn:E; [|done]. intros [= <- <-].
  destruct n as [|n]; intros Hn Hw; [|exact (IH _ vs' n E Hn Hw)].
  injection Hn as ->. change (fd 0 _) with (from_bits (take (Z.to_nat w) bs)).
  pose proof (from_bits_range (take (Z.to_nat w) bs)) as H. rewrite length_take_le in H by lia.
  by rewrite Z2Nat.id in H.
Qed.

(** The bits of a number that was read are the bits that were there. *)
Lemma msb_from_bits bs : msb (Z.of_nat (length bs)) (from_bits bs) = bs.
Proof.
  induction bs as [|b bs IH] using rev_ind; [done|]. unfold from_bits. rewrite foldl_app. cbn [foldl].
  change (foldl _ 0 bs) with (from_bits bs). rewrite length_app. simpl length. rewrite Nat.add_1_r.
  rewrite <- IH at 3. generalize (from_bits bs) (length bs). clear. intros x n. induction n as [|n IH].
  - rewrite msb_succ. by rewrite Z.testbit_0_r.
  - rewrite msb_succ, IH, (msb_succ n x). simpl app. f_equal.
    by rewrite Nat2Z.inj_succ, Z.testbit_succ_r by lia.
Qed.

Lemma emit_extract ws bs vs rest :
  Forall (λ w, 0 ≤ w) ws → extract ws bs = Some (vs, rest) → emit ws vs ++ rest = bs.
Proof.
  revert bs vs. induction ws as [|w ws IH]; intros bs vs Hw; [by intros [= <- <-]|].
  apply Forall_cons in Hw as [Hw Hws]. cbn [extract]. case_bool_decide as Hl; [done|].
  destruct (extract ws _) as [[vs' rest']|] eqn:E; [|done]. cbn [mbind option_bind]. intros [= <- <-].
  unfold emit. simpl. change (concat _) with (emit ws vs'). rewrite <- app_assoc, (IH _ _ Hws E).
  rewrite <- (take_drop (Z.to_nat w) bs) at 3. f_equal.
  rewrite <- (msb_from_bits (take (Z.to_nat w) bs)) at 2. rewrite length_take_le by lia.
  by rewrite Z2Nat.id.
Qed.

Lemma extract_emit ws vs rest :
  Forall2 (λ w v, 0 ≤ w ∧ 0 ≤ v < 2 ^ w) ws vs → extract ws (emit ws vs ++ rest) = Some (vs, rest).
Proof.
  intros H. induction H as [|w v ws vs [Hw Hv] _ IH]; [done|]. unfold emit. simpl.
  change (concat _) with (emit ws vs). cbn [extract]. rewrite <- app_assoc.
  pose proof (length_msb w v Hw) as Hl. rewrite bool_decide_eq_false_2 by (rewrite length_app; lia).
  rewrite drop_app_length', take_app_length' by lia. rewrite IH. simpl. by rewrite from_bits_msb.
Qed.

(** Steps of the parser taken apart. *)
#[local] Arguments extract : simpl never.
#[local] Arguments parse_udp : simpl never.
#[local] Arguments extract_if : simpl never.
Ltac parse_steps :=
  repeat match goal with
  | H : (if bool_decide ?P then _ else _) = Some _ |- _ => destruct (bool_decide P) eqn:?; simplify_eq/=
  | H : (extract ?ws ?bs ≫= _) = Some _ |- _ => destruct (extract ws bs) as [[? ?]|] eqn:?; simplify_eq/=
  | H : (extract_if ?b ?ws ?bs ≫= _) = Some _ |- _ => destruct (extract_if b ws bs) as [[? ?]|] eqn:?; simplify_eq/=
  | H : (parse_udp ?p ?bs ≫= _) = Some _ |- _ => destruct (parse_udp p bs) as [[? ?]|] eqn:?; simplify_eq/=
  | H : context [rdma_opcode_n2s !! ?o] |- _ => destruct (rdma_opcode_n2s !! o); simplify_eq/=
  end.

Lemma parsed_dst_qp bs h bth reth immediate d0 d1 :
  parse_ethernet bs = Some h → above_udp h = RocePacket bth reth immediate d0 d1 → 0 ≤ fd 9 bth < 2 ^ 24.
Proof.
  intros Hp Ha. assert (H : ∃ ws rest, extract ib_bth_h ws = Some (bth, rest)).
  { unfold parse_ethernet in Hp. parse_steps. { unfold parse_arp in Hp. by parse_steps. }
    unfold parse_ipv4 in Hp. parse_steps. unfold parse_udp, parse_ib_bth, parse_switchml in *. parse_steps;
      by eexists _, _. }
  destruct H as (ws & rest & H). by eapply (extract_range ib_bth_h _ _ _ 9 24).
Qed.

(** ** Nothing is lost *)

Ltac layout := apply (bool_decide_unpack _); vm_compute; exact I.

Lemma emit_extract_if here ws bs o rest :
  Forall (λ w, 0 ≤ w) ws → extract_if here ws bs = Some (o, rest) → emit_if ws o ++ rest = bs.
Proof.
  intros Hw. unfold extract_if. destruct here; [|by intros [= <- <-]].
  destruct (extract ws bs) as [[vs rest']|] eqn:E; [|done]. intros [= <- <-]. by apply emit_extract.
Qed.

(** The pieces of a parse put together again. *)
Ltac put_together :=
  repeat match goal with
  | H : extract ?ws ?bs = Some _ |- _ => apply emit_extract in H; [|layout]
  | H : extract_if ?b ?ws ?bs = Some _ |- _ => apply emit_extract_if in H; [|layout]
  end; subst; rewrite <- ?app_assoc.

Lemma emit_parse_udp port bs p rest : parse_udp port bs = Some (p, rest) → emit_above p ++ rest = bs.
Proof.
  unfold parse_udp, parse_ib_bth, parse_switchml. intros H. parse_steps; put_together; simpl;
    unfold emit_if; simpl; by rewrite <- ?app_assoc.
Qed.

(** C14. The parser loses nothing and makes nothing up: whatever a frame is
    taken for, its headers written out in the order of the deparser, and what
    was left behind them, are the frame again, bit for bit. *)
Theorem parse_deparse bs h : parse_ethernet bs = Some h → deparse h = bs.
Proof.
  unfold parse_ethernet, parse_arp, parse_ipv4. intros H. parse_steps;
    repeat match goal with H : parse_udp _ _ = Some _ |- _ => apply emit_parse_udp in H end;
    put_together; unfold deparse; simpl; by rewrite <- ?app_assoc.
Qed.

(** Values within the fields of a layout. *)
Definition fits (ws vs : list Z) : Prop := Forall2 (λ w v, 0 ≤ w ∧ 0 ≤ v < 2 ^ w) ws vs.

Lemma extract_if_emit here ws o rest :
  here = bool_decide (is_Some o) → (∀ vs, o = Some vs → fits ws vs) →
  extract_if here ws (emit_if ws o ++ rest) = Some (o, rest).
Proof.
  intros -> Hf. unfold extract_if. destruct o as [vs|]; simpl; [|done].
  rewrite extract_emit by (by apply Hf). done.
Qed.

(** A RoCE frame with the headers of its opcode is taken for what it is. *)
Lemma roce_parsed eth ip u bth reth immediate d0 d1 name rest :
  let h := Headers eth None None (Some ip) None (Some u) (RocePacket bth reth immediate (Some d0) (Some d1)) rest in
  fits ethernet_h eth → fits ipv4_h ip → fits udp_h u → fits ib_bth_h bth →
  (∀ vs, reth = Some vs → fits ib_reth_h vs) → (∀ vs, immediate = Some vs → fits ib_immediate_h vs) →
  fits data_h d0 → fits data_h d1 →
  fd 2 eth = 0x0800 → fd 1 ip = 5 ∧ fd 6 ip = 0 ∧ fd 8 ip = 17 → fd 1 u = 4791 →
  rdma_opcode_n2s !! fd 0 bth = Some name →
  (is_Some reth ↔ IB_RETH ∈ p4_parse_ib_bth name) → (is_Some immediate ↔ IB_IMM ∈ p4_parse_ib_bth name) →
  parse_ethernet (deparse h) = Some h.
Proof.
  intros h He Hip Hu Hb Hr Hi Hd0 Hd1 E1 (E2 & E3 & E4) E5 Ho Hreth Himm.
  unfold parse_ethernet, deparse, h, emit_above.
  cbn [ethernet arp arp_ipv4 ipv4 icmp udp above_udp payload emit_if from_option app].
  rewrite extract_emit by done. cbn [mbind option_bind]. rewrite E1. simpl.
  unfold parse_ipv4. rewrite extract_emit by done. cbn [mbind option_bind]. rewrite E2, E3, E4. simpl.
  rewrite extract_emit by done. cbn [mbind option_bind]. rewrite E5.
  unfold parse_udp. rewrite bool_decide_eq_true_2 by done. unfold parse_ib_bth.
  rewrite <- !app_assoc, extract_emit by done. cbn [mbind option_bind].
  replace (default 0 (head bth)) with (fd 0 bth) by (by destruct bth). rewrite Ho.
  rewrite extract_if_emit by (done || by apply bool_decide_ext). cbn [mbind option_bind].
  rewrite extract_if_emit by (done || by apply bool_decide_ext). cbn [mbind option_bind].
  do 2 (rewrite extract_emit by done; cbn [mbind option_bind]). done.
Qed.

(** ** Who is let in *)

Lemma write_action op action :
  (op, action) ∈ RDMAReceiver.write_opcodes → ∃ first last, Receive.part_of_message action = Some (first, last).
Proof.
  unfold RDMAReceiver.write_opcodes. intros H.
  repeat (apply elem_of_cons in H as [[= -> ->]|H]; [by eexists _, _|]). by apply not_elem_of_nil in H.
Qed.

Lemma write_opcode_action op action action' :
  (op, action) ∈ RDMAReceiver.write_opcodes → (op, action') ∈ RDMAReceiver.write_opcodes → action' = action.
Proof.
  assert (Hnd : NoDup RDMAReceiver.write_opcodes.*1) by (apply (bool_decide_unpack _); vm_compute; exact I).
  intros H%(elem_of_list_to_map_1 (M := gmap Z)) H'%(elem_of_list_to_map_1 (M := gmap Z)); [|done..]. congruence.
Qed.

(** The register of the queue pair after a packet, and what it returns. *)
Definition next_cell (first : bool) (psn r_key : Z) (value : Receive.receiver_data) :
    Receive.receiver_data * Z :=
  if first then Receive.receiver_reset_action psn r_key else Receive.receiver_increment_action psn value.
Lemma next_cell_result first psn r_key value :
  Receive.rx_pool_index (next_cell first psn r_key value).1 = (next_cell first psn r_key value).2.
Proof. by destruct first. Qed.

(** What a packet does to the register and the counters of queue pair [i]. *)
Definition pass_packet (i : Z) (first last : bool) (psn r_key : Z) (st : rdma) : rdma :=
  let '(cell, result) := next_cell first psn r_key (receiver_data_register st i) in
  count_packet i last (Z.testbit result 31) (set_cell i cell st).

(** The metadata of a packet of a member: its pool index comes from the
    register. *)
Definition member_md (group : Z) (m : member) (s : PacketSize) (result : Z) (last : bool) : Pipe.switchml_md :=
  Pipe.Md group (mb_rank m) (result .& 0x7fff) (mb_count m) s ROCEv2 CONSUME0 0 last false false false false.

Lemma entry_fields group rank n size bit action :
  let d := RDMAReceiver.entry_data group rank n size bit action in
  dt_action d = Some action ∧ Receive.data_field d "mgid" = Some group ∧
  Receive.data_field d "worker_type" = Some (worker_type_value ROCEv2) ∧
  Receive.data_field d "worker_id" = Some rank ∧ Receive.data_field d "num_workers" = Some n ∧
  Receive.data_field d "worker_bitmap" = Some bit ∧ Receive.data_field d "packet_size" = Some size.
Proof. by split_and!. Qed.

Lemma run_entry group m size s action first last psn r_key value :
  Receive.part_of_message action = Some (first, last) → Receive.packet_size_of size = Some s →
  Receive.run_action (RDMAReceiver.entry_data group (mb_rank m) (mb_count m) size
    (GetWorkerBitmap.worker_bit (mb_rank m)) action) psn r_key value =
  let '(cell, result) := next_cell first psn r_key value in
  Some (cell, Receive.Received (member_md group m s result last) (GetWorkerBitmap.worker_bit (mb_rank m))
    (negb first && Z.testbit result 31)).
Proof.
  intros Ha Hs. unfold Receive.run_action.
  destruct (entry_fields group (mb_rank m) (mb_count m) size (GetWorkerBitmap.worker_bit (mb_rank m)) action)
    as (-> & -> & -> & -> & -> & -> & ->).
  cbn [mbind option_bind]. rewrite Ha, Hs. by destruct first.
Qed.
Lemma run_entry_none group m size action psn r_key value :
  Receive.packet_size_of size = None →
  Receive.run_action (RDMAReceiver.entry_data group (mb_rank m) (mb_count m) size
    (GetWorkerBitmap.worker_bit (mb_rank m)) action) psn r_key value = None.
Proof.
  intros Hs. unfold Receive.run_action.
  destruct (entry_fields group (mb_rank m) (mb_count m) size (GetWorkerBitmap.worker_bit (mb_rank m)) action)
    as (-> & -> & -> & -> & -> & -> & ->).
  cbn [mbind option_bind]. rewrite Hs.
  by destruct (Receive.part_of_message action) as [[]|].
Qed.

Section deployed.
Context `{LF : BfrtLive} `{IH : IdentityHash}.
Context (w0 : world) (V0 : entries) (ms : list member) (w : world).
Context (Hbackground : background V0) (Himplements : implements w0 V0 ms w).
Context (absent_int : Z) (absent_text : string).
Context (look : Egress.lookup_table) (Hlook : Egress.resolves (wview w) look).
Abbreviation receive := (receive absent_int absent_text look).

(** A write packet of a member: its header, the member, and the part of a
    message it is. *)
Record write_of (h : headers) (bth : list Z) (m : member) (s : PacketSize) (action : string)
    (first last : bool) : Prop := {
  wo_member : m ∈ ms;
  wo_roce : ∃ rkey size message qps, mb_kind m = RoceMember rkey size message qps ∧
    Receive.packet_size_of size = Some s;
  wo_from : from_member w0 (roce_of h bth) m;
  wo_opcode : (fd 0 bth, action) ∈ RDMAReceiver.write_opcodes;
  wo_part : Receive.part_of_message action = Some (first, last)
}.

(** The entries of UDP members name fields that the switch's table does not
    have. *)
Lemma udp_misses in_port h : look GetWorkerBitmap.table (get_worker_bitmap_fields absent_int absent_text in_port h) = None.
Proof.
  pose proof (Hlook GetWorkerBitmap.table (get_worker_bitmap_fields absent_int absent_text in_port h)) as H.
  destruct (look _ _) as [d|]; [|done]. exfalso. destruct H as (k & Hh).
  rewrite (hits_row w0 V0 ms w Hbackground Himplements) in Hh by in_tables.
  destruct Hh as (m & _ & Hr & Hk). unfold member_rows in Hr.
  destruct (mb_kind m).
  - rewrite !elem_of_cons, elem_of_nil in Hr. destruct Hr as [[=]|[[=]|[[= -> ->]|[]]]].
    unfold key_matches in Hk. rewrite List.forallb_forall in Hk.
    specialize (Hk (KeyTernary "ig_prsr_md.parser_err" (VInt 0x0002) (VInt 0x0000))).
    discriminate Hk. unfold job_udp_key, GetWorkerBitmap.udp_key. do 6 right. by left.
  - rewrite !elem_of_app, !elem_of_cons, !elem_of_in_table, elem_of_nil in Hr. naive_solver.
Qed.

(** What the ingress table of the RoCE receiver gives. *)
Lemma look_roce h bth :
  0 ≤ fd 9 bth < 2 ^ 24 →
  match look RDMAReceiver.table (receive_roce_fields (roce_of h bth)) with
  | Some d => ∃ m rkey size message qps action, m ∈ ms ∧ mb_kind m = RoceMember rkey size message qps ∧
      from_member w0 (roce_of h bth) m ∧ (fd 0 bth, action) ∈ RDMAReceiver.write_opcodes ∧
      d = RDMAReceiver.entry_data (switchml_workers_mgid (w_job w0)) (mb_rank m) (mb_count m) size
            (GetWorkerBitmap.worker_bit (mb_rank m)) action
  | None => ∀ m s action first last, ¬ write_of h bth m s action first last
  end.
Proof.
  intros Hq. pose proof (Hlook RDMAReceiver.table (receive_roce_fields (roce_of h bth))) as H.
  pose proof (λ k d, roce_hits w0 V0 ms w Hbackground Himplements (roce_of h bth) k d Hq) as Hhit.
  destruct (look _ _) as [d|].
  - destruct H as (k & (m & rkey & size & message & qps & action & Hm & Hk & Hf & Ho & _ & Hd)%Hhit).
    by exists m, rkey, size, message, qps, action.
  - intros m s action first last [Hm (rkey & size & message & qps & Hk & _) Hf Ho _].
    eapply H, Hhit. by exists m, rkey, size, message, qps, action.
Qed.

(** What becomes of a write packet of a member: the register of its queue pair
    goes on, the counters count it, and it enters the aggregation with the
    member's bit, unless it is out of sequence. *)
Definition member_verdict (h : headers) (bth : list Z) (reth immediate d0 d1 : option (list Z)) (tag : Z)
    (m : member) (s : PacketSize) (action : string) (first last : bool) (st : rdma) : rdma * verdict :=
  let i := QP_INDEX (fd 9 bth) in
  let '(cell, result) :=
    next_cell first (fd 12 bth) (from_option (fd 1) absent_int reth) (receiver_data_register st i) in
  let '(x0, x1) := exponents_of
    (if is_immediate action then Some (from_option (fd 0) absent_int immediate) else None) in
  (count_packet i last (Z.testbit result 31) (set_cell i cell st),
   Consume (Pipe.Packet (member_md (switchml_workers_mgid (w_job w0)) m s result last) x0 x1 tag
      (blocks_of d0 d1 (payload h)))
     (GetWorkerBitmap.worker_bit (mb_rank m)) (negb first && Z.testbit result 31) (Z.testbit result 31)).

Lemma member_verdict_counts h bth reth immediate d0 d1 tag m s action first last st :
  (member_verdict h bth reth immediate d0 d1 tag m s action first last st).1 =
    pass_packet (QP_INDEX (fd 9 bth)) first last (fd 12 bth) (from_option (fd 1) absent_int reth) st.
Proof.
  unfold member_verdict, pass_packet. destruct (next_cell _ _ _ _). by destruct (exponents_of _).
Qed.

Lemma receive_cases in_port h tag st :
  (∀ bth reth immediate d0 d1, above_udp h = RocePacket bth reth immediate d0 d1 → 0 ≤ fd 9 bth < 2 ^ 24) →
  (∃ bth reth immediate d0 d1 m s action first last, above_udp h = RocePacket bth reth immediate d0 d1 ∧
     write_of h bth m s action first last ∧
     receive in_port h tag st = member_verdict h bth reth immediate d0 d1 tag m s action first last st) ∨
  receive in_port h tag st = (st, Ignore false) ∧
  ∀ bth reth immediate d0 d1 m s action first last, above_udp h = RocePacket bth reth immediate d0 d1 →
    ¬ write_of h bth m s action first last.
Proof.
  intros Hq. unfold Front.receive. destruct (above_udp h) as [sw d0 d1 ex|bth reth immediate d0 d1|] eqn:Ha.
  - right. unfold Front.GetWorkerBitmap. by rewrite udp_misses.
  - pose proof (look_roce h bth (Hq _ _ _ _ _ eq_refl)) as Hl. unfold Front.RDMAReceiver.
    destruct (look _ _) as [d|]; [|right; split; [done|]; intros ? ? ? ? ? m s action first last [= <- <- <- <- <-]; apply Hl].
    destruct Hl as (m & rkey & size & message & qps & action & Hm & Hk & Hf & Ho & ->).
    destruct (write_action _ _ Ho) as (first & last & Hpart).
    destruct (Receive.packet_size_of size) as [s|] eqn:Hs.
    + left. exists bth, reth, immediate, d0, d1, m, s, action, first, last. split; [done|].
      split; [by split; [|exists rkey, size, message, qps|..]|].
      rewrite (run_entry _ _ _ s _ first last) by done. unfold member_verdict. cbn [bth_dst_qp roce_of].
      pose proof (next_cell_result first (fd 12 bth) (from_option (fd 1) absent_int reth)
        (receiver_data_register st (QP_INDEX (fd 9 bth)))) as Hr.
      destruct (next_cell _ _ _ _) as [cell result]. simpl in Hr. rewrite Hr. cbn. by destruct (is_immediate action).
    + right. rewrite run_entry_none by done. split; [done|].
      intros ? ? ? ? ? m' s' action' first' last' [= <- <- <- <- <-] [Hm' (? & size' & ? & ? & Hk' & Hs') Hf' _ _].
      assert (m' = m) as ->; [|congruence].
      eapply member_by_rank; [apply Himplements|done..|]. destruct Hf as (_ & _ & _ & Hf), Hf' as (_ & _ & _ & Hf'). lia.
  - by right.
Qed.

Lemma write_of_unique h bth m s action first last m' s' action' first' last' :
  write_of h bth m s action first last → write_of h bth m' s' action' first' last' →
  m' = m ∧ s' = s ∧ action' = action ∧ first' = first ∧ last' = last.
Proof.
  intros [Hm (? & size & ? & ? & Hk & Hs) Hf Ho Hp] [Hm' (? & size' & ? & ? & Hk' & Hs') Hf' Ho' Hp'].
  assert (m' = m) as ->.
  { eapply member_by_rank; [apply Himplements|done..|]. destruct Hf as (_ & _ & _ & Hf), Hf' as (_ & _ & _ & Hf'). lia. }
  assert (action' = action) as ->.
  { by eapply write_opcode_action. }
  rewrite Hk in Hk'. rewrite Hp in Hp'. by simplify_eq.
Qed.

(** A pass at a recirculation port: the receivers have no part in it. *)
Lemma inside_cases alternate in_port rng probability bs st r st' r' out :
  inside_pass absent_int absent_text look alternate in_port rng probability bs st r = (st', r', out) →
  st' = st ∧
  match reenters bs with
  | Some pk => ∃ pk' e, Pipe.Ingress alternate in_port (Pipe.initial 0 0 false) r pk = (r', pk', e) ∧
      out = InAggregation pk' e
  | None => r' = r ∧ ∀ pk' e, out ≠ InAggregation pk' e
  end.
Proof.
  unfold Front.inside_pass, reenters. destruct (parse_recirculate bs) as [rc|]; simpl; [|by intros [= <- <- <-]].
  destruct (bridged rc) as [pk|]; simpl; [|by intros [= <- <- <-]].
  case_bool_decide as Ht.
  { destruct (Pipe.Ingress _ _ _ _ _) as [[r1 p1] e1]. intros [= <- <- <-]. split; [done|]. by eexists _, _. }
  unfold Front.GetWorkerBitmap. rewrite udp_misses. unfold Front.go_on.
  destruct (Traffic.ordinary _ _ _ _ _) as [f wy]. case_bool_decide; by intros [= <- <- <-].
Qed.

(** C13. Who is let in. At a port whose packets are parsed from the Ethernet header
    on, exactly the RoCE write packets of the job's members enter the
    aggregation: each with its member's bit, number and job size, the pool index
    from the register of its queue pair and the exponents of its immediate, and
    dropped when it is out of sequence; the registers and counters of its queue
    pair follow it. Every other frame is left to the blocks for ordinary traffic
    and changes nothing. At a recirculation port (64, 68 and those of the other pipes but
    320) the receivers have no part: packets go on in the aggregation by their
    bridged header alone when its type is past CONSUME0, and others change
    nothing. *)
Theorem frames_received in_port bs tag st :
  (recirculates in_port = false → ∀ h, parse_ethernet bs = Some h →
     (∀ alternate rng probability r,
        ingress_pass absent_int absent_text look alternate in_port rng probability tag bs st r =
          go_on absent_int absent_text look alternate in_port rng probability h (receive in_port h tag st) r) ∧
     (∀ bth reth immediate d0 d1 m s action first last, above_udp h = RocePacket bth reth immediate d0 d1 →
        write_of h bth m s action first last →
        receive in_port h tag st = member_verdict h bth reth immediate d0 d1 tag m s action first last st) ∧
     ((∀ bth reth immediate d0 d1 m s action first last, above_udp h = RocePacket bth reth immediate d0 d1 →
         ¬ write_of h bth m s action first last) →
      receive in_port h tag st = (st, Ignore false))) ∧
  (recirculates in_port = true → ∀ alternate rng probability r st' r' out,
     ingress_pass absent_int absent_text look alternate in_port rng probability tag bs st r = (st', r', out) →
     st' = st ∧
     match reenters bs with
     | Some pk => ∃ pk' e, Pipe.Ingress alternate in_port (Pipe.initial 0 0 false) r pk = (r', pk', e) ∧
         out = InAggregation pk' e
     | None => r' = r ∧ ∀ pk' e, out ≠ InAggregation pk' e
     end).
Proof.
  split.
  2: { intros Hr alternate rng probability r st' r' out. unfold Front.ingress_pass. rewrite Hr. apply inside_cases. }
  intros Hport h Hp. split; [intros; unfold Front.ingress_pass, Front.outside_pass; by rewrite Hport, Hp|].
  destruct (receive_cases in_port h tag st) as
    [(bth & reth & immediate & d0 & d1 & m & s & action & first & last & Ha & Hw & Hr)|[Hr Hn]].
  { intros. by eapply parsed_dst_qp. }
  - split.
    + intros bth' reth' immediate' d0' d1' m' s' action' first' last' Ha' Hw'. rewrite Ha in Ha'. simplify_eq.
      destruct (write_of_unique _ _ _ _ _ _ _ _ _ _ _ _ Hw Hw') as (-> & -> & -> & -> & ->). done.
    + intros Hn. by apply (Hn _ _ _ _ _ _ _ _ _ _ Ha) in Hw.
  - split; [|done]. intros ? ? ? ? ? ? ? ? ? ? Ha Hw. by apply (Hn _ _ _ _ _ _ _ _ _ _ Ha) in Hw.
Qed.
End deployed.

(** ** The counters of a queue pair *)

(** A message: a first packet with a memory key, and the sequence numbers of
    the others, the last of which ends the message. *)
Fixpoint pass_rest (i : Z) (psns : list Z) (st : rdma) : rdma :=
  match psns with
  | [] => st
  | psn :: psns' => pass_rest i psns' (pass_packet i false (bool_decide (psns' = [])) psn 0 st)
  end.
Definition pass_message (i psn r_key : Z) (psns : list Z) (st : rdma) : rdma :=
  pass_rest i psns (pass_packet i true (bool_decide (psns = [])) psn r_key st).

(** The packets from the first one on that is not the one expected. *)
Fixpoint late (expected : Z) (psns : list Z) : Z :=
  match psns with
  | [] => 0
  | psn :: psns' =>
      if bool_decide (psn = expected) then late ((expected + 1) `mod` 2 ^ 24) psns'
      else Z.of_nat (length psns)
  end.

(** So many packets, messages and violations more in the counters of [i], and
    nothing else changed but its register. *)
Record counted (i packets messages violations : Z) (st st' : rdma) : Prop := {
  cn_packets : rdma_packet_counter st' i = (rdma_packet_counter st i + packets) `mod` 2 ^ 32;
  cn_messages : rdma_message_counter st' i = (rdma_message_counter st i + messages) `mod` 2 ^ 32;
  cn_violations : rdma_sequence_violation_counter st' i =
    (rdma_sequence_violation_counter st i + violations) `mod` 2 ^ 32;
  cn_others k : k ≠ i → receiver_data_register st' k = receiver_data_register st k ∧
    rdma_packet_counter st' k = rdma_packet_counter st k ∧
    rdma_message_counter st' k = rdma_message_counter st k ∧
    rdma_sequence_violation_counter st' k = rdma_sequence_violation_counter st k
}.
(** Counters of 32 bits. *)
Definition counters_ok (st : rdma) : Prop := ∀ i,
  0 ≤ rdma_packet_counter st i < 2 ^ 32 ∧ 0 ≤ rdma_message_counter st i < 2 ^ 32 ∧
  0 ≤ rdma_sequence_violation_counter st i < 2 ^ 32.

Lemma counter_same c : 0 ≤ c < 2 ^ 32 → c = (c + 0) `mod` 2 ^ 32.
Proof. intros Hc. by rewrite Z.add_0_r, Z.mod_small. Qed.

Lemma counted_trans i p m v p' m' v' st st1 st2 :
  counted i p m v st st1 → counted i p' m' v' st1 st2 → counted i (p + p') (m + m') (v + v') st st2.
Proof.
  intros [H1 H2 H3 H4] [H1' H2' H3' H4']. split.
  - by rewrite H1', H1, Z.add_mod_idemp_l, Z.add_assoc.
  - by rewrite H2', H2, Z.add_mod_idemp_l, Z.add_assoc.
  - by rewrite H3', H3, Z.add_mod_idemp_l, Z.add_assoc.
  - intros k Hk. destruct (H4' k Hk) as (-> & -> & -> & ->). by apply H4.
Qed.

Lemma pass_packet_counted i first last psn r_key st :
  counters_ok st →
  let '(cell, result) := next_cell first psn r_key (receiver_data_register st i) in
  let st' := pass_packet i first last psn r_key st in
  receiver_data_register st' i = cell ∧ counters_ok st' ∧
  counted i 1 (if negb (Z.testbit result 31) && last then 1 else 0) (if Z.testbit result 31 then 1 else 0) st st'.
Proof.
  intros Hok. unfold pass_packet. destruct (next_cell _ _ _ _) as [cell result].
  generalize (Z.testbit result 31). clear result. intros violation.
  assert (Hc : ∀ k (c : Z → Z), (∀ k, 0 ≤ c k < 2 ^ 32) → 0 ≤ count i c k < 2 ^ 32).
  { intros k c Hc. unfold count. destruct (decide (k = i)) as [->|Hk].
    - rewrite fn_lookup_insert. by apply Z.mod_pos_bound.
    - by rewrite fn_lookup_insert_ne. }
  assert (H1 : ∀ k, 0 ≤ rdma_packet_counter st k < 2 ^ 32) by (intros k; apply (Hok k)).
  assert (H2 : ∀ k, 0 ≤ rdma_message_counter st k < 2 ^ 32) by (intros k; apply (Hok k)).
  assert (H3 : ∀ k, 0 ≤ rdma_sequence_violation_counter st k < 2 ^ 32) by (intros k; apply (Hok k)).
  unfold count_packet, set_cell. split; [simpl; by rewrite fn_lookup_insert|]. split.
  - intros k. simpl. split; [|split]; try destruct violation; try destruct last; simpl;
      first [apply H1|apply H2|apply H3|by apply Hc].
  - destruct (Hok i) as (? & ? & ?). split; simpl.
    + unfold count. by rewrite fn_lookup_insert.
    + destruct violation, last; simpl; unfold count;
        rewrite ?fn_lookup_insert; first [done|by apply counter_same].
    + destruct violation; simpl; unfold count; rewrite ?fn_lookup_insert;
        first [done|by apply counter_same].
    + intros k Hk. destruct violation, last; simpl; unfold count; by rewrite !fn_lookup_insert_ne.
Qed.

Lemma error_bit z : 2 ^ 31 ≤ z < 2 ^ 32 → Z.testbit z 31 = true.
Proof.
  intros Hz. rewrite Z.testbit_true by lia. replace (z / 2 ^ 31) with 1; [done|].
  apply Z.div_unique with (z - 2 ^ 31); lia.
Qed.
Lemma no_error_bit z : 0 ≤ z < 2 ^ 31 → Z.testbit z 31 = false.
Proof.
  intros Hz. destruct (decide (z = 0)) as [->|Hn]; [apply Z.testbit_0_l|].
  apply Z.bits_above_log2; [lia|]. apply Z.log2_lt_pow2; lia.
Qed.

(** After a violation every packet is one. *)
Lemma stuck_cell psn r_key v :
  2 ^ 31 ≤ Receive.rx_pool_index v < 2 ^ 32 →
  2 ^ 31 ≤ Receive.rx_pool_index (next_cell false psn r_key v).1 < 2 ^ 32.
Proof.
  destruct v as [n x]. unfold next_cell, Receive.receiver_increment_action, Receive.saturating_add32.
  cbn [Receive.rx_pool_index Receive.next_sequence_number]. case_bool_decide; cbn [fst Receive.rx_pool_index]; lia.
Qed.
Lemma rest_violates i psns st :
  counters_ok st → 2 ^ 31 ≤ Receive.rx_pool_index (receiver_data_register st i) < 2 ^ 32 →
  counted i (Z.of_nat (length psns)) 0 (Z.of_nat (length psns)) st (pass_rest i psns st).
Proof.
  revert st. induction psns as [|psn psns IH]; intros st Hok Hv.
  { destruct (Hok i) as (? & ? & ?). by split; try apply counter_same. }
  pose proof (pass_packet_counted i false (bool_decide (psns = [])) psn 0 st Hok) as H.
  pose proof (next_cell_result false psn 0 (receiver_data_register st i)) as Hr.
  assert (Hcell : 2 ^ 31 ≤ Receive.rx_pool_index (next_cell false psn 0 (receiver_data_register st i)).1 < 2 ^ 32).
  { by apply stuck_cell. }
  destruct (next_cell _ _ _ _) as [cell result]. simpl in Hr, Hcell. subst result.
  rewrite (error_bit _ Hcell) in H. destruct H as (Hc & Hok' & H). cbn [pass_rest length].
  rewrite Nat2Z.inj_succ. replace (Z.succ _) with (1 + Z.of_nat (length psns)) by lia.
  apply (counted_trans _ _ 0 _ _ 0 _ _ _ _ H), IH; [done|]. by rewrite Hc.
Qed.

Lemma one_message (psn : Z) (psns : list Z) (P : Prop) `{!Decision P} :
  (psns = [] → P) →
  (if negb false && bool_decide (psns = []) then 1 else 0) + (if bool_decide (psns ≠ [] ∧ P) then 1 else 0) =
    if bool_decide (psn :: psns ≠ [] ∧ P) then 1 else 0.
Proof. intros HP. repeat case_bool_decide; simpl; naive_solver. Qed.

(** The rest of a message, from the number and the pool index expected. *)
Lemma rest_counted i psns st expected index :
  counters_ok st → receiver_data_register st i = Receive.ReceiverData expected index → 0 ≤ expected < 2 ^ 24 →
  0 ≤ index → index + 2 * Z.of_nat (length psns) < 2 ^ 31 →
  counted i (Z.of_nat (length psns)) (if bool_decide (psns ≠ [] ∧ late expected psns = 0) then 1 else 0)
    (late expected psns) st (pass_rest i psns st).
Proof.
  revert st expected index. induction psns as [|psn psns IH]; intros st expected index Hok Hcell He Hi Hlim.
  { destruct (Hok i) as (? & ? & ?). rewrite bool_decide_eq_false_2 by tauto.
    by split; try apply counter_same. }
  cbn [length] in Hlim. rewrite Nat2Z.inj_succ in Hlim.
  pose proof (pass_packet_counted i false (bool_decide (psns = [])) psn 0 st Hok) as H.
  rewrite Hcell in H. unfold next_cell, Receive.receiver_increment_action in H.
  cbn [Receive.next_sequence_number Receive.rx_pool_index] in H.
  cbn [pass_rest length late]. rewrite Nat2Z.inj_succ. replace (Z.succ _) with (1 + Z.of_nat (length psns)) by lia.
  destruct (decide (psn = expected)) as [Hp|Hp].
  - rewrite !(bool_decide_eq_true_2 (psn = expected)) in H by done.
    rewrite !(bool_decide_eq_true_2 (psn = expected)) by done.
    unfold Receive.saturating_add32 in H. rewrite Z.min_l in H by lia. cbn [Receive.rx_pool_index] in H.
    rewrite no_error_bit, Receive.next_psn in H by lia. destruct H as (Hc & Hok' & H).
    pose proof (Z.mod_pos_bound (expected + 1) (2 ^ 24)) as Hb.
    specialize (IH _ _ _ Hok' Hc ltac:(lia) ltac:(lia) ltac:(lia)). pose proof (counted_trans _ _ _ _ _ _ _ _ _ _ H IH) as Ht.
    rewrite (Z.add_0_l (late _ _)), (one_message psn) in Ht by (by intros ->). exact Ht.
  - rewrite !(bool_decide_eq_false_2 (psn = expected)) in H by done.
    rewrite !(bool_decide_eq_false_2 (psn = expected)) by done.
    cbn [Receive.rx_pool_index] in H. rewrite (error_bit 0x80000000) in H by lia. destruct H as (Hc & Hok' & H).
    rewrite bool_decide_eq_false_2 by (intros [_ Hz]; lia).
    apply (counted_trans _ _ 0 _ _ 0 _ _ _ _ H), rest_violates; [done|]. rewrite Hc. simpl. lia.
Qed.

(** C15. What the counters of a queue pair count. For a message, which is a
    first packet and any sequence of further ones: every packet is counted; the
    packets from the first one on that is out of sequence are counted as
    violations; and the message is counted exactly when there is none. The
    register and the counters of other queue pairs stay as they are. *)
Theorem message_counted i psn r_key psns st :
  counters_ok st → 0 ≤ psn < 2 ^ 24 → 0 ≤ r_key → r_key + 2 * Z.of_nat (length psns) < 2 ^ 31 →
  let wrong := late ((psn + 1) `mod` 2 ^ 24) psns in
  counted i (1 + Z.of_nat (length psns)) (if bool_decide (wrong = 0) then 1 else 0) wrong
    st (pass_message i psn r_key psns st).
Proof.
  intros Hok Hp Hk Hlim wrong. unfold pass_message.
  pose proof (pass_packet_counted i true (bool_decide (psns = [])) psn r_key st Hok) as H.
  cbn [next_cell] in H. unfold Receive.receiver_reset_action in H.
  rewrite no_error_bit, Receive.next_psn in H by lia. destruct H as (Hc & Hok' & H).
  pose proof (Z.mod_pos_bound (psn + 1) (2 ^ 24)) as Hb.
  pose proof (counted_trans _ _ _ _ _ _ _ _ _ _ H
    (rest_counted i psns _ _ _ Hok' Hc ltac:(lia) ltac:(lia) ltac:(lia))) as Ht.
  rewrite (Z.add_0_l (late _ _)), (one_message psn) in Ht by (by intros ->).
  erewrite bool_decide_ext; [exact Ht|]. unfold wrong. naive_solver.
Qed.
End Front.
