(* ===== verification/OnTheWire.v ===== *)
(** * A slot, from frame to frame (p4/switchml.p4)

    The network of [Aggregation] with frames instead of contributions. At the
    ports of the first pipe that are parsed from the Ethernet header on, any bits may
    come in at any time: only the members of the job are trusted with their own
    packets; what anyone else sends does not matter, and what leaves the switch
    for the members is right. At the recirculation ports the parser believes the
    bridged header of whatever comes in; there any bits may come in whose header
    does not claim to be of the slot. *)
From stdpp Require Import functions relations.
From S2P Require Import Prelude PyText PyMonad PyNum Bfrt Live World Ports Counters Worker PRE.
From S2P Require Import NonSwitchMLForward GetWorkerBitmap SetDstAddr Packets Wire RDMAReceiver.
From S2P Require Import RDMASender DropSimulator DebugLog Pipeline Recirculation Aggregation Aggregated Job JobWorkers.
From S2P Require Import JobLoad JobSpec GRPCServer Lookup Assembly Receive Egress Traffic Front.
Import Pipe Front.

Module OnTheWire.

Section network.
Context `{IH : IdentityHash}.
Context (j : JobState) (ms : list member) (absent_int : Z) (absent_text : string).
Context (look : Egress.lookup_table) (J : job) (alternate : option Z).
Abbreviation receive := (receive absent_int absent_text look).

(** The content of a member's packet is its contribution to a phase. *)
Record contributes (r p : Z) (pk : packet) : Prop := {
  ct_index : pool_index (md pk) = index J p;
  ct_last : last_packet_of_message (md pk) = jb_last J;
  ct_exponents : e0 pk = jb_e0 J r p ∧ e1 pk = jb_e1 J r p;
  ct_tag : tag pk = p;
  ct_blocks : blocks pk = [jb_d0 J r p; jb_d1 J r p]
}.

(** A RoCE frame that comes from a member's address and is for one of its queue
    pairs. *)
Definition comes_from (h : headers) (m : member) : Prop :=
  ∃ bth reth immediate d0 d1, above_udp h = RocePacket bth reth immediate d0 d1 ∧
    ipv4_src_addr (roce_of h bth) = mb_ip m ∧ bth_dst_qp (roce_of h bth) .>> 16 = 0x80 + mb_rank m.

(** What is assumed of a frame: if it comes so from a member, and the receiver
    passes it on to the slot, then the member has sent it, from its port, and
    has kept to the protocol. *)
Definition honest (st : rdma) (s : net) (in_port tag : Z) (bs : list bool) : Prop :=
  ∀ h m st' pk bitmap copy, parse_ethernet bs = Some h → m ∈ ms → comes_from h m →
    receive in_port h tag st = (st', Consume pk bitmap false copy) → slot_of pk = jb_slot J →
    in_port = jb_port J (mb_rank m) ∧ ∃ p, may_send J (mb_rank m) p s ∧ contributes (mb_rank m) p pk.

(** The phases of the workers' last packets after a frame. *)
Definition heard (in_port rng probability tag : Z) (bs : list bool) (st : rdma) (at_ : Z → Z) : Z → Z :=
  match parse_ethernet bs with
  | None => at_
  | Some h =>
      match (receive in_port h tag st).2 with
      | Consume pk _ false _ =>
          if decide (slot_of pk = jb_slot J ∧ Traffic.IngressDropSimulator rng probability ≠ 0xffff)
          then <[worker_id (md pk) := tag]> at_ else at_
      | _ => at_
      end
  end.

(** Where the packet of a frame goes; ordinary traffic leaves the network. *)
Definition after_frame (out : outcome) (s : net) : net :=
  match out with InAggregation pk e => route e pk s | _ => s end.

(** Frames from outside at the ports of the first pipe but 64 and 68, where the slot
    and the receiver have their registers; packets of the slot that have been
    recirculated; and any bits at a recirculation port, but for those that go on in the
    aggregation as a packet of the slot. What these do to the registers of another
    pipe is done here to the cells of other slots: no pipe's cells of the slot
    are touched. *)
Inductive wire_step : rdma * net → rdma * net → Prop :=
| wire_frame st s in_port rng probability tag bs st' r out :
    pipe_of in_port = 0 → recirculates in_port = false → honest st s in_port tag bs →
    ingress_pass absent_int absent_text look alternate in_port rng probability tag bs st (nt_regs s) =
      (st', r, out) →
    wire_step (st, s)
      (st', after_frame out
              (Net r (nt_queue s) (heard in_port rng probability tag bs st (nt_at s)) (nt_out s)))
| wire_recirculated st s p0 q r pk e :
    nt_queue s = p0 :: q → Ingress alternate 68 (initial 0 0 false) (nt_regs s) p0 = (r, pk, e) →
    wire_step (st, s) (st, route e pk (Net r q (nt_at s) (nt_out s)))
| wire_inside st s in_port rng probability tag bs st' r out :
    recirculates in_port = true → (∀ pk, reenters bs = Some pk → slot_of pk ≠ jb_slot J) →
    ingress_pass absent_int absent_text look alternate in_port rng probability tag bs st (nt_regs s) =
      (st', r, out) →
    wire_step (st, s) (st', after_frame out (Net r (nt_queue s) (nt_at s) (nt_out s))).

(** The two kinds of step that move the slot on, as functions. *)
Definition frame_in (in_port rng probability tag : Z) (bs : list bool) (c : rdma * net) : rdma * net :=
  let '(st', r, out) :=
    ingress_pass absent_int absent_text look alternate in_port rng probability tag bs c.1 (nt_regs c.2) in
  (st', after_frame out
          (Net r (nt_queue c.2) (heard in_port rng probability tag bs c.1 (nt_at c.2)) (nt_out c.2))).
Definition come_round (c : rdma * net) : rdma * net :=
  match nt_queue c.2 with
  | [] => c
  | p0 :: q =>
      let '(r, pk, e) := Ingress alternate 68 (initial 0 0 false) (nt_regs c.2) p0 in
      (c.1, route e pk (Net r q (nt_at c.2) (nt_out c.2)))
  end.

Lemma frame_in_step in_port rng probability tag bs c :
  pipe_of in_port = 0 → recirculates in_port = false → honest c.1 c.2 in_port tag bs →
  wire_step c (frame_in in_port rng probability tag bs c).
Proof.
  destruct c as [st s]. intros Hi Hr Hh. unfold frame_in. cbn [fst snd] in *.
  destruct (ingress_pass _ _ _ _ _ _ _ _ _ _ _) as [[st' r] out] eqn:Hp. by eapply wire_frame.
Qed.
Lemma come_round_steps c : rtc wire_step c (come_round c).
Proof.
  destruct c as [st s]. unfold come_round. cbn [fst snd]. destruct (nt_queue s) as [|p0 q] eqn:Hq; [done|].
  destruct (Ingress _ _ _ _ _) as [[r pk] e] eqn:Hi. apply rtc_once. by eapply wire_recirculated.
Qed.

(** From any state of the receiver's registers, and the aggregation as the
    controller leaves it. *)
Definition wire_reachable (s : net) : Prop := ∃ st0 st, rtc wire_step (st0, net_init) (st, s).
End network.

(** ** Packets that are dropped *)

Lemma ingress_dropped alternate in_port l r p :
  packet_type (md p) = CONSUME0 → drop_ctl l = true →
  ∃ pk, Ingress alternate in_port l r p = (r, pk, Drop).
Proof.
  intros Ht Hd. unfold Ingress. rewrite Ht. simpl. rewrite Hd.
  destruct (parse _ _) as [[d0 d1] rest]. rewrite Hd. by eexists.
Qed.
Lemma ingress_simulated_drop alternate in_port bitmap r p :
  packet_type (md p) = CONSUME0 →
  ∃ pk, Ingress alternate in_port (initial bitmap 0xffff false) r p = (r, pk, Drop).
Proof.
  intros Ht. destruct p as [[] ? ? ? bs]. simpl in Ht. subst. unfold Ingress. simpl.
  destruct bs as [|b0 [|b1 bs]]; by eexists.
Qed.

(** ** The network of frames is the network of contributions *)

Section deployed.
Context `{LF : BfrtLive} `{IH : IdentityHash}.
Context (w0 : world) (V0 : entries) (ms : list member) (w : world).
Context (Hbackground : background V0) (Himplements : implements w0 V0 ms w).
Context (absent_int : Z) (absent_text : string).
Context (look : Egress.lookup_table) (Hlook : Egress.resolves (wview w) look).

(** What the receiver makes of any frame: a packet of a member, or nothing. *)
Lemma receive_any size in_port bs h tag st :
  (∀ m, m ∈ ms → Receive.uniform_of size ms m) → parse_ethernet bs = Some h →
  receive absent_int absent_text look in_port h tag st = (st, Ignore false) ∨
  ∃ m st' pk dropped copy, m ∈ ms ∧ comes_from h m ∧
    receive absent_int absent_text look in_port h tag st =
      (st', Consume pk (worker_bit (mb_rank m)) dropped copy) ∧
    Pipe.tag pk = tag ∧
    md pk = Md (switchml_workers_mgid (w_job w0)) (mb_rank m) (pool_index (md pk)) (Z.of_nat (length ms)) size
      ROCEv2 CONSUME0 0 (last_packet_of_message (md pk)) false false false false.
Proof.
  intros Huni Hp. destruct (receive_cases w0 V0 ms w Hbackground Himplements absent_int absent_text look Hlook
    in_port h tag st) as [(bth & reth & imm & d0 & d1 & m & s & action & first & last & Ha & Hw & ->)|[-> _]].
  { intros. by eapply parsed_dst_qp. }
  2: by left.
  right. destruct (Huni m (wo_member _ _ _ _ _ _ _ _ _ Hw)) as [_ Hn Hkind].
  destruct Hw as [Hm (? & z & ? & ? & Hk & Hs) Hf _ _], Hkind as (? & ? & ? & Hk').
  rewrite Hk in Hk'. simplify_eq. assert (s = size) as -> by (destruct size; by injection Hs).
  unfold member_verdict. destruct (next_cell _ _ _ _) as [cell result]. destruct (exponents_of _) as [x0 x1].
  eexists m, _, _, _, _. split; [done|]. split.
  { exists bth, reth, imm, d0, d1. destruct Hf as (? & _ & _ & ?). done. }
  split; [done|]. split; [done|]. cbn. unfold member_md. by rewrite Hn.
Qed.

Context (J : job) (alternate : option Z).
Hypothesis Hjob : Egress.same_job (w_job w0) ms J.
Hypothesis Huniform : ∀ m, m ∈ ms → Receive.uniform ms m.
Abbreviation receive := (receive absent_int absent_text look).
Abbreviation ingress_pass := (ingress_pass absent_int absent_text look).

Lemma job_fields m :
  m ∈ ms → jb_group J = switchml_workers_mgid (w_job w0) ∧ jb_size J = Z.of_nat (length ms) ∧ jb_type J = ROCEv2.
Proof.
  intros Hm. destruct Hjob as [Hranks Hgroup Htype]. split; [done|]. split.
  - unfold jb_size. by rewrite Hranks, length_fmap.
  - rewrite <- (Htype m Hm). by destruct (Receive.un_kind _ _ _ (Huniform m Hm)) as (? & ? & ? & ->).
Qed.

(** A packet of a member that keeps to the protocol is a contribution. *)
Lemma contribution_of m p pk :
  md pk = Md (jb_group J) (mb_rank m) (pool_index (md pk)) (jb_size J) IBV_MTU_256 (jb_type J) CONSUME0 0
    (last_packet_of_message (md pk)) false false false false →
  contributes J (mb_rank m) p pk → pk = contribution J (mb_rank m) p.
Proof.
  intros Hmd [Hi Hl [He0 He1] Ht Hb]. rewrite Hi, Hl in Hmd. destruct pk. simpl in *. by subst.
Qed.

Lemma unchanged (s : net) : Net (nt_regs s) (nt_queue s) (nt_at s) (nt_out s) = s.
Proof. by destruct s. Qed.

(** A frame does what one step of the network of contributions does, or
    nothing. *)
Lemma frame_simulated st s in_port rng probability tag bs st' r out :
  honest ms absent_int absent_text look J st s in_port tag bs →
  recirculates in_port = false →
  ingress_pass alternate in_port rng probability tag bs st (nt_regs s) = (st', r, out) →
  let s' := after_frame out (Net r (nt_queue s)
    (heard absent_int absent_text look J in_port rng probability tag bs st (nt_at s)) (nt_out s)) in
  s' = s ∨ net_step J alternate s s'.
Proof.
  intros Hh Hport Hpass s'. unfold s', heard. unfold Front.ingress_pass, outside_pass in Hpass.
  rewrite Hport in Hpass.
  destruct (parse_ethernet bs) as [h|] eqn:Hp; [|simplify_eq; left; apply unchanged].
  destruct (receive_any _ in_port bs h tag st Huniform Hp) as [Hr|(m & st1 & pk & dropped & copy & Hm & Hf & Hr & Ht & Hmd)];
    rewrite Hr in *; cbn [snd]; unfold go_on in Hpass.
  { destruct (Traffic.ordinary _ _ _ _ _). simplify_eq. left. apply unchanged. }
  assert (Htype : packet_type (md pk) = CONSUME0) by by rewrite Hmd.
  destruct (job_fields m Hm) as (Eg & En & Et). rewrite <- Eg, <- En, <- Et in Hmd.
  destruct (Ingress _ _ _ _ pk) as [[r' p'] e] eqn:Hi. injection Hpass as <- <- <-. simpl.
  destruct dropped.
  { destruct (ingress_dropped alternate in_port
      (initial (worker_bit (mb_rank m)) (Traffic.IngressDropSimulator rng probability) true) (nt_regs s) pk
      Htype eq_refl) as [pk' E]. rewrite E in Hi. simplify_eq. left. apply unchanged. }
  destruct (decide (slot_of pk = jb_slot J)) as [Hs|Hs].
  - destruct (decide (Traffic.IngressDropSimulator rng probability = 0xffff)) as [Hd|Hd].
    + rewrite decide_False by tauto. rewrite Hd in Hi.
      destruct (ingress_simulated_drop alternate in_port (worker_bit (mb_rank m)) (nt_regs s) pk Htype) as [pk' E].
      rewrite E in Hi. simplify_eq. left. apply unchanged.
    + rewrite decide_True by done. right.
      destruct (Hh h m _ _ _ _ Hp Hm Hf Hr Hs) as (-> & p & Hmay & Hc).
      pose proof (contribution_of m p pk Hmd Hc) as ->. simpl in Ht. subst tag.
      apply (net_arrive J alternate s (mb_rank m) p (Traffic.IngressDropSimulator rng probability) r' p' e);
        [|done..].
      rewrite (Egress.sj_ranks _ _ _ Hjob). by apply list_elem_of_fmap_2.
  - rewrite decide_False by tauto. right. by eapply net_other.
Qed.

Lemma wire_simulated c c' :
  wire_step ms absent_int absent_text look J alternate c c' → rtc (net_step J alternate) c.2 c'.2.
Proof.
  intros [st s in_port rng probability tag bs st' r out _ Hport Hh Hpass|st s p0 q r pk e Hq Hi|
    st s in_port rng probability tag bs st' r out Hport Hs Hpass]; simpl.
  - destruct (frame_simulated _ _ _ _ _ _ _ _ _ _ Hh Hport Hpass) as [->|Hstep]; [done|by apply rtc_once].
  - apply rtc_once. by eapply net_recirculate.
  - unfold Front.ingress_pass in Hpass. rewrite Hport in Hpass.
    apply (inside_cases w0 V0 ms w Hbackground Himplements absent_int absent_text look Hlook) in Hpass as [_ Hcase].
    destruct (reenters bs) as [pk|].
    + destruct Hcase as (pk' & e & Hi & ->). apply rtc_once. eapply net_other; [by apply Hs|exact Hi].
    + destruct Hcase as [-> Hout]. rewrite unchanged. destruct out as [pk' e| |]; [by destruct (Hout pk' e)|done..].
Qed.

Lemma wire_net_reachable s :
  wire_reachable ms absent_int absent_text look J alternate s → net_reachable J alternate s.
Proof.
  intros (st0 & st & H). unfold net_reachable. change s with (st, s).2. change net_init with (st0, net_init).2.
  revert H. generalize (st0, net_init) (st, s). clear st0 st s. intros c c' H.
  induction H as [|c c1 c' Hs _ Hrtc]; [done|]. etrans; [by apply wire_simulated|exact Hrtc].
Qed.

Context `{PR : PacketReplication} (roce udp : Egress.switch_address) (l : Egress.sender_locals).

End deployed.
End OnTheWire.
