(* ===== verification/LargeWire.v ===== *)
(** * A slot of 1024 bytes, from frame to frame (p4/switchml.p4)

    As OnTheWire, for jobs whose packets have 1024 bytes: a frame comes in from
    anyone at a port that is parsed from the Ethernet header on, passes the receiver of
    its pipe and, when it is let in, makes its journey through the pipes before
    the next frame comes; what leaves is delivered. *)
From stdpp Require Import functions relations.
From S2P Require Import Prelude PyText PyMonad PyNum Bfrt Live World Ports Counters Worker PRE.
From S2P Require Import NonSwitchMLForward GetWorkerBitmap SetDstAddr Packets Wire RDMAReceiver.
From S2P Require Import RDMASender DropSimulator DebugLog Pipeline Recirculation Aggregation Aggregated.
From S2P Require Import FourPipes Job JobWorkers JobLoad JobSpec GRPCServer Lookup Assembly Receive Egress.
From S2P Require Import Traffic Front OnTheWire.
Import Pipe FourPipes Front OnTheWire.

Module LargeWire.
#[local] Arguments travel : simpl never.

(** ** A journey from the wire *)

Section network.
Context `{IH : IdentityHash}.
Context (ms : list member) (absent_int : Z) (absent_text : string).
Context (look : Egress.lookup_table) (L : large) (alternate : option Z).
Abbreviation receive := (receive absent_int absent_text look).

(** The passes after the first one. *)
Definition onward (pipes : Z → registers) (out : outcome) : option ((Z → registers) * outcome) :=
  match out with
  | InAggregation pk (Recirculate port) =>
      '(pipes', pk', e) ← travel 9 alternate port (initial 0 0 false) pipes pk;
      Some (pipes', InAggregation pk' e)
  | _ => Some (pipes, out)
  end.
(** A frame through all its passes; every pipe has a receiver of its own. *)
Definition journey (in_port rng probability tag : Z) (bs : list bool) (st : Z → rdma) (pipes : Z → registers) :
    option ((Z → rdma) * (Z → registers) * outcome) :=
  let q := pipe_of in_port in
  let '(st', r, out) :=
    ingress_pass absent_int absent_text look alternate in_port rng probability tag bs (st q) (pipes q) in
  '(pipes', out') ← onward (<[q := r]> pipes) out;
  Some (<[q := st']> st, pipes', out').

(** The content of a member's packet is its contribution to a phase. *)
Record large_contributes (r p : Z) (pk : packet) : Prop := {
  lc_index : pool_index (md pk) = index (share L 0) p;
  lc_last : last_packet_of_message (md pk) = lg_last L;
  lc_exponents : e0 pk = lg_e0 L r p ∧ e1 pk = lg_e1 L r p;
  lc_tag : tag pk = p;
  lc_blocks : blocks pk = lg_block L r p <$> seq 0 8
}.

(** What is assumed of a frame, as in OnTheWire. *)
Definition large_honest (st : Z → rdma) (s : large_net) (in_port tag : Z) (bs : list bool) : Prop :=
  ∀ h m st' pk bitmap copy, parse_ethernet bs = Some h → m ∈ ms → comes_from h m →
    receive in_port h tag (st (pipe_of in_port)) = (st', Consume pk bitmap false copy) → slot_of pk = lg_slot L →
    in_port = lg_port L (mb_rank m) ∧
    ∃ p, large_may_send L (mb_rank m) p s ∧ large_contributes (mb_rank m) p pk.

Definition large_heard (in_port rng probability tag : Z) (bs : list bool) (st : Z → rdma) (at_ : Z → Z) : Z → Z :=
  match parse_ethernet bs with
  | None => at_
  | Some h =>
      match (receive in_port h tag (st (pipe_of in_port))).2 with
      | Consume pk _ false _ =>
          if decide (slot_of pk = lg_slot L ∧ Traffic.IngressDropSimulator rng probability ≠ 0xffff)
          then <[worker_id (md pk) := tag]> at_ else at_
      | _ => at_
      end
  end.

Definition large_after (out : outcome) (left : list (exit * packet)) : list (exit * packet) :=
  match out with InAggregation pk e => leave e pk left | _ => left end.

(** Frames from outside; and any bits at a recirculation port, but for those that go
    on in the aggregation as a packet of the slot. *)
Inductive large_wire_step : (Z → rdma) * large_net → (Z → rdma) * large_net → Prop :=
| large_wire_frame st s in_port rng probability tag bs st' pipes' out :
    recirculates in_port = false → large_honest st s in_port tag bs →
    journey in_port rng probability tag bs st (ln_pipes s) = Some (st', pipes', out) →
    large_wire_step (st, s)
      (st', LargeNet pipes' (large_heard in_port rng probability tag bs st (ln_at s)) (large_after out (ln_out s)))
| large_wire_inside st s in_port rng probability tag bs st' pipes' out :
    recirculates in_port = true → (∀ pk, reenters bs = Some pk → slot_of pk ≠ lg_slot L) →
    journey in_port rng probability tag bs st (ln_pipes s) = Some (st', pipes', out) →
    large_wire_step (st, s) (st', LargeNet pipes' (ln_at s) (large_after out (ln_out s))).

(** From any state of the receivers' registers. *)
Definition large_wire_reachable (s : large_net) : Prop :=
  ∃ st0 st, rtc large_wire_step (st0, large_init) (st, s).

(** The step of a frame from outside as a function; no journey is without an end. *)
Definition large_frame_in (in_port rng probability tag : Z) (bs : list bool) (c : (Z → rdma) * large_net) :
    (Z → rdma) * large_net :=
  match journey in_port rng probability tag bs c.1 (ln_pipes c.2) with
  | Some (st', pipes', out) =>
      (st', LargeNet pipes' (large_heard in_port rng probability tag bs c.1 (ln_at c.2)) (large_after out (ln_out c.2)))
  | None => c
  end.

(** A packet that enters the aggregation has made a pass. *)
Lemma pass_ingress in_port rng probability tag bs st r st' r' pk e :
  ingress_pass absent_int absent_text look alternate in_port rng probability tag bs st r =
    (st', r', InAggregation pk e) → ∃ l p, Ingress alternate in_port l r p = (r', pk, e).
Proof.
  assert (Hgo : ∀ h v, go_on absent_int absent_text look alternate in_port rng probability h v r =
    (st', r', InAggregation pk e) → ∃ l p, Ingress alternate in_port l r p = (r', pk, e)).
  { intros h [st1 [p bitmap dropped copy|[]]]; unfold go_on; [|done|by destruct (Traffic.ordinary _ _ _ _ _)].
    destruct (Ingress _ _ _ _ p) as [[r1 p1] e1] eqn:Hi. intros [= <- <- <- <-]. by eexists _, _. }
  unfold Front.ingress_pass, inside_pass, outside_pass.
  destruct (recirculates in_port); [|by destruct (parse_ethernet bs); [apply Hgo|]].
  destruct (parse_recirculate bs) as [rc|]; [|done]. destruct (bridged rc) as [p|]; [|done].
  case_bool_decide; [|case_bool_decide; apply Hgo].
  destruct (Ingress _ _ _ _ p) as [[r1 p1] e1] eqn:Hi. intros [= <- <- <- <-]. by eexists _, _.
Qed.
Lemma journey_ends in_port rng probability tag bs st pipes :
  ∃ st' pipes' out, journey in_port rng probability tag bs st pipes = Some (st', pipes', out) ∧
    ∀ pk port, out ≠ InAggregation pk (Recirculate port).
Proof.
  unfold journey. set (q := pipe_of in_port).
  destruct (ingress_pass _ _ _ _ _ _ _ _ _ _ _) as [[st' r] out] eqn:Hp.
  destruct out as [pk [|port| | |]|f wy|]; try by eexists _, _, _.
  destruct (travel_enough 9 alternate port (initial 0 0 false) (<[q := r]> pipes) pk) as (pipes' & pk' & e & Ht & He).
  - apply pass_ingress in Hp as (l & p & Hi). apply ingress_rank in Hi. lia.
  - simpl. rewrite Ht. simpl. eexists _, _, _. split; [done|]. intros ? ? [= _ ->]. by eapply He.
Qed.
Lemma large_frame_in_step in_port rng probability tag bs c :
  recirculates in_port = false → large_honest c.1 c.2 in_port tag bs →
  large_wire_step c (large_frame_in in_port rng probability tag bs c).
Proof.
  destruct c as [st s]. intros Hr Hh. unfold large_frame_in. cbn [fst snd] in *.
  destruct (journey_ends in_port rng probability tag bs st (ln_pipes s)) as (st' & pipes' & out & Hj & _).
  rewrite Hj. by eapply large_wire_frame.
Qed.

(** The first pass and those after it are the passes of a packet. *)
Lemma onward_travel in_port l pipes r p pk e pipes' out :
  Ingress alternate in_port l (pipes (pipe_of in_port)) p = (r, pk, e) →
  onward (<[pipe_of in_port := r]> pipes) (InAggregation pk e) = Some (pipes', out) →
  ∃ pk' e', out = InAggregation pk' e' ∧ travel 10 alternate in_port l pipes p = Some (pipes', pk', e').
Proof.
  intros Hi Hj. assert (Hcase : (∃ q, e = Recirculate q) ∨ ∀ q, e ≠ Recirculate q) by (destruct e; eauto).
  destruct Hcase as [[q ->]|He].
  - rewrite (travel_next _ 9 _ _ _ _ _ _ _ Hi). simpl in Hj.
    destruct (travel 9 _ _ _ _ _) as [[[pipes1 pk'] e']|]; simplify_eq/=. by eexists _, _.
  - rewrite (travel_end _ 10 _ _ _ _ _ _ _ Hi) by done.
    eexists _, _. destruct e as [|q| | |]; try by destruct (He q); simplify_eq/=. all: by simplify_eq/=.
Qed.

(** A packet that is let in travels. *)
Lemma journey_travel in_port rng probability tag bs st pipes h st1 p bitmap dropped copy :
  recirculates in_port = false → parse_ethernet bs = Some h →
  receive in_port h tag (st (pipe_of in_port)) = (st1, Consume p bitmap dropped copy) →
  ∀ st' pipes' out, journey in_port rng probability tag bs st pipes = Some (st', pipes', out) →
  ∃ pk e, out = InAggregation pk e ∧
    travel 10 alternate in_port (initial bitmap (Traffic.IngressDropSimulator rng probability) dropped) pipes p =
      Some (pipes', pk, e).
Proof.
  intros Hport Hp Hr st' pipes' out. unfold journey, Front.ingress_pass, outside_pass. rewrite Hport, Hp, Hr.
  unfold go_on. destruct (Ingress _ _ _ _ p) as [[r p'] e] eqn:Hi. intros Hj.
  destruct (onward _ _) as [[pipes1 out1]|] eqn:Ho; [|done]. injection Hj as _ <- <-.
  by eapply onward_travel.
Qed.
End network.

(** ** Frames and contributions *)

(** Where only a pipe has been put back as it was. *)
Definition unmoved (s s' : large_net) : Prop :=
  ∃ q, s' = LargeNet (<[q := ln_pipes s q]> (ln_pipes s)) (ln_at s) (ln_out s).

Section deployed.
Context `{LF : BfrtLive} `{IH : IdentityHash}.
Context (w0 : world) (V0 : entries) (ms : list member) (w : world).
Context (Hbackground : background V0) (Himplements : implements w0 V0 ms w).
Context (absent_int : Z) (absent_text : string).
Context (look : Egress.lookup_table) (Hlook : Egress.resolves (wview w) look).
Context (L : large) (alternate : option Z).
Hypothesis Hjob : Egress.same_job (w_job w0) ms (share L 0).
Hypothesis Huniform : ∀ m, m ∈ ms → Receive.uniform_of IBV_MTU_1024 ms m.

Lemma large_job_fields m :
  m ∈ ms → lg_group L = switchml_workers_mgid (w_job w0) ∧ jb_size (share L 0) = Z.of_nat (length ms) ∧
    lg_type L = ROCEv2.
Proof.
  intros Hm. destruct Hjob as [Hranks Hgroup Htype]. simpl in *. split; [done|]. split.
  - unfold jb_size. simpl. by rewrite Hranks, length_fmap.
  - rewrite <- (Htype m Hm). by destruct (Receive.un_kind _ _ _ (Huniform m Hm)) as (? & ? & ? & ->).
Qed.

Lemma large_contribution_of m p pk :
  md pk = Md (lg_group L) (mb_rank m) (pool_index (md pk)) (jb_size (share L 0)) IBV_MTU_1024 (lg_type L) CONSUME0 0
    (last_packet_of_message (md pk)) false false false false →
  large_contributes L (mb_rank m) p pk → pk = large_contribution L (mb_rank m) p.
Proof.
  intros Hmd [Hi Hl [He0 He1] Ht Hb]. rewrite Hi, Hl in Hmd. destruct pk. simpl in *. by subst.
Qed.

(** Packets that are dropped in their first pass. *)
Lemma travel_dropped f in_port l pipes p pk :
  Ingress alternate in_port l (pipes (pipe_of in_port)) p = (pipes (pipe_of in_port), pk, Drop) →
  travel f alternate in_port l pipes p =
    Some (<[pipe_of in_port := pipes (pipe_of in_port)]> pipes, pk, Drop).
Proof. intros E. by apply travel_end. Qed.

Lemma frame_travels st s in_port rng probability tag bs st' pipes' out :
  large_honest ms absent_int absent_text look L st s in_port tag bs →
  recirculates in_port = false →
  journey absent_int absent_text look alternate in_port rng probability tag bs st (ln_pipes s) =
    Some (st', pipes', out) →
  let s' := LargeNet pipes'
    (large_heard absent_int absent_text look L in_port rng probability tag bs st (ln_at s))
    (large_after out (ln_out s)) in
  unmoved s s' ∨ large_step L alternate s s'.
Proof.
  intros Hh Hport Hj s'. unfold s', large_heard. set (q := pipe_of in_port).
  destruct (parse_ethernet bs) as [h|] eqn:Hp.
  2: { unfold journey, Front.ingress_pass, outside_pass in Hj. rewrite Hport, Hp in Hj. simplify_eq/=. left. by exists q. }
  destruct (receive_any w0 V0 ms w Hbackground Himplements absent_int absent_text look Hlook _ in_port bs h tag
    (st q) Huniform Hp) as [Hr|(m & st1 & pk & dropped & copy & Hm & Hf & Hr & Ht & Hmd)]; rewrite Hr; cbn [snd].
  { unfold journey, Front.ingress_pass, outside_pass in Hj. fold q in Hj. rewrite Hport, Hp, Hr in Hj.
    unfold go_on in Hj. destruct (Traffic.ordinary _ _ _ _ _). simplify_eq/=. left. by exists q. }
  assert (Htype : packet_type (md pk) = CONSUME0) by by rewrite Hmd.
  destruct (large_job_fields m Hm) as (Eg & En & Et). rewrite <- Eg, <- En, <- Et in Hmd.
  destruct (journey_travel _ _ _ _ _ _ _ _ _ _ _ _ _ _ _ _ _ Hport Hp Hr _ _ _ Hj) as (pk' & e & -> & Htr). simpl.
  destruct dropped.
  { destruct (ingress_dropped alternate in_port
      (initial (worker_bit (mb_rank m)) (Traffic.IngressDropSimulator rng probability) true) (ln_pipes s q) pk
      Htype eq_refl) as [pk1 E]. apply travel_dropped with (f := 10%nat) in E. simplify_eq. left. by exists q. }
  destruct (decide (slot_of pk = lg_slot L)) as [Hs|Hs].
  2: { rewrite decide_False by tauto. right. by eapply large_other. }
  destruct (decide (Traffic.IngressDropSimulator rng probability = 0xffff)) as [Hd|Hd].
  { rewrite decide_False by tauto. rewrite Hd in Htr.
    destruct (ingress_simulated_drop alternate in_port (worker_bit (mb_rank m)) (ln_pipes s q) pk Htype) as [pk1 E].
    apply travel_dropped with (f := 10%nat) in E. simplify_eq. left. by exists q. }
  rewrite decide_True by done. right. destruct (Hh h m _ _ _ _ Hp Hm Hf Hr Hs) as (-> & p & Hmay & Hc).
  pose proof (large_contribution_of m p pk Hmd Hc) as ->. simpl in Ht. subst tag.
  apply (large_arrive L alternate s (mb_rank m) p (Traffic.IngressDropSimulator rng probability)); [|done..].
  pose proof (Egress.sj_ranks _ _ _ Hjob) as Hranks. simpl in Hranks. rewrite Hranks. by apply list_elem_of_fmap_2.
Qed.

Lemma inside_travels st s in_port rng probability tag bs st' pipes' out :
  recirculates in_port = true → (∀ pk, reenters bs = Some pk → slot_of pk ≠ lg_slot L) →
  journey absent_int absent_text look alternate in_port rng probability tag bs st (ln_pipes s) =
    Some (st', pipes', out) →
  let s' := LargeNet pipes' (ln_at s) (large_after out (ln_out s)) in
  unmoved s s' ∨ large_step L alternate s s'.
Proof.
  intros Hport Hs Hj s'. unfold s', journey, Front.ingress_pass in *. rewrite Hport in Hj.
  destruct (inside_pass _ _ _ _ _ _ _ _ _ _) as [[st1 r1] out1] eqn:Hpass.
  apply (inside_cases w0 V0 ms w Hbackground Himplements absent_int absent_text look Hlook) in Hpass as [_ Hcase].
  destruct (reenters bs) as [pk|].
  - destruct Hcase as (pk1 & e1 & Hi & ->). destruct (onward _ _ _) as [[pipes1 out2]|] eqn:Ho; [|done].
    injection Hj as _ <- <-. destruct (onward_travel _ _ _ _ _ _ _ _ _ _ Hi Ho) as (pk' & e' & -> & Ht).
    right. eapply large_other; [by apply Hs|exact Ht].
  - destruct Hcase as [-> Hout]. destruct out1 as [pk' e| |]; [by destruct (Hout pk' e)| |];
      simplify_eq/=; left; by eexists.
Qed.

(** ** What leaves is the slot's *)

Lemma travel_service f in_port l pipes p pipes' pk e :
  travel f alternate in_port l pipes p = Some (pipes', pk, e) →
  Egress.service (md pk) = Egress.service (md p) ∧ Egress.exit_type e (md pk).
Proof.
  revert in_port l pipes p. induction f as [|f IHf]; intros in_port l pipes p H;
    destruct (Ingress alternate in_port l (pipes (pipe_of in_port)) p) as [[r p1] e1] eqn:Hi;
    pose proof (Egress.ingress_service _ _ _ _ _ _ _ _ Hi) as [H1 H2];
    (assert (Hcase : (∃ q, e1 = Recirculate q) ∨ ∀ q, e1 ≠ Recirculate q) by (destruct e1; eauto));
    (destruct Hcase as [[q ->]|He]; [|rewrite (travel_end _ _ _ _ _ _ _ _ _ Hi He) in H; injection H as _ <- <-; by split]).
  - unfold travel in H. by rewrite Hi in H.
  - rewrite (travel_next _ _ _ _ _ _ _ _ _ Hi) in H. apply IHf in H as [-> H]. done.
Qed.

(** A packet that has left for the slot has the job's group, size, kind and flag. *)
Definition large_out_of_job (x : exit * packet) : Prop :=
  slot_of x.2 = lg_slot L →
  Egress.exit_type x.1 (md x.2) ∧
  ∃ r i, Egress.service (md x.2) = (lg_group L, r, i, IBV_MTU_1024, lg_type L, lg_last L).

Lemma slot_service p pk : Egress.service (md pk) = Egress.service (md p) → slot_of pk = slot_of p.
Proof. unfold slot_of, Egress.service. congruence. Qed.

Lemma step_out s s' :
  unmoved s s' ∨ large_step L alternate s s' → Forall large_out_of_job (ln_out s) → Forall large_out_of_job (ln_out s').
Proof.
  assert (Hleave : ∀ e pk out, Forall large_out_of_job out → large_out_of_job (e, pk) →
    Forall large_out_of_job (leave e pk out)).
  { intros e pk out Ho Hp. destruct e; simpl; try done; by rewrite Forall_app, Forall_singleton. }
  intros [[q ->]|Hstep] Ho; [done|].
  destruct Hstep as [s r p prob pipes' pk e _ _ _ E|s in_port l p0 pipes' pk e Hs E];
    apply travel_service in E as [E Hx]; simpl; apply Hleave; try done; intros Hslot; split; try done.
  - eexists _, _. exact E.
  - apply slot_service in E. simpl in Hslot. by rewrite E in Hslot.
Qed.

Hypothesis Hok : large_ok L alternate.

(** The invariant of [FourPipes] does not tell a pipe from one that has been put
    back. *)
Lemma step_inv k ws s s' :
  unmoved s s' ∨ large_step L alternate s s' → large_inv L k ws s → ∃ k' ws', large_inv L k' ws' s'.
Proof.
  intros [[q ->]|Hstep] Hi; [|by eapply large_inv_step].
  exists k, ws. apply (large_frame L k ws s _ _ Drop (large_contribution L 0 0)); [exact Hi| |done|done].
  destruct Hi as [_ _ _ _ Hg _ _]. intros q' Hq'. destruct (decide (Z.of_nat q' = q)) as [<-|Hn].
  - rewrite fn_lookup_insert. by apply Hg.
  - rewrite fn_lookup_insert_ne by done. by apply Hg.
Qed.

Lemma large_wire_inv s :
  large_wire_reachable ms absent_int absent_text look L alternate s →
  Forall large_out_of_job (ln_out s) ∧ ∃ k ws, large_inv L k ws s.
Proof.
  intros (st0 & st & H). change s with (st, s).2.
  assert (H0 : Forall large_out_of_job (ln_out (st0, large_init).2) ∧ ∃ k ws, large_inv L k ws (st0, large_init).2).
  { split; [by apply Forall_nil_2|]. exists 0, []. by eapply large_inv_init. }
  revert H H0. generalize (st0, large_init) (st, s). clear st0 st s. intros c c' H.
  induction H as [|c c1 c' Hstep _ IHc]; [done|]. intros [Ho (k & ws & Hi)]. apply IHc.
  destruct Hstep as [st s in_port rng probability tag bs st' pipes' out Hport Hh Hj|
    st s in_port rng probability tag bs st' pipes' out Hport Hs Hj].
  - pose proof (frame_travels _ _ _ _ _ _ _ _ _ _ Hh Hport Hj) as Hcase.
    split; [by eapply step_out|by eapply step_inv].
  - pose proof (inside_travels _ _ _ _ _ _ _ _ _ _ Hport Hs Hj) as Hcase.
    split; [by eapply step_out|by eapply step_inv].
Qed.

(** ** Delivered *)

Context `{PR : PacketReplication} (roce udp : Egress.switch_address) (l : Egress.sender_locals).

(** As [Egress.delivered]; the last block of a retransmission is the worker's
    own. *)
Definition large_delivered (x : exit * packet) (eg : Egress.egress_md) : Prop :=
  ∃ p, 0 ≤ p ∧
    ((large_result L p (total L p 7) x.2 ∧ ∃ f,
        Egress.send roce udp (wview w) (wgroups w) look l x.1 eg (blocks x.2) ≡ₚ
          (λ m, (mb_dev m, Egress.Leaves (f m) (blocks x.2))) <$> ms ∧
        ∀ m, m ∈ ms → Egress.answer_for (Egress.address_for roce udp m) m eg (f m)) ∨
     (∃ m h, m ∈ ms ∧ large_result L p (lg_block L (mb_rank m) p 7) x.2 ∧
        Egress.send roce udp (wview w) (wgroups w) look l x.1 eg (blocks x.2) =
          [(lg_port L (mb_rank m), Egress.Leaves h (blocks x.2))] ∧
        Egress.answer_for (Egress.address_for roce udp m) m eg h)).

(** C3. The same for packets of 1024 bytes: the controller has assembled a job of
    RoCE members that announced this size, and any frames come in at the ports
    of the first pipe but 64 and 68 and at port 320, and at the recirculation ports
    anything that does not go on in the aggregation as a packet of the slot;
    each passes its pipes before the next comes. Then every packet that leaves for
    the slot has the sums over all the members and is delivered to every member
    once, at its port and as the answer for it; or it is a retransmission for
    the member that asked, whose last block is that member's own words. *)
Theorem wire_to_wire_large s x eg :
  (∀ m, m ∈ ms → Egress.queue_pairs_fit m) → 0 ≤ lg_slot L < 2 ^ 14 →
  large_wire_reachable ms absent_int absent_text look L alternate s → x ∈ ln_out s → slot_of x.2 = lg_slot L →
  Egress.carries x.2 eg → Egress.simulate_egress_drop eg = false → large_delivered x eg.
Proof.
  intros Hfit Hslot Hs Hx Hxs (Hmd & _ & _) Hd. destruct (large_wire_inv s Hs) as [Hout (k & ws & [])].
  rewrite Forall_forall in Hout. destruct (Hout x Hx Hxs) as [Hway (r & i & Hsv)].
  unfold Egress.service in Hsv. simplify_eq. pose proof Hjob as [Hranks Hgroup Htype]. simpl in Hranks, Hgroup, Htype.
  destruct (li_out0 x Hx Hxs) as (p & [Hp _] & Hres).
  assert (Hidx : ∀ last, large_result L p last x.2 → 0 ≤ pool_index (Egress.eg_md eg) < 2 ^ 15).
  { intros last (_ & Hi & _). rewrite Hmd, Hi. unfold index. simpl. pose proof (Z.mod_pos_bound p 2). lia. }
  exists p. split; [done|]. destruct Hres as [[Hm Hr]|(rank & Hrank & Hu & Hwid & Hr)].
  - left. split; [done|]. rewrite Hm in *. simpl in Hway. destruct Hway as [Hb _]. rewrite Hgroup.
    apply (Egress.broadcast_copies w0 V0 ms w Hbackground Himplements look Hlook); rewrite ?Hmd;
      [|by rewrite <- Hmd; eapply Hidx|done..].
    intros m Hmm. split; [by apply Hfit|]. rewrite Htype by done. congruence.
  - right. rewrite Hranks in Hrank. apply list_elem_of_fmap in Hrank as (m & -> & Hmm).
    rewrite Hu in *. simpl in Hway.
    destruct (Egress.copy_for w0 V0 ms w Hbackground Himplements look Hlook roce udp l m eg 0 (blocks x.2))
      as (h & Hh & Ha); auto.
    + rewrite Htype, Hmd by done. congruence.
    + by eapply Hidx.
    + right. by rewrite Hmd.
    + exists m, h. simpl. by rewrite Hh.
Qed.
End deployed.
End LargeWire.
