(* ===== verification/System.v ===== *)
(** * The running controller (py/switchml.py, py/GRPCServer.py, py/GRPCClient.py)

    The main program builds the job and opens two doors: the command line and
    the RPC server, each with one thread. The file models the process as a
    state machine whose steps are the construction, the assignment of the
    server's job, commands and requests; the threads are taken to alternate
    between whole commands and requests. *)
From S2P Require Import Prelude PyText PyMonad PyNum Bfrt Live World Ports Counters PortStats Worker PRE.
From S2P Require Import NonSwitchMLForward GetWorkerBitmap SetDstAddr Packets RDMAReceiver.
From S2P Require Import RDMASender Registers NextStep Mirror ARPandICMP DropSimulator DebugLog.
From S2P Require Import Job JobPorts JobWorkers CLI Session JobInit JobLoad JobSpec GRPCServer.
From S2P Require Import Assembly.
Import GRPCServer.

(** ** The main program *)

(** The options that matter, with their defaults in the source; a file is the
    parsed contents, and has no name when its option is the empty string. *)
Record arguments := Arguments {
  ar_switch_mac : string;
  ar_switch_ip : string;
  ar_switch_udp_port : Z;
  ar_switch_udp_mask : Z;
  ar_ports : option (option (list (Z * gmap string pyval)));
  ar_job : option (option (option (list Z)))
}.
Definition default_arguments : arguments :=
  Arguments "06:00:00:00:00:01" "198.19.200.200" 0xbee0 0xfff0 (Some None) (Some None).

Section system.
Context `{BF : Bfrt} `{DO : DictOrder} `{ML : MathLog} `{IP : IpAddress} `{PB : Protobuf}.

(** Connecting is the client library's: it fails with an exception or not. *)
Definition connect (failure : option pyexn) : M world unit :=
  match failure with Some e => raise e | None => mret tt end.

(** [switchml.py] up to the command line. [Job] is given the job file and does
    nothing with it. *)
Definition main (a : arguments) (failure : option pyexn) : M world unit :=
  log_info "SwitchML controller starting up..." [] ;;
  log_info "*** Hit Control-\ to exit! ***" [] ;;
  log_info "Connecting to GRPC server {}:{} and binding to program {}..." [] ;;
  connect failure ;;
  Job.init (ar_switch_ip a) (ar_switch_mac a) (ar_switch_udp_port a) (ar_switch_udp_mask a) []
    (ar_ports a).
Definition configured : M world unit := log_info "Switch configured successfully!" [].

(** [do_exit] and [do_EOF], which end the process. *)
Definition do_exit : M world unit := mret tt.
Definition do_EOF : M world unit := print "Exiting on EOF." [] ;; do_exit.

(** ** The process *)

(** Before the server is started; the server is started but has no job yet;
    both doors are open; the process has ended. *)
Inductive phase := Launch | Started | Ready | Exited.
Record process := Process { pr_phase : phase; pr_world : world }.

(** What the server's handler finds in [self.job]. *)
Definition server_job (p : phase) : option job_ref :=
  match p with Started => Some NotAssigned | Ready => Some TheJob | Launch | Exited => None end.

Inductive process_step (a : arguments) : process → process → Prop :=
| step_construct failure w w' :
    main a failure w = (Ok tt, w') →
    process_step a (Process Launch w) (Process Started w')
| step_crash failure w e w' :
    main a failure w = (Raise e, w') →
    process_step a (Process Launch w) (Process Exited w')
| step_assign w :
    process_step a (Process Started w) (Process Ready (configured w).2)
| step_request p job request w r w' :
    server_job p = Some job → RDMAConnect job request w = (r, w') →
    process_step a (Process p w) (Process p w')
| step_command c w r w' :
    CLI.run_command_loop [c] w = (r, w') →
    process_step a (Process Ready w) (Process Ready w')
| step_exit w (eof : bool) r w' :
    (if eof then do_EOF else do_exit) w = (r, w') →
    process_step a (Process Ready w) (Process Exited w').

Inductive reachable (a : arguments) (w0 : world) : process → Prop :=
| reach_launch : reachable a w0 (Process Launch w0)
| reach_step p p' : reachable a w0 p → process_step a p p' → reachable a w0 p'.

(** The states after a construction, a request, an assignment and a command. *)
Lemma reach_started a w0 :
  (main a None w0).1 = Ok tt → reachable a w0 (Process Started (main a None w0).2).
Proof.
  intros E. eapply reach_step; [apply reach_launch|]. apply (step_construct _ None).
  destruct (main a None w0). simpl in *. by subst.
Qed.
Lemma reach_request a w0 p job request w :
  server_job p = Some job → reachable a w0 (Process p w) →
  reachable a w0 (Process p (RDMAConnect job request w).2).
Proof.
  intros Hj Hp. eapply reach_step; [exact Hp|]. eapply (step_request _ _ job request); [done|].
  apply surjective_pairing.
Qed.
Lemma reach_ready a w0 w :
  reachable a w0 (Process Started w) → reachable a w0 (Process Ready (configured w).2).
Proof. intros Hp. eapply reach_step; [exact Hp|apply step_assign]. Qed.
Lemma reach_command a w0 c w :
  reachable a w0 (Process Ready w) → reachable a w0 (Process Ready (CLI.run_command_loop [c] w).2).
Proof.
  intros Hp. eapply reach_step; [exact Hp|]. eapply (step_command _ c). apply surjective_pairing.
Qed.

(** ** The test client *)

(** [run_test]: the requests it sends, for a job of one worker. *)
Definition test_request (job_size rank : Z) : RDMAConnectRequest :=
  {| job_id := 12345; my_rank := rank; job_size := job_size; mac := 0; ipv4 := 0; rkey := 12345;
     packet_size := 0; message_size := 1024; qpns := [1; 2; 3; 4; 5]; psns := [6; 7; 8; 9; 0] |}.
Definition test_requests : list RDMAConnectRequest :=
  let job_size := 1 in test_request job_size <$> range 0 job_size.
Definition run_test (job : job_ref) : M world unit :=
  print "Sending request" [] ;;
  for_each test_requests (λ request,
    RDMAConnect job request ;; print "GRPC client received:
{}" []).
End system.

(** ** The ports stay consistent *)

Section safety.
Context `{LF : BfrtLive} `{DO : DictOrder} `{ML : MathLog} `{IP : IpAddress} `{PB : Protobuf}.

Lemma pb_same bits l : stable Ports.same_ports (uints bits l).
Proof. intros w. unfold uints. reflexivity. Qed.
Lemma response_same request : stable Ports.same_ports (job_response request).
Proof. pose proof pb_same. unfold job_response, parsed. stable_walk. Qed.

Lemma connect_keeps job request : stable (keeps Ports.ports_inv) (RDMAConnect job request).
Proof.
  apply Ports.same_ports_keeps. pose proof response_same. pose proof worker_clear_all_same.
  pose proof worker_add_roce_same. unfold RDMAConnect. stable_walk.
Qed.

(** A constructor's blocks after the ports. *)
Ltac block := apply Ports.same_ports_keeps; stable_walk.

Lemma significand_init_same n : stable Ports.same_ports (SignificandSum.init n).
Proof. unfold SignificandSum.init, SignificandSum.clear, SignificandSum.clear_registers. stable_walk. Qed.

Lemma pop_sessions_same l : stable Ports.same_ports (Mirror.pop_sessions l).
Proof. induction l as [|sid l IH]; simpl; unfold Mirror.set_sessions; stable_walk. Qed.

(** The constructor's blocks after the ports. *)
Lemma blocks_same :
  Forall (stable Ports.same_ports)
    [ARPandICMP.init; GetWorkerBitmap.init; RDMAReceiver.init; UpdateAndCheckWorkerBitmap.init;
     CountWorkers.init; ExponentMax.init; PRE.init 0x1234 0x1235 320; Mirror.init 320;
     DropSimulator.init; DebugLog.init; NextStep.init; Forward.init 0x1235].
Proof.
  pose proof receiver_clear_same. pose proof drop_clear_same. pose proof pop_sessions_same.
  repeat apply Forall_cons_2; [..|apply Forall_nil_2].
  - unfold ARPandICMP.init, ARPandICMP.clear. stable_walk.
  - unfold GetWorkerBitmap.init, GetWorkerBitmap.clear, GetWorkerBitmap.add_default_entries. stable_walk.
  - unfold RDMAReceiver.init. stable_walk.
  - unfold UpdateAndCheckWorkerBitmap.init, UpdateAndCheckWorkerBitmap.clear,
      UpdateAndCheckWorkerBitmap.clear_registers. stable_walk.
  - unfold CountWorkers.init, CountWorkers.clear, CountWorkers.clear_registers,
      CountWorkers.add_default_entries. stable_walk.
  - unfold ExponentMax.init, ExponentMax.clear, ExponentMax.clear_registers. stable_walk.
  - unfold PRE.init, PRE.clear, PRE.add_default_entries, PRE.try_del. stable_walk.
  - unfold Mirror.init, Mirror.clear, Mirror.add_default_entries. stable_walk.
  - unfold DropSimulator.init. stable_walk.
  - unfold DebugLog.init, DebugLog.clear, DebugLog.add_default_entries, DebugLog.clear_log, DebugLog.clear_register_twice. stable_walk.
  - unfold NextStep.init. stable_walk.
  - unfold Forward.init, Forward.clear, Forward.add_default_entries. stable_walk.
Qed.

Lemma addresses_same mac ip :
  Forall (stable Ports.same_ports)
    [SetDstAddr.init mac ip; RDMASender.init mac ip; ARPandICMP.add_switch_mac_and_ip mac ip].
Proof.
  repeat apply Forall_cons_2; [..|apply Forall_nil_2].
  - unfold SetDstAddr.init, SetDstAddr.clear, SetDstAddr.clear_udp_entries,
      SetDstAddr.add_default_entries. stable_walk.
  - unfold RDMASender.init, RDMASender.clear, RDMASender.clear_workers,
      RDMASender.add_default_entries. stable_walk.
  - unfold ARPandICMP.add_switch_mac_and_ip. stable_walk.
Qed.

(** The first block empties the ports, whatever was there. *)
Lemma ports_init w w' : Ports.init w = (Ok tt, w') → Ports.ports_inv w'.
Proof.
  unfold Ports.init. intros E.
  do 3 (rewrite run_bind in E; destruct (bf _ _) as [[?|?] ?] in E; [|done]).
  rewrite run_bind_modify in E.
  match type of E with ?m ?w1 = _ => assert (Hw : Ports.ports_inv w1) end.
  { split; [apply NoDup_nil_2|]. intros d Hd. by apply not_elem_of_nil in Hd. }
  match type of E with ?m ?w1 = _ => assert (Hs : stable Ports.same_ports m) by stable_walk end.
  pose proof (Ports.same_ports_keeps _ Hs _ Hw) as H. by rewrite E in H.
Qed.

(** A construction that returns leaves consistent ports, whatever was there. *)
Lemma init_ports ip mac up um file w w' :
  Job.init ip mac up um [] file w = (Ok tt, w') → Ports.ports_inv w'.
Proof.
  pose proof Ports.enable_loopback_keeps as Hloop. pose proof port_load_keeps as Hload.
  pose proof blocks_same as Hblocks. pose proof (addresses_same mac ip) as Haddr.
  repeat match goal with H : Forall _ (_ :: _) |- _ => apply Forall_cons in H as [? H] end.
  unfold Job.init. intros E. rewrite run_bind in E.
  destruct (Ports.init w) as [[[]|e] w1] eqn:E1; [|done]. apply ports_init in E1.
  match type of E with ?m w1 = _ => assert (Hm : stable (keeps Ports.ports_inv) m) end.
  { clear E. pose proof significand_init_same. unfold Job.opened. stable_walk.
    all: by apply Ports.same_ports_keeps. }
  specialize (Hm w1 E1). by rewrite E in Hm.
Qed.

(** C19. Once the job is built, and until the process ends, the ports are
    consistent: whatever the state of the switch was at the start, whatever
    the options, and in whatever order commands and requests come in,
    successful or not. *)
Theorem system_safe a w0 p :
  reachable a w0 p → pr_phase p ≠ Launch → pr_phase p ≠ Exited → Ports.ports_inv (pr_world p).
Proof.
  induction 1 as [|p p' Hp IH Hstep]; [done|]. intros Hl Hx.
  destruct Hstep as [failure w w' E|failure w e w' E|w|ph job request w r w' Hj E|c w r w' E|w eof r w' E];
    simpl in *; try done.
  - unfold main in E. do 3 (rewrite run_bind in E; cbn [log_info] in E; simpl in E).
    rewrite run_bind in E. destruct failure; simpl in E; [done|]. by eapply init_ports.
  - by apply IH.
  - pose proof (connect_keeps job request w) as Hk. rewrite E in Hk. apply Hk, IH; [|done].
    by intros ->.
  - destruct (ends_loop [c] w) as (w1 & E1 & Hw1); [by apply IH|]. rewrite E in E1. by simplify_eq.
Qed.
End safety.

(** ** The test client against a live controller *)

Section client.
Context `{LF : BfrtLive} `{DO : DictOrder} `{ML : MathLog} `{IP : IpAddress} `{PB : Protobuf}.

Lemma ends_run_test_one request exn w Q :
  test_requests = [request] → (∀ w1, quiet w w1 → ends (RDMAConnect TheJob request) w1 (Raise exn) Q) →
  ends (run_test TheJob) w (Raise exn) Q.
Proof.
  intros Hr Hc. unfold run_test. rewrite Hr.
  eapply ends_bind; [apply ends_print, looks_refl|]. intros w1 Hl1. simpl.
  eapply ends_bind_raise; [|intros w2 H; exact H].
  eapply ends_bind_raise; [by apply Hc|intros w2 H; exact H].
Qed.

(** The test client takes rank 0, so a controller that is serving a job loses
    it: all its members are removed. The client's own MAC address, zero, is
    then not found and the call fails, with six entries left in the ingress
    table and nothing else of a worker. *)
Theorem test_client_clears w0 V0 ms w :
  background V0 → counter_sizes → 6 ≤ bf_size RDMAReceiver.table →
  DropSimulator.value_of (ingress_drop_probability (w_drop w0)) = Some 0 →
  DropSimulator.value_of (egress_drop_probability (w_drop w0)) = Some 0 →
  mac_addresses (w_fwd w0) !! "00:00:00:00:00:00" = None →
  implements w0 V0 ms w →
  ends (run_test TheJob) w (Raise Forward.not_configured) (λ w', ∃ G',
    G' !! switchml_workers_mgid (w_job w0) = Some [] ∧
    looks (roce_known 0 (recorded_world [] w0))
      (roce_ingress (w_job w0) 0 1 (ip_str 0) 0 V0) G' w').
Proof.
  intros Hb Hsz Hfit Hp Hq Hmac (Hwf & G & HG & Hl).
  eapply ends_run_test_one; [reflexivity|]. intros w1 Hw1.
  eapply ends_connect_start; [exact Hw1|]. intros w2 Hl2.
  assert (Hi2 : implements w0 V0 ms w2).
  { split; [done|]. exists G. split; [done|].
    destruct Hl as (Ha & HV & HG'), Hl2 as (Ha2 & HV2 & HG2). repeat split; congruence. }
  rewrite bool_decide_eq_true_2 by done.
  eapply ends_bind; [exact (clear_all w0 V0 Hb Hsz Hp Hq ms w2 Hi2)|].
  intros w3 (_ & G3 & HG3 & Hl3). unfold job_table in Hl3. simpl in Hl3. rewrite map_empty_union in Hl3.
  assert (Hin : RDMAReceiver.table ∈ cleared_tables) by in_tables.
  eapply ends_bind_raise.
  { apply (ends_job_roce_unknown 0 1 _ _ _ 0 _ _ (recorded_world [] w0) V0 G3);
      [done|done|exact Hmac| | |exact Hl3].
    - intros op. apply (bg_tables _ Hb). by right.
    - rewrite count_entries_none; [lia|]. intros k. apply (bg_tables _ Hb). by right. }
  intros w4 Hl4. exists G3. split; [exact HG3|exact Hl4].
Qed.
End client.
