(* ===== verification/Typing.v ===== *)
(** * Every call fits the switch program

    The calls the controller makes to the driver over the life of the process,
    against the declarations of [Schema]: each names an object of the program,
    the fields of its key with masks only where they are ternary, an action
    and the action's parameters. Two calls do not, and are named. *)
From S2P Require Import Prelude PyText PyMonad PyNum Bfrt Live World Ports Counters PortStats Worker PRE.
From S2P Require Import NonSwitchMLForward GetWorkerBitmap SetDstAddr Packets RDMAReceiver.
From S2P Require Import RDMASender Registers NextStep Mirror ARPandICMP DropSimulator DebugLog.
From S2P Require Import Job CLI Session GRPCServer System Schema.
Import GRPCServer.

Section typing.
Context `{BF : Bfrt}.

(** The two that do not: the entries of UDP workers, and the default action
    of the sender's addresses. *)
Definition unfit (c : bfcall) : bool :=
  match c with
  | EntryAdd t _ _ => bool_decide (t = GetWorkerBitmap.table)
  | DefaultEntrySet t _ => bool_decide (t = RDMASender.switch_mac_and_ip)
  | _ => false
  end.

Definition as_declared (c : bfcall) : Prop := Schema.call_ok c = negb (unfit c).

(** The calls made on the way from [w] to [w'] are as said. *)
Definition typed (w w' : world) : Prop :=
  ∃ cs, w_calls w' = w_calls w ++ cs ∧ Forall as_declared cs.

#[export] Instance typed_preorder : PreOrder typed.
Proof.
  split.
  - intros w. exists []. by rewrite app_nil_r.
  - intros w1 w2 w3 (cs & E & H) (cs' & E' & H'). exists (cs ++ cs').
    rewrite E', E, app_assoc. split; [done|]. by apply Forall_app.
Qed.

Lemma typed_after c w : as_declared c → typed w (after c w).
Proof. intros Hc. exists [c]. split; [done|]. by apply Forall_singleton. Qed.

Lemma typed_silent w w' : w_calls w' = w_calls w → typed w w'.
Proof. intros E. exists []. by rewrite app_nil_r. Qed.

Lemma typed_bf c : as_declared c → stable typed (bf c).
Proof. intros Hc. apply stable_bf. intros w. by apply typed_after. Qed.

Lemma typed_get t ks b : as_declared (EntryGet t ks b) → stable typed (entry_get t ks b).
Proof. intros Hc. apply stable_entry_get. intros w. by apply typed_after. Qed.

Lemma typed_modify f : (∀ w, w_calls (f w) = w_calls w) → stable typed (modify f).
Proof. intros H w. apply typed_silent, H. Qed.
End typing.

#[global] Hint Extern 1 (typed _ (add_line _ _)) => apply typed_silent; reflexivity : stable.
(** Evaluates the declaration of a call whose table is a literal. *)
Ltac declared :=
  lazymatch goal with
  | |- context [SignificandSum.table _] => fail
  | |- context [SignificandSum.register _] => fail
  | |- as_declared ?c =>
      let t := eval hnf in (call_table c) in
      lazymatch t with String _ _ => vm_compute; reflexivity end
  end.
#[global] Hint Extern 1 (stable typed (bf _)) => apply typed_bf; declared : stable.
#[global] Hint Extern 1 (stable typed (entry_get _ _ _)) => apply typed_get; declared : stable.
#[global] Hint Extern 1 (stable typed (modify _)) => apply typed_modify; intros ?; reflexivity : stable.


(** ** Calls on whole arrays *)

Section arrays.
Context `{BF : Bfrt}.

Lemma counter_object t :
  t ∈ counter_tables →
  Schema.find_object t = Some Schema.CounterArray ∧ bool_decide (t ∈ Schema.driver_tables) = false ∧
  bool_decide (t = GetWorkerBitmap.table) = false.
Proof.
  revert t. apply Forall_forall.
  repeat apply Forall_cons_2; [..|apply Forall_nil_2]; repeat split; vm_compute; reflexivity.
Qed.

Lemma length_zero_cells n : length (counter_range n) = length (zero_cells n).
Proof.
  unfold counter_range, zero_cells, range. rewrite length_fmap, length_replicate, length_seqZ. lia.
Qed.

Lemma zero_cells_ok n :
  Schema.write_ok Schema.CounterArray (counter_range n) (zero_cells n) = true.
Proof.
  unfold Schema.write_ok. rewrite bool_decide_eq_true_2 by apply length_zero_cells.
  unfold counter_range, zero_cells. rewrite forallb_fmap by done. by rewrite forallb_replicate.
Qed.

Lemma counter_add_declared t n :
  t ∈ counter_tables → as_declared (EntryAdd t (counter_range n) (Some (zero_cells n))).
Proof.
  intros (Ho & Hd & Hu)%counter_object. unfold as_declared, Schema.call_ok. simpl.
  rewrite Ho, Hd, Hu. simpl. apply zero_cells_ok.
Qed.
Lemma counter_mod_declared t n :
  t ∈ counter_tables → as_declared (EntryMod t (counter_range n) (zero_cells n)).
Proof.
  intros (Ho & Hd & _)%counter_object. unfold as_declared, Schema.call_ok. simpl.
  rewrite Ho, Hd. simpl. apply zero_cells_ok.
Qed.
Lemma counter_sync_declared t : t ∈ counter_tables → as_declared (OperationsExecute t "Sync").
Proof.
  intros (Ho & Hd & _)%counter_object. unfold as_declared, Schema.call_ok. simpl. by rewrite Ho, Hd.
Qed.
Lemma counter_get_declared t l b :
  t ∈ counter_tables → as_declared (EntryGet t (Some (counter_key <$> l)) b).
Proof.
  intros (Ho & Hd & _)%counter_object. unfold as_declared, Schema.call_ok. simpl.
  rewrite Ho, Hd. simpl. by apply forallb_fmap.
Qed.

Lemma register_get_declared t l b :
  Schema.find_object t = Some Schema.RegisterArray →
  as_declared (EntryGet t (Some ((λ i, [KeyTuple "$REGISTER_INDEX" (VInt i)]) <$> l)) b).
Proof.
  intros Ho. unfold as_declared, Schema.call_ok. simpl. rewrite Ho.
  apply orb_true_intro. right. by apply forallb_fmap.
Qed.

(** Counters of entries are rewritten one by one. *)
Definition direct_tables : list string :=
  [GetWorkerBitmap.table; RDMAReceiver.table; RDMASender.create_roce_packet; SetDstAddr.table].
Lemma direct_object t :
  t ∈ direct_tables → ∃ ks acts c e,
    Schema.find_object t = Some (Schema.Table ks acts true c e) ∧
    bool_decide (t ∈ Schema.driver_tables) = false.
Proof.
  revert t. apply Forall_forall.
  repeat apply Forall_cons_2; [..|apply Forall_nil_2]; do 4 eexists; split; vm_compute; reflexivity.
Qed.

Lemma direct_sync_declared t : t ∈ direct_tables → as_declared (OperationsExecute t "SyncCounters").
Proof.
  intros (ks & acts & c & e & Ho & Hd)%direct_object. unfold as_declared, Schema.call_ok. simpl.
  by rewrite Ho, Hd.
Qed.
Lemma direct_get_declared t b : t ∈ direct_tables → as_declared (EntryGet t None b).
Proof.
  intros (ks & acts & c & e & Ho & Hd)%direct_object. unfold as_declared, Schema.call_ok. simpl.
  by rewrite Ho, Hd.
Qed.
Lemma direct_mod_declared t ks ds :
  t ∈ direct_tables → length ks = length ds → (∀ d, d ∈ ds → ∃ a, d = zero_counters a) →
  as_declared (EntryMod t ks ds).
Proof.
  intros (kds & acts & c & e & Ho & Hd)%direct_object Hlen Hz. unfold as_declared, Schema.call_ok.
  simpl. rewrite Ho, Hd. simpl. rewrite bool_decide_eq_true_2 by done.
  apply orb_true_intro. left. simpl. apply forallb_forall. intros d Hin.
  destruct (Hz d) as [a ->]; [by apply list_elem_of_In|]. done.
Qed.

Lemma run_values_length resp w ds w' :
  map_each zero_row resp w = (Ok ds, w') → length (row_key <$> resp) = length ds.
Proof.
  rewrite length_fmap. revert w ds w'. induction resp as [|r resp IH]; intros w ds w'; simpl.
  - by intros [= <- <-].
  - rewrite run_bind. destruct (zero_row r w) as [[d|] w1]; [|done].
    rewrite run_bind. destruct (map_each zero_row resp w1) as [[ds'|] w2] eqn:E; [|done].
    intros [= <- <-]. simpl. f_equal. by eapply IH.
Qed.

Lemma direct_clear_typed msg t : t ∈ direct_tables → stable typed (clear_direct_counters msg t).
Proof.
  intros Ht. pose proof (direct_sync_declared t Ht). pose proof (direct_get_declared t false Ht).
  unfold clear_direct_counters.
  apply stable_bind; [apply _|by eauto with stable|]. intros _.
  apply stable_bind; [apply _|by apply typed_bf|]. intros _.
  apply stable_bind; [apply _|by apply typed_get|]. intros resp.
  apply stable_bind_value; [apply _|unfold zero_row, action_name, field; stable_walk|].
  intros w ds w' Hrun. apply typed_bf. apply direct_mod_declared; [done|by eapply run_values_length|].
  by eapply run_values.
Qed.
Lemma direct_print_typed t fmt fields :
  t ∈ direct_tables → (∀ r, stable typed (fields r)) → stable typed (print_direct_counters t fmt fields).
Proof.
  intros Ht Hf. pose proof (direct_sync_declared t Ht). pose proof (direct_get_declared t false Ht).
  unfold print_direct_counters.
  apply stable_bind; [apply _|by apply typed_bf|]. intros _.
  apply stable_bind; [apply _|by apply typed_get|]. intros resp. stable_walk.
Qed.
End arrays.

#[global] Hint Extern 1 (stable typed (clear_direct_counters _ _)) =>
  apply direct_clear_typed; in_tables : stable.
#[global] Hint Extern 0 (stable typed (bf (EntryAdd _ (counter_range _) _))) =>
  apply typed_bf, counter_add_declared; in_tables : stable.
#[global] Hint Extern 0 (stable typed (entry_get _ (Some (counter_key <$> _)) _)) =>
  apply typed_get, counter_get_declared; in_tables : stable.

(** ** The blocks *)

Section blocks.
Context `{BF : Bfrt} `{DO : DictOrder} `{ML : MathLog}.

Lemma receiver_clear_typed : stable typed RDMAReceiver.clear.
Proof.
  unfold RDMAReceiver.clear. stable_walk.
Qed.
Lemma receiver_counters_typed : stable typed RDMAReceiver.clear_counters.
Proof. unfold RDMAReceiver.clear_counters. stable_walk. Qed.
Lemma receiver_add_typed a b c d e f g h i :
  stable typed (RDMAReceiver.add_entry a b c d e f g h i).
Proof.
  unfold RDMAReceiver.add_entry.
  do 4 (apply stable_bind; [apply _|stable_walk|]; intros ?).
  apply stable_bind_value; [apply _|unfold RDMAReceiver.opcodes; stable_walk|].
  intros w oas w' Hrun. rewrite RDMAReceiver.run_opcodes in Hrun. simplify_eq.
  eapply (stable_for_each typed). intros [op act] Hin. unfold RDMAReceiver.add_opcode_entry.
  repeat (apply elem_of_cons in Hin as [[= -> ->]|Hin]; [by stable_walk|]).
  by apply not_elem_of_nil in Hin.
Qed.
Lemma sender_add_typed a b c d e f g : stable typed (RDMASender.add_write_worker a b c d e f g).
Proof. unfold RDMASender.add_write_worker, RDMASender.add_qp. stable_walk. Qed.
Lemma sender_clear_typed : stable typed RDMASender.clear_workers.
Proof. unfold RDMASender.clear_workers. stable_walk. Qed.
Lemma clear_log_typed : stable typed DebugLog.clear_log.
Proof. unfold DebugLog.clear_log, DebugLog.clear_register_twice. stable_walk. Qed.
Lemma next_counters_in t : t ∈ NextStep.counters → t ∈ counter_tables.
Proof. revert t. apply Forall_forall. apply (bool_decide_unpack _). vm_compute. exact I. Qed.
Lemma next_clear_counters_typed : stable typed NextStep.clear_counters.
Proof.
  unfold NextStep.clear_counters.
  do 5 (apply stable_bind; [apply _|by eauto with stable|]; intros _).
  apply stable_for_each; [apply _|]. intros t Ht%next_counters_in.
  unfold NextStep.clear_counter. stable_walk. by apply typed_bf, counter_mod_declared.
Qed.
Lemma typed_map_each {A B} (f : A → M world B) (l : list A) :
  (∀ x, x ∈ l → stable typed (f x)) → stable typed (map_each f l).
Proof.
  intros Hf. induction l as [|x l IH]; simpl; [stable_walk|].
  apply stable_bind; [apply _|apply Hf; by left|]. intros y.
  apply stable_bind; [apply _|apply IH; intros x' Hx; apply Hf; by right|]. intros ys. stable_walk.
Qed.
Lemma read_counter_typed s n t : t ∈ NextStep.counters → stable typed (NextStep.read_counter s n t).
Proof.
  intros Ht%next_counters_in. unfold NextStep.read_counter.
  apply stable_bind; [apply _|by apply typed_bf, counter_sync_declared|]. intros _.
  apply stable_bind; [apply _|by apply typed_get, counter_get_declared|]. intros resp.
  unfold counter_dict, counter_row. stable_walk.
Qed.
Lemma next_print_counters_typed s n : stable typed (NextStep.print_counters s n).
Proof.
  unfold NextStep.print_counters.
  apply stable_bind; [apply _|by apply typed_map_each, read_counter_typed|]. intros values.
  unfold NextStep.print_index. stable_walk.
Qed.
Lemma queue_pair_counters_typed s n : stable typed (RDMAReceiver.get_queue_pair_counters s n).
Proof.
  unfold RDMAReceiver.get_queue_pair_counters, counter_dict, counter_row. stable_walk.
Qed.
Lemma significand_declared n :
  n ∈ range 0 32 →
  as_declared (TableGet (SignificandSum.table n)) ∧ as_declared (TableGet (SignificandSum.register n)) ∧
  as_declared (EntryDel (SignificandSum.register n) None).
Proof.
  unfold as_declared. revert n. apply Forall_forall. apply (bool_decide_unpack _). vm_compute. exact I.
Qed.
Lemma significand_clear_typed n : n ∈ range 0 32 → stable typed (SignificandSum.clear_registers n).
Proof.
  intros (_ & _ & H)%significand_declared. unfold SignificandSum.clear_registers. stable_walk.
  by apply typed_bf.
Qed.

(** The methods of the blocks that the job and the commands call. *)
Lemma forward_add_typed mac p l : stable typed (Forward.worker_add mac p l).
Proof. unfold Forward.worker_add, Ports.get_dev_port. stable_walk. Qed.
Lemma forward_del_typed mac : stable typed (Forward.worker_del mac).
Proof. unfold Forward.worker_del. stable_walk. Qed.
Lemma forward_print_typed mac : stable typed (Forward.worker_print mac).
Proof. unfold Forward.worker_print. stable_walk. Qed.
Lemma forward_macs_typed p l : stable typed (Forward.get_macs_on_port p l).
Proof. unfold Forward.get_macs_on_port, Forward.check_mac. stable_walk. Qed.
Lemma forward_port_typed mac : stable typed (Forward.worker_port_get mac).
Proof. unfold Forward.worker_port_get. stable_walk. Qed.
Lemma timing_loop_typed c : stable typed (Forward.timing_loop c).
Proof. unfold Forward.timing_loop. stable_walk. Qed.

Lemma pre_add_typed g r p l : stable typed (PRE.worker_add g r p l).
Proof. unfold PRE.worker_add, PRE.try_del, PRE.rids_of, Ports.get_dev_port. stable_walk. Qed.
Lemma pre_del_typed g r : stable typed (PRE.worker_del g r).
Proof. unfold PRE.worker_del. stable_walk. Qed.
Lemma pre_clear_typed g : stable typed (PRE.worker_clear_all g).
Proof. unfold PRE.worker_clear_all, PRE.worker_clear, PRE.try_del, PRE.rids_of. stable_walk. Qed.

Lemma drop_set_typed p q : stable typed (DropSimulator.set_drop_probabilities p q).
Proof. unfold DropSimulator.set_drop_probabilities, DropSimulator.drop_value. stable_walk. Qed.
Lemma drop_clear_typed : stable typed DropSimulator.clear.
Proof. unfold DropSimulator.clear. stable_walk. apply drop_set_typed. Qed.

Lemma dev_port_typed p l : stable typed (Ports.get_dev_port p l).
Proof. unfold Ports.get_dev_port. stable_walk. Qed.
Lemma fp_port_typed d : stable typed (Ports.get_fp_port d).
Proof. unfold Ports.get_fp_port, Ports.fill_fp_port. stable_walk. Qed.
Lemma ports_typed p l speed fec o o' :
  Forall (stable typed)
    [Ports.port_add p l speed fec; Ports.port_delete p l; Ports.list_ports o o'; Ports.delete_all_ports;
     Ports.clear_counters; Ports.enable_alternate_recirc_port; Ports.disable_alternate_recirc_port;
     Ports.enable_loopback_ports].
Proof.
  pose proof dev_port_typed. repeat apply Forall_cons_2; [..|apply Forall_nil_2].
  - unfold Ports.port_add, Ports.add_ports, Ports.add_ports_body. stable_walk.
  - unfold Ports.port_delete. stable_walk.
  - unfold Ports.list_ports. stable_walk.
  - unfold Ports.delete_all_ports. stable_walk.
  - unfold Ports.clear_counters. stable_walk.
  - unfold Ports.enable_alternate_recirc_port. stable_walk.
  - unfold Ports.disable_alternate_recirc_port. stable_walk.
  - unfold Ports.enable_loopback_ports. stable_walk.
Qed.
End blocks.

(** ** The job *)

Section job.
Context `{BF : Bfrt} `{DO : DictOrder} `{ML : MathLog}.

#[local] Hint Resolve receiver_clear_typed receiver_counters_typed receiver_add_typed sender_add_typed
  sender_clear_typed clear_log_typed next_clear_counters_typed forward_add_typed forward_del_typed
  forward_print_typed forward_macs_typed forward_port_typed pre_add_typed pre_del_typed pre_clear_typed
  drop_set_typed drop_clear_typed dev_port_typed fp_port_typed significand_clear_typed : stable.

Lemma clear_registers_typed : stable typed Job.clear_registers.
Proof.
  unfold Job.clear_registers, UpdateAndCheckWorkerBitmap.clear_registers,
    CountWorkers.clear_registers, ExponentMax.clear_registers, DebugLog.clear_registers. stable_walk.
Qed.
Lemma clear_counters_typed : stable typed Job.clear_counters.
Proof.
  unfold Job.clear_counters. apply stable_for_each; [apply _|]. intros m Hm.
  apply stable_try_any; [apply _| |intros e; by eauto with stable].
  revert m Hm. apply Forall_forall.
  unfold Job.counters_to_clear, GetWorkerBitmap.clear_counters, SetDstAddr.clear_counters,
    RDMASender.clear_counters.
  repeat apply Forall_cons_2; [..|apply Forall_nil_2]; eauto with stable.
Qed.
#[local] Hint Resolve clear_registers_typed clear_counters_typed : stable.

Lemma worker_add_udp_typed r n mac ip : stable typed (Job.worker_add_udp r n mac ip).
Proof.
  unfold Job.worker_add_udp, Job.worker_mask, GetWorkerBitmap.add_udp_entry, SetDstAddr.add_udp_entry.
  stable_walk.
Qed.
Lemma worker_add_roce_typed r n mac ip k ps ms q :
  stable typed (Job.worker_add_roce r n mac ip k ps ms q).
Proof. unfold Job.worker_add_roce, Job.worker_mask. stable_walk. Qed.
Lemma worker_clear_all_typed : stable typed Job.worker_clear_all.
Proof.
  unfold Job.worker_clear_all, GetWorkerBitmap.clear, SetDstAddr.clear_udp_entries. stable_walk.
Qed.
#[local] Hint Resolve worker_add_udp_typed worker_clear_all_typed : stable.
Lemma worker_load_typed o : stable typed (Job.worker_load_file o).
Proof. unfold Job.worker_load_file, Job.load_worker. stable_walk. Qed.
Lemma clear_all_typed : stable typed Job.clear_all.
Proof.
  unfold Job.clear_all, GetWorkerBitmap.clear, SetDstAddr.clear, SetDstAddr.clear_udp_entries,
    SetDstAddr.add_default_entries, RDMASender.clear, RDMASender.add_default_entries,
    DebugLog.clear, NextStep.clear. stable_walk.
Qed.

Lemma job_port_add_typed p l speed fec : stable typed (Job.port_add p l speed fec).
Proof.
  destruct (Forall_cons_1 _ _ _ (ports_typed p l speed fec None None)) as [H _].
  unfold Job.port_add. stable_walk.
Qed.
Lemma job_port_del_typed p l : stable typed (Job.port_del p l).
Proof.
  pose proof (ports_typed p l 0 "" None None) as H. rewrite !Forall_cons in H.
  destruct H as (_ & H & _). unfold Job.port_del. stable_walk.
Qed.
Lemma job_port_clear_typed : stable typed Job.port_clear_all.
Proof.
  pose proof (ports_typed 0 0 0 "" None None) as H. rewrite !Forall_cons in H.
  destruct H as (_ & _ & _ & H & _). unfold Job.port_clear_all. stable_walk.
Qed.
#[local] Hint Resolve job_port_add_typed : stable.
Lemma port_load_typed forward : stable typed (Job.port_load_file forward).
Proof.
  unfold Job.port_load_file, Job.load_port, Job.config_str, Job.opt_value, Job.mac_address_add.
  stable_walk.
Qed.

(** ** Construction *)

Lemma significand_init_typed n : n ∈ range 0 32 → stable typed (SignificandSum.init n).
Proof.
  intros Hn. destruct (significand_declared n Hn) as (H1 & H2 & _).
  unfold SignificandSum.init, SignificandSum.clear. stable_walk.
  - by apply typed_bf.
  - by apply typed_bf.
Qed.
Lemma pop_sessions_typed l : stable typed (Mirror.pop_sessions l).
Proof. induction l as [|sid l IH]; simpl; unfold Mirror.set_sessions; stable_walk. Qed.
#[local] Hint Resolve pop_sessions_typed significand_init_typed : stable.

Lemma blocks_typed :
  Forall (stable typed)
    [Ports.init; ARPandICMP.init; GetWorkerBitmap.init; RDMAReceiver.init;
     UpdateAndCheckWorkerBitmap.init; CountWorkers.init; ExponentMax.init;
     PRE.init 0x1234 0x1235 320; Mirror.init 320; DropSimulator.init; DebugLog.init; NextStep.init;
     Forward.init 0x1235].
Proof.
  repeat apply Forall_cons_2; [..|apply Forall_nil_2].
  - unfold Ports.init. stable_walk.
  - unfold ARPandICMP.init, ARPandICMP.clear. stable_walk.
  - unfold GetWorkerBitmap.init, GetWorkerBitmap.clear, GetWorkerBitmap.add_default_entries. stable_walk.
  - unfold RDMAReceiver.init. stable_walk.
  - unfold UpdateAndCheckWorkerBitmap.init, UpdateAndCheckWorkerBitmap.clear,
      UpdateAndCheckWorkerBitmap.clear_registers. stable_walk.
  - unfold CountWorkers.init, CountWorkers.clear, CountWorkers.clear_registers,
      CountWorkers.add_default_entries. stable_walk.
  - unfold ExponentMax.init, ExponentMax.clear, ExponentMax.clear_registers. stable_walk.
  - unfold PRE.init, PRE.clear, PRE.add_default_entries, PRE.try_del. stable_walk.
  - unfold Mirror.init, Mirror.clear, Mirror.add_default_entries. stable_walk.
  - unfold DropSimulator.init. stable_walk.
  - unfold DebugLog.init, DebugLog.clear, DebugLog.add_default_entries. stable_walk.
  - unfold NextStep.init. stable_walk.
  - unfold Forward.init, Forward.clear, Forward.add_default_entries. stable_walk.
Qed.

Lemma addresses_typed mac ip :
  Forall (stable typed)
    [SetDstAddr.init mac ip; RDMASender.init mac ip; ARPandICMP.add_switch_mac_and_ip mac ip].
Proof.
  repeat apply Forall_cons_2; [..|apply Forall_nil_2].
  - unfold SetDstAddr.init, SetDstAddr.clear, SetDstAddr.clear_udp_entries,
      SetDstAddr.add_default_entries. stable_walk.
  - unfold RDMASender.init, RDMASender.clear, RDMASender.add_default_entries. stable_walk.
  - unfold ARPandICMP.add_switch_mac_and_ip. stable_walk.
Qed.

Lemma init_typed ip mac up um workers file : stable typed (Job.init ip mac up um workers file).
Proof.
  pose proof blocks_typed as Hb. pose proof (addresses_typed mac ip) as Ha.
  pose proof (ports_typed 0 0 0 "" None None) as Hp. pose proof port_load_typed.
  repeat match goal with H : Forall _ (_ :: _) |- _ => apply Forall_cons in H as [? H] end.
  unfold Job.init, Job.add_worker_port, Job.mac_address_add, Job.opened. stable_walk.
Qed.

(** ** The commands that print *)

Lemma show_typed s n : stable typed (UpdateAndCheckWorkerBitmap.show_bitmaps s n).
Proof.
  unfold UpdateAndCheckWorkerBitmap.show_bitmaps.
  apply stable_bind; [apply _|apply typed_get|].
  - apply register_get_declared. vm_compute. reflexivity.
  - unfold UpdateAndCheckWorkerBitmap.bitmap_row, UpdateAndCheckWorkerBitmap.print_bitmap, field_first.
    stable_walk.
Qed.
Lemma weird_typed : stable typed UpdateAndCheckWorkerBitmap.show_weird_bitmaps.
Proof.
  unfold UpdateAndCheckWorkerBitmap.show_weird_bitmaps, UpdateAndCheckWorkerBitmap.bitmap_row,
    UpdateAndCheckWorkerBitmap.print_bitmap, field_first. stable_walk.
Qed.
Lemma log_values_typed g acc rows : stable typed (DebugLog.log_values g acc rows).
Proof.
  revert acc. induction rows as [|r rows IH]; intros acc; simpl;
    unfold DebugLog.log_row, DebugLog.four; stable_walk.
Qed.
#[local] Hint Resolve log_values_typed : stable.
Lemma print_log_typed : stable typed DebugLog.print_log.
Proof.
  unfold DebugLog.print_log, DebugLog.get_log, DebugLog.print_words, DebugLog.print_log_entry,
    parse_log_entry, to_packet_type.
  stable_walk.
Qed.
Lemma save_log_typed f b : stable typed (DebugLog.save_log f b).
Proof. unfold DebugLog.save_log, DebugLog.get_log. stable_walk. Qed.
Lemma total_rows_typed acc rows : stable typed (RDMAReceiver.total_rows acc rows).
Proof.
  revert acc. induction rows as [|r rows IH]; intros acc; simpl; unfold RDMAReceiver.total_row; stable_walk.
Qed.
Lemma bitmap_counters_typed : stable typed GetWorkerBitmap.print_counters.
Proof.
  apply direct_print_typed; [in_tables|]. intros r. unfold GetWorkerBitmap.counter_fields. stable_walk.
Qed.
Lemma set_dst_counters_typed : stable typed SetDstAddr.print_counters.
Proof. apply direct_print_typed; [in_tables|]. intros r. unfold SetDstAddr.counter_fields. stable_walk. Qed.
Lemma sender_counters_typed : stable typed RDMASender.print_counters.
Proof. apply direct_print_typed; [in_tables|]. intros r. unfold RDMASender.counter_fields. stable_walk. Qed.
Lemma receiver_print_typed : stable typed RDMAReceiver.print_counters.
Proof. pose proof total_rows_typed. unfold RDMAReceiver.print_counters. stable_walk. Qed.
End job.

(** ** The process *)

Section process.
Context `{BF : Bfrt} `{DO : DictOrder} `{ML : MathLog} `{IP : IpAddress} `{PB : Protobuf}.

Lemma typed_guarded usage m : stable typed m → stable typed (CLI.guarded usage m).
Proof. intros Hm. unfold CLI.guarded, CLI.complain. stable_walk. Qed.

Lemma reads_typed {A} (m : M world A) P : reads m P → stable typed m.
Proof.
  intros Hm w. destruct (Hm w) as [ls H]. apply typed_silent.
  assert (Hp : w_calls (printed ls w) = w_calls w).
  { clear H. unfold printed. revert w. induction ls as [|l ls IH]; intros w; [done|]. simpl. by rewrite IH. }
  destruct (m w) as [[a|e] w']; [destruct H as [_ ->]|subst w']; done.
Qed.
Lemma typed_parse {A} usage (m : M world A) P : reads m P → stable typed (CLI.parse_guarded usage m).
Proof. intros Hm%reads_typed. unfold CLI.parse_guarded, CLI.complain. stable_walk. Qed.

Lemma opt_value_typed {A} (o : option A) : stable typed (Job.opt_value o).
Proof. unfold Job.opt_value. stable_walk. Qed.
#[local] Hint Resolve opt_value_typed : stable.
Lemma int_word_typed l i : stable typed (CLI.int_word l i).
Proof. unfold CLI.int_word. stable_walk. Qed.
Lemma word_typed l i : stable typed (CLI.word l i).
Proof. unfold CLI.word. stable_walk. Qed.
Lemma window_typed n arg : stable typed (CLI.window n arg).
Proof. unfold CLI.window. stable_walk. Qed.

#[local] Hint Resolve int_word_typed word_typed window_typed typed_guarded
  forward_add_typed forward_del_typed forward_print_typed timing_loop_typed drop_set_typed
  clear_log_typed clear_registers_typed clear_counters_typed worker_add_udp_typed
  worker_add_roce_typed worker_clear_all_typed worker_load_typed clear_all_typed job_port_add_typed
  job_port_del_typed job_port_clear_typed port_load_typed show_typed weird_typed print_log_typed
  save_log_typed bitmap_counters_typed set_dst_counters_typed sender_counters_typed
  receiver_print_typed next_print_counters_typed queue_pair_counters_typed : stable.

Lemma run_command_typed c : stable typed (CLI.run_command c).
Proof.
  pose proof (ports_typed 0 0 0 "") as Hp.
  assert (Hl : ∀ o o', stable typed (Ports.list_ports o o')).
  { intros o o'. specialize (Hp o o'). rewrite !Forall_cons in Hp. tauto. }
  specialize (Hp None None).
  repeat match goal with H : Forall _ (_ :: _) |- _ => apply Forall_cons in H as [? H] end.
  destruct c; simpl.
  - stable_walk.
  - pose proof (typed_parse CLI.port_add_usage _ _ (reads_port_add arg)).
    unfold CLI.do_port_add. stable_walk.
  - pose proof (λ u, typed_parse u _ _ (reads_port_args arg)). unfold CLI.do_port_del. stable_walk.
  - pose proof (λ u, typed_parse u _ _ (reads_port_args arg)). unfold CLI.do_port_list. stable_walk.
  - apply typed_guarded. stable_walk.
  - apply typed_guarded. stable_walk.
  - apply typed_guarded. unfold Job.port_clear_counters. stable_walk.
  - unfold CLI.do_alternate_recirc_port_enable, NextStep.enable_alternate_recirc_port. stable_walk.
  - unfold CLI.do_alternate_recirc_port_disable, NextStep.disable_alternate_recirc_port. stable_walk.
  - apply typed_guarded. stable_walk.
  - unfold CLI.do_get_switch_address, ARPandICMP.print_switch_mac_and_ip. stable_walk.
  - pose proof (λ u, typed_parse u _ _ (reads_mac_args arg)).
    unfold CLI.do_mac_address_add, Job.mac_address_add. stable_walk.
  - unfold CLI.do_mac_address_del, Job.mac_address_del. stable_walk.
  - unfold CLI.do_mac_address_list, Job.mac_address_list. stable_walk.
  - apply typed_guarded. stable_walk.
  - apply typed_guarded. cbv zeta. stable_walk.
  - apply typed_guarded. cbv zeta. stable_walk.
  - unfold CLI.do_worker_list, Job.worker_list. stable_walk.
  - unfold CLI.do_worker_file. stable_walk.
  - unfold CLI.do_worker_del. stable_walk.
  - unfold CLI.do_clear. stable_walk.
  - unfold CLI.do_clear_all. stable_walk.
  - unfold CLI.do_clear_counters, Job.port_clear_counters. stable_walk.
  - stable_walk.
  - stable_walk.
  - unfold CLI.do_bitmaps. stable_walk.
  - stable_walk.
  - unfold CLI.do_queue_pair_counters. stable_walk.
  - unfold CLI.do_get_drop_probability, DropSimulator.print_drop_probabilities,
      DropSimulator.drop_value. stable_walk.
  - unfold CLI.do_get_counters, PortStats.print_port_stats. stable_walk.
  - unfold CLI.do_timing_loop. stable_walk.
  - unfold CLI.do_log_save. stable_walk.
  - apply typed_guarded. cbv zeta. stable_walk.
Qed.

Lemma loop_typed lines : stable typed (CLI.run_command_loop lines).
Proof. pose proof run_command_typed. unfold CLI.run_command_loop. stable_walk. Qed.

Lemma connect_typed job request : stable typed (RDMAConnect job request).
Proof.
  assert (Hu : ∀ bits l, stable typed (uints bits l)).
  { intros bits l w. by apply typed_silent. }
  unfold RDMAConnect, job_response, parsed. stable_walk.
Qed.

Lemma main_typed a failure : stable typed (main a failure).
Proof. pose proof init_typed. unfold main, connect. stable_walk. Qed.

Lemma step_typed a p p' : process_step a p p' → typed (pr_world p) (pr_world p').
Proof.
  intros [failure w w' E|failure w e w' E|w|ph job request w r w' Hj E|c w r w' E|w eof r w' E]; simpl.
  - pose proof (main_typed a failure w) as H. by rewrite E in H.
  - pose proof (main_typed a failure w) as H. by rewrite E in H.
  - by apply typed_silent.
  - pose proof (connect_typed job request w) as H. by rewrite E in H.
  - pose proof (loop_typed [c] w) as H. by rewrite E in H.
  - destruct eof; injection E as <- <-; by apply typed_silent.
Qed.

(** C20. Over the whole life of the process, whatever the driver answers and in
    whatever order commands and requests come in, every call of the controller
    fits the declarations of the switch program (the object exists, the key
    has its fields with masks on ternary ones only, the action belongs to the
    table and has its parameters, entries the program fixes are left alone),
    except the calls that add entries of UDP workers and the one that sets the
    sender's addresses, and none of those fits. *)
Theorem controller_typed a w0 p :
  w_calls w0 = [] → reachable a w0 p →
  ∀ c, c ∈ w_calls (pr_world p) → Schema.call_ok c = true ↔ unfit c = false.
Proof.
  intros H0 Hp. assert (Ht : typed w0 (pr_world p)).
  { induction Hp as [|p p' Hp IH Hs]; [reflexivity|]. etransitivity; [exact IH|]. by eapply step_typed. }
  destruct Ht as (cs & -> & Hcs). rewrite H0. intros c Hc. simpl in Hc.
  rewrite Forall_forall in Hcs. rewrite (Hcs c Hc). by destruct (unfit c).
Qed.
End process.
