(* ===== verification/Sim.v ===== *)
(** * A small switch driver

    A concrete instance of the driver interface of [Bfrt]: match tables as one
    finite map, multicast groups as another, counters that are only written.
    It shows that the documented behaviour the development relies on is
    consistent, and it is what the concrete instances of the theorems run on. *)
From S2P Require Import Prelude PyMonad Bfrt Schema Live World.

Record simsw := SimSw {
  sim_entries : entries;
  sim_groups : gmap Z (list Z)
}.

(** 32 front-panel ports of four lanes, sixteen per pipe. *)
Definition sim_dev_port (p l : Z) : Z := 128 * ((p - 1) / 16) + 4 * ((p - 1) mod 16) + l.
Definition sim_hdl_list : list ((Z * Z) * Z) :=
  p ← range 1 33; l ← range 0 4; [((p, l), sim_dev_port p l)].
Definition sim_hdl : gmap (Z * Z) Z := list_to_map sim_hdl_list.
Arguments sim_hdl : simpl never.
Arguments sim_hdl_list : simpl never.
Definition sim_size (t : string) : Z := 16384.

Definition hdl_to_row (e : (Z * Z) * Z) : row :=
  Row [KeyTuple "$CONN_ID" (VInt e.1.1); KeyTuple "$CHNL_ID" (VInt e.1.2)]
      (list_to_map [("$CONN_ID", VInt e.1.1); ("$CHNL_ID", VInt e.1.2)])
      (list_to_map [("$DEV_PORT", VInt e.2)]).

Definition entry_to_row (e : (string * key) * datum) : row :=
  Row e.1.2 (list_to_map ((λ k, (kt_name k, kt_value k)) <$> e.1.2))
      (list_to_map (dt_fields e.2)).

Definition mgid_of (k : key) : option Z :=
  match k with
  | [KeyTupleM n (VInt g) None] => if decide (n = "$MGID") then Some g else None
  | _ => None
  end.
Definition node_of (k : key) : option Z :=
  match k with
  | [KeyTupleM n (VInt r) None] => if decide (n = "$MULTICAST_NODE_ID") then Some r else None
  | _ => None
  end.
Definition conn_of (k : key) : option (Z * Z) :=
  match k with
  | [KeyTupleM n1 (VInt p) None; KeyTupleM n2 (VInt l) None] =>
      if decide (n1 = "$CONN_ID" ∧ n2 = "$CHNL_ID") then Some (p, l) else None
  | _ => None
  end.

Definition refuse (s : simsw) : bfresp * simsw := (RRaise BfruntimeReadWriteRpcException, s).
Definition done_with (T : entries) (G : gmap Z (list Z)) : bfresp * simsw := (RDone, SimSw T G).

Definition sim_match_add (t : string) (ks : list key) (ds : list datum) (s : simsw) :=
  if decide (NoDup ks ∧ length ks = length ds ∧
             Forall (λ k, sim_entries s !! (t, k) = None) ks ∧
             count_entries t (sim_entries s) + Z.of_nat (length ks) ≤ sim_size t)
  then done_with (add_entries t (zip ks ds) (sim_entries s)) (sim_groups s)
  else refuse s.

Definition sim_mgid_add (ks : list key) (ds : list datum) (s : simsw) :=
  match mgid_of <$> ks, data_nodes <$> ds with
  | [Some g], [Some ids] =>
      match sim_groups s !! g with
      | None => done_with (sim_entries s) (<[g := ids]> (sim_groups s))
      | Some _ => refuse s
      end
  | _, _ => refuse s
  end.

Definition inc_allowed (flag : inc_flag) (ids old : list Z) (s : simsw) : bool :=
  match flag with
  | MOD_INC_ADD => bool_decide (Forall (λ i, i ∉ old ∧
      is_Some (sim_entries s !! ("$pre.node", node_key i))) ids)
  | MOD_INC_DELETE => bool_decide (Forall (λ i, i ∈ old) ids)
  end.

Definition sim_mgid_inc (ks : list key) (ds : list datum) (flag : inc_flag) (s : simsw) :=
  match mgid_of <$> ks, data_nodes <$> ds with
  | [Some g], [Some ids] =>
      match sim_groups s !! g with
      | Some old =>
          if inc_allowed flag ids old s
          then done_with (sim_entries s) (<[g := mod_inc flag ids old]> (sim_groups s))
          else refuse s
      | None => refuse s
      end
  | _, _ => refuse s
  end.

Definition sim_mgid_del (ks : list key) (s : simsw) :=
  match mgid_of <$> ks with
  | [Some g] =>
      match sim_groups s !! g with
      | Some _ => done_with (sim_entries s) (delete g (sim_groups s))
      | None => refuse s
      end
  | _ => refuse s
  end.

Definition drop_node (k : key) (G : gmap Z (list Z)) : gmap Z (list Z) :=
  match node_of k with Some r => filter (.≠ r) <$> G | None => G end.

Definition sim_match_del (t : string) (ks : list key) (s : simsw) :=
  if decide (t = "$PORT" ∨ Forall (λ k, is_Some (sim_entries s !! (t, k))) ks)
  then done_with (del_entries t ks (sim_entries s))
         (if decide (t = "$pre.node") then foldr drop_node (sim_groups s) ks else sim_groups s)
  else refuse s.

Definition sim_all_rows : list row := hdl_to_row <$> map_to_list sim_hdl.
Arguments sim_all_rows : simpl never.

Definition sim_get (t : string) (ks : option (list key)) (s : simsw) : list row :=
  if decide (t = "$PORT_HDL_INFO") then
    match ks with
    | Some [k] =>
        match conn_of k ≫= λ pl, sim_hdl !! pl with
        | Some d => [hdl_to_row (default (0, 0) (conn_of k), d)]
        | None => []
        end
    | _ => sim_all_rows
    end
  else
    entry_to_row <$> filter (λ e, e.1.1 = t ∧ e.1.2 ∈ default [e.1.2] ks)
      (map_to_list (sim_entries s)).

Definition sim_known (c : bfcall) (s : simsw) : bfresp * simsw :=
  match c with
  | EntryAdd t ks (Some ds) =>
      if decide (t = "$pre.mgid") then sim_mgid_add ks ds s
      else if decide (t ∈ match_tables) then sim_match_add t ks ds s
      else (RDone, s)
  | EntryMod t ks ds =>
      if decide (t ∈ match_tables ∧ keeps_entries c = false) then
        done_with (add_entries t (zip ks ds) (sim_entries s)) (sim_groups s)
      else (RDone, s)
  | EntryModInc t ks ds flag =>
      if decide (t = "$pre.mgid") then sim_mgid_inc ks ds flag s else (RDone, s)
  | EntryDel t (Some ks) =>
      if decide (t = "$pre.mgid") then sim_mgid_del ks s
      else if decide (t ∈ match_tables) then sim_match_del t ks s
      else (RDone, s)
  | EntryDel t None =>
      if decide (t ∈ match_tables) then done_with (clear_entries t (sim_entries s)) (sim_groups s)
      else (RDone, s)
  | EntryGet t ks _ => (RRows (sim_get t ks s), s)
  | _ => (RDone, s)
  end.


(** The client refuses names that are not declared. *)
Definition sim_call (c : bfcall) (s : simsw) : bfresp * simsw :=
  if Schema.fields_known c then sim_known c s else (RRaise KeyError, s).

#[export] Instance sim_bfrt : Bfrt := {| sw := simsw; bf_call := sim_call; bf_size := sim_size |}.

(** ** The documented behaviour *)

(** The entries a call leaves, outside the match tables and their calls. *)
Lemma known_frame c s t k :
  call_table c ≠ t → sim_entries (sim_known c s).2 !! (t, k) = sim_entries s !! (t, k).
Proof.
  intros Ht. destruct c as [| | |t' ks [ds|]|t' ks ds|t' ks ds flag|t' [ks|]| | | |]; simpl in *; try done.
  - unfold sim_mgid_add, sim_match_add. repeat case_match; simpl; try done.
    by apply lookup_add_entries_ne.
  - repeat case_match; simpl; try done. by apply lookup_add_entries_ne.
  - unfold sim_mgid_inc. repeat case_match; done.
  - unfold sim_mgid_del, sim_match_del. repeat case_match; simpl; try done;
      rewrite lookup_del_entries, bool_decide_eq_false_2; naive_solver.
  - repeat case_match; simpl; try done. rewrite lookup_clear_entries.
    by rewrite decide_False by congruence.
Qed.

Lemma known_unseen c s :
  call_table c ∉ match_tables → sim_entries (sim_known c s).2 = sim_entries s.
Proof.
  intros Ht. destruct c as [| | |t' ks [ds|]|t' ks ds|t' ks ds flag|t' [ks|]| | | |];
    simpl in *; try done.
  - destruct (decide _); [|by rewrite decide_False].
    unfold sim_mgid_add. repeat case_match; done.
  - rewrite decide_False by naive_solver. done.
  - unfold sim_mgid_inc. repeat case_match; done.
  - destruct (decide _); [|by rewrite decide_False].
    unfold sim_mgid_del. repeat case_match; done.
  - by rewrite decide_False.
Qed.

Lemma known_keeps c s : keeps_entries c = true → sim_entries (sim_known c s).2 = sim_entries s.
Proof.
  intros Hc. destruct c; simpl in *; try done.
  destruct (decide _) as [[_ Hf]|]; [|done]. congruence.
Qed.

Lemma known_groups_frame c s :
  call_table c ≠ "$pre.mgid" → (call_table c = "$pre.node" → ∀ ks, c ≠ EntryDel "$pre.node" ks) →
  sim_groups (sim_known c s).2 = sim_groups s.
Proof.
  intros Hm Hn. destruct c as [| | |t' ks [ds|]|t' ks ds|t' ks ds flag|t' [ks|]| | | |];
    simpl in *; try done.
  - rewrite decide_False by done. unfold sim_match_add. repeat case_match; done.
  - repeat case_match; done.
  - by rewrite decide_False.
  - rewrite decide_False by done. unfold sim_match_del. repeat case_match; try done.
    subst. exfalso. by eapply Hn.
  - repeat case_match; done.
Qed.

(** A refused call leaves everything. *)
Lemma sim_call_known c s : Schema.fields_known c = true → sim_call c s = sim_known c s.
Proof. intros H. unfold sim_call. by rewrite H. Qed.
Ltac sim_step := cbn [bf_call sim_bfrt]; rewrite ?sim_call_known by done; simpl.
Lemma sim_call_state c s : (sim_call c s).2 = (sim_known c s).2 ∨ (sim_call c s).2 = s.
Proof. unfold sim_call. case_match; [by left|by right]. Qed.

Lemma sim_hdl_inj x y d : sim_hdl !! x = Some d → sim_hdl !! y = Some d → x = y.
Proof.
  intros Hx%elem_of_list_to_map_2 Hy%elem_of_list_to_map_2.
  assert (Hn : NoDup (sim_hdl_list.*2)).
  { apply (bool_decide_unpack _). vm_compute. exact I. }
  apply list_elem_of_lookup in Hx as [i Hi]. apply list_elem_of_lookup in Hy as [j Hj].
  assert (i = j) as <-.
  { eapply (NoDup_lookup _ i j d Hn); rewrite list_lookup_fmap; by rewrite ?Hi, ?Hj. }
  congruence.
Qed.

Lemma mgid_of_key g : mgid_of (mgid_key g) = Some g.
Proof. done. Qed.

Lemma sim_node_del r s :
  match sim_call (EntryDel "$pre.node" (Some [node_key r])) s with
  | (RDone, s') => sim_groups s' = sim_groups s ∨ sim_groups s' = filter (.≠ r) <$> sim_groups s
  | (RRaise _, s') => sim_groups s' = sim_groups s
  | (RRows _, _) => False
  end.
Proof. sim_step. unfold sim_match_del. case_decide; [by right|done]. Qed.

Lemma sim_hdl_one p l s :
  match sim_hdl !! (p, l) with
  | Some d => ∃ r rest, (sim_call (hdl_query p l) s).1 = RRows (r :: rest) ∧
                        row_vdict r !! "$DEV_PORT" = Some (VInt d)
  | None => (∃ e, (sim_call (hdl_query p l) s).1 = RRaise e) ∨
            (sim_call (hdl_query p l) s).1 = RRows []
  end.
Proof.
  unfold hdl_query. rewrite sim_call_known by done. unfold sim_known. cbn [fst]. unfold sim_get. rewrite decide_True by done.
  change (conn_of _) with (Some (p, l)). cbn [mbind option_bind].
  destruct (sim_hdl !! (p, l)) as [d|]; [|by right].
  eexists _, []. split; [done|]. done.
Qed.

Lemma hdl_to_row_row e : hdl_row (hdl_to_row e) = Some e.
Proof. by destruct e as [[p l] d]. Qed.

Lemma sim_all_rows_row : hdl_row <$> sim_all_rows = Some <$> map_to_list sim_hdl.
Proof.
  unfold sim_all_rows. rewrite <- list_fmap_compose.
  apply list_fmap_ext. intros i x _. apply hdl_to_row_row.
Qed.

Lemma sim_hdl_all s rows :
  (sim_call (EntryGet "$PORT_HDL_INFO" (Some []) false) s).1 = RRows rows →
  (hdl_row <$> rows) ≡ₚ (Some <$> map_to_list sim_hdl).
Proof.
  rewrite sim_call_known by done. generalize sim_all_rows_row. unfold sim_known. cbn [fst]. unfold sim_get.
  rewrite decide_True by done. generalize sim_all_rows.
  intros all Hall Hr. injection Hr as <-. by rewrite Hall.
Qed.

#[export] Instance sim_safe : BfrtSafe (BF := sim_bfrt).
Proof.
  apply (@Build_BfrtSafe sim_bfrt sim_entries sim_groups sim_hdl).
  - intros c s t k Ht. destruct (sim_call_state c s) as [H|H]; simpl; rewrite ?H; first [done|by apply known_frame].
  - intros c s Ht. destruct (sim_call_state c s) as [H|H]; simpl; rewrite ?H; first [done|by apply known_unseen].
  - intros c s Hc. destruct (sim_call_state c s) as [H|H]; simpl; rewrite ?H; first [done|by apply known_keeps].
  - intros t ks ds s Ht. cbn [bf_call sim_bfrt]. unfold sim_call. destruct (Schema.fields_known _); [cbn [sim_known]|done].
    destruct (decide (t = "$pre.mgid")) as [->|Hm]; [by destruct (match_not_mgid _ Ht eq_refl)|].
    rewrite decide_True by done. unfold sim_match_add.
    destruct (decide _) as [(_ & _ & Hf & _)|]; simpl; [|done].
    split; [|done]. by apply Forall_forall.
  - intros t ks s Ht. sim_step.
    destruct (decide (t = "$pre.mgid")) as [->|Hm]; [by destruct (match_not_mgid _ Ht eq_refl)|].
    rewrite decide_True by done. unfold sim_match_del. by case_decide.
  - intros t s Ht. sim_step. by rewrite decide_True.
  - intros c s Hm Hn. destruct (sim_call_state c s) as [H|H]; simpl; rewrite H; [|done].
    by apply known_groups_frame.
  - intros c s Hc Hn. destruct (sim_call_state c s) as [H|H]; simpl; rewrite H; [|done].
    apply known_groups_frame; [by rewrite Hc|done].
  - intros c s Hc. cbn [bf_call sim_bfrt]. unfold sim_call. case_match; [by destruct c|done].
  - intros. apply sim_node_del.
  - intros g d ids s Hd. sim_step. unfold sim_mgid_add. simpl. rewrite Hd.
    destruct (sim_groups s !! g) eqn:E; simpl; done.
  - intros g s. sim_step. unfold sim_mgid_del. simpl.
    destruct (sim_groups s !! g) eqn:E; simpl; done.
  - intros g d ids flag s Hd. sim_step. unfold sim_mgid_inc. simpl. rewrite Hd.
    destruct (sim_groups s !! g) as [old|] eqn:E; simpl; [|done].
    destruct (inc_allowed flag ids old s); simpl; [|done]. by eexists.
  - intros. by eapply sim_hdl_inj.
  - intros. apply sim_hdl_one.
  - apply sim_hdl_all.
Defined.

Ltac sim_live_step :=
  cbn [bf_call sim_bfrt view groups sim_safe] in *; rewrite ?sim_call_known by done; simpl in *.

Lemma counter_known t ks ds : t ∈ counter_tables → Schema.fields_known (EntryAdd t ks (Some ds)) = true.
Proof.
  intros Ht. unfold Schema.fields_known.
  assert (H : Schema.find_object t = Some Schema.CounterArray); [|by rewrite H].
  revert t Ht. apply Forall_forall. repeat (constructor; [reflexivity|]). constructor.
Qed.
Lemma counter_not_match t : t ∈ counter_tables → t ∉ match_tables ∧ t ≠ "$pre.mgid".
Proof.
  revert t. apply Forall_forall. apply (bool_decide_unpack _). vm_compute. exact I.
Qed.

#[export] Instance sim_live : BfrtLive (SF := sim_safe).
Proof.
  constructor.
  - intros c s Hc Hf. cbn [bf_call sim_bfrt]. rewrite sim_call_known by done. by destruct c.
  - intros t ks ds s Ht Hlen _ Hk. sim_live_step. by destruct (decide _).
  - intros t ks ds s Ht _ _. cbn [bf_call sim_bfrt].
    rewrite sim_call_known by by apply counter_known. simpl.
    apply counter_not_match in Ht as [Hn Hm]. by rewrite !decide_False by done.
  - intros t ks ds s [Hn Hm]%counter_not_match _ _. sim_live_step. by rewrite decide_False by naive_solver.
  - intros t s b. by eexists.
  - intros s. by eexists.
  - intros t ks ds s Ht Hnd Hlen Hok Hk Hroom. cbn [bf_call sim_bfrt].
    rewrite sim_call_known by by apply Schema.add_ok_known. simpl.
    rewrite decide_False by by apply match_not_mgid. rewrite decide_True by done.
    unfold sim_match_add. rewrite decide_True; [done|]. by rewrite Forall_forall.
  - intros t k s Ht Hk. sim_live_step.
    rewrite decide_False by by apply match_not_mgid. rewrite decide_True by done.
    unfold sim_match_del. rewrite decide_True; [done|]. right. by apply Forall_singleton.
  - intros t k s Ht Hp Hk. sim_live_step.
    rewrite decide_False by by apply match_not_mgid. rewrite decide_True by done.
    unfold sim_match_del. rewrite decide_False; [done|].
    intros [|H]; [done|].
    apply Forall_singleton in H as [d Hd]. congruence.
  - intros ks s. done.
  - intros t s. sim_live_step. by destruct (decide _).
  - intros g d ids s old Hd Ho Hi. sim_live_step. unfold sim_mgid_inc. simpl. rewrite Hd, Ho.
    simpl. rewrite bool_decide_eq_true_2; [done|]. by apply Forall_forall.
  - intros g d ids s old Hd Ho Hi. sim_live_step. unfold sim_mgid_inc. simpl. rewrite Hd, Ho.
    simpl. rewrite bool_decide_eq_true_2; [done|]. by apply Forall_forall.
  - intros g d s Hd Hg. sim_live_step. unfold sim_mgid_add. simpl. by rewrite Hd, Hg.
  - intros g s [ids Hg]. sim_live_step. unfold sim_mgid_del. simpl. by rewrite Hg.
  - intros g s Hg. sim_live_step. unfold sim_mgid_del. simpl. by rewrite Hg.
  - intros p d s. done.
  - intros c s Hc. cbn [bf_call sim_bfrt view groups sim_safe]. unfold sim_call. rewrite Hc.
    split; [by eexists|done].
  - intros g d flag s e. sim_live_step. unfold sim_mgid_inc.
    repeat case_match; simpl; intros; by simplify_eq.
Defined.
