(* ===== verification/Witnesses.v ===== *)
(** * The theorems at concrete inputs

    One controller on the small driver of [Sim]: two front-panel ports known to
    the forwarding table, the two multicast groups created, no worker yet. Each
    lemma applies one theorem of the development to it, with every hypothesis
    discharged by computation. *)
From S2P Require Import Prelude PyText PyMonad PyNum Bfrt Live World Ports Worker PRE.
From S2P Require Import NonSwitchMLForward GetWorkerBitmap SetDstAddr RDMAReceiver RDMASender.
From S2P Require Import Mirror DropSimulator DebugLog ConvertLog.
From S2P Require Import Job JobPorts JobWorkers JobInit JobLoad CLI Session GRPCServer Sim.

(** ** Instances *)

#[export] Instance sim_order : DictOrder :=
  {| dict_items := λ K _ _ A, map_to_list; dict_items_perm := λ K _ _ A d, reflexivity _ |}.

Definition sim_log2 (x : Z) : option Z :=
  if bool_decide (0 < x ∧ x = 2 ^ Z.log2 x) then Some (Z.log2 x) else None.
#[export] Instance sim_math : MathLog.
Proof.
  refine {| math_log2 := sim_log2 |}; unfold sim_log2.
  - intros k Hk. rewrite Z.log2_pow2 by lia. rewrite bool_decide_eq_true_2; [done|].
    split; [|done]. apply Z.pow_pos_nonneg; lia.
  - intros x Hx Hn. rewrite bool_decide_eq_false_2; [done|].
    intros [_ H]. apply (Hn (Z.log2 x)); [apply Z.log2_nonneg|done].
Defined.

#[export] Instance sim_address : IpAddress := dotted_address.

Definition sim_uints (bits : Z) (l : list Z) : outcome (list Z) :=
  if bool_decide (Forall (λ z, 0 ≤ z < 2 ^ bits) l) then Ok l else Raise ValueError.
#[export] Instance sim_protobuf : Protobuf.
Proof.
  refine {| pb_uints := sim_uints |}. intros bits l Hl. unfold sim_uints.
  by rewrite bool_decide_eq_true_2.
Defined.

(** ** Controllers *)

Definition mac0 : string := "00:00:00:00:00:0a".
Definition mac1 : string := "00:00:00:00:00:0b".
Definition sim_job : JobState :=
  {| switch_mac := "06:00:00:00:00:01"; switch_ip := "198.19.200.200"; switch_udp_port := 0xbee0;
     switch_udp_port_mask := 0xfff0; switch_partition_key := 0xffff;
     switchml_workers_mgid := 0x1234; all_ports_mgid := 0x1235; cpu_port := 320 |}.
Definition no_drops : DropState :=
  {| ingress_drop_probability := PInt 0; egress_drop_probability := PInt 0 |}.
Definition some_drops : DropState :=
  {| ingress_drop_probability := PInt 1; egress_drop_probability := PInt 0 |}.
Definition sim_groups0 : gmap Z (list Z) := <[0x1234 := []]> (<[0x1235 := []]> ∅).

(** A controller with the given entries on its switch, groups, nodes on record
    and drop probabilities. *)
Definition controller (T : entries) (G : gmap Z (list Z)) (r : gmap Z (gmap Z Z)) (d : DropState) : world :=
  World (SimSw T G) [] []
    {| dev_port_to_fp_port := None; active_ports := [] |}
    {| pre_switchml_mgid := 0x1234; pre_all_mgid := 0x1235; pre_cpu_port := 320; rid_counter := 0x8000;
       rids := r |}
    {| fwd_mgid := 0x1235; mac_addresses := <[mac0 := (1, 0)]> (<[mac1 := (3, 0)]> ∅) |}
    {| worker_ids := []; worker_counter_offset := 512 |}
    {| mirror_port := 320; sessions := [] |}
    {| arp_switch_mac := None; arp_switch_ip := None |}
    {| addr_mac := switch_mac sim_job; addr_ip := switch_ip sim_job |}
    {| addr_mac := switch_mac sim_job; addr_ip := switch_ip sim_job |}
    sim_job d.

(** Nothing on the switch but the groups; and a controller that believes device
    port 8 is taken by node 3. *)
Definition sim0 : world := controller ∅ sim_groups0 (<[0x1234 := ∅]> (<[0x1235 := ∅]> ∅)) no_drops.
Definition rids1 : gmap Z (gmap Z Z) := <[0x1234 := <[8 := 3]> ∅]> (<[0x1235 := ∅]> ∅).
Definition node_entry (rid d : Z) : entries := {[ ("$pre.node", node_key rid) := PRE.node_data rid d ]}.
Definition sim1 : world := controller (node_entry 3 8) (<[0x1234 := [3]]> sim_groups0) rids1 no_drops.
Definition drop_key0 : key := [KeyTuple "ig_intr_md.ingress_port" (VInt 0)].
Definition sim_lossy : world :=
  controller {[ (DropSimulator.table, drop_key0) := DropSimulator.drop_data 0xffff 0 ]} sim_groups0
    (<[0x1234 := ∅]> (<[0x1235 := ∅]> ∅)) some_drops.

(** The outcome of an operation whose end is known. *)
Lemma ends_outcome {S A} (m : M S A) s r Q : ends m s r Q → (m s).1 = r.
Proof. intros (s' & -> & _). done. Qed.

Ltac computed :=
  intros;
  first [ done | lia | reflexivity | apply lookup_empty
        | vm_compute; reflexivity | vm_compute; discriminate
        | vm_compute; eexists; reflexivity
        | split; vm_compute; first [reflexivity | discriminate]
        | intros [? ?]; discriminate
        | repeat split; vm_compute; first [reflexivity | discriminate]
        | apply (bool_decide_unpack _); vm_compute; exact I ].

(** ** Multicast groups *)

Lemma same_port_leaks_witness :
  ((PRE.worker_add 0x1234 0 3 0 ;; PRE.worker_add 0x1234 1 3 0 ;; PRE.worker_clear_all 0x1234) sim0).1
  = Ok tt.
Proof.
  eapply ends_outcome, (PRE.same_port_leaks 0x1234 0 1 3 0 8 [] sim0); computed.
Defined.

Lemma worker_add_skips_witness : (PRE.worker_add 0x1234 8 1 0 sim1).1 = Ok tt.
Proof.
  eapply ends_outcome, (PRE.worker_add_skips 0x1234 8 1 0 0 (<[8 := 3]> ∅) sim1); computed.
Defined.

Lemma worker_del_fails_witness : (PRE.worker_del 0x1234 3 sim1).1 = Raise NameError.
Proof.
  eapply ends_outcome, (PRE.worker_del_fails 0x1234 3 sim1); [|computed].
  exists [3]. split; computed.
Defined.

Lemma worker_clear_all_empties_witness : (PRE.worker_clear_all 0x1234 sim1).1 = Ok tt.
Proof.
  eapply ends_outcome, (PRE.worker_clear_all_empties 0x1234 (<[8 := 3]> ∅) sim1); computed.
Defined.

(** ** Ports *)

Lemma port_round_trip_witness :
  (Ports.get_dev_port 3 0 sim0).1 = Ok 8 ∧
  ((Ports.get_dev_port 3 0 ≫= Ports.get_fp_port) sim0).1 = Ok (3, 0).
Proof.
  split; [vm_compute; reflexivity|].
  apply (Ports.port_round_trip 3 0 8 sim0); [exact I|vm_compute; reflexivity].
Defined.

Lemma port_lifecycle_witness : (Ports.port_add 3 0 100 "none" sim0).1 = Ok tt.
Proof.
  eapply ends_outcome, (Ports.port_lifecycle 3 0 100 "none" 8 "BF_SPEED_100G" "BF_FEC_TYP_NONE" sim0);
    computed.
Defined.

Lemma sim0_port_new : port_new 8 ∅ [] sim0 (wview sim0) (wgroups sim0).
Proof. split; computed. Defined.

Lemma job_port_add_effect_witness : (Job.port_add 3 0 100 "none" sim0).1 = Ok tt.
Proof.
  eapply ends_outcome, (job_port_add_effect 3 0 100 "none" 8 "BF_SPEED_100G" "BF_FEC_TYP_NONE" ∅ [] sim0);
    [computed..|exact sim0_port_new].
Defined.

Lemma job_port_del_stale_witness :
  ((Job.port_add 3 0 100 "none" ;; Job.port_del 3 0) sim0).1 = Raise NameError.
Proof.
  eapply ends_outcome, (job_port_del_stale 3 0 100 "none" 8 "BF_SPEED_100G" "BF_FEC_TYP_NONE" ∅ [] sim0);
    [computed..|exact sim0_port_new].
Defined.

Lemma ports_inv_reachable_witness :
  Ports.ports_inv (run_call (CPortAdd 3 0 100 "none") sim0).2.
Proof.
  apply (ports_inv_reachable sim0).
  - eapply steps_call with (c := CPortAdd 3 0 100 "none"); [apply steps_refl|apply surjective_pairing|done].
  - split; [constructor|]. intros d []%not_elem_of_nil.
Defined.

Lemma port_clear_all_effect_witness : (Job.port_clear_all sim0).1 = Ok tt.
Proof. eapply ends_outcome, (port_clear_all_effect ∅ sim0); computed. Defined.

(** ** Forwarding *)

Lemma forward_add_get_del_witness :
  ((Forward.worker_add "00:00:00:00:00:0c" 3 0 ;; Forward.worker_port_get "00:00:00:00:00:0c") sim0).1
  = Ok (3, 0).
Proof.
  eapply ends_outcome, (Forward.forward_add_get_del "00:00:00:00:00:0c" 3 0 8 sim0); computed.
Defined.

Definition sim_learnt : world :=
  controller {[ (Forward.table, Forward.mac_key mac0) := Forward.port_data 0 ]} sim_groups0 ∅ no_drops.
Lemma forward_add_duplicate_witness : (Forward.worker_add mac0 3 0 sim_learnt).1 = Ok tt.
Proof. eapply ends_outcome, (Forward.forward_add_duplicate mac0 3 0 8 sim_learnt); computed. Defined.

Lemma get_macs_on_port_exact_witness : ∃ macs, (Forward.get_macs_on_port 3 0 sim0).1 = Ok macs ∧ mac1 ∈ macs.
Proof.
  destruct (Forward.get_macs_on_port_exact 3 0 sim0) as (macs & Hm & _ & H).
  exists macs. split; [by eapply ends_outcome|]. apply H. computed.
Defined.

(** ** Workers *)

Lemma add_entry_effect_witness :
  (RDMAReceiver.add_entry "" "198.19.200.200" 0xffff 0x1234 "10.0.0.1" 3 8 1 4 sim0).1 = Ok tt.
Proof.
  eapply ends_outcome,
    (RDMAReceiver.add_entry_effect "" "198.19.200.200" 0xffff 0x1234 "10.0.0.1" 3 8 1 4 sim0); computed.
Defined.

Definition sim_known : world := RDMAReceiver.set_worker_ids [3; 1] sim0.
Lemma queue_pair_ids_exact_witness : (512 * 3 + 1) ∈ RDMAReceiver.queue_pair_ids 0 4 sim_known.
Proof.
  apply (RDMAReceiver.queue_pair_ids_exact 0 4 sim_known (512 * 3 + 1)); computed.
Defined.

Lemma add_write_worker_effect_witness :
  (RDMASender.add_write_worker 3 mac1 "10.0.0.1" 77 1 1024 [(17, 0); (18, 0)] sim0).1 = Ok tt.
Proof.
  eapply ends_outcome,
    (RDMASender.add_write_worker_effect 3 mac1 "10.0.0.1" 77 1 1024 2 [(17, 0); (18, 0)] sim0); computed.
Defined.

Lemma add_write_worker_bad_size_witness :
  (RDMASender.add_write_worker 3 mac1 "10.0.0.1" 77 1 768 [(17, 0)] sim0).1 = Raise TypeError.
Proof.
  eapply ends_outcome,
    (RDMASender.add_write_worker_bad_size 3 mac1 "10.0.0.1" 77 1 768 [(17, 0)] sim0); try computed.
  intros k Hk H. assert (k < 3) by (destruct (decide (k < 3)); [done|];
    assert (2 ^ 3 ≤ 2 ^ k) by (apply Z.pow_le_mono_r; lia); change (768 / RDMASender.packet_bytes 1) with 3 in H; lia).
  assert (k = 0 ∨ k = 1 ∨ k = 2) as [-> | [-> | ->]] by lia; discriminate H.
Defined.

Lemma sim0_worker_new rank d :
  rank = 0 ∨ rank = 3 → worker_new rank d ∅ [] sim0 (wview sim0) (wgroups sim0).
Proof. intros [-> | ->]; split; computed. Defined.

Lemma sim0_roce_new rank k ip qps :
  Z.of_nat (length qps) ≤ 16384 → roce_new rank k ip sim_job qps (wview sim0).
Proof. intros H. split; computed. Defined.

Lemma worker_add_udp_refused_witness :
  (Job.worker_add_udp 3 33 mac1 "10.0.0.1" sim0).1 = Ok tt ∧
  is_ok (Job.worker_add_udp 3 4 mac1 "10.0.0.1" sim0).1 = false ∧
  (CLI.do_worker_add_udp "3 4 00:00:00:00:00:0b 10.0.0.1" sim0).1 = Ok tt.
Proof.
  destruct (worker_add_udp_refused sim0) as [H Hc]. split; [|split].
  - eapply ends_outcome, (H 3 33 mac1 "10.0.0.1"). lia.
  - destruct (H 3 4 mac1 "10.0.0.1") as [_ H']. destruct (H' ltac:(lia)) as (e & w & -> & _). reflexivity.
  - eapply ends_outcome, Hc.
Defined.

Lemma worker_add_roce_effect_witness :
  (Job.worker_add_roce 3 4 mac1 "10.0.0.1" 77 1 1024 [(17, 0); (18, 0)] sim0).1 = Ok tt.
Proof.
  eapply ends_outcome, (worker_add_roce_effect 3 4 mac1 "10.0.0.1" 77 1 1024 [(17, 0); (18, 0)]
    3 0 8 ∅ [] 2 sim0);
    first [apply sim0_worker_new; by right | apply sim0_roce_new; computed | computed].
Defined.

Lemma worker_clear_all_effect_witness : (Job.worker_clear_all sim1).1 = Ok tt.
Proof. eapply ends_outcome, (worker_clear_all_effect (<[8 := 3]> ∅) sim1); computed. Defined.

Lemma worker_clear_all_fails_witness : is_ok (Job.worker_clear_all sim_lossy).1 = false.
Proof.
  destruct (worker_clear_all_fails ∅ 0xffff 0 (DropSimulator.drop_data 0xffff 0) sim_lossy)
    as (exn & w' & Hr & _); [try computed..|].
  by rewrite Hr.
Defined.

(** Two workers in a job file, in the place of the worker of [sim1]. *)
Lemma worker_load_file_loads_none_witness :
  is_ok (Job.worker_load_file (Some [0; 8]) sim1).1 = false ∧
  wview (Job.worker_load_file (Some [0; 8]) sim1).2 = emptied (<[8 := 3]> ∅) (wview sim1).
Proof.
  destruct (worker_load_file_loads_none (Some [0; 8]) (<[8 := 3]> ∅) sim1 ltac:(computed)
    ltac:(computed) ltac:(computed) ltac:(computed)) as [(G' & (_ & HV & _) & _) H].
  revert HV H. generalize (Job.worker_load_file (Some [0; 8]) sim1). intros r HV H.
  split; [|exact HV]. destruct (H 1 0 ltac:(computed) I ltac:(computed)) as [Hraise _].
  destruct Hraise as [e He]; [exists mac0; computed|]. rewrite He. reflexivity.
Defined.

(** ** Construction *)

Lemma job_init_effect_witness :
  (Job.init "198.19.200.200" "06:00:00:00:00:01" 0xbee0 0xfff0 [] None sim0).1 = Ok tt.
Proof.
  eapply ends_outcome, (job_init_effect "198.19.200.200" "06:00:00:00:00:01" 0xbee0 0xfff0 sim0);
    [split|..]; computed.
Defined.

Definition sim_running : world :=
  controller {[ ("$PORT", Ports.port_key 64) := Ports.loopback_data ]} sim_groups0 ∅ no_drops.
Lemma job_init_restart_fails_witness :
  is_ok (Job.init "198.19.200.200" "06:00:00:00:00:01" 0xbee0 0xfff0 [] None sim_running).1 = false.
Proof.
  destruct (job_init_restart_fails "198.19.200.200" "06:00:00:00:00:01" 0xbee0 0xfff0 [] None
    (Ports.port_key 64) sim_running) as (e & H); [computed..|].
  rewrite (ends_outcome _ _ _ _ H). reflexivity.
Defined.

(** ** Mirroring and simulated loss *)

Lemma mirror_session_not_cleared_witness : ((Mirror.init 320 ;; Mirror.clear) sim0).1 = Ok tt.
Proof. eapply ends_outcome, (Mirror.mirror_session_not_cleared 320 sim0); computed. Defined.

Lemma drop_set_once_witness :
  (DropSimulator.set_drop_probabilities (PInt 1) (PInt 0) sim0).1 = Ok tt.
Proof.
  destruct (DropSimulator.drop_set_once (PInt 1) (PInt 0) 0xffff 0 (PInt 0) (PInt 0) 0 0 sim0)
    as (V & _ & H); [computed..|].
  by eapply ends_outcome.
Defined.

(** ** RPC *)

Definition request (rank size : Z) (m : Z) : GRPCServer.RDMAConnectRequest :=
  {| GRPCServer.job_id := 1; GRPCServer.my_rank := rank; GRPCServer.job_size := size;
     GRPCServer.mac := m; GRPCServer.ipv4 := 0x0a000001; GRPCServer.rkey := 77;
     GRPCServer.packet_size := 1; GRPCServer.message_size := 1024;
     GRPCServer.qpns := [17; 18]; GRPCServer.psns := [0; 0] |}.

Lemma request_answerable rank size m : 0 ≤ rank < 127 →
  GRPCServer.answerable sim_job (request rank size m) 0x060000000001 0xc613c8c8.
Proof. intros Hr. split; first [exact Hr | computed]. Defined.
Lemma request_connectable rank : rank = 0 ∨ rank = 3 →
  GRPCServer.connectable (request rank 4 0x0b) 3 0 8 2 sim0.
Proof. intros [-> | ->]; split; computed. Defined.

Definition sim_answer (rank : Z) : GRPCServer.RDMAConnectResponse :=
  GRPCServer.answer (request rank 4 0x0b) 0x060000000001 0xc613c8c8.

Lemma rdma_connect_adds_witness :
  (GRPCServer.RDMAConnect GRPCServer.TheJob (request 3 4 0x0b) sim0).1 = Ok (sim_answer 3) ∧
  GRPCServer.resp_qpns (sim_answer 3) = [0x830000; 0x830001].
Proof.
  split; [|reflexivity].
  eapply ends_outcome,
    (GRPCServer.rdma_connect_adds (request 3 4 0x0b) 0x060000000001 0xc613c8c8 3 0 8 ∅ [] 2 sim0);
    first [apply request_answerable; lia | apply request_connectable; by right
          | apply sim0_worker_new; by right | apply sim0_roce_new; computed | computed].
Defined.

Lemma rdma_connect_first_witness :
  (GRPCServer.RDMAConnect GRPCServer.TheJob (request 0 4 0x0b) sim0).1 = Ok (sim_answer 0).
Proof.
  eapply ends_outcome,
    (GRPCServer.rdma_connect_first (request 0 4 0x0b) 0x060000000001 0xc613c8c8 3 0 8 ∅ [] 2 sim0);
    first [apply request_answerable; lia | apply request_connectable; by left
          | right; split; [by intros ?%not_elem_of_nil | computed] | split; computed | computed].
Defined.

Lemma rdma_connect_refusals_witness :
  (GRPCServer.RDMAConnect GRPCServer.NotAssigned (request 3 4 0x0b) sim0).1 = Raise AttributeError ∧
  (GRPCServer.RDMAConnect GRPCServer.TheJob (request 3 33 0x0b) sim0).1 =
    Ok (GRPCServer.answer (request 3 33 0x0b) 0x060000000001 0xc613c8c8) ∧
  (GRPCServer.RDMAConnect GRPCServer.TheJob (request 3 4 0x0c) sim0).1 = Raise Forward.not_configured.
Proof.
  split; [|split].
  - destruct (GRPCServer.rdma_connect_refusals (request 3 4 0x0b) 0 0 sim0) as [H _].
    eapply ends_outcome, H.
  - destruct (GRPCServer.rdma_connect_refusals (request 3 33 0x0b) 0x060000000001 0xc613c8c8 sim0)
      as (_ & _ & H & _).
    eapply ends_outcome. apply H; [|discriminate|reflexivity].
    by apply (request_answerable 3 33 0x0b).
  - destruct (GRPCServer.rdma_connect_refusals (request 3 4 0x0c) 0 0 sim0) as (_ & _ & _ & H).
    eapply ends_outcome, H; computed.
Defined.

Lemma request_address_round_trip_witness : mac_int (mac_str 0x060000000001) = Some 0x060000000001.
Proof.
  apply (GRPCServer.request_address_round_trip (request 3 4 0x060000000001)); computed.
Defined.

(** ** The command line *)

Lemma session_safe_witness :
  (CLI.run_command_loop
     [CLI.PortAdd "3/0 100"; CLI.PortAdd "99"; CLI.WorkerAddUdp "0 2"; CLI.PortClearAll] sim0).1 = Ok tt.
Proof.
  eapply ends_outcome, session_safe. split; [constructor|]. intros d []%not_elem_of_nil.
Defined.

Lemma port_add_command_witness :
  port_add_text 12 3 100 "rs" = "12/3 100 rs" ∧
  CLI.do_port_add "12/3 100 rs" sim0 =
    Job.port_add 12 3 100 "rs"
      (printed [Printed "Configuring port {}/{} speed {} fec {}."
                  [VInt 12; VInt 3; VInt 100; VStr "rs"]] sim0).
Proof.
  split; [reflexivity|]. apply (port_add_command 12 3 100 "rs" sim0); computed.
Defined.

Lemma mac_address_add_command_witness :
  CLI.do_mac_address_add "00:00:00:00:00:0c 12/7" sim0 =
    Job.mac_address_add "00:00:00:00:00:0c" 12 0 (printed [Printed "Assuming lane 0." []] sim0).
Proof. apply (mac_address_add_command 0x0c 12 7 sim0); computed. Defined.

Lemma worker_add_udp_command_witness :
  CLI.do_worker_add_udp "3 4 00:00:00:00:00:0b 10.0.0.1" sim0 =
    CLI.guarded CLI.udp_usage (Job.worker_add_udp 3 4 mac1 "10.0.0.1") sim0.
Proof. apply (worker_add_udp_command 3 4 mac1 "10.0.0.1" sim0); computed. Defined.

Lemma worker_add_roce_command_witness :
  CLI.do_worker_add_roce "3 4 00:00:00:00:00:0b 10.0.0.1 77 256 1024 17 0 18 5" sim0 =
    CLI.guarded CLI.roce_usage
      (Job.worker_add_roce 3 4 mac1 "10.0.0.1" 77 1 1024 [(17, 0); (18, 5)]) sim0.
Proof.
  apply (worker_add_roce_command 3 4 mac1 "10.0.0.1" 77 1 1024 [(17, 0); (18, 5)] sim0);
    first [computed | repeat constructor].
Defined.

Lemma set_switch_address_partial_witness :
  (CLI.do_set_switch_address "06:00:00:00:00:02 198.19.200.201" sim0).1 = Ok tt.
Proof.
  eapply ends_outcome, (set_switch_address_partial "06:00:00:00:00:02" "198.19.200.201" sim0); computed.
Defined.
