(* ===== verification/WitnessJob.v ===== *)
(** * Jobs at concrete inputs

    The theorems on whole jobs applied to two RoCE workers on the small driver
    of [Sim], with every hypothesis discharged by computation. *)
From S2P Require Import Prelude PyText PyMonad PyNum Bfrt Live World Ports Worker PRE.
From S2P Require Import NonSwitchMLForward GetWorkerBitmap SetDstAddr RDMAReceiver RDMASender.
From S2P Require Import Mirror DropSimulator DebugLog ConvertLog.
From S2P Require Import Job JobPorts JobWorkers JobInit JobLoad JobSpec CLI Session GRPCServer.
From S2P Require Import Schema Lookup Assembly System Typing Sim Witnesses.

(** A controller that has learnt where two workers are. *)
Definition sim_ready : world :=
  Forward.set_mac_addresses (<[mac0 := (4, 0)]> (<[mac1 := (3, 0)]> ∅)) sim0.
Definition first_worker : connection := Connection (request 0 2 0x0b) (3, 0) 8.
Definition other_worker : connection := Connection (request 1 2 0x0a) (4, 0) 12.
Definition udp_worker : member := Member 2 3 mac0 "10.0.0.2" (4, 0) 12 UdpMember.

Lemma background_empty : background ∅.
Proof. split; intros; apply lookup_empty. Defined.

Lemma sim_implements : implements sim_ready ∅ [] sim_ready.
Proof. apply (implements_empty sim_ready ∅ sim_groups0 sim_ready); try reflexivity. done. Defined.

Lemma member_fits c : c = first_worker ∨ c = other_worker → fits sim_ready (cx_member c).
Proof. intros [-> | ->]; split; computed. Defined.

Ltac each_table Ht :=
  unfold cleared_tables in Ht;
  repeat (apply elem_of_cons in Ht as [->|Ht]; [vm_compute; discriminate|]);
  by apply not_elem_of_nil in Ht.

Lemma sim_history :
  job_run sim_ready ∅ [] [Clear; Join (cx_member first_worker); Join udp_worker; Clear;
                          Join (Member 5 33 mac1 "" (3, 0) 8 UdpMember)] [].
Proof.
  econstructor; [apply step_clear|]. econstructor; [apply step_join; [computed|]|].
  { split; [by apply member_fits; left| | | | |intros t Ht; each_table Ht]; computed. }
  econstructor; [by apply step_udp|].
  econstructor; [apply step_clear|]. econstructor; [by apply step_too_many|constructor].
Defined.

Lemma job_refines_witness :
  ∃ rs, (map_each attempt [Clear; Join (cx_member first_worker); Join udp_worker; Clear;
      Join (Member 5 33 mac1 "" (3, 0) 8 UdpMember)] sim_ready).1 = Ok rs ∧
    is_ok <$> rs = [true; true; false; true; true].
Proof.
  destruct (job_refines sim_ready ∅ background_empty ltac:(computed) ltac:(computed) ltac:(computed)
    _ _ _ sim_ready sim_history sim_implements) as (rs & Hrs & Hok).
  exists rs. split; [eapply ends_outcome, Hrs|exact Hok].
Defined.

Lemma sim_assembly l :
  l = [first_worker; other_worker] ∨ l = [other_worker; first_worker] →
  assembly sim_ready ∅ 0x060000000001 0xc613c8c8 l.
Proof.
  intros Hl. assert (Hc : ∀ c, c ∈ l → c = first_worker ∨ c = other_worker).
  { destruct Hl as [-> | ->]; intros c; rewrite !elem_of_cons, elem_of_nil; tauto. }
  split.
  - intros c Hin. by apply member_fits, Hc.
  - intros c [-> | ->]%Hc; computed.
  - intros c [-> | ->]%Hc; apply request_answerable; lia.
  - destruct Hl as [-> | ->]; computed.
  - destruct Hl as [-> | ->]; computed.
  - intros c c' [-> | ->]%Hc [-> | ->]%Hc; computed.
  - intros t Ht. destruct Hl as [-> | ->]; each_table Ht.
Defined.

Lemma job_assembles_witness :
  (map_each (GRPCServer.RDMAConnect GRPCServer.TheJob) [request 0 2 0x0b; request 1 2 0x0a] sim_ready).1 =
    Ok [GRPCServer.answer (request 0 2 0x0b) 0x060000000001 0xc613c8c8;
        GRPCServer.answer (request 1 2 0x0a) 0x060000000001 0xc613c8c8].
Proof.
  eapply ends_outcome,
    (job_assembles sim_ready ∅ 0x060000000001 0xc613c8c8 background_empty ltac:(computed)
      ltac:(computed) ltac:(computed) first_worker [other_worker]);
    [apply sim_assembly; by left|reflexivity|exact sim_implements].
Defined.

Lemma late_first_worker_witness :
  (map_each (GRPCServer.RDMAConnect GRPCServer.TheJob) [request 1 2 0x0a; request 0 2 0x0b] sim_ready).1 =
    Ok [GRPCServer.answer (request 1 2 0x0a) 0x060000000001 0xc613c8c8;
        GRPCServer.answer (request 0 2 0x0b) 0x060000000001 0xc613c8c8].
Proof.
  eapply ends_outcome,
    (late_first_worker sim_ready ∅ 0x060000000001 0xc613c8c8 background_empty ltac:(computed)
      ltac:(computed) ltac:(computed) first_worker [other_worker]);
    [apply sim_assembly; by right|reflexivity|exact sim_implements].
Defined.

Definition sim_built : world :=
  learnt [first_worker; other_worker]
    (built "198.19.200.200" "06:00:00:00:00:01" 0xbee0 0xfff0 sim0).

Lemma sim_deployment :
  deployment (w_job sim_built) 0x060000000001 0xc613c8c8 [first_worker; other_worker] (wview sim0).
Proof.
  assert (Hc : ∀ c, c ∈ [first_worker; other_worker] → c = first_worker ∨ c = other_worker).
  { intros c. rewrite !elem_of_cons, elem_of_nil. tauto. }
  split; [computed|computed|computed|computed|idtac|idtac|idtac|idtac|idtac|idtac|idtac|computed|computed|computed|idtac|..].
  1-4: intros c [-> | ->]%Hc; computed.
  1: intros c [-> | ->]%Hc; exists 2; computed.
  1-2: intros c [-> | ->]%Hc; computed.
  1: intros c c' [-> | ->]%Hc [-> | ->]%Hc; computed.
  1: intros r _; apply lookup_empty.
  1-2: vm_compute; discriminate.
  intros t Ht. each_table Ht.
Defined.

Lemma job_lifetime_witness :
  ((Job.init "198.19.200.200" "06:00:00:00:00:01" 0xbee0 0xfff0 [] None ;;
    for_each [first_worker; other_worker] learn ;;
    map_each (GRPCServer.RDMAConnect GRPCServer.TheJob) [request 0 2 0x0b; request 1 2 0x0a]) sim0).1 =
  Ok [GRPCServer.answer (request 0 2 0x0b) 0x060000000001 0xc613c8c8;
      GRPCServer.answer (request 1 2 0x0a) 0x060000000001 0xc613c8c8].
Proof.
  eapply ends_outcome,
    (job_lifetime "198.19.200.200" "06:00:00:00:00:01" 0xbee0 0xfff0 0x060000000001 0xc613c8c8
      first_worker [other_worker] sim0);
    [split; computed|computed|computed|exact sim_deployment|reflexivity].
Defined.

(** ** Lookups *)

Definition sim_joined : world := (run_op (Join (cx_member first_worker)) sim_ready).2.

Lemma sim_joined_implements : implements sim_ready ∅ [cx_member first_worker] sim_joined.
Proof.
  eapply (proj2 (ends_run _ _ _ _ (step_simulates sim_ready ∅ background_empty ltac:(computed)
    ltac:(computed) ltac:(computed) [] (Join (cx_member first_worker)) _ _
    (step_join _ _ [] _ _ _) eq_refl sim_implements))).
  Unshelve.
  - computed.
  - split; [by apply member_fits; left| | | | |intros t Ht; each_table Ht]; computed.
Defined.

Definition sim_write : roce_header :=
  {| ipv4_src_addr := "10.0.0.1"; ipv4_dst_addr := "198.19.200.200"; bth_partition_key := 0xffff;
     bth_opcode := 0x2a; bth_dst_qp := 0x800001 |}.

Lemma receive_roce_exact_witness :
  ∃ k d, hits (wview sim_joined) RDMAReceiver.table (receive_roce_fields sim_write) k d ∧
    dt_action d = Some "Ingress.rdma_receiver.only_packet".
Proof.
  eexists _, _. split.
  - apply (receive_roce_exact sim_ready ∅ [cx_member first_worker] sim_joined background_empty
      sim_joined_implements sim_write); [computed|].
    exists (cx_member first_worker), 77, 1, 1024, [(17, 0); (18, 0)], "Ingress.rdma_receiver.only_packet".
    split; [by left|]. split; [reflexivity|]. split; [repeat split; vm_compute; reflexivity|].
    split; [computed|]. split; reflexivity.
  - reflexivity.
Defined.

Lemma fill_in_qpn_exact_witness :
  ∃ k, hits (wview sim_joined) RDMASender.fill_in_qpn_and_psn (fill_in_qpn_fields 0 0xd) k
    (RDMASender.qp_data 18).
Proof.
  eexists. apply (fill_in_qpn_exact sim_ready ∅ [cx_member first_worker] sim_joined background_empty
      sim_joined_implements (cx_member first_worker) 77 1 1024 [(17, 0); (18, 0)] 0xd);
    [by left|reflexivity|computed|computed|computed|].
  exists 1%nat, 18, 0. repeat split.
Defined.

Lemma queue_pair_cells_witness : QP_INDEX 0x830001 = 3 * 512 + 1.
Proof. apply (queue_pair_cells 3 [17; 18] 1 0x830001 sim0); [lia|simpl; lia|reflexivity]. Defined.

(** The process on the small driver: a request before the server has its job,
    then another and a command that cannot be obeyed. *)
Definition sim_arguments : arguments :=
  Arguments "06:00:00:00:00:01" "198.19.200.200" 0xbee0 0xfff0 None (Some None).
Definition sim_started : world := (main sim_arguments None sim0).2.
Definition sim_serving : world :=
  (CLI.run_command_loop [CLI.PortAdd "x"]
     (GRPCServer.RDMAConnect GRPCServer.TheJob (request 3 4 0x0c)
        (configured (GRPCServer.RDMAConnect GRPCServer.NotAssigned (request 3 4 0x0c) sim_started).2).2).2).2.

Lemma sim_starts : (main sim_arguments None sim0).1 = Ok tt.
Proof. vm_compute. reflexivity. Defined.

Lemma sim_reachable : reachable sim_arguments sim0 (Process Ready sim_serving).
Proof.
  apply reach_command, reach_request; [done|]. apply reach_ready, reach_request; [done|].
  exact (reach_started _ _ sim_starts).
Defined.

Lemma system_safe_witness : Ports.ports_inv sim_serving.
Proof.
  apply (system_safe sim_arguments sim0 (Process Ready sim_serving)); [exact sim_reachable|done..].
Defined.

(** An entry of the worker that has asked to join, and the default action. *)
Definition sim_roce_call : bfcall :=
  EntryAdd RDMAReceiver.table [RDMAReceiver.entry_key "10.0.0.1" "198.19.200.200" 0xffff 0x26 3]
    (Some [RDMAReceiver.entry_data 0x1234 3 4 1 8 "Ingress.rdma_receiver.first_packet"]).
Definition sim_default_call : bfcall :=
  DefaultEntrySet RDMASender.switch_mac_and_ip
    (MakeData [("switch_mac", VStr "06:00:00:00:00:01"); ("switch_ip", VStr "198.19.200.200")]
       (Some "Egress.rdma_sender.set_switch_mac_and_ip")).

Lemma controller_typed_witness :
  Schema.call_ok sim_roce_call = true ∧ Schema.call_ok sim_default_call ≠ true.
Proof.
  pose proof (controller_typed sim_arguments sim0 (Process Ready sim_serving) eq_refl sim_reachable) as H.
  split.
  - apply (H sim_roce_call); [in_tables|reflexivity].
  - intros Hc. apply (H sim_default_call) in Hc; [vm_compute in Hc; discriminate|in_tables].
Defined.

Lemma test_client_clears_witness : is_ok (run_test GRPCServer.TheJob sim_joined).1 = false.
Proof.
  destruct (test_client_clears sim_ready ∅ [cx_member first_worker] sim_joined background_empty
    ltac:(computed) ltac:(computed) ltac:(computed) ltac:(computed) ltac:(computed) sim_joined_implements)
    as (w' & E & _).
  by rewrite E.
Defined.
