(* ===== verification/WitnessSwitch.v ===== *)
(** * The switch at concrete inputs

    The theorems on the aggregator and on the packets of a deployed job applied
    to two workers, with every hypothesis discharged by computation. *)
From stdpp Require Import functions relations.
From S2P Require Import Prelude PyText PyMonad PyNum Bfrt Live World Ports Worker PRE.
From S2P Require Import NonSwitchMLForward GetWorkerBitmap SetDstAddr RDMAReceiver RDMASender.
From S2P Require Import Mirror DropSimulator DebugLog ConvertLog Pipeline Recirculation Aggregation.
From S2P Require Import Aggregated AggregationLive FourPipes Overtaking.
From S2P Require Import Job JobPorts JobWorkers JobInit JobLoad JobSpec CLI Session GRPCServer.
From S2P Require Import Lookup Assembly Receive Egress Traffic Sim Witnesses WitnessJob.
Import Pipe.

(** ** The aggregator *)

Lemma two_workers_ok : job_ok two_workers.
Proof.
  split.
  - apply (bool_decide_unpack _). vm_compute. exact I.
  - done.
  - intros w. simpl. rewrite !elem_of_cons, elem_of_nil. lia.
  - done.
  - intros w p. simpl. rewrite !elem_of_cons, elem_of_nil. lia.
  - intros w p n. simpl. rewrite !elem_of_cons, elem_of_nil. lia.
Defined.

(** The first result of the run, which is broadcast. *)
Definition first_result : exit * packet :=
  nth 0 (nt_out repeated_run) (Drop, contribution two_workers 0 0).

Lemma first_result_left : first_result ∈ nt_out repeated_run.
Proof. apply list_elem_of_In, nth_In. vm_compute. lia. Defined.

Lemma aggregation_sound_witness :
  first_result.1 = Multicast 0x1234 ∧
  ∃ p, 0 ≤ p ∧ (result two_workers p (total1 two_workers p) first_result.2 ∨ first_result.1 = Unicast 8 ∨ first_result.1 = Unicast 12).
Proof.
  split; [vm_compute; reflexivity|].
  destruct (aggregation_sound two_workers None two_workers_ok repeated_run first_result
    repeated_run_reachable first_result_left ltac:(vm_compute; reflexivity))
    as (p & H0 & [[_ Hr]|(w & Hw & Hx & _ & _)]); exists p; (split; [done|]); [by left|right].
  simpl in Hw. rewrite !elem_of_cons, elem_of_nil in Hw. destruct Hw as [-> |[-> |[]]]; [by left|by right].
Defined.

Lemma aggregation_live_witness :
  ∃ s' k, rtc (net_step two_workers None) repeated_run s' ∧ 7 ≤ k ∧
    emitted two_workers 0 k s' ∧ emitted two_workers 1 k s'.
Proof.
  destruct (aggregation_live two_workers None two_workers_ok repeated_run 7 repeated_run_reachable)
    as (s' & k & Hs & Hk & He).
  exists s', k. split; [done|]. split; [done|]. split; apply He; simpl; set_solver.
Defined.

(** ** Packets of 1024 bytes *)

Lemma three_workers_ok : FourPipes.large_ok FourPipes.three_workers None.
Proof.
  split; try done.
  - apply (bool_decide_unpack _). vm_compute. exact I.
  - intros w. simpl. rewrite !elem_of_cons, elem_of_nil. lia.
  - intros w p. simpl. rewrite !elem_of_cons, elem_of_nil. lia.
  - intros w p i n. simpl. rewrite !elem_of_cons, elem_of_nil. lia.
  - intros w. simpl. rewrite !elem_of_cons, elem_of_nil. by intros [-> |[-> |[-> |[]]]].
Defined.

(** The answers of the run: the broadcast, and the one to the worker that asks
    again. *)
Definition large_result_of (n : nat) : exit * packet :=
  nth n (FourPipes.ln_out FourPipes.large_run) (Drop, contribution two_workers 0 0).

Lemma large_result_left n : (n < 2)%nat → large_result_of n ∈ FourPipes.ln_out FourPipes.large_run.
Proof.
  intros Hn. assert (Hl : length (FourPipes.ln_out FourPipes.large_run) = 2%nat) by (vm_compute; reflexivity).
  unfold large_result_of. apply list_elem_of_In, nth_In. by rewrite Hl.
Defined.

Lemma large_answers_right_witness :
  (large_result_of 0).1 = Multicast 0x1234 ∧ (large_result_of 1).1 = Unicast 8 ∧
  FourPipes.large_answer FourPipes.three_workers (large_result_of 0) 0 ∧
  FourPipes.large_answer FourPipes.three_workers (large_result_of 1) 0.
Proof.
  split; [vm_compute; reflexivity|]. split; [vm_compute; reflexivity|]. split.
  - apply (FourPipes.large_answers_right FourPipes.three_workers None three_workers_ok _ (large_result_of 0)
      FourPipes.large_run_reachable (large_result_left 0 ltac:(lia)) ltac:(vm_compute; reflexivity)).
  - apply (FourPipes.large_answers_right FourPipes.three_workers None three_workers_ok _ (large_result_of 1)
      FourPipes.large_run_reachable (large_result_left 1 ltac:(lia)) ltac:(vm_compute; reflexivity)).
Defined.

Lemma large_live_witness :
  ∃ s x, rtc (FourPipes.large_step FourPipes.three_workers None) FourPipes.large_run s ∧
    x ∈ FourPipes.ln_out s ∧ x.1 = Multicast 0x1234 ∧ tag x.2 = 5.
Proof.
  destruct (FourPipes.large_live FourPipes.three_workers None three_workers_ok _ 7 FourPipes.large_run_reachable)
    as (s & k & Hs & Hk & He).
  destruct (He 5 ltac:(lia)) as (x & Hx & _ & Hm & Ht & _). by exists s, x.
Defined.

(** The broadcast of the run in which packets overtake each other. *)
Definition overtaken_result : exit * packet :=
  nth 0 (Overtaking.sw_out Overtaking.swarm_run) (Drop, contribution two_workers 0 0).

Lemma interleaved_sums_right_witness :
  e0 overtaken_result.2 = 20 ∧
  Overtaking.swarm_result FourPipes.three_workers (tag overtaken_result.2) overtaken_result.2.
Proof.
  split; [vm_compute; reflexivity|].
  apply (Overtaking.interleaved_sums_right FourPipes.three_workers None three_workers_ok _ overtaken_result
    Overtaking.swarm_run_reachable); [|vm_compute; reflexivity].
  assert (Hl : length (Overtaking.sw_out Overtaking.swarm_run) = 1%nat) by (vm_compute; reflexivity).
  unfold overtaken_result. apply list_elem_of_In, nth_In. rewrite Hl. lia.
Defined.

(** ** The receiver *)

Lemma message_in_order_witness :
  (Receive.increments [0xffffff; 0; 1] (fst (Receive.receiver_reset_action 0xfffffe 6))).2 = [8; 10; 12].
Proof. destruct (Receive.message_in_order 0xfffffe 6 3) as (_ & H & _); [lia|lia|lia|]. exact H. Defined.

Lemma message_violation_witness :
  Forall (λ z, Z.testbit z 31 = true)
    (Receive.increments [5; 3; 4] (Receive.ReceiverData 3 8)).2.
Proof. apply (Receive.message_violation [3; 4] 5 (Receive.ReceiverData 3 8)). simpl. lia. Defined.

(** ** A deployed job *)

Definition sim_pair : list member := [cx_member first_worker; cx_member other_worker].
Definition sim_deployed : world := (run_op (Join (cx_member other_worker)) sim_joined).2.

Lemma sim_deployed_implements : implements sim_ready ∅ sim_pair sim_deployed.
Proof.
  eapply (proj2 (ends_run _ _ _ _ (step_simulates sim_ready ∅ background_empty ltac:(computed)
    ltac:(computed) ltac:(computed) [cx_member first_worker] (Join (cx_member other_worker)) _ _
    (step_join _ _ [cx_member first_worker] _ _ _) eq_refl sim_joined_implements))).
  Unshelve.
  - computed.
  - split; [by apply member_fits; right| | | | |intros t Ht; each_table Ht]; computed.
Defined.

Lemma sim_deployed_hit :
  ∃ k d, hits (wview sim_deployed) RDMAReceiver.table (receive_roce_fields sim_write) k d.
Proof.
  eexists _, _. apply (roce_hits sim_ready ∅ sim_pair sim_deployed background_empty
    sim_deployed_implements sim_write); [computed|].
  exists (cx_member first_worker), 77, 1, 1024, [(17, 0); (18, 0)], "Ingress.rdma_receiver.only_packet".
  split; [by left|]. split; [reflexivity|]. split; [repeat split; vm_compute; reflexivity|].
  split; [computed|]. split; reflexivity.
Defined.

Lemma deployed_job_witness :
  wgroups sim_deployed !! 0x1234 = Some [0; 1].
Proof.
  destruct sim_deployed_hit as (k & d & Hhit).
  apply (Receive.deployed_job sim_ready ∅ sim_pair sim_deployed background_empty sim_deployed_implements
    5 true (λ r, 8 + 4 * r) (λ _ _, 1) (λ _ _, 2) (λ _ _ _, 3) (λ _ _ _, 4) sim_write k d 0 10
    (Receive.ReceiverData 0 0)); [done| |lia|lia|computed|exact Hhit].
  intros m [->|[->|[]%not_elem_of_nil]%elem_of_cons]%elem_of_cons; split;
    [computed|computed|by eexists _, _, _|computed|computed|by eexists _, _, _].
Defined.

(** ** Its answers *)

(** The copies of a group: those of the nodes that are configured. *)
Definition node_copy (d : datum) : option (Z * Z) :=
  match field_value "$MULTICAST_RID" (dt_fields d), field_value "$DEV_PORT" (dt_fields d) with
  | Some (VInt rid), Some (VInts [port]) => Some (rid, port)
  | _, _ => None
  end.
Definition sim_replicas (V : entries) (G : gmap Z (list Z)) (group : Z) : list (Z * Z) :=
  omap (λ n, V !! ("$pre.node", node_key n) ≫= node_copy) (default [] (G !! group)).
#[export] Instance sim_replication : PacketReplication.
Proof.
  refine {| replicas := sim_replicas |}.
  intros V G group nodes rps HG Hn. unfold sim_replicas. rewrite HG. simpl. clear HG.
  induction Hn as [|n [rid port] nodes rps Hn _ IH]; [done|]. simpl. rewrite Hn. simpl. by constructor.
Defined.
#[export] Instance sim_hash : IdentityHash := {| identity_hash := concatenate; identity_hash_fields _ _ := eq_refl |}.

(** The first result on its way out. *)
Definition sim_answer : Egress.egress_md :=
  Egress.EgressMd (md first_result.2) true false (Egress.RdmaMd 7 1024 0x1000) (Egress.UdpMd 0 0 0 0 0)
    (e0 first_result.2) (e1 first_result.2).


(** Two workers, in slot [i] of a message; worker [w] uses queue pair [512 * w + 1]. *)
Definition psn_md (w i : Z) (t : PacketType) (first last seen before : bool) : Pipe.switchml_md :=
  Pipe.Md 0x1234 w (2 * i) 2 IBV_MTU_256 ROCEv2 t (8 + 4 * w) false first last seen before.
Definition psn_first (w i : Z) : Egress.pass :=
  Egress.Pass (8 + 4 * w) (Pipe.initial (GetWorkerBitmap.worker_bit w) 0 false) (512 * w + 1)
    (Pipe.Packet (psn_md w i CONSUME0 false false false false) 0 0 0 [λ _, 1; λ _, 1]).
Definition psn_harvest (w i : Z) (first last seen before : bool) : Egress.pass :=
  Egress.Pass 68 (Pipe.initial 0 0 false) (512 * w + 1)
    (Pipe.Packet (psn_md w i HARVEST7 first last seen before) 0 0 0 [λ _, 1]).
Definition psn_run (ps : list Egress.pass) : list (Pipe.exit * option Z) :=
  (λ x : Pipe.packet * Pipe.exit * option Z, (x.1.2, x.2)) <$> Egress.run_passes None ps (λ _, 0xfffffe) Pipe.cleared.

(** Worker 0 sends again while its own contribution is the only one: the number is used,
    and the harvest is dropped. Then worker 1 completes the slot, and worker 0 asks for
    the result; its first answer has the second number. *)
Definition early_passes : list Egress.pass :=
  [psn_first 0 0; psn_first 0 0; psn_harvest 0 0 false true true true;
   psn_first 1 0; psn_harvest 1 0 false true false true;
   psn_first 0 0; psn_harvest 0 0 true false true true].
Lemma early_repeat_numbered : psn_run early_passes =
  [(Pipe.Drop, None); (Pipe.Recirculate 68, Some 0xfffffe); (Pipe.Drop, None);
   (Pipe.Recirculate 68, Some 0xfffffe); (Pipe.Multicast 0x1234, None);
   (Pipe.Recirculate 68, Some 0xffffff); (Pipe.Unicast 8, None)].
Proof. vm_compute. reflexivity. Qed.

(** The packets of one message can be completed by different workers: then the
    numbers of its answers do not follow each other. *)
Lemma message_out_of_sequence :
  snd <$> psn_run [psn_first 0 0; psn_first 1 0; psn_first 1 1; psn_first 0 1; psn_first 0 2; psn_first 1 2] =
    [None; Some 0xfffffe; None; Some 0xfffffe; None; Some 0xffffff].
Proof. vm_compute. reflexivity. Qed.

Lemma answer_psns_witness :
  ∃ p e, Egress.run_passes None early_passes (λ _, 0xfffffe) Pipe.cleared !! 5%nat = Some (p, e, Some 0xffffff).
Proof.
  destruct (Egress.answer_psns None early_passes (λ _, 0xfffffe) Pipe.cleared 5 (psn_first 0 0)
    ltac:(lia) ltac:(reflexivity) ltac:(reflexivity)) as (p & e & number & Ho & Hn & _).
  exists p, e. rewrite Ho. f_equal. f_equal. rewrite Hn; [vm_compute; reflexivity|].
  vm_compute in Ho. injection Ho as _ <- _. split; [by eexists|exact I].
Defined.

(** ** Ordinary traffic *)

Definition sim_front : list Traffic.front_port :=
  [Traffic.FrontPort (3, 0) 8 100 "none"; Traffic.FrontPort (4, 0) 12 100 "none"].
Definition sim_start : M world unit :=
  Job.init "198.19.200.200" "06:00:00:00:00:01" 0xbee0 0xfff0 [] None ;;
  for_each sim_front Traffic.plug ;; for_each [first_worker; other_worker] learn.
(** A question for the switch's address, from a host that is not a worker. *)
Definition sim_question : Traffic.frame :=
  Traffic.Frame "ff:ff:ff:ff:ff:ff" "02:00:00:00:00:99"
    (Traffic.Arp Traffic.REQUEST (Some (Traffic.ArpIpv4 "02:00:00:00:00:99" "198.19.200.9" "" "198.19.200.200"))).

(** A broadcast of the first worker, for someone else. *)
Definition sim_broadcast : Traffic.frame :=
  Traffic.Frame "ff:ff:ff:ff:ff:ff" (mb_mac (cx_member first_worker)) Traffic.Other.

