(* ===== verification/WitnessWire.v ===== *)
(** * Frames at concrete inputs

    The theorems on frames applied to two RoCE workers that the controller has
    let in: each sends one packet, bit by bit, and the sum of both leaves. *)
From stdpp Require Import functions relations.
From S2P Require Import Prelude PyText PyMonad PyNum Bfrt Live World Ports Worker PRE.
From S2P Require Import NonSwitchMLForward GetWorkerBitmap SetDstAddr Packets Wire RDMAReceiver RDMASender.
From S2P Require Import Mirror DropSimulator DebugLog ConvertLog Pipeline Recirculation Aggregation.
From S2P Require Import Aggregated AggregationLive FourPipes Overtaking.
From S2P Require Import Job JobPorts JobWorkers JobInit JobLoad JobSpec CLI Session GRPCServer.
From S2P Require Import Lookup Assembly Receive Egress Traffic Front OnTheWire Sim Witnesses WitnessJob.
From S2P Require Import WitnessSwitch.
Import Pipe Front OnTheWire.

(** ** Frames *)

Definition wire_d0 (r : Z) : list Z := replicate 32 (10 + r).
Definition wire_d1 (r : Z) : list Z := replicate 32 (20 + r).
(** A write-only packet of the worker of rank [r] on its queue pair 1, with
    memory key 0. *)
Definition wire_headers (r : Z) : headers :=
  Headers [0x060000000001; 0x02000000000a; 0x0800] None None
    (Some [4; 5; 2; 316; 0; 2; 0; 64; 17; 0; 0x0a000001; 0xc613c8c8]) None (Some [0x1234; 4791; 296; 0])
    (RocePacket [0x2a; 0; 1; 0; 0; 0xffff; 0; 0; 0; (0x80 + r) * 2 ^ 16 + 1; 0; 0; 7]
      (Some [0x1000; 0; 1024]) None (Some (wire_d0 r)) (Some (wire_d1 r)))
    (msb 32 0xdeadbeef).
Definition wire_bits (r : Z) : list bool := deparse (wire_headers r).

Lemma wire_parsed r : r = 0 ∨ r = 1 → parse_ethernet (wire_bits r) = Some (wire_headers r).
Proof. intros [->| ->]; vm_compute; reflexivity. Defined.

Lemma parse_deparse_witness : deparse (wire_headers 1) = wire_bits 1.
Proof. apply parse_deparse, wire_parsed. by right. Defined.

(** The first match among the entries of an evaluated table. *)
Definition first_of (l : list ((string * key) * datum)) : Egress.lookup_table := λ t fs,
  snd <$> head (filter (λ e, e.1.1 = t ∧ key_matches fs e.1.2 = true) l).
Lemma first_of_resolves V l : map_to_list V = l → Egress.resolves V (first_of l).
Proof. intros <-. apply Egress.first_match_resolves. Defined.

Definition wire_entries := Eval vm_compute in map_to_list (wview sim_deployed).
Lemma wire_entries_eq : map_to_list (wview sim_deployed) = wire_entries.
Proof. vm_compute. reflexivity. Qed.
Definition wire_look : Egress.lookup_table := first_of wire_entries.
Definition wire_look_resolves := first_of_resolves _ _ wire_entries_eq.
Abbreviation wire_receive := (Front.receive 0 "" wire_look).

(** Registers and counters after they have been cleared. *)
Definition fresh : rdma := Rdma (λ _, Receive.ReceiverData 0 0) (λ _, 0) (λ _, 0) (λ _, 0).
Lemma frames_received_witness :
  wire_receive 8 (wire_headers 1) 0 fresh =
  member_verdict sim_ready 0 (wire_headers 1) [0x2a; 0; 1; 0; 0; 0xffff; 0; 0; 0; 0x810001; 0; 0; 7]
    (Some [0x1000; 0; 1024]) None (Some (wire_d0 1)) (Some (wire_d1 1)) 0 (cx_member other_worker)
    IBV_MTU_256 "Ingress.rdma_receiver.only_packet" true true fresh.
Proof.
  destruct (frames_received sim_ready ∅ sim_pair sim_deployed background_empty sim_deployed_implements 0 "" wire_look
    wire_look_resolves 8 (wire_bits 1) 0 fresh) as [Houtside _].
  destruct (Houtside eq_refl (wire_headers 1) (wire_parsed 1 ltac:(by right))) as (_ & Hin & _).
  apply Hin; [reflexivity|]. split.
  - right. by left.
  - by exists 77, 1, 1024, [(17, 0); (18, 0)].
  - repeat split; vm_compute; reflexivity.
  - computed.
  - reflexivity.
Defined.

(** The same frame at port 64 is dropped: no state of the parser takes it. Bits with the
    bridged header of a harvest packet are that packet. *)
Lemma frame_inside_dropped :
  recirculates 64 = true ∧
  (ingress_pass 0 "" wire_look None 64 0 0 0 (wire_bits 1) fresh cleared).2 = Dropped.
Proof. vm_compute. by split. Qed.
Definition harvest_bits : list bool :=
  emit switchml_md_h [0x1234; 1; 0; 6; 0; 0; 2; 1; 2; 15; 0; 0; 12; 1; 0; 0; 0; 0; 1; 1; 0; 1; 0; 1] ++
  emit switchml_rdma_md_h [7; 256; 0x1000] ++ emit switchml_exponents_md_h [3; 4] ++ emit data_h (wire_d1 1).
Lemma harvest_reenters :
  (λ p, (md p, e0 p, e1 p, tag p, (λ b : block, b 5) <$> blocks p)) <$> reenters harvest_bits =
    Some (Md 0x1234 1 6 2 IBV_MTU_256 ROCEv2 HARVEST7 12 true false true false true, 3, 4, 0x1000,
          [nth 5 (wire_d1 1) 0]).
Proof. vm_compute. reflexivity. Qed.

(** A UDP packet of 256 bytes is numbered like a RoCE packet, which makes the header with
    the number valid: the deparser writes it in front of the UDP header, where the next
    pass does not expect it, and the tensor index is read from the wrong bits. *)
Definition udp_harvest_bits (numbered : bool) : list bool :=
  emit switchml_md_h [0x1234; 1; 0; 6; 0; 0; 2; 1; 1; 15; 0; 0; 12; 1; 0; 0; 0; 0; 1; 1; 0; 1; 0; 1] ++
  (if numbered then emit switchml_rdma_md_h [5; 0; 0] else []) ++
  emit switchml_udp_md_h [0xbee0; 0xbee1; 77; 0; 0; 0; 0] ++ emit switchml_exponents_md_h [3; 4] ++
  emit data_h (wire_d1 1).
Lemma udp_harvest_misread :
  Egress.numbered (Md 0x1234 1 6 2 IBV_MTU_256 SWITCHML_UDP HARVEST7 12 true false true false true) = true ∧
  tag <$> reenters (udp_harvest_bits false) = Some 77 ∧
  tag <$> reenters (udp_harvest_bits true) = Some 0.
Proof. vm_compute. done. Qed.

(** The counters of a message whose third packet comes twice. *)
Lemma message_counted_witness :
  rdma_sequence_violation_counter (pass_message 513 0xfffffe 6 [0xffffff; 0; 0; 1] fresh) 513 = 2.
Proof.
  apply (cn_violations _ _ _ _ _ _ (message_counted 513 0xfffffe 6 [0xffffff; 0; 0; 1]
    fresh ltac:(by intros i) ltac:(lia)
    ltac:(lia) ltac:(by simpl))).
Defined.

(** ** A run *)

(** The job of the two workers, as the frames have it. *)
Definition wire_job : job :=
  Receive.pipeline_job 0x1234 sim_pair 0 true (λ r, 8 + 4 * r) (λ _ _, 0) (λ _ _, 0)
    (λ r _, block_of (if decide (r = 0 ∨ r = 1) then wire_d0 r else []))
    (λ r _, block_of (if decide (r = 0 ∨ r = 1) then wire_d1 r else [])).

Lemma sim_uniform m : m ∈ sim_pair → Receive.uniform sim_pair m.
Proof.
  intros [->|[->|[]%not_elem_of_nil]%elem_of_cons]%elem_of_cons; split; [computed|computed|by eexists _, _, _|computed|computed|by eexists _, _, _].
Defined.

Lemma block_range l n : Forall (λ v, 0 ≤ v < 2 ^ 32) l → 0 ≤ block_of l n < 2 ^ 32.
Proof.
  intros Hl. unfold block_of. destruct (nth_in_or_default (Z.to_nat n) l 0) as [Hn| ->]; [|by split].
  rewrite Forall_forall in Hl. by apply Hl, list_elem_of_In.
Defined.

Lemma wire_job_ok : job_ok wire_job.
Proof.
  apply (Receive.deployed_ok sim_ready ∅ sim_pair sim_deployed sim_deployed_implements); [done|exact sim_uniform|done|].
  intros r p n. split; apply block_range; case_decide as Hr; try apply Forall_nil_2;
    apply Forall_replicate; destruct Hr as [->| ->]; by split.
Defined.

(** The frames of both workers, and the packet that has completed the slot on
    its way back. *)
Abbreviation wire_frame_in r := (frame_in 0 "" wire_look wire_job None (8 + 4 * r) 0 0 0 (wire_bits r)).
Definition wire_start : rdma * net :=
  (fresh, net_init).
Definition wire_run : rdma * net := come_round None (wire_frame_in 1 (wire_frame_in 0 wire_start)).

Lemma wire_received r st :
  r = 0 ∨ r = 1 →
  (wire_receive (8 + 4 * r) (wire_headers r) 0 st).2 = Consume (contribution wire_job r 0) (worker_bit r) false false.
Proof. intros [->| ->]; vm_compute; reflexivity. Qed.

(** The two frames are honest while their worker has not been heard. *)
Lemma wire_honest r st s :
  r = 0 ∨ r = 1 → nt_at s r = -1 → honest sim_pair 0 "" wire_look wire_job st s (8 + 4 * r) 0 (wire_bits r).
Proof.
  intros Hr Hat h m st' pk bitmap copy Hp Hm (bth & reth & imm & d0 & d1 & Ha & _ & Hq) Hv _.
  rewrite wire_parsed in Hp by done. injection Hp as <-. injection Ha as <- <- <- <- <-.
  assert (Hrank : mb_rank m = r).
  { destruct Hr as [->| ->]; change (bth_dst_qp _ .>> 16) with 0x80 in Hq
      || change (bth_dst_qp _ .>> 16) with 0x81 in Hq; lia. }
  rewrite Hrank. split; [done|]. exists 0. split; [split; [lia|]; right; rewrite Hat; split; [done|by left]|].
  pose proof (wire_received r st Hr) as Hw. rewrite Hv in Hw. simpl in Hw. injection Hw as -> _ _.
  split; try split; reflexivity.
Defined.

Lemma wire_run_reachable : wire_reachable sim_pair 0 "" wire_look wire_job None wire_run.2.
Proof.
  exists wire_start.1, wire_run.1. rewrite <- !surjective_pairing. unfold wire_run.
  apply (rtc_l _ _ (wire_frame_in 0 wire_start));
    [apply frame_in_step; [vm_compute; reflexivity..|]; apply wire_honest; [by left|reflexivity]|].
  apply (rtc_l _ _ (wire_frame_in 1 (wire_frame_in 0 wire_start)));
    [apply frame_in_step; [vm_compute; reflexivity..|]; apply wire_honest; [by right|vm_compute; reflexivity]|].
  apply come_round_steps.
Defined.

(** What leaves: the sum of both, to the group. *)
Definition wire_result : exit * packet := nth 0 (nt_out wire_run.2) (Drop, contribution wire_job 0 0).
Definition sums_of (pk : packet) : option (Z * Z) :=
  match blocks pk with [b0; b1] => Some (b0 5, b1 5) | _ => None end.
Lemma wire_result_sum : (wire_result.1, sums_of wire_result.2) = (Multicast 0x1234, Some (21, 41)).
Proof. vm_compute. reflexivity. Qed.
Lemma wire_result_left : wire_result ∈ nt_out wire_run.2.
Proof. apply list_elem_of_In, nth_In. vm_compute. lia. Defined.

Definition wire_answer : Egress.egress_md :=
  Egress.EgressMd (md wire_result.2) true false (Egress.RdmaMd 7 1024 0x1000) (Egress.UdpMd 0 0 0 0 0)
    (e0 wire_result.2) (e1 wire_result.2).

