(* ===== verification/WitnessLarge.v ===== *)
(** * Large frames at concrete inputs

    The theorem on frames of 1024 bytes applied to two RoCE workers that have
    announced this size: each sends one packet, and the sum of both leaves. *)
From stdpp Require Import functions relations.
From S2P Require Import Prelude PyText PyMonad PyNum Bfrt Live World Ports Worker PRE.
From S2P Require Import NonSwitchMLForward GetWorkerBitmap SetDstAddr Packets Wire RDMAReceiver RDMASender.
From S2P Require Import Mirror DropSimulator DebugLog ConvertLog Pipeline Recirculation Aggregation.
From S2P Require Import Aggregated AggregationLive FourPipes Overtaking.
From S2P Require Import Job JobPorts JobWorkers JobInit JobLoad JobSpec CLI Session GRPCServer.
From S2P Require Import Lookup Assembly Receive Egress Traffic Front OnTheWire LargeWire Sim Witnesses WitnessJob.
From S2P Require Import WitnessSwitch WitnessWire.
Import Pipe FourPipes Front OnTheWire LargeWire.

(** ** The job *)

Definition large_member (m : member) : member :=
  Member (mb_rank m) (mb_count m) (mb_mac m) (mb_ip m) (mb_port m) (mb_dev m)
    (RoceMember 77 (packet_size_value IBV_MTU_1024) 1024 [(17, 0); (18, 0)]).
Definition large_first : member := large_member (cx_member first_worker).
Definition large_second : member := large_member (cx_member other_worker).
Definition large_pair : list member := [large_first; large_second].
Definition large_joined : world := (run_op (Join large_first) sim_ready).2.
Definition large_deployed : world := (run_op (Join large_second) large_joined).2.

Lemma large_member_fits m : m ∈ large_pair → JobSpec.fits sim_ready m.
Proof. intros [->|[->|[]%not_elem_of_nil]%elem_of_cons]%elem_of_cons; split; computed. Defined.

Lemma large_joined_implements : implements sim_ready ∅ [large_first] large_joined.
Proof.
  eapply (proj2 (ends_run _ _ _ _ (step_simulates sim_ready ∅ background_empty ltac:(computed)
    ltac:(computed) ltac:(computed) [] (Join large_first) _ _
    (step_join _ _ [] _ _ _) eq_refl sim_implements))).
  Unshelve.
  - computed.
  - split; [by apply large_member_fits; left| | | | |intros t Ht; each_table Ht]; computed.
Defined.
Lemma large_deployed_implements : implements sim_ready ∅ large_pair large_deployed.
Proof.
  eapply (proj2 (ends_run _ _ _ _ (step_simulates sim_ready ∅ background_empty ltac:(computed)
    ltac:(computed) ltac:(computed) [large_first] (Join large_second) _ _
    (step_join _ _ [large_first] _ _ _) eq_refl large_joined_implements))).
  Unshelve.
  - computed.
  - split; [by apply large_member_fits; right; left| | | | |intros t Ht; each_table Ht]; computed.
Defined.

(** The words of block [i] of the worker of rank [r]. *)
Definition large_words (r : Z) (i : nat) : list Z := replicate 32 (10 * (Z.of_nat i + 1) + r).
Definition large_job : large :=
  Large [0; 1] 0x1234 ROCEv2 0 true (λ r, 8 + 4 * r) (λ _ _, 0) (λ _ _, 0)
    (λ r _ i, block_of (if decide ((r = 0 ∨ r = 1) ∧ (i < 8)%nat) then large_words r i else [])).

Lemma large_uniform m : m ∈ large_pair → Receive.uniform_of IBV_MTU_1024 large_pair m.
Proof.
  intros [->|[->|[]%not_elem_of_nil]%elem_of_cons]%elem_of_cons;
    split; [computed|computed|by eexists _, _, _|computed|computed|by eexists _, _, _].
Defined.
Lemma large_same_job : Egress.same_job (w_job sim_ready) large_pair (share large_job 0).
Proof.
  split; [reflexivity..|]. by intros m [->|[->|[]%not_elem_of_nil]%elem_of_cons]%elem_of_cons.
Defined.
Lemma large_job_ok : large_ok large_job None.
Proof.
  assert (Hr : ∀ r, r ∈ lg_ranks large_job → r = 0 ∨ r = 1).
  { intros r [->|[->|[]%not_elem_of_nil]%elem_of_cons]%elem_of_cons; [by left|by right]. }
  split; try done.
  - apply (bool_decide_unpack _). vm_compute. exact I.
  - intros r [->| ->]%Hr; lia.
  - intros r p i n _. apply block_range. case_decide as Hd; [|apply Forall_nil_2].
    apply Forall_replicate. destruct Hd as [[->| ->] Hi]; lia.
  - by intros r [->| ->]%Hr.
Defined.

(** ** The frames *)

Definition large_headers (r : Z) : headers :=
  Headers [0x060000000001; 0x02000000000a; 0x0800] None None
    (Some [4; 5; 2; 1084; 0; 2; 0; 64; 17; 0; 0x0a000001; 0xc613c8c8]) None (Some [0x1234; 4791; 1064; 0])
    (RocePacket [0x2a; 0; 1; 0; 0; 0xffff; 0; 0; 0; (0x80 + r) * 2 ^ 16 + 1; 0; 0; 7]
      (Some [0x1000; 0; 1024]) None (Some (large_words r 0)) (Some (large_words r 1)))
    (concat ((λ i, emit data_h (large_words r i)) <$> seq 2 6) ++ msb 32 0xdeadbeef).
Definition large_bits (r : Z) : list bool := deparse (large_headers r).
Lemma large_parsed r : r = 0 ∨ r = 1 → parse_ethernet (large_bits r) = Some (large_headers r).
Proof. intros [->| ->]; vm_compute; reflexivity. Defined.

Definition large_entries := Eval vm_compute in map_to_list (wview large_deployed).
Lemma large_entries_eq : map_to_list (wview large_deployed) = large_entries.
Proof. vm_compute. reflexivity. Qed.
Definition large_look : Egress.lookup_table := first_of large_entries.
Abbreviation large_receive := (Front.receive 0 "" large_look).

Lemma large_received r st :
  r = 0 ∨ r = 1 →
  (large_receive (8 + 4 * r) (large_headers r) 0 st).2 =
    Consume (large_contribution large_job r 0) (worker_bit r) false false.
Proof. intros [->| ->]; vm_compute; reflexivity. Qed.

Lemma large_frame_honest r st s :
  r = 0 ∨ r = 1 → ln_at s r = -1 →
  large_honest large_pair 0 "" large_look large_job st s (8 + 4 * r) 0 (large_bits r).
Proof.
  intros Hr Hat h m st' pk bitmap copy Hp Hm (bth & reth & imm & d0 & d1 & Ha & _ & Hq) Hv _.
  rewrite large_parsed in Hp by done. injection Hp as <-. injection Ha as <- <- <- <- <-.
  assert (Hrank : mb_rank m = r).
  { destruct Hr as [->| ->]; change (bth_dst_qp _ .>> 16) with 0x80 in Hq
      || change (bth_dst_qp _ .>> 16) with 0x81 in Hq; lia. }
  rewrite Hrank. split; [done|]. exists 0. split; [split; [lia|]; right; rewrite Hat; split; [done|by left]|].
  pose proof (large_received r (st (pipe_of (8 + 4 * r))) Hr) as Hw. rewrite Hv in Hw. simpl in Hw. injection Hw as -> _ _.
  split; try split; reflexivity.
Defined.

(** ** The run *)

Abbreviation large_frame_of r := (large_frame_in 0 "" large_look large_job None (8 + 4 * r) 0 0 0 (large_bits r)).
Definition large_start : (Z → rdma) * large_net := (λ _, fresh, large_init).
Definition large_frames : (Z → rdma) * large_net := large_frame_of 1 (large_frame_of 0 large_start).

Lemma large_frames_reachable :
  large_wire_reachable large_pair 0 "" large_look large_job None large_frames.2.
Proof.
  exists large_start.1, large_frames.1. rewrite <- !surjective_pairing. unfold large_frames.
  apply (rtc_l _ _ (large_frame_of 0 large_start));
    [apply large_frame_in_step; [vm_compute; reflexivity|]; apply large_frame_honest; [by left|reflexivity]|].
  apply rtc_once, large_frame_in_step; [vm_compute; reflexivity|].
  apply large_frame_honest; [by right|vm_compute; reflexivity].
Defined.

(** What leaves: the sums of both in all eight blocks, to the group. *)
Definition large_sum : exit * packet :=
  nth 0 (ln_out large_frames.2) (Drop, large_contribution large_job 0 0).
Lemma large_sum_words :
  (large_sum.1, (λ b : block, b 5) <$> blocks large_sum.2) =
    (Multicast 0x1234, [21; 41; 61; 81; 101; 121; 141; 161]).
Proof. vm_compute. reflexivity. Qed.
Lemma large_sum_left : large_sum ∈ ln_out large_frames.2.
Proof. apply list_elem_of_In, nth_In. vm_compute. lia. Defined.

Definition large_answer_md : Egress.egress_md :=
  Egress.EgressMd (md large_sum.2) true false (Egress.RdmaMd 7 1024 0x1000) (Egress.UdpMd 0 0 0 0 0)
    (e0 large_sum.2) (e1 large_sum.2).

Lemma wire_to_wire_large_witness :
  large_delivered large_pair large_deployed large_look large_job (Egress.SwitchAddress mac1 "198.19.200.200")
    (Egress.SwitchAddress mac1 "198.19.200.200") (Egress.SenderLocals None None) large_sum large_answer_md.
Proof.
  apply (wire_to_wire_large sim_ready ∅ large_pair large_deployed background_empty large_deployed_implements 0 ""
    large_look (first_of_resolves _ _ large_entries_eq) large_job None large_same_job large_uniform large_job_ok
    _ _ _ large_frames.2).
  - intros m [->|[->|[]%not_elem_of_nil]%elem_of_cons]%elem_of_cons; split; computed.
  - computed.
  - exact large_frames_reachable.
  - exact large_sum_left.
  - vm_compute. reflexivity.
  - by split_and!.
  - reflexivity.
Defined.
