(* ===== verification/WitnessLog.v ===== *)
(** * The packet log at concrete inputs

    The theorem on the log applied to a switch that has logged three packets of
    a slot in the ingress of pipe 0, where the log goes round after the first,
    and a lost answer in the egress of pipe 1. *)
From S2P Require Import Prelude PyMonad Bfrt Live World Worker DebugLog ConvertLog Pipeline PacketLog.
From S2P Require Import Sim Witnesses.
Import Pipe PacketLog.

Definition log_packet (r : Z) : packet :=
  Packet (Md 0x1234 r 6 2 IBV_MTU_256 ROCEv2 CONSUME0 0 true false false false false) 1 1 0 [λ _, 1; λ _, 2].
Definition log_passes : list logged :=
  omap (λ r, ingress_log 0 (Trace (0x800 + r) true (Some 0x1000)) 8 (initial (1 .<< r) 0 false) cleared
               (log_packet r)) [0; 1; 2].
Definition lost_answers : list logged :=
  omap (λ r, egress_log 0 (Trace 5 true (Some 0x1000)) true r 132
               (set_packet_type BROADCAST (md (log_packet 1)))) [0].
Definition ingress_logs (pipe : Z) : list logged := if bool_decide (pipe = 0) then log_passes else [].
Definition egress_logs (pipe : Z) : list logged := if bool_decide (pipe = 1) then lost_answers else [].
Definition log_starts (pipe : Z) : Z := if bool_decide (pipe = 0) then 22527 else 0.

(** A driver that answers with the registers. *)
Definition log_call (c : bfcall) (s : unit) : bfresp * unit :=
  (match c with
   | EntryGet t _ _ =>
       if String.eqb t DebugLog.log
       then RRows (register_row "Ingress" (log_registers log_starts ingress_logs) <$> range 0 log_size)
       else RRows (register_row "Egress" (log_registers log_starts egress_logs) <$> range 0 log_size)
   | _ => RDone
   end, s).
Definition log_bfrt : Bfrt := {| sw := unit; bf_call := log_call; bf_size := λ _, 0 |}.

Definition log_world : @world log_bfrt :=
  @World log_bfrt tt [] [] (w_ports sim0) (w_pre sim0) (w_fwd sim0) (w_rx sim0) (w_mirror sim0) (w_arp sim0)
    (w_setdst sim0) (w_sender sim0) (w_job sim0) (w_drop sim0).

Lemma log_starts_ok pipe : 0 ≤ log_starts pipe < log_size.
Proof. unfold log_starts. by case_bool_decide. Qed.
Lemma ingress_logs_ok : log_ok log_starts ingress_logs.
Proof.
  split; [exact log_starts_ok|]. intros pipe x. unfold ingress_logs. case_bool_decide; [|by intros ?%not_elem_of_nil].
  intros (r & _ & Hx)%list_elem_of_omap. by eapply ingress_logged.
Qed.
Lemma egress_logs_ok : log_ok log_starts egress_logs.
Proof.
  split; [exact log_starts_ok|]. intros pipe x. unfold egress_logs. case_bool_decide; [|by intros ?%not_elem_of_nil].
  intros (r & _ & Hx)%list_elem_of_omap. by eapply egress_logged.
Qed.

(** The second of the packets, from the entry that is parsed. *)
Lemma pass_replayed_witness :
  ∃ x e r1 m d0 d1 rest,
    ingress_log 0 (Trace 0x801 true (Some 0x1000)) 8 (initial 2 0 false) cleared (log_packet 1) = Some x ∧
    parse_log_entry 0 0 (word (pair_of x)) tt = (Ok e, tt) ∧
    Ingress None 8 (initial 2 0 false) cleared (log_packet 1) =
      aggregate None 8 r1 (replay_md (unlogged_of m) e) (replay e)
        (Packet (replay_md (unlogged_of m) e) 1 1 0 [λ _, 1; λ _, 2]) d0 d1 rest.
Proof.
  pose proof (pass_replayed None 8 (initial 2 0 false) cleared (log_packet 1) 0 (Trace 0x801 true (Some 0x1000)) 0 0
    ltac:(by split) ltac:(by split)) as H.
  destruct (parse _ _) as [[d0 d1] rest]. destruct (before_log _ _ _ _) as [[r1 m] l].
  destruct (ingress_log _ _ _ _ _ _) as [x|] eqn:E; [|vm_compute in E; discriminate].
  destruct H as (e & He & Hi). exists x, e, r1, m, d0, d1, rest.
  split; [reflexivity|]. split; [apply He|]. exact (Hi _ eq_refl).
Defined.

(** The rows: the packets in the order in which they came, of the workers 0, 1
    and 2, and the answer that was lost. *)
Definition log_table : list ConvertLog.packet := table log_starts ingress_logs ++ table log_starts egress_logs.
Lemma log_table_rows :
  (λ p, (ConvertLog.capture_index p, ConvertLog.worker_id p, ConvertLog.packet_type p)) <$> log_table =
  [(22527, 0, CONSUME0); (0, 1, CONSUME0); (1, 2, CONSUME0); (0, 1, IGNORE)].
Proof. vm_compute. reflexivity. Qed.

Lemma log_read_back_witness :
  ∃ ingress egress w', @DebugLog.get_log log_bfrt log_world = (Ok (ingress, egress), w') ∧
    ∀ ingress_items egress_items (S : Type) (s : S), in_file ingress ingress_items → in_file egress egress_items →
      ConvertLog.convert ingress_items egress_items s = (Ok log_table, s).
Proof.
  apply (@log_read_back log_bfrt log_world log_starts ingress_logs log_starts egress_logs).
  - exact ingress_logs_ok.
  - exact egress_logs_ok.
  - eexists. split; reflexivity.
  - eexists. split; reflexivity.
Defined.
